(* ===== verification/_CoqProject ===== *)
-Q . S2P
Prelude.v
PyText.v
PyPath.v
PyRegex.v
FlprStatus.v
ProjectVersion.v
Json.v
HilProtocol.v
HilRows.v
SerialIo.v
HilReceiver.v
HilReceiverVerdict.v
HilSourceClient.v
CaptureSignal.v
HilModel.v
HciTrace.v
HilDiscovery.v
HilLifecycle.v
HilSession.v
HilCapture.v
HilRunnerSteps.v
HilRunnerCapture.v
HilEvidence.v
HilRunner.v
HilMatrix.v
GuestOwners.v
HciPacket.v
HciConnect.v
BapEndpoint.v
BapStream.v
