(* ===== verification/Prelude.v ===== *)
(** * Verification of the host tooling of the LE Audio receiver

    The repository holds the firmware of a Bluetooth LE Audio receiver and the
    Python programs under [scripts/] that test it on real hardware: the
    hardware-in-the-loop (HIL) runner of [scripts/hil/], the raw HCI and BlueZ
    clients that play the audio source, the gates for the audio coprocessor and
    the release tools.  These programs decide whether a firmware passes; the
    development states what their verdicts mean and proves it of definitions
    translated from their source.

    ** The parts and their files

    Language and libraries:
    - [Prelude]: Python calls as [result], methods of an object as state
      transformers that keep their assignments when they raise ([method]),
      insertion-ordered dictionaries, relation-preservation lemmas ([keeps]),
      counting, sorting, shared tactics and hint databases;
    - [PyText]: [str] as UTF-8 bytes, character classes, [int] with its digit
      limit, strict UTF-8 decoding and how it fails;
    - [PyPath]: [normpath], [dirname], [basename] and [join] of POSIX paths;
    - [PyRegex]: a backtracking matcher, its declarative meaning and their
      equivalence, [finditer] and [sub] with an empty replacement;
    - [Json]: CPython's JSON scanner and printer with their round trip.

    The HIL runner, from the console upwards:
    - [SerialIo] (hil/serial_io.py): one console, its reader thread and owner;
    - [HilReceiver], [HilReceiverVerdict] (hil/receiver.py): the parsers and
      scanners of the receiver console, and the verdicts over what they read;
    - [HciTrace] (hil/receiver.py): the two traces of the LE Remove ISO Data
      Path call, their markers and what makes a trace valid;
    - [HilProtocol] (hil/protocol.py): the records of the source firmware and
      the tracker of one run;
    - [HilRows] (hil/rows.py): the frozen rows and the two-pass schedule;
    - [HilSourceClient] (hil/source_client.py): the client that drives one run
      over a console and the tracker;
    - [CaptureSignal] (hil/source_contract.py, hil/capture_signal.py): the
      signal the capture analyzer rebuilds, against the generator of the
      source firmware;
    - [HilModel] (hil/model.py): fixture and binding documents;
    - [HilDiscovery] (hil/discovery.py): which board and which tty plays which
      role, from the probe table, fingerprints, udev properties and sysfs;
    - [HilSession] (hil/session.py): the immutable manifest of a fixture
      session, its creation, loading and revalidation;
    - [HilCapture] (hil/capture.py): the [arecord] process of one row, its
      start, bounded stop and the promotion of its recording;
    - [HilEvidence] (hil/evidence.py): the finalization transaction of one run;
    - [HilLifecycle] (hil/lifecycle.py): cleanup stacks, the fixture lock,
      output and run directories;
    - [HilRunnerSteps], [HilRunnerCapture], [HilRunner] (hil/runner.py): the
      run of one row: its steps up to clean boards, the streaming of its
      segments and the collection of their evidence, and [run] itself;
    - [HilMatrix] (hil/matrix.py): the coordinator that runs the schedule and
      aggregates its outcome.
    The calls go downwards: the matrix invokes one row run per schedule entry
    and reads the evidence the finalization wrote; a row run loads the session
    and revalidates it, holds the fixture lock, owns the consoles, records the
    sound card, drives the source client and registers its undo actions on a
    cleanup stack.  The run uses the definitions of the parts it calls where
    it looks into their results (the parsers and verdicts of the receiver
    console, the failure lines of discovery, the rows, the evidence
    transaction, the cleanup stack); where one part only receives another's
    answer (the client and the recorder for the row runner, the row runner for
    the matrix, discovery for the session), the answer is an input of the model and
    every answer is covered.

    The audio-source clients:
    - [HciPacket], [HciConnect] (hci_raw_connect.py): packets, the connection
      state machine and the retrying main program;
    - [BapEndpoint], [BapStream] (bap_central_endpoint, _policy, _writer,
      _session, _device): the BlueZ endpoint, acquisition and release of
      transports, the paced writer and its session;
    - [GuestOwners] (bluez_guest_acquire.py, bluez_guest_limits.py): descriptor
      ownership and bounded evidence in the BlueZ guest.

    Status and version readers:
    - [FlprStatus] (flpr_status.py), [ProjectVersion] (project-version.py).

    ** How state and operations correspond

    An object is a record of its attributes, a method a [method] over it with
    the statements in source order; a raised exception is a constructor of the
    component's error type, and the state reached before it is kept.  Names are
    those of the source.  Concurrency is explicit: [HilLifecycle] interleaves
    the system calls of several processes, [SerialIo] the steps of two threads,
    [GuestOwners] the calls on a locked object, [BapEndpoint] aliased lists in
    a heap.  What the world answers (clock readings, console lines, [select],
    file operations that may raise before or after their effect, a user's
    cancellation) is a stream or a list of inputs.  In [HilDiscovery],
    [HilSession], [HilCapture] and the row runner the world is a record of
    functions of a turn number that every call advances, so that two equal
    calls may be answered differently; what was done to the outside is a log
    in the state.

    ** What the theorems show

    - A pass is earned from end to end ([HilRunner]): a row that answers passed
      has flashed both boards without a failure line, seen every boot marker,
      collected the evidence of every segment, been accepted by the verdicts
      and scanned its logs; what is published last is the answer; the first
      failure names the run; only two kinds of exception leave it; and every
      registered action is undone in reverse, the fixture lock last.
    - The right boards: a resolution rests on two serials, one table row, one
      agreeing fingerprint and one correlated tty each, on distinct USB
      devices, and keeps the output of every command when it fails
      ([HilDiscovery]); a session is created exclusively, only
      after its manifest was parsed; it gives back what was recorded, and its
      revalidation returns only when nothing has drifted ([HilSession]).
    - A recording is promoted only when its own process ended as asked and its
      outputs were clean, as the last thing done; every call keeps to the
      contract of phases, and aborting is bounded ([HilCapture]).
    - A verdict is earned: a passed run went through the whole lifecycle in
      order ([HilProtocol]), [start] returns only after it ([HilSourceClient]),
      a matrix passes exactly when every scheduled child does, stops at the
      first failure, and its JUnit tree counts what happened ([HilMatrix]);
      exit status 0 of the HCI helper means an established link ([HciConnect]).
    - Healthy means healthy: a receiver snapshot is accepted exactly when every
      counter is zero and every state the named one, and then the console did
      print each of those lines; the floating-point ratio limits are the exact
      fractions; only documented warnings inside a recorded recovery window are
      exempt ([HilReceiver], [HilReceiverVerdict]).  A trace files exactly the
      well-formed marker lines, and an accepted one is that of complete calls,
      stage by stage and in order ([HciTrace]); a passed run that asked for a
      trace has such a trace in its log.
    - Evidence is kept: the finalization either publishes everything or
      restores the directory ([HilEvidence]); after a mark, the lines read from
      a console are exactly the framing of the retained bytes that arrived
      after it ([SerialIo]).
    - Ownership: mutual exclusion and release of the fixture lock, cleanup
      actions run once and in reverse ([HilLifecycle]); every descriptor is
      closed exactly once or handed over ([BapEndpoint], [GuestOwners],
      [BapStream]); no read on a closed console, [open] all or nothing
      ([SerialIo]).
    - Parsers accept exactly the documented language and report every other
      input as the documented error; printers and parsers are inverse.
    - The analyzer's signal is the firmware's, bit for bit, before the
      floating-point products ([CaptureSignal]).
    - Bounds and termination: counters, quotas, digit limits, generated
      identifiers, and the loops that do end; the loops whose deadline is not
      looked at are findings, each with a theorem.

    ** Fuel and bounds

    Loops over inputs are structural on the list of inputs, or take fuel that
    each round pays with an input ([HilSourceClient], [SerialIo.Client],
    [HciConnect]); running out is a value of its own ([OutOfFuel],
    [OutOfTurns], [Running]) and never a result of the code.  Loops over text
    take the length of the text, which each round shortens ([PyRegex],
    [Json], [SerialIo]); lemmas show that more fuel changes nothing.

    ** Not modelled, and why

    Floating point (the NumPy capture oracle, LC3 calibration, sine tables) has
    no faithful counterpart here: its results are arguments where the models
    need them.  Process, D-Bus, virtual-machine and compiler plumbing, argument
    parsing and the tests are left out.  The default command runner of
    hil/runner.py with its child processes, the release qualification, the artifact archives and the
    ASCS, BSim and BlueZ result checkers are not modelled; the manifest lists
    each part with its reason.
    A validator's message is its fixed text with the values its format shows.  A byte above 127 belongs to no
    character class, and the classes are ASCII; Python's recursion limit is not
    modelled. *)

From Stdlib Require Export ZArith Lia Ascii String.
From stdpp Require Export base tactics list strings gmap sorting.

#[global] Open Scope string_scope.
#[global] Open Scope list_scope.
#[global] Open Scope Z_scope.

(** ** Fallible code: Python calls that return or raise *)

(** [result E A] is the outcome of a Python call: it returned a value of type
    [A], or it raised the exception [E]. *)
Inductive result (E A : Type) : Type :=
| Ok (a : A)
| Err (e : E).
Arguments Ok {E A} a.
Arguments Err {E A} e.

#[global] Instance result_ret {E} : MRet (result E) := fun A a => Ok a.
#[global] Instance result_bind {E} : MBind (result E) := fun A B f m =>
  match m with Ok a => f a | Err e => Err e end.
#[global] Instance result_fmap {E} : FMap (result E) := fun A B f m =>
  match m with Ok a => Ok (f a) | Err e => Err e end.

(** [ensure b e]: the guard [if not b: raise e]. *)
Definition ensure {E} (b : bool) (e : E) : result E unit :=
  if b then Ok tt else Err e.

Definition result_of_option {E A} (e : E) (o : option A) : result E A :=
  match o with Some a => Ok a | None => Err e end.

Fixpoint result_mapM {E A B} (f : A -> result E B) (l : list A) : result E (list B) :=
  match l with
  | [] => Ok []
  | x :: l' => y ← f x; ys ← result_mapM f l'; Ok (y :: ys)
  end.

Definition is_ok {E A} (r : result E A) : bool :=
  match r with Ok _ => true | Err _ => false end.

Section result_lemmas.
Context {E : Type}.

Lemma bind_Ok {A B} (m : result E A) (f : A -> result E B) (b : B) :
  (m ≫= f) = Ok b <-> exists a, m = Ok a /\ f a = Ok b.
Proof. destruct m; simpl; naive_solver. Qed.

Lemma bind_Err {A B} (m : result E A) (f : A -> result E B) (e : E) :
  (m ≫= f) = Err e <-> m = Err e \/ exists a, m = Ok a /\ f a = Err e.
Proof. destruct m; simpl; naive_solver. Qed.

Lemma ensure_Ok (b : bool) (e : E) u : ensure b e = Ok u <-> b = true.
Proof. destruct b, u; naive_solver. Qed.

Lemma ensure_Err (b : bool) (e e' : E) : ensure b e = Err e' <-> b = false /\ e = e'.
Proof. destruct b; naive_solver. Qed.

Lemma result_of_option_Ok {A} (e : E) (o : option A) a :
  result_of_option e o = Ok a <-> o = Some a.
Proof. destruct o; naive_solver. Qed.

Lemma result_mapM_Ok {A B} (f : A -> result E B) l k :
  result_mapM f l = Ok k <-> Forall2 (fun x y => f x = Ok y) l k.
Proof.
  revert k; induction l as [|x l IH]; intros k; simpl.
  - split; [intros [= <-]; constructor | inversion 1; done].
  - rewrite bind_Ok. setoid_rewrite bind_Ok. split.
    + intros (y & Hy & ys & Hys & [= <-]). constructor; [done | by apply IH].
    + inversion 1; subst. eexists; split; [done|]. eexists; split; [by apply IH | done].
Qed.

Lemma Ok_inj {A} (a b : A) : @Ok E A a = Ok b -> a = b.
Proof. by intros [= ->]. Qed.

Lemma is_ok_spec {A} (r : result E A) : is_ok r = true <-> exists a, r = Ok a.
Proof. destruct r; naive_solver. Qed.
End result_lemmas.

Lemma bind_ensure {E A} b (e : E) (k : unit -> result E A) : b = true -> (ensure b e ≫= k) = k tt.
Proof. by intros ->. Qed.

(** [result_inv H] inverts a successful chain of binds and guards. *)
Ltac result_inv H :=
  repeat match type of H with
  | (_ ≫= _) = Ok _ =>
      let a := fresh "a" in let Ha := fresh "H" a in let H2 := fresh "Hrest" in
      apply bind_Ok in H; destruct H as (a & Ha & H2); rename H2 into H; result_inv Ha
  | ensure _ _ = Ok _ => apply ensure_Ok in H
  | result_of_option _ _ = Ok _ => apply result_of_option_Ok in H
  | Ok _ = Ok _ => apply Ok_inj in H
  | Err _ = Ok _ => discriminate H
  end.

(** ** Stateful fallible code *)

(** A method body of an object whose fields are the record [S]: it runs to a
    return value or an exception, and the object is left in the state reached
    at that point (Python does not roll assignments back). *)
Definition method (S E A : Type) : Type := S -> result E A * S.

Section method.
Context {S E : Type}.
#[global] Instance method_ret : MRet (method S E) := fun A a s => (Ok a, s).
#[global] Instance method_bind : MBind (method S E) := fun A B f m s =>
  match m s with
  | (Ok a, s') => f a s'
  | (Err e, s') => (Err e, s')
  end.
Definition self : method S E S := fun s => (Ok s, s).
Definition raise {A} (e : E) : method S E A := fun s => (Err e, s).
Definition assign (f : S -> S) : method S E unit := fun s => (Ok tt, f s).
Definition check (b : bool) (e : E) : method S E unit :=
  fun s => (ensure b e, s).
Definition lift {A} (r : result E A) : method S E A := fun s => (r, s).
(** The outcome of a block, for the handlers around it. *)
Definition tried {A} (m : method S E A) : method S E (result E A) := fun s => let '(r, s') := m s in (Ok r, s').
(** [except <kind> as e: h e]; other exceptions go on. *)
Definition except {A} (kind : E -> bool) (m : method S E A) (h : E -> method S E A) : method S E A :=
  r ← tried m;
  match r with Ok a => mret a | Err e => if kind e then h e else raise e end.
End method.

Section method_lemmas.
Context {S E : Type}.

Lemma run_bind {A B} (m : method S E A) (f : A -> method S E B) s :
  (m ≫= f) s = match m s with (Ok a, s') => f a s' | (Err e, s') => (Err e, s') end.
Proof. done. Qed.

Lemma bind_run_Ok {A B} (m : method S E A) (f : A -> method S E B) b s s' :
  (m ≫= f) s = (Ok b, s') -> exists a s1, m s = (Ok a, s1) /\ f a s1 = (Ok b, s').
Proof. rewrite run_bind. destruct (m s) as [[a|e] s1]; [by eauto | done]. Qed.

Lemma check_run_Ok b (e : E) u (s s' : S) : check b e s = (Ok u, s') -> b = true /\ s' = s.
Proof. unfold check. intros H. injection H as H <-. by apply ensure_Ok in H. Qed.

Lemma raise_run_Ok {A} (e : E) (a : A) (s s' : S) : raise e s <> (Ok a, s').
Proof. done. Qed.
Lemma ret_run_Ok {A} (a b : A) (s s' : S) : (mret a : method S E A) s = (Ok b, s') -> b = a /\ s' = s.
Proof. by intros [= -> ->]. Qed.
Lemma assign_run_Ok f u (s s' : S) : (assign f : method S E unit) s = (Ok u, s') -> s' = f s.
Proof. by intros [= <-]. Qed.
Lemma self_run_Ok (a s s' : S) : (self : method S E S) s = (Ok a, s') -> a = s /\ s' = s.
Proof. by intros [= -> ->]. Qed.
Lemma lift_run_Ok {A} (r : result E A) (a : A) (s s' : S) : lift r s = (Ok a, s') -> r = Ok a /\ s' = s.
Proof. by intros [= -> ->]. Qed.

(** [wp m Q X s]: from [s], [m] returns into [Q] or raises into [X]. *)
Definition wp {A} (m : method S E A) (Q : A -> S -> Prop) (X : E -> S -> Prop) (s : S) : Prop :=
  match m s with (Ok a, s') => Q a s' | (Err e, s') => X e s' end.

Lemma wp_mono {A} (m : method S E A) (Q Q' : A -> S -> Prop) (X X' : E -> S -> Prop) s :
  wp m Q X s -> (forall a s', Q a s' -> Q' a s') -> (forall e s', X e s' -> X' e s') -> wp m Q' X' s.
Proof. unfold wp. destruct (m s) as [[a|e] s']; auto. Qed.
Lemma wp_ret {A} (a : A) Q X s : wp (mret a) Q X s <-> Q a s.
Proof. done. Qed.
Lemma wp_raise {A} e (Q : A -> S -> Prop) X s : wp (raise e) Q X s <-> X e s.
Proof. done. Qed.
Lemma wp_assign f Q X s : wp (assign f) Q X s <-> Q tt (f s).
Proof. done. Qed.
Lemma wp_self Q X s : wp self Q X s <-> Q s s.
Proof. done. Qed.
Lemma wp_check b e Q X s : wp (check b e) Q X s <-> (if b then Q tt s else X e s).
Proof. by destruct b. Qed.
Lemma wp_lift {A} (r : result E A) Q X s : wp (lift r) Q X s <-> match r with Ok a => Q a s | Err e => X e s end.
Proof. by destruct r. Qed.
Lemma wp_bind {A B} (m : method S E A) (f : A -> method S E B) Q X s : wp (m ≫= f) Q X s <-> wp m (fun a s1 => wp (f a) Q X s1) X s.
Proof. unfold wp. change ((m ≫= f) s) with (match m s with (Ok a, s1) => f a s1 | (Err e, s1) => (Err e, s1) end). by destruct (m s) as [[a|e] s1]. Qed.
Lemma wp_Ok {A} (m : method S E A) Q X a s s' : wp m Q X s -> m s = (Ok a, s') -> Q a s'.
Proof. unfold wp. intros H Hm. by rewrite Hm in H. Qed.
Lemma wp_Err {A} (m : method S E A) Q X e s s' : wp m Q X s -> m s = (Err e, s') -> X e s'.
Proof. unfold wp. intros H Hm. by rewrite Hm in H. Qed.

Lemma wp_tried {A} (m : method S E A) Q X s : wp (tried m) Q X s <-> wp m (fun a => Q (Ok a)) (fun e => Q (Err e)) s.
Proof. unfold wp, tried. by destruct (m s) as [[a|e] s']. Qed.
Lemma wp_except {A} k (m : method S E A) h Q X s :
  wp (except k m h) Q X s <-> wp m Q (fun e s' => if k e then wp (h e) Q X s' else X e s') s.
Proof. unfold except. rewrite wp_bind, wp_tried. unfold wp. destruct (m s) as [[a|e] s']; [done|]. by destruct (k e). Qed.
Lemma wp_and {A} (m : method S E A) Q X Q' X' s :
  wp m Q X s -> wp m Q' X' s -> wp m (fun a s => Q a s /\ Q' a s) (fun e s => X e s /\ X' e s) s.
Proof. unfold wp. by destruct (m s) as [[a|e] s']. Qed.
(** A block whose handler does not return [a]. *)
Lemma except_Ok {A} k (m : method S E A) h a s s' :
  (forall e s1, k e = true -> (h e s1).1 <> Ok a) -> except k m h s = (Ok a, s') -> m s = (Ok a, s').
Proof.
  intros Hh H. unfold except in H. rewrite run_bind in H. unfold tried in H. destruct (m s) as [[b|e] s1]; [done|].
  destruct (k e) eqn:Hk; [|done]. exfalso. apply (Hh e s1 Hk). by rewrite H.
Qed.

(** [keeps R m]: however [m] ends, it leaves a state related to the one it
    started in. *)
Definition keeps (R : S -> S -> Prop) {A} (m : method S E A) : Prop := forall s, R s (m s).2.

(** A run that is over left the state it did. *)
Lemma keeps_after {A} (R : S -> S -> Prop) (m : method S E A) r s s' : keeps R m -> m s = (r, s') -> R s s'.
Proof. intros H Hm. specialize (H s). by rewrite Hm in H. Qed.

Section keeps.
Context (R : S -> S -> Prop) `{!PreOrder R}.

Lemma keeps_ret {A} (a : A) : keeps R (mret a).
Proof. intros s. reflexivity. Qed.
Lemma keeps_raise {A} e : keeps R (raise (A := A) e).
Proof. intros s. reflexivity. Qed.
Lemma keeps_self : keeps R self.
Proof. intros s. reflexivity. Qed.
Lemma keeps_check b e : keeps R (check b e).
Proof. intros s. reflexivity. Qed.
Lemma keeps_lift {A} (r : result E A) : keeps R (lift r).
Proof. intros s. reflexivity. Qed.
Lemma keeps_assign f : (forall s, R s (f s)) -> keeps R (assign f).
Proof. intros H s. apply H. Qed.
Lemma keeps_bind {A B} (m : method S E A) (f : A -> method S E B) : keeps R m -> (forall a, keeps R (f a)) -> keeps R (m ≫= f).
Proof.
  intros Hm Hf s. rewrite run_bind. specialize (Hm s). destruct (m s) as [[a|e] s1]; [|done]. etrans; [exact Hm | apply Hf].
Qed.
Lemma keeps_tried {A} (m : method S E A) : keeps R m -> keeps R (tried m).
Proof. intros Hm s. unfold tried. specialize (Hm s). by destruct (m s). Qed.
Lemma keeps_except {A} k (m : method S E A) h : keeps R m -> (forall e, keeps R (h e)) -> keeps R (except k m h).
Proof.
  intros Hm Hh s. unfold except. rewrite run_bind. unfold tried. specialize (Hm s). destruct (m s) as [[a|e] s1]; [done|].
  simpl in *. destruct (k e); [|done]. etrans; [exact Hm | apply Hh].
Qed.
Lemma wp_keeps {A} (m : method S E A) s : keeps R m -> wp m (fun _ => R s) (fun _ => R s) s.
Proof. intros H. specialize (H s). unfold wp. by destruct (m s) as [[a|e] s']. Qed.
End keeps.
End method_lemmas.

(** [method_inv H] inverts a returning run: binds, returns, checks, exceptions. *)
Ltac method_inv H :=
  lazymatch type of H with
  | (_ ≫= _) _ = (Ok _, _) =>
      let a := fresh "a" in let st := fresh "st" in let Ha := fresh "Hm" in
      apply bind_run_Ok in H; destruct H as (a & st & Ha & H); method_inv Ha; method_inv H
  | mret _ _ = (Ok _, _) => apply ret_run_Ok in H; destruct H as [? ?]; subst
  | raise _ _ = (Ok _, _) => by apply raise_run_Ok in H
  | check _ _ _ = (Ok _, _) => apply check_run_Ok in H; destruct H as [H ?]; subst
  | assign _ _ = (Ok _, _) => apply assign_run_Ok in H; subst
  | self _ = (Ok _, _) => apply self_run_Ok in H; destruct H as [? ?]; subst
  | lift _ _ = (Ok _, _) => apply lift_run_Ok in H; destruct H as [H ?]; subst
  | _ => idtac
  end.

(** ** Association lists: Python dictionaries in insertion order *)

Section dict.
Context {K V : Type} `{EqDecision K}.

Fixpoint dict_get (k : K) (d : list (K * V)) : option V :=
  match d with
  | [] => None
  | (k', v) :: d' => if decide (k = k') then Some v else dict_get k d'
  end.

Definition dict_has (k : K) (d : list (K * V)) : bool :=
  match dict_get k d with Some _ => true | None => false end.

(** [d[k] = v]: an existing key keeps its position. *)
Fixpoint dict_set (k : K) (v : V) (d : list (K * V)) : list (K * V) :=
  match d with
  | [] => [(k, v)]
  | (k', v') :: d' =>
      if decide (k = k') then (k', v) :: d' else (k', v') :: dict_set k v d'
  end.

Lemma dict_get_elem k v d : dict_get k d = Some v -> (k, v) ∈ d.
Proof.
  induction d as [|[k' v'] d IH]; simpl; [done|].
  case_decide; intros; simplify_eq; [left | right; auto].
Qed.

Lemma dict_get_None k d : dict_get k d = None <-> k ∉ d.*1.
Proof.
  induction d as [|[k' v'] d IH]; simpl; [split; [intros _; apply not_elem_of_nil | done]|].
  rewrite not_elem_of_cons. case_decide; naive_solver.
Qed.

Lemma dict_has_spec k d : dict_has k d = true <-> k ∈ d.*1.
Proof.
  unfold dict_has. destruct (dict_get k d) as [v|] eqn:Hg.
  - split; [|done]. intros _. apply dict_get_elem in Hg.
    apply list_elem_of_fmap. by exists (k, v).
  - apply dict_get_None in Hg. done.
Qed.

Lemma dict_get_NoDup k v d : NoDup d.*1 -> (k, v) ∈ d -> dict_get k d = Some v.
Proof.
  induction d as [|[k' v'] d IH]; simpl; [by intros _ ?%elem_of_nil|].
  rewrite NoDup_cons, elem_of_cons. intros [Hni Hnd] [Heq|Hin].
  - simplify_eq. by rewrite decide_True.
  - rewrite decide_False; [auto|]. intros ->. apply Hni.
    apply list_elem_of_fmap. by exists (k', v).
Qed.

Lemma dict_get_set_eq k v d : dict_get k (dict_set k v d) = Some v.
Proof.
  induction d as [|[k' v'] d IH]; simpl; [by rewrite decide_True|].
  case_decide; simpl; [by rewrite decide_True | by rewrite decide_False].
Qed.

Lemma dict_get_set_ne k k' v d : k' <> k -> dict_get k' (dict_set k v d) = dict_get k' d.
Proof.
  intros Hne. induction d as [|[k2 v2] d IH]; simpl; [by rewrite decide_False|].
  repeat (case_decide; simplify_eq/=); done.
Qed.
End dict.

(** ** Automation shared by the components *)

Create HintDb le_audio.
Create HintDb keeps.
#[export] Hint Resolve keeps_ret keeps_raise keeps_self keeps_check keeps_lift keeps_bind : keeps.
Create Rewrite HintDb le_audio_rw.
#[export] Hint Resolve elem_of_nil list_elem_of_here list_elem_of_further : le_audio.
#[export] Hint Extern 9 (_ <= _) => lia : le_audio.
#[export] Hint Extern 9 (_ < _) => lia : le_audio.
#[export] Hint Resolve Forall_nil_2 Forall_cons_2 NoDup_nil_2 : le_audio.

(** Turn boolean tests of the code into the propositions they decide. *)
Ltac bool_to_prop :=
  repeat match goal with
  | H : andb _ _ = true |- _ => apply andb_true_iff in H as [? ?]
  | H : orb _ _ = false |- _ => apply orb_false_iff in H as [? ?]
  | H : orb _ _ = true |- _ => apply orb_true_iff in H
  | H : andb _ _ = false |- _ => apply andb_false_iff in H
  | H : negb _ = true |- _ => apply negb_true_iff in H
  | H : negb _ = false |- _ => apply negb_false_iff in H
  | H : bool_decide _ = true |- _ => apply bool_decide_eq_true in H
  | H : bool_decide _ = false |- _ => apply bool_decide_eq_false in H
  | H : (_ =? _) = true |- _ => apply Z.eqb_eq in H
  | H : (_ =? _) = false |- _ => apply Z.eqb_neq in H
  | H : (_ <? _) = true |- _ => apply Z.ltb_lt in H
  | H : (_ <? _) = false |- _ => apply Z.ltb_ge in H
  | H : (_ <=? _) = true |- _ => apply Z.leb_le in H
  | H : (_ <=? _) = false |- _ => apply Z.leb_gt in H
  end.

(** [x in (a, b, ...)] on values with decidable equality. *)
Definition py_in {A} `{EqDecision A} (x : A) (l : list A) : bool := bool_decide (x ∈ l).

(** [STATES.index(x)]: position of the first occurrence. *)
Fixpoint py_index {A} `{EqDecision A} (x : A) (l : list A) : option Z :=
  match l with
  | [] => None
  | y :: l' => if decide (x = y) then Some 0 else Z.succ <$> py_index x l'
  end.

Lemma py_index_lookup {A} `{EqDecision A} (x : A) l i :
  py_index x l = Some i -> 0 <= i < Z.of_nat (length l) /\ l !! Z.to_nat i = Some x.
Proof.
  revert i; induction l as [|y l IH]; intros i; simpl; [done|].
  case_decide as Hxy; [intros [= <-]; subst; split; [lia | done]|].
  intros (j & Hj & ->)%fmap_Some. destruct (IH _ Hj) as [Hb Hl]. split; [lia|].
  by rewrite Z2Nat.inj_succ by lia.
Qed.

(** ** Counting *)

Definition count {A} (f : A -> bool) (l : list A) : nat := length (List.filter f l).

Lemma count_app {A} (f : A -> bool) l k : count f (l ++ k) = (count f l + count f k)%nat.
Proof. unfold count. by rewrite List.filter_app, length_app. Qed.
Lemma count_snoc {A} (f : A -> bool) l x : count f (l ++ [x]) = (count f l + if f x then 1 else 0)%nat.
Proof. rewrite count_app. unfold count at 2. simpl. by destruct (f x). Qed.
Lemma count_fmap {A B} (f : B -> bool) (g : A -> B) l : count f (g <$> l) = count (fun x => f (g x)) l.
Proof. unfold count. induction l as [|x l IH]; [done|]. rewrite fmap_cons. simpl. destruct (f (g x)); simpl; by rewrite IH. Qed.
Lemma count_replicate {A} (f : A -> bool) n x : count f (replicate n x) = if f x then n else 0%nat.
Proof. unfold count. induction n as [|n IH]; simpl; [by destruct (f x)|]. destruct (f x); simpl; by rewrite IH. Qed.
Lemma count_ext {A} (f g : A -> bool) l : (forall x, x ∈ l -> f x = g x) -> count f l = count g l.
Proof.
  unfold count. induction l as [|x l IH]; intros H; [done|]. simpl. rewrite (H x) by left.
  assert (length (List.filter f l) = length (List.filter g l)) as IH' by (apply IH; intros y Hy; apply H; by right).
  destruct (g x); simpl; by rewrite IH'.
Qed.
Lemma count_zero {A} (f : A -> bool) l : count f l = 0%nat <-> forall x, x ∈ l -> f x = false.
Proof.
  unfold count. induction l as [|x l IH]; simpl; [split; [intros _ x Hx; by apply elem_of_nil in Hx | done]|].
  setoid_rewrite elem_of_cons. destruct (f x) eqn:Hf; simpl.
  - split; [done|]. intros H. rewrite (H x) in Hf by by left. done.
  - rewrite IH. split; [intros H y [->|Hy]; auto | intros H y Hy; auto].
Qed.
#[export] Hint Rewrite @count_app @count_snoc @count_fmap @count_replicate : le_audio_rw.

(** ** Dictionaries that grow *)

Lemma dict_has_false {V} (k : string) (d : list (string * V)) : dict_has k d = false <-> k ∉ d.*1.
Proof. rewrite <- dict_has_spec. destruct (dict_has k d); naive_solver. Qed.

Lemma dict_set_fresh {V} (k : string) (v : V) d : dict_has k d = false -> dict_set k v d = d ++ [(k, v)].
Proof.
  unfold dict_has. induction d as [|[k' v'] d IH]; [done|]. simpl. case_decide; [done|]. intros H'. by rewrite IH.
Qed.

Lemma dict_of_pairs {V} (pairs acc : list (string * V)) :
  NoDup (acc ++ pairs).*1 -> fold_left (fun d '(k, v) => dict_set k v d) pairs acc = acc ++ pairs.
Proof.
  revert acc. induction pairs as [|[k v] pairs IH]; intros acc Hnd; simpl; [by rewrite app_nil_r|].
  assert (k ∉ acc.*1) as Hk.
  { intros Hin. rewrite fmap_app in Hnd. apply NoDup_app in Hnd as (_ & Hnd & _). apply (Hnd k Hin), list_elem_of_here. }
  rewrite dict_set_fresh by by apply dict_has_false. rewrite IH; [by rewrite <- app_assoc|].
  by rewrite <- app_assoc.
Qed.

(** The order of a dictionary's keys does not matter to a lookup. *)
Lemma dict_get_perm {V} (k : string) (d d' : list (string * V)) : NoDup d.*1 -> d ≡ₚ d' -> dict_get k d = dict_get k d'.
Proof.
  intros Hd Hp. destruct (dict_get k d') as [v|] eqn:H.
  - apply dict_get_NoDup; [done|]. rewrite Hp. by apply dict_get_elem.
  - apply dict_get_None in H. apply dict_get_None. by rewrite Hp.
Qed.
Lemma dict_get_fmap {V W} (f : V -> W) (k : string) d : dict_get k (prod_map id f <$> d) = f <$> dict_get k d.
Proof. induction d as [|[k' v] d IH]; [done|]. simpl. by case_decide. Qed.
Lemma dict_keys_fmap {V W} (f : V -> W) (d : list (string * V)) : (prod_map id f <$> d).*1 = d.*1.
Proof. induction d as [|[k v] d IH]; [done|]. simpl. f_equal. exact IH. Qed.

Lemma dict_set_keys {V} (k : string) (v : V) d : (dict_set k v d).*1 = if dict_has k d then d.*1 else d.*1 ++ [k].
Proof.
  unfold dict_has. induction d as [|[k' v'] d IH]; [done|]. simpl. case_decide; simpl; [by subst|].
  destruct (dict_get k d); f_equal; exact IH.
Qed.

Lemma dict_set_NoDup {V} (k : string) (v : V) d : NoDup d.*1 -> NoDup (dict_set k v d).*1.
Proof.
  intros Hd. rewrite dict_set_keys. destruct (dict_has k d) eqn:Hk; [done|]. apply dict_has_false in Hk.
  apply NoDup_app. split; [done|]. split; [|apply NoDup_singleton]. by intros x Hx ->%list_elem_of_singleton.
Qed.

Lemma dict_set_Forall {V} (P : string * V -> Prop) (k : string) (v : V) d : P (k, v) -> Forall P d -> Forall P (dict_set k v d).
Proof.
  intros Hk Hd. induction Hd as [|[k' v'] d Hx Hd IH]; simpl; [by apply Forall_singleton|].
  case_decide; simplify_eq; by constructor.
Qed.

(** ** [sorted(...)] of strings *)

Definition sorted_strings (l : list string) : list string := merge_sort String.le l.

Lemma sorted_strings_Permutation l : sorted_strings l ≡ₚ l.
Proof. apply merge_sort_Permutation. Qed.
Lemma sorted_strings_elem l x : x ∈ sorted_strings l <-> x ∈ l.
Proof. by rewrite sorted_strings_Permutation. Qed.
Lemma sorted_strings_sorted l : StronglySorted String.le (sorted_strings l).
Proof. apply StronglySorted_merge_sort; apply _. Qed.
