(* ===== verification/PyText.v ===== *)
(** * Python text: the [str] operations the host scripts use

    A Python [str] is represented by the bytes of its UTF-8 encoding
    (type [string]); [chars] and [of_chars] move between that string and the
    list of its bytes.  Equality, [startswith], [in] and concatenation commute
    with the encoding.  The character classes below are those of the ASCII
    range, which is all the consoles, version files and identifiers that the
    scripts scan contain; a byte above 127 belongs to no class. *)

From S2P Require Import Prelude.

Declare Scope py_scope.
Delimit Scope py_scope with py.

(** ** Strings and their characters *)

Definition chars (s : string) : list ascii := list_ascii_of_string s.
Definition of_chars (l : list ascii) : string := string_of_list_ascii l.

Lemma of_chars_chars s : of_chars (chars s) = s.
Proof. apply string_of_list_ascii_of_string. Qed.

Lemma chars_of_chars l : chars (of_chars l) = l.
Proof. apply list_ascii_of_string_of_list_ascii. Qed.

Lemma chars_inj s t : chars s = chars t -> s = t.
Proof. intros H. by rewrite <- (of_chars_chars s), H, of_chars_chars. Qed.

Lemma chars_app s t : chars (s +:+ t) = (chars s ++ chars t).
Proof. induction s as [|c s IH]; simpl; [done | by rewrite IH]. Qed.

Lemma chars_length s : length (chars s) = String.length s.
Proof. induction s; simpl; congruence. Qed.

(** [s.startswith(p)], [s[len(p):]] *)
Fixpoint strip_prefix (p l : list ascii) : option (list ascii) :=
  match p, l with
  | [], _ => Some l
  | c :: p', d :: l' => if Ascii.eqb c d then strip_prefix p' l' else None
  | _ :: _, [] => None
  end.

Definition startswith (p s : string) : bool :=
  match strip_prefix (chars p) (chars s) with Some _ => true | None => false end.

Lemma strip_prefix_Some p l r : strip_prefix p l = Some r <-> l = (p ++ r).
Proof.
  revert l; induction p as [|c p IH]; intros [|d l]; simpl; try naive_solver.
  destruct (Ascii.eqb_spec c d) as [->|Hne]; [rewrite IH|]; naive_solver.
Qed.

Lemma strip_prefix_app p r : strip_prefix p (p ++ r) = Some r.
Proof. by apply strip_prefix_Some. Qed.

Lemma startswith_spec p s : startswith p s = true <-> exists t, s = p +:+ t.
Proof.
  unfold startswith. split.
  - destruct (strip_prefix _ _) as [r|] eqn:Hp; [intros _|done].
    apply strip_prefix_Some in Hp. exists (of_chars r). apply chars_inj.
    by rewrite chars_app, chars_of_chars.
  - intros [t ->]. by rewrite chars_app, strip_prefix_app.
Qed.

Lemma startswith_chars p s : startswith p s = true <-> exists t, chars s = chars p ++ t.
Proof.
  unfold startswith. destruct (strip_prefix (chars p) (chars s)) as [r|] eqn:H.
  - apply strip_prefix_Some in H. split; [by exists r | done].
  - split; [done|]. intros [t Ht]. rewrite Ht, strip_prefix_app in H. done.
Qed.

(** [sub in s] *)
Fixpoint contains_chars (p l : list ascii) : bool :=
  match strip_prefix p l with
  | Some _ => true
  | None => match l with [] => false | _ :: l' => contains_chars p l' end
  end.
Definition contains (p s : string) : bool := contains_chars (chars p) (chars s).

Lemma contains_chars_spec p l : contains_chars p l = true <-> exists u v, l = (u ++ p ++ v).
Proof.
  induction l as [|c l IH]; simpl.
  - destruct (strip_prefix p []) as [r|] eqn:Hp.
    + apply strip_prefix_Some in Hp. split; [|done]. intros _. by exists [], r.
    + split; [done|]. intros (u & v & Huv). symmetry in Huv.
      apply app_eq_nil in Huv as [-> Hpv]. apply app_eq_nil in Hpv as [-> ->]. done.
  - destruct (strip_prefix p (c :: l)) as [r|] eqn:Hp.
    + apply strip_prefix_Some in Hp. split; [|done]. intros _. by exists [], r.
    + rewrite IH. split.
      * intros (u & v & ->). by exists (c :: u), v.
      * intros ([|c' u] & v & Huv); simpl in Huv.
        -- rewrite Huv, strip_prefix_app in Hp. done.
        -- injection Huv as -> ->. by exists u, v.
Qed.

(** ** Character classes *)

Definition code (c : ascii) : Z := Z.of_N (N_of_ascii c).

Lemma code_bound c : 0 <= code c < 256.
Proof. unfold code. pose proof (N_ascii_bounded c). lia. Qed.

Lemma code_inj c d : code c = code d -> c = d.
Proof.
  unfold code. intros H. apply N2Z.inj in H.
  by rewrite <- (ascii_N_embedding c), H, ascii_N_embedding.
Qed.

Definition chr (z : Z) : ascii := ascii_of_N (Z.to_N z).

Lemma code_chr z : 0 <= z < 256 -> code (chr z) = z.
Proof. intros Hz. unfold code, chr. rewrite N_ascii_embedding; lia. Qed.

Definition between (lo hi : Z) (c : ascii) : bool := (lo <=? code c) && (code c <=? hi).

Definition is_digit : ascii -> bool := between 48 57.
Definition is_lower : ascii -> bool := between 97 122.
Definition is_upper : ascii -> bool := between 65 90.
Definition is_alpha (c : ascii) : bool := is_lower c || is_upper c.
(** [\w] *)
Definition is_word (c : ascii) : bool := is_alpha c || is_digit c || (code c =? 95).
(** [str.isspace] on ASCII: \t \n \v \f \r, 0x1c..0x1f and space. *)
Definition is_space (c : ascii) : bool := between 9 13 c || between 28 32 c.
Definition is_ascii (c : ascii) : bool := code c <? 128.

Definition all_ascii (s : string) : bool := forallb is_ascii (chars s).

(** ** [str.strip] *)

Fixpoint lstrip (p : ascii -> bool) (l : list ascii) : list ascii :=
  match l with
  | [] => []
  | c :: l' => if p c then lstrip p l' else l
  end.
Definition rstrip (p : ascii -> bool) (l : list ascii) : list ascii :=
  rev (lstrip p (rev l)).
Definition strip (l : list ascii) : list ascii := rstrip is_space (lstrip is_space l).

Lemma lstrip_nil p l : lstrip p l = [] <-> forallb p l = true.
Proof. induction l as [|c l IH]; simpl; [done|]. by destruct (p c). Qed.

Lemma lstrip_id p c l : p c = false -> lstrip p (c :: l) = c :: l.
Proof. simpl. by intros ->. Qed.

(** ** Splitting *)

(** [s.split(sep)] for a one-character separator: never empty. *)
Fixpoint split_on (sep : ascii) (l : list ascii) : list (list ascii) :=
  match l with
  | [] => [[]]
  | c :: l' =>
      if Ascii.eqb c sep then [] :: split_on sep l'
      else match split_on sep l' with
           | w :: ws => (c :: w) :: ws
           | [] => [[c]]
           end
  end.

Fixpoint join_with (sep : ascii) (ws : list (list ascii)) : list ascii :=
  match ws with
  | [] => []
  | [w] => w
  | w :: ws' => (w ++ sep :: join_with sep ws')
  end.

Lemma split_on_nonempty sep l : split_on sep l <> [].
Proof. destruct l as [|c l]; simpl; [done|]. destruct (Ascii.eqb c sep); [done|]. by destruct (split_on sep l). Qed.

Lemma split_on_word sep w : sep ∉ w -> split_on sep w = [w].
Proof.
  induction w as [|c w IH]; [done|]. rewrite not_elem_of_cons. intros [Hc Hw]. simpl.
  destruct (Ascii.eqb_spec c sep) as [->|_]; [done|]. by rewrite IH.
Qed.

Lemma split_on_app sep w l : sep ∉ w -> split_on sep (w ++ sep :: l) = w :: split_on sep l.
Proof.
  induction w as [|c w IH]; simpl.
  - intros _. by rewrite Ascii.eqb_refl.
  - rewrite not_elem_of_cons. intros [Hc Hw].
    destruct (Ascii.eqb_spec c sep) as [->|_]; [done|]. by rewrite IH.
Qed.

(** Splitting undoes joining when no word contains the separator. *)
Lemma split_join sep ws :
  ws <> [] -> Forall (fun w => sep ∉ w) ws -> split_on sep (join_with sep ws) = ws.
Proof.
  intros Hne Hws. induction Hws as [|w [|w' ws] Hw Hws IH]; [done| |].
  - by apply split_on_word.
  - simpl join_with. rewrite split_on_app by done. f_equal. by apply IH.
Qed.

(** ** Decimal numerals: [int(s)] and ["%d" % n] *)

Definition digit_val (c : ascii) : Z := code c - 48.
Definition digit_chr (d : Z) : ascii := chr (48 + d).

(** CPython refuses to convert longer literals ([sys.int_info]). *)
Definition int_max_str_digits : nat := 4300.

(** [int(s)] on a string of ASCII digits. *)
Definition int_of_digits (l : list ascii) : Z :=
  fold_left (fun acc c => acc * 10 + digit_val c) l 0.

Fixpoint dec_loop (fuel : nat) (n : Z) (acc : list ascii) : list ascii :=
  match fuel with
  | O => acc
  | S f => if n <? 10 then digit_chr n :: acc
           else dec_loop f (n / 10) (digit_chr (n mod 10) :: acc)
  end.

(** ["%d" % n] for [0 <= n]; [log2 n + 1] steps are enough since each divides by 10. *)
Definition dec_digits (n : Z) : list ascii := dec_loop (S (Z.to_nat (Z.log2 n))) n [].
Definition dec (n : Z) : string :=
  if n <? 0 then String "-" (of_chars (dec_digits (- n))) else of_chars (dec_digits n).

(** A canonical unsigned numeral: [0|[1-9][0-9]*]. *)
Definition canonical_digits (l : list ascii) : bool :=
  match l with
  | [] => false
  | [c] => is_digit c
  | c :: l' => between 49 57 c && forallb is_digit l'
  end.

Lemma is_digit_val c : is_digit c = true <-> 0 <= digit_val c <= 9.
Proof. unfold is_digit, between, digit_val. rewrite andb_true_iff, !Z.leb_le. lia. Qed.

Lemma digit_val_chr d : 0 <= d <= 9 -> digit_val (digit_chr d) = d.
Proof. intros. unfold digit_val, digit_chr. rewrite code_chr; lia. Qed.

Lemma digit_chr_val c : is_digit c = true -> digit_chr (digit_val c) = c.
Proof.
  intros Hc. apply is_digit_val in Hc. apply code_inj. unfold digit_chr, digit_val in *.
  rewrite code_chr; lia.
Qed.

Lemma is_digit_chr d : 0 <= d <= 9 -> is_digit (digit_chr d) = true.
Proof. intros. apply is_digit_val. by rewrite digit_val_chr. Qed.
#[export] Hint Resolve is_digit_chr : le_audio.

Lemma digit_head_chr d : 0 < d <= 9 -> between 49 57 (digit_chr d) = true.
Proof.
  intros. unfold between, digit_chr. rewrite code_chr by lia.
  apply andb_true_iff; split; apply Z.leb_le; lia.
Qed.

Lemma int_of_digits_snoc l c : int_of_digits (l ++ [c]) = int_of_digits l * 10 + digit_val c.
Proof. unfold int_of_digits. by rewrite fold_left_app. Qed.

Lemma int_of_digits_nonneg l : forallb is_digit l = true -> 0 <= int_of_digits l.
Proof.
  induction l as [|c l IH] using rev_ind; [done|].
  rewrite forallb_app, int_of_digits_snoc. simpl. intros [Hl [Hc _]%andb_true_iff]%andb_true_iff.
  apply is_digit_val in Hc. specialize (IH Hl). lia.
Qed.

(** The numerals of [n]: a list satisfying the recurrence of [dec_loop]. *)
Lemma dec_loop_spec f n acc :
  0 <= n < 2 ^ Z.of_nat f -> (0 < f)%nat ->
  exists l, dec_loop f n acc = (l ++ acc) /\ canonical_digits l = true /\
    forallb is_digit l = true /\ int_of_digits l = n /\ (0 < n -> exists c r, l = c :: r /\ between 49 57 c = true).
Proof.
  revert n acc; induction f as [|f IH]; intros n acc Hn Hf; [lia|]. simpl.
  destruct (Z.ltb_spec n 10) as [Hlt|Hge].
  - exists [digit_chr n]. repeat split; simpl.
    + apply is_digit_chr; lia.
    + rewrite is_digit_chr by lia. done.
    + unfold int_of_digits. simpl. rewrite digit_val_chr; lia.
    + intros Hp. exists (digit_chr n), []. split; [done|]. apply digit_head_chr; lia.
  - rewrite Nat2Z.inj_succ, Z.pow_succ_r in Hn by lia.
    assert (Hm : 0 <= n mod 10 < 10) by (apply Z.mod_pos_bound; lia).
    assert (Hq : 0 < n / 10) by (apply Z.div_str_pos; lia).
    assert (Hq2 : n / 10 < 2 ^ Z.of_nat f) by (apply Z.div_lt_upper_bound; lia).
    destruct (IH (n / 10) (digit_chr (n mod 10) :: acc)) as (l & Hl & Hcan & Hdig & Hval & Hhd).
    { lia. } { destruct f; [simpl in Hq2; lia | lia]. }
    destruct (Hhd Hq) as (c & r & -> & Hc).
    exists ((c :: r) ++ [digit_chr (n mod 10)]). rewrite Hl, <- app_assoc. simpl in Hdig.
    apply andb_true_iff in Hdig as [Hdc Hdr].
    repeat split.
    + simpl. destruct (r ++ _) eqn:Hr; [by destruct r|]. rewrite <- Hr, Hc, forallb_app, Hdr. simpl.
      rewrite is_digit_chr by lia. done.
    + simpl. rewrite Hdc, forallb_app, Hdr. simpl. rewrite is_digit_chr by lia. done.
    + rewrite int_of_digits_snoc, Hval, digit_val_chr by lia.
      rewrite (Z.div_mod n 10) at 3 by lia. lia.
    + intros _. by exists c, (r ++ [digit_chr (n mod 10)]).
Qed.

Lemma dec_digits_spec n : 0 <= n ->
  canonical_digits (dec_digits n) = true /\ forallb is_digit (dec_digits n) = true /\
  int_of_digits (dec_digits n) = n.
Proof.
  intros Hn. unfold dec_digits.
  destruct (dec_loop_spec (S (Z.to_nat (Z.log2 n))) n []) as (l & -> & ? & ? & ? & _); [|lia|].
  - split; [done|]. rewrite Nat2Z.inj_succ, Z2Nat.id by apply Z.log2_nonneg.
    destruct (decide (n = 0)) as [->|]; [done|]. apply Z.log2_spec; lia.
  - rewrite app_nil_r. done.
Qed.

(** [int("%d" % n) = n]. *)
Lemma int_dec_digits n : 0 <= n -> int_of_digits (dec_digits n) = n.
Proof. intros Hn. apply (dec_digits_spec n Hn). Qed.

Lemma dec_digits_canonical n : 0 <= n -> canonical_digits (dec_digits n) = true.
Proof. intros Hn. apply (dec_digits_spec n Hn). Qed.

Lemma dec_digits_all n : 0 <= n -> forallb is_digit (dec_digits n) = true.
Proof. intros Hn. apply (dec_digits_spec n Hn). Qed.

Lemma canonical_digits_all l : canonical_digits l = true -> forallb is_digit l = true.
Proof.
  destruct l as [|c [|c' l]]; simpl; [done | by intros -> |].
  intros [Hc Hl]%andb_true_iff. apply andb_true_iff; split; [|done].
  unfold between in Hc. apply is_digit_val. unfold digit_val. bool_to_prop. lia.
Qed.
#[export] Hint Resolve dec_digits_canonical dec_digits_all canonical_digits_all : le_audio.
#[export] Hint Rewrite int_dec_digits using lia : le_audio_rw.

(** [int(s)] on digits, with the limit: [None] is [ValueError]. *)
Definition py_int (l : list ascii) : option Z :=
  if (length l <=? int_max_str_digits)%nat then Some (int_of_digits l) else None.

(** ** UTF-8 *)

(** UTF-8 well-formedness ([bytes.decode("utf-8")] succeeds). *)
Definition cont (c : ascii) : bool := between 128 191 c.
Fixpoint utf8_valid (l : list ascii) : bool :=
  match l with
  | [] => true
  | a :: l1 =>
      if code a <? 128 then utf8_valid l1
      else if between 194 223 a then
        match l1 with b :: l2 => cont b && utf8_valid l2 | _ => false end
      else if between 224 239 a then
        match l1 with
        | b :: c :: l3 =>
            cont b && cont c
            && (if code a =? 224 then 160 <=? code b else true)
            && (if code a =? 237 then code b <=? 159 else true)
            && utf8_valid l3
        | _ => false
        end
      else if between 240 244 a then
        match l1 with
        | b :: c :: d :: l4 =>
            cont b && cont c && cont d
            && (if code a =? 240 then 144 <=? code b else true)
            && (if code a =? 244 then code b <=? 143 else true)
            && utf8_valid l4
        | _ => false
        end
      else false
  end.

Lemma utf8_valid_ascii l : forallb is_ascii l = true -> utf8_valid l = true.
Proof.
  induction l as [|c l IH]; [done|]. simpl. intros [Hc Hl]%andb_true_iff.
  unfold is_ascii in Hc. rewrite Hc. auto.
Qed.

(** How [bytes.decode("utf-8")] ends: a sequence that is cut off by the end of
    the input is reported apart ("unexpected end of data", with the error
    reaching the end of the bytes) from a malformed one. *)
Inductive decoding : Type := Decoded | Truncated | Malformed.

Definition second_ok (a b : ascii) : bool :=
  cont b
  && (if code a =? 224 then 160 <=? code b else true) && (if code a =? 237 then code b <=? 159 else true)
  && (if code a =? 240 then 144 <=? code b else true) && (if code a =? 244 then code b <=? 143 else true).

Fixpoint utf8_status (l : list ascii) : decoding :=
  match l with
  | [] => Decoded
  | a :: l1 =>
      if code a <? 128 then utf8_status l1
      else if between 194 223 a then
        match l1 with [] => Truncated | b :: l2 => if cont b then utf8_status l2 else Malformed end
      else if between 224 239 a then
        match l1 with
        | [] => Truncated
        | b :: l2 =>
            if negb (second_ok a b) then Malformed
            else match l2 with [] => Truncated | c :: l3 => if cont c then utf8_status l3 else Malformed end
        end
      else if between 240 244 a then
        match l1 with
        | [] => Truncated
        | b :: l2 =>
            if negb (second_ok a b) then Malformed
            else match l2 with
                 | [] => Truncated
                 | c :: l3 =>
                     if negb (cont c) then Malformed
                     else match l3 with [] => Truncated | d :: l4 => if cont d then utf8_status l4 else Malformed end
                 end
        end
      else Malformed
  end.

Lemma between_code lo hi c : between lo hi c = true <-> lo <= code c <= hi.
Proof. unfold between. rewrite andb_true_iff, !Z.leb_le. done. Qed.

(** The two readings of well-formedness agree. *)
Lemma utf8_status_decoded l : utf8_status l = Decoded <-> utf8_valid l = true.
Proof.
  induction l as [l IH] using (induction_ltof1 _ (@length ascii)); unfold ltof in IH.
  destruct l as [|a l]; [done|]. simpl.
  destruct (code a <? 128); [apply IH; simpl; lia|].
  destruct (between 194 223 a) eqn:H2.
  { destruct l as [|b l]; [done|]. destruct (cont b); simpl; [apply IH; simpl; lia | done]. }
  destruct (between 224 239 a) eqn:H3.
  { apply between_code in H3. destruct l as [|b [|c l]]; [done| |].
    - by destruct (negb (second_ok a b)).
    - unfold second_ok. rewrite (proj2 (Z.eqb_neq (code a) 240)), (proj2 (Z.eqb_neq (code a) 244)) by lia.
      specialize (IH l ltac:(simpl; lia)).
      destruct (cont b), (cont c), (if code a =? 224 then _ else _), (if code a =? 237 then _ else _); simpl; done. }
  destruct (between 240 244 a) eqn:H4; [|done].
  apply between_code in H4. destruct l as [|b [|c [|d l]]]; [done| | |].
  - by destruct (negb (second_ok a b)).
  - by destruct (negb (second_ok a b)), (negb (cont c)).
  - unfold second_ok. rewrite (proj2 (Z.eqb_neq (code a) 224)), (proj2 (Z.eqb_neq (code a) 237)) by lia.
    specialize (IH l ltac:(simpl; lia)).
    destruct (cont b), (cont c), (cont d), (if code a =? 240 then _ else _), (if code a =? 244 then _ else _); simpl; done.
Qed.

(** What is malformed stays malformed, and what is cut off can be completed. *)
Lemma utf8_malformed_app l k : utf8_status l = Malformed -> utf8_status (l ++ k) = Malformed.
Proof.
  induction l as [l IH] using (induction_ltof1 _ (@length ascii)); unfold ltof in IH.
  destruct l as [|a l]; [done|]. simpl.
  destruct (code a <? 128); [apply IH; simpl; lia|].
  destruct (between 194 223 a).
  { destruct l as [|b l]; [done|]. simpl. destruct (cont b); [apply IH; simpl; lia | done]. }
  destruct (between 224 239 a).
  { destruct l as [|b [|c l]]; simpl; [done| |]; (destruct (negb (second_ok a b)); [done|]); [done|].
    destruct (cont c); [apply IH; simpl; lia | done]. }
  destruct (between 240 244 a); [|done].
  destruct l as [|b [|c [|d l]]]; simpl; [done|..]; (destruct (negb (second_ok a b)); [done|]); try done;
    (destruct (negb (cont c)); [done|]); [done|].
  destruct (cont d); [apply IH; simpl; lia | done].
Qed.

Lemma utf8_truncated_app l : utf8_status l = Truncated -> exists k, k <> [] /\ utf8_status (l ++ k) = Decoded.
Proof.
  induction l as [l IH] using (induction_ltof1 _ (@length ascii)); unfold ltof in IH.
  assert (exists b, cont b = true /\ forall a, between 224 239 a || between 240 244 a = true -> second_ok a (if (code a =? 224) || (code a =? 240) then "191"%char else b) = true) as (x & Hx & Hs).
  { exists "128"%char. split; [done|]. intros a Ha. unfold second_ok, cont, between in *.
    by repeat match goal with |- context [?n =? ?m] => destruct (Z.eqb_spec n m) as [He|]; [rewrite ?He|] end. }
  destruct l as [|a l]; [done|]. simpl.
  destruct (code a <? 128); [apply IH; simpl; lia|].
  destruct (between 194 223 a).
  { destruct l as [|b l]; [intros _; exists [x]; simpl; by rewrite Hx|]. simpl. destruct (cont b); [apply IH; simpl; lia | done]. }
  specialize (Hs a). set (y := if (code a =? 224) || (code a =? 240) then "191"%char else x) in Hs.
  destruct (between 224 239 a).
  { specialize (Hs eq_refl). destruct l as [|b [|c l]]; simpl.
    - intros _. exists [y; x]. simpl. by rewrite Hs, Hx.
    - destruct (negb (second_ok a b)); [done|]. intros _. exists [x]. simpl. by rewrite Hx.
    - destruct (negb (second_ok a b)); [done|]. destruct (cont c); [apply IH; simpl; lia | done]. }
  destruct (between 240 244 a); [|done]. specialize (Hs eq_refl). destruct l as [|b [|c [|d l]]]; simpl.
  - intros _. exists [y; x; x]. simpl. by rewrite Hs, Hx.
  - destruct (negb (second_ok a b)); [done|]. intros _. exists [x; x]. simpl. by rewrite Hx.
  - destruct (negb (second_ok a b)); [done|]. destruct (negb (cont c)); [done|]. intros _. exists [x]. simpl. by rewrite Hx.
  - destruct (negb (second_ok a b)); [done|]. destruct (negb (cont c)); [done|]. destruct (cont d); [apply IH; simpl; lia | done].
Qed.
