(* ===== verification/PyPath.v ===== *)
(** * Paths: the part of Python's [os.path] the scripts use

    Lexical operations on POSIX paths. *)

From S2P Require Import Prelude PyText.

(** [os.path.normpath] *)
Fixpoint norm_components (absolute : bool) (comps acc : list (list ascii)) : list (list ascii) :=
  match comps with
  | [] => rev acc
  | c :: rest =>
      if bool_decide (c = [] \/ c = ["."%char]) then norm_components absolute rest acc
      else if bool_decide (c <> [".";"."]%char) || (negb absolute && bool_decide (acc = [])) || bool_decide (head acc = Some [".";"."]%char)
      then norm_components absolute rest (c :: acc)
      else norm_components absolute rest (tail acc)
  end.
Definition normpath (p : string) : string :=
  let l := chars p in
  let slashes := match l with
                 | "/"%char :: "/"%char :: "/"%char :: _ => ["/"%char]
                 | "/"%char :: "/"%char :: _ => ["/"; "/"]%char
                 | "/"%char :: _ => ["/"%char]
                 | _ => []
                 end in
  let body := slashes ++ join_with "/" (norm_components (bool_decide (slashes <> [])) (split_on "/" l) []) in
  of_chars (match body with [] => ["."%char] | _ => body end).

(** [os.path.dirname] and [os.path.basename] of an absolute path: the parts
    around the last slash, trailing slashes of the directory removed. *)
Fixpoint split_last (l : list ascii) : list ascii * list ascii :=
  match l with
  | [] => ([], [])
  | c :: l' =>
      if existsb (Ascii.eqb "/"%char) l' then let '(d, b) := split_last l' in (c :: d, b)
      else if Ascii.eqb c "/"%char then ([c], l') else ([], c :: l')
  end.
Definition dirname (p : string) : string :=
  let d := (split_last (chars p)).1 in
  of_chars (match rstrip (Ascii.eqb "/"%char) d with [] => d | d' => d' end).
Definition basename (p : string) : string := of_chars (split_last (chars p)).2.

(** [os.path.join] of two paths. *)
Definition path_join (a b : string) : string :=
  match chars b with
  | "/"%char :: _ => b
  | _ => match last (chars a) with
         | None => b
         | Some c => of_chars (chars a ++ (if Ascii.eqb c "/"%char then [] else ["/"%char]) ++ chars b)
         end
  end.

(** ** Going up *)

Lemma split_last_app l : (split_last l).1 ++ (split_last l).2 = l.
Proof.
  induction l as [|c l IH]; [done|]. simpl. destruct (existsb _ l).
  - destruct (split_last l) as [d b]. simpl in *. by rewrite IH.
  - by destruct (Ascii.eqb c "/"%char).
Qed.
Lemma rstrip_prefix p l : rstrip p l `prefix_of` l.
Proof.
  unfold rstrip. assert (forall m, exists u, m = u ++ lstrip p m) as H.
  { induction m as [|c m [u IH]]; [by exists []|]. simpl. destruct (p c); [|by exists []]. exists (c :: u). simpl. by f_equal. }
  destruct (H (rev l)) as [u Hu]. exists (rev u). rewrite <- rev_app_distr, <- Hu. by rewrite rev_involutive.
Qed.
(** A parent is shorter, or the path itself. *)
Lemma dirname_shorter p : dirname p = p \/ (String.length (dirname p) < String.length p)%nat.
Proof.
  assert (chars (dirname p) `prefix_of` chars p) as [k Hk].
  { unfold dirname. rewrite chars_of_chars. pose proof (split_last_app (chars p)) as H. destruct (split_last (chars p)) as [d b]. simpl in *.
    rewrite <- H. destruct (rstrip _ d) as [|c m] eqn:Hr; [by apply prefix_app_r|].
    apply prefix_app_r. rewrite <- Hr. apply rstrip_prefix. }
  destruct k as [|c k].
  - left. rewrite app_nil_r in Hk. apply chars_inj. done.
  - right. rewrite <- !chars_length, Hk, length_app. simpl. lia.
Qed.
