(* ===== verification/PyRegex.v ===== *)
(** * The part of Python's [re] the scripts use

    A backtracking matcher over 8-bit characters, in continuation-passing
    style, with greedy and lazy repetition of character classes, groups and
    anchors; its declarative meaning; and the equivalence of the two.  The
    classes [\d], [\w] and [\s] are the ASCII ones. *)

From S2P Require Import Prelude PyText.

(** ** Syntax *)

Inductive re : Type :=
| Cls (p : ascii -> bool)          (** one character of a class *)
| Eps
| Seq (r1 r2 : re)
| Alt (r1 r2 : re)
| Star (p : ascii -> bool)         (** [c*], greedy *)
| Lazy (p : ascii -> bool)         (** [c*?] *)
| Opt (r : re)                     (** [(?:r)?], greedy *)
| Group (n : nat) (r : re)
| Bol                              (** [^]: start of the text *)
| BolM                             (** [^] with [re.MULTILINE] *)
| Eos                              (** [$]: end, or before a final newline *)
| EosM                             (** [$] with [re.MULTILINE] *)
| Wb.                              (** [\b]: a word character on one side only *)

Definition newline : ascii := "010"%char.

Definition Chr (c : ascii) : re := Cls (Ascii.eqb c).
Fixpoint Lit_chars (l : list ascii) : re :=
  match l with [] => Eps | c :: l' => Seq (Chr c) (Lit_chars l') end.
Definition Lit (s : string) : re := Lit_chars (chars s).
Definition Plus (p : ascii -> bool) : re := Seq (Cls p) (Star p).
(** [a{n}] *)
Fixpoint Rep (n : nat) (r : re) : re := match n with O => Eps | S n' => Seq r (Rep n' r) end.
Definition dot (c : ascii) : bool := negb (Ascii.eqb c newline).

Declare Scope re_scope.
Delimit Scope re_scope with re.
Notation "a • b" := (Seq a b) (at level 60, right associativity) : re_scope.

(** ** Matching *)

(** A position: the character before it, what follows, the groups so far. *)
Record pos : Type := mk_pos { before : option ascii; rest : list ascii; groups : list (nat * list ascii) }.

Definition advance (c : ascii) (l : list ascii) (st : pos) : pos := mk_pos (Some c) l (groups st).
Definition set_group (n : nat) (v : list ascii) (st : pos) : pos := mk_pos (before st) (rest st) ((n, v) :: groups st).
(** The text between two positions. *)
Definition between_pos (st st' : pos) : list ascii := take (length (rest st) - length (rest st')) (rest st).

Definition at_bol (multiline : bool) (st : pos) : bool :=
  match before st with None => true | Some c => multiline && Ascii.eqb c newline end.
Definition at_eos (st : pos) : bool :=
  match rest st with [] => true | [c] => Ascii.eqb c newline | _ => false end.

Definition at_eol (st : pos) : bool := match rest st with [] => true | c :: _ => Ascii.eqb c newline end.
Definition at_boundary (st : pos) : bool :=
  xorb (match before st with Some c => is_word c | None => false end) (match rest st with c :: _ => is_word c | [] => false end).

Section matching.
Context {A : Type}.

Section class_loops.
Variables (p : ascii -> bool) (k : pos -> option A) (gs : list (nat * list ascii)).
Fixpoint star_loop (b : option ascii) (l : list ascii) : option A :=
  match l with
  | c :: l' =>
      if p c then match star_loop (Some c) l' with Some a => Some a | None => k (mk_pos b l gs) end
      else k (mk_pos b l gs)
  | [] => k (mk_pos b l gs)
  end.
Fixpoint lazy_loop (b : option ascii) (l : list ascii) : option A :=
  match k (mk_pos b l gs) with
  | Some a => Some a
  | None => match l with c :: l' => if p c then lazy_loop (Some c) l' else None | [] => None end
  end.
End class_loops.

Fixpoint run (r : re) (st : pos) (k : pos -> option A) : option A :=
  match r with
  | Cls p => match rest st with c :: l => if p c then k (advance c l st) else None | [] => None end
  | Eps => k st
  | Seq r1 r2 => run r1 st (fun st' => run r2 st' k)
  | Alt r1 r2 => match run r1 st k with Some a => Some a | None => run r2 st k end
  | Star p => star_loop p k (groups st) (before st) (rest st)
  | Lazy p => lazy_loop p k (groups st) (before st) (rest st)
  | Opt r1 => match run r1 st k with Some a => Some a | None => k st end
  | Group n r1 => run r1 st (fun st' => k (set_group n (between_pos st st') st'))
  | Bol => if at_bol false st then k st else None
  | BolM => if at_bol true st then k st else None
  | Eos => if at_eos st then k st else None
  | EosM => if at_eol st then k st else None
  | Wb => if at_boundary st then k st else None
  end.
End matching.

(** [r.match] at a position; the result is the position after the match. *)
Definition match_at (r : re) (st : pos) : option pos := run r st Some.

(** [re.match(text)] *)
Definition re_match (r : re) (text : list ascii) : option pos := match_at r (mk_pos None text []).

(** [re.search(text)] from a position. *)
Fixpoint search_from (r : re) (b : option ascii) (l : list ascii) : option pos :=
  match match_at r (mk_pos b l []) with
  | Some st => Some st
  | None => match l with c :: l' => search_from r (Some c) l' | [] => None end
  end.
Definition search (r : re) (text : list ascii) : option pos := search_from r None text.

(** [re.fullmatch(text)] *)
Definition fullmatch (r : re) (text : list ascii) : option pos :=
  run r (mk_pos None text []) (fun st => match rest st with [] => Some st | _ => None end).

(** [m.group(n)] of a successful match: the last value of the group. *)
Definition group (n : nat) (st : pos) : option (list ascii) := dict_get n (groups st).

(** [re.finditer]: the matches from left to right; after an empty match the
    scan moves one character.  Every step consumes a character, so the length
    of the text is enough fuel. *)
Fixpoint finditer_loop (fuel : nat) (r : re) (b : option ascii) (l : list ascii) : list pos :=
  match fuel with
  | O => []
  | S fuel' =>
      match match_at r (mk_pos b l []) with
      | Some st =>
          st :: (if (length (rest st) <? length l)%nat then finditer_loop fuel' r (before st) (rest st)
                 else match l with c :: l' => finditer_loop fuel' r (Some c) l' | [] => [] end)
      | None => match l with c :: l' => finditer_loop fuel' r (Some c) l' | [] => [] end
      end
  end.
Definition finditer (r : re) (text : list ascii) : list pos := finditer_loop (S (length text)) r None text.

(** ** Meaning *)

(** [p* ] from one position to another. *)
Inductive many (p : ascii -> bool) : pos -> pos -> Prop :=
| many_none st : many p st st
| many_more st c l st' : rest st = c :: l -> p c = true -> many p (advance c l st) st' -> many p st st'.

Fixpoint den (r : re) (st st' : pos) : Prop :=
  match r with
  | Cls p => exists c l, rest st = c :: l /\ p c = true /\ st' = advance c l st
  | Eps => st' = st
  | Seq r1 r2 => exists m, den r1 st m /\ den r2 m st'
  | Alt r1 r2 => den r1 st st' \/ den r2 st st'
  | Star p | Lazy p => many p st st'
  | Opt r1 => den r1 st st' \/ st' = st
  | Group n r1 => exists m, den r1 st m /\ st' = set_group n (between_pos st m) m
  | Bol => at_bol false st = true /\ st' = st
  | BolM => at_bol true st = true /\ st' = st
  | Eos => at_eos st = true /\ st' = st
  | EosM => at_eol st = true /\ st' = st
  | Wb => at_boundary st = true /\ st' = st
  end.

(** ** The matcher implements the meaning *)

Lemma star_loop_sound {A} p (k : pos -> option A) gs b l a :
  star_loop p k gs b l = Some a -> exists st', many p (mk_pos b l gs) st' /\ k st' = Some a.
Proof.
  revert b. induction l as [|c l IH]; intros b; simpl.
  - intros H. eexists. split; [apply many_none | done].
  - destruct (p c) eqn:Hp; [|intros H; eexists; split; [apply many_none | done]].
    destruct (star_loop p k gs (Some c) l) as [a'|] eqn:Hs.
    + intros [= ->]. destruct (IH _ Hs) as (st' & Hm & Hk). exists st'. split; [|done].
      by apply (many_more p (mk_pos b (c :: l) gs) c l).
    + intros H. eexists. split; [apply many_none | done].
Qed.

Lemma lazy_loop_sound {A} p (k : pos -> option A) gs b l a :
  lazy_loop p k gs b l = Some a -> exists st', many p (mk_pos b l gs) st' /\ k st' = Some a.
Proof.
  revert b. induction l as [|c l IH]; intros b; simpl; (destruct (k _) as [a'|] eqn:Hk;
    [intros [= ->]; eexists; split; [apply many_none | done]|]); [done|].
  destruct (p c) eqn:Hp; [|done]. intros (st' & Hm & Hk')%IH. exists st'. split; [|done].
  by apply (many_more p (mk_pos b (c :: l) gs) c l).
Qed.

Lemma loops_complete {A} p (k : pos -> option A) st st' :
  many p st st' -> is_Some (k st') ->
  is_Some (star_loop p k (groups st) (before st) (rest st)) /\ is_Some (lazy_loop p k (groups st) (before st) (rest st)).
Proof.
  intros Hm Hk. induction Hm as [st|st c l st' Hr Hp Hm IH].
  - destruct st as [b l gs]. simpl. destruct Hk as [a Ha]. split.
    + destruct l as [|c l]; simpl; [by exists a|]. destruct (p c); [|by exists a].
      destruct (star_loop _ _ _ _ _); [by eexists | by exists a].
    + destruct l; simpl; rewrite Ha; by eexists.
  - destruct (IH Hk) as [IH1 IH2]. destruct st as [b l0 gs]. simpl in *. subst l0. simpl. rewrite Hp. split.
    + destruct (star_loop p k gs (Some c) l) as [a|]; [by eexists | by destruct IH1].
    + destruct (k (mk_pos b (c :: l) gs)); [by eexists | done].
Qed.

Lemma run_sound {A} r st (k : pos -> option A) a :
  run r st k = Some a -> exists st', den r st st' /\ k st' = Some a.
Proof.
  revert st k a. induction r as [p| |r1 IH1 r2 IH2|r1 IH1 r2 IH2|p|p|r1 IH1|n r1 IH1| | | | |]; intros st k a; simpl.
  - destruct (rest st) as [|c l] eqn:Hr; [done|]. destruct (p c) eqn:Hp; [|done]. eauto 8.
  - eauto.
  - intros (m & H1 & (st' & H2 & H3)%IH2)%IH1. eauto.
  - destruct (run r1 st k) eqn:H1.
    + intros [= ->]. apply IH1 in H1 as (st' & ? & ?). eauto.
    + intros (st' & ? & ?)%IH2. eauto.
  - destruct st as [b l gs]. apply star_loop_sound.
  - destruct st as [b l gs]. apply lazy_loop_sound.
  - destruct (run r1 st k) eqn:H1.
    + intros [= ->]. apply IH1 in H1 as (st' & ? & ?). eauto.
    + intros H. eauto.
  - intros (m & H1 & H2)%IH1. eauto.
  - destruct (at_bol false st) eqn:H; [|done]. eauto.
  - destruct (at_bol true st) eqn:H; [|done]. eauto.
  - destruct (at_eos st) eqn:H; [|done]. eauto.
  - destruct (at_eol st) eqn:H; [|done]. eauto.
  - destruct (at_boundary st) eqn:H; [|done]. eauto.
Qed.

Lemma run_complete {A} r st st' (k : pos -> option A) :
  den r st st' -> is_Some (k st') -> is_Some (run r st k).
Proof.
  revert st st' k. induction r as [p| |r1 IH1 r2 IH2|r1 IH1 r2 IH2|p|p|r1 IH1|n r1 IH1| | | | |]; intros st st' k; simpl.
  - intros (c & l & -> & -> & ->). done.
  - by intros ->.
  - intros (m & H1 & H2) Hk. eapply IH1; [done|]. by eapply IH2.
  - intros [H|H] Hk.
    + destruct (IH1 _ _ _ H Hk) as [a ->]. by eexists.
    + destruct (run r1 st k); [by eexists | by eapply IH2].
  - intros H Hk. by apply (loops_complete p k st st').
  - intros H Hk. by apply (loops_complete p k st st').
  - intros [H| ->] Hk.
    + destruct (IH1 _ _ _ H Hk) as [a ->]. by eexists.
    + destruct (run r1 st k); [by eexists | done].
  - intros (m & H1 & ->) Hk. by eapply IH1.
  - by intros [-> ->].
  - by intros [-> ->].
  - by intros [-> ->].
  - by intros [-> ->].
  - by intros [-> ->].
Qed.

(** [search] succeeds exactly when some position of the text matches, and
    then reports a match there. *)
Inductive suffix_pos : option ascii -> list ascii -> pos -> Prop :=
| suffix_here b l : suffix_pos b l (mk_pos b l [])
| suffix_later b c l st : suffix_pos (Some c) l st -> suffix_pos b (c :: l) st.

Lemma search_from_spec r b l :
  match search_from r b l with
  | Some st' => exists st, suffix_pos b l st /\ den r st st'
  | None => forall st st', suffix_pos b l st -> ~ den r st st'
  end.
Proof.
  revert b. induction l as [|c l IH]; intros b; simpl; unfold match_at;
    destruct (run r _ Some) as [st'|] eqn:Hr;
    try (apply run_sound in Hr as (st1 & Hd & [= ->]); eexists; split; [apply suffix_here | done]).
  - intros st st' Hs Hd. inversion Hs; subst. pose proof (run_complete r _ _ Some Hd ltac:(by eexists)) as [? H].
    by rewrite H in Hr.
  - specialize (IH (Some c)). destruct (search_from r (Some c) l) as [st'|].
    + destruct IH as (st & Hs & Hd). exists st. split; [by apply suffix_later | done].
    + intros st st' Hs Hd. inversion Hs; subst; [|by eapply IH].
      pose proof (run_complete r _ _ Some Hd ltac:(by eexists)) as [? H]. by rewrite H in Hr.
Qed.

(** Does the text contain a match? *)
Definition occurs (r : re) (text : list ascii) : Prop := exists st st', suffix_pos None text st /\ den r st st'.

Lemma search_occurs r text : is_Some (search r text) <-> occurs r text.
Proof.
  unfold search, occurs. pose proof (search_from_spec r None text) as H. split.
  - intros [st' Hs]. rewrite Hs in H. destruct H as (st & ? & ?). eauto.
  - intros (st & st' & Hs & Hd). destruct (search_from r None text); [by eexists|]. by apply H in Hd.
Qed.

Lemma search_None r text : search r text = None <-> ~ occurs r text.
Proof.
  rewrite <- search_occurs, <- (eq_None_not_Some (search r text)). done.
Qed.

(** ** What the groups of a match hold *)

(** The groups a match always sets. *)
Fixpoint sure (r : re) : list nat :=
  match r with
  | Seq r1 r2 => sure r1 ++ sure r2
  | Group n r1 => n :: sure r1
  | _ => []
  end.

(** Every capture of [r] satisfies [Q]. *)
Fixpoint caps (Q : nat -> list ascii -> Prop) (r : re) : Prop :=
  match r with
  | Seq r1 r2 | Alt r1 r2 => caps Q r1 /\ caps Q r2
  | Opt r1 => caps Q r1
  | Group n r1 => caps Q r1 /\ forall st m, den r1 st m -> Q n (between_pos st m)
  | _ => True
  end.

Lemma many_spec p st st' :
  many p st st' -> exists u, rest st = u ++ rest st' /\ forallb p u = true /\ groups st' = groups st.
Proof.
  induction 1 as [st|st c l st' Hr Hp Hm (u & Hu & Hf & Hg)]; [by exists []|].
  exists (c :: u). simpl in *. by rewrite Hr, Hu, Hp, Hf, Hg.
Qed.

Lemma den_sure r st st' n :
  den r st st' -> n ∈ sure r \/ is_Some (group n st) -> is_Some (group n st').
Proof.
  revert st st'. induction r as [p| |r1 IH1 r2 IH2|r1 IH1 r2 IH2|p|p|r1 IH1|k r1 IH1| | | | |]; intros st st'; simpl;
    rewrite ?elem_of_nil.
  - intros (c & l & _ & _ & ->). naive_solver.
  - intros ->. naive_solver.
  - intros (m & H1 & H2) [[Hn|Hn]%elem_of_app|Hn]; eauto.
  - intros [H|H] [[]|Hn]; eauto.
  - intros (u & _ & _ & Hg)%many_spec. unfold group. rewrite Hg. naive_solver.
  - intros (u & _ & _ & Hg)%many_spec. unfold group. rewrite Hg. naive_solver.
  - intros [H| ->] [[]|Hn]; eauto.
  - intros (m & H1 & ->). unfold group, set_group. simpl. case_decide; [by eexists|].
    rewrite elem_of_cons. intros [[?|Hn]|Hn]; [done| |]; eapply IH1; eauto.
  - intros [_ ->]. naive_solver.
  - intros [_ ->]. naive_solver.
  - intros [_ ->]. naive_solver.
  - intros [_ ->]. naive_solver.
  - intros [_ ->]. naive_solver.
Qed.

Definition groups_ok (Q : nat -> list ascii -> Prop) (st : pos) : Prop := forall n v, (n, v) ∈ groups st -> Q n v.

Lemma den_caps Q r st st' : den r st st' -> caps Q r -> groups_ok Q st -> groups_ok Q st'.
Proof.
  revert st st'. induction r as [p| |r1 IH1 r2 IH2|r1 IH1 r2 IH2|p|p|r1 IH1|k r1 IH1| | | | |]; intros st st'; simpl.
  - by intros (c & l & _ & _ & ->).
  - by intros ->.
  - intros (m & H1 & H2) [] ?. eauto.
  - intros [H|H] [] ?; eauto.
  - intros (u & _ & _ & Hg)%many_spec. unfold groups_ok. by rewrite Hg.
  - intros (u & _ & _ & Hg)%many_spec. unfold groups_ok. by rewrite Hg.
  - intros [H| ->] ? ?; eauto.
  - intros (m & H1 & ->) [Hc Hq] Hok n v. simpl. rewrite elem_of_cons. intros [[= -> ->]|Hin]; [by apply Hq|].
    by eapply (IH1 _ _ H1).
  - by intros [_ ->].
  - by intros [_ ->].
  - by intros [_ ->].
  - by intros [_ ->].
  - by intros [_ ->].
Qed.

(** A group of a successful search is set and satisfies what its captures do. *)
Lemma search_group Q r text st n :
  search r text = Some st -> caps Q r -> n ∈ sure r -> exists v, group n st = Some v /\ Q n v.
Proof.
  intros Hs Hc Hn. pose proof (search_from_spec r None text) as H. unfold search in Hs. rewrite Hs in H.
  destruct H as (st0 & Hpos & Hd). destruct (den_sure r st0 st n Hd (or_introl Hn)) as [v Hv].
  exists v. split; [done|]. apply (den_caps Q r st0 st Hd Hc); [|by apply dict_get_elem].
  clear - Hpos. intros m w. induction Hpos; [|done]. by intros ?%elem_of_nil.
Qed.

(** What a class repetition captures. *)
Lemma between_pos_app st m u : rest st = u ++ rest m -> between_pos st m = u.
Proof.
  intros H. unfold between_pos. rewrite H, length_app.
  replace (length u + length (rest m) - length (rest m))%nat with (length u) by lia. by apply take_app_length.
Qed.

Lemma between_plus p st m : den (Plus p) st m -> forallb p (between_pos st m) = true /\ between_pos st m <> [].
Proof.
  intros (m1 & (c & l & Hr & Hp & ->) & (u & Hu & Hf & _)%many_spec).
  rewrite (between_pos_app st m (c :: u)); [|simpl in *; by rewrite Hr, Hu].
  simpl. by rewrite Hp, Hf.
Qed.

(** ** Symbolic execution on printed text *)

Lemma run_Lit {A} l b v gs (k : pos -> option A) :
  run (Lit_chars l) (mk_pos b (l ++ v) gs) k = k (mk_pos (match rev l with [] => b | c :: _ => Some c end) v gs).
Proof.
  revert b. induction l as [|c l IH]; intros b; simpl; [done|].
  rewrite Ascii.eqb_refl. unfold advance. simpl. rewrite IH.
  destruct (rev l) as [|d r] eqn:Hr; [done|]. done.
Qed.

(** The longest repetition is tried first. *)
Lemma run_Star {A} p u b v gs (k : pos -> option A) a :
  forallb p u = true -> match v with c :: _ => p c = false | [] => True end ->
  k (mk_pos (match rev u with [] => b | c :: _ => Some c end) v gs) = Some a ->
  run (Star p) (mk_pos b (u ++ v) gs) k = Some a.
Proof.
  simpl. revert b. induction u as [|c u IH]; intros b; simpl.
  - intros _ Hv Hk. destruct v as [|c v]; simpl; [done|]. by rewrite Hv.
  - intros [Hc Hu]%andb_true_iff Hv Hk. rewrite Hc, (IH (Some c)); [done..|].
    destruct (rev u) as [|d r] eqn:Hr; done.
Qed.

Lemma run_Plus {A} p c u b v gs (k : pos -> option A) a :
  forallb p (c :: u) = true -> match v with d :: _ => p d = false | [] => True end ->
  k (mk_pos (match rev (c :: u) with [] => b | d :: _ => Some d end) v gs) = Some a ->
  run (Plus p) (mk_pos b ((c :: u) ++ v) gs) k = Some a.
Proof.
  intros Hf Hv Hk. pose proof Hf as [Hc Hu]%andb_true_iff. simpl (run _ _ _). rewrite Hc.
  apply (run_Star p u (Some c) v gs k a Hu Hv). simpl in Hk. by destruct (rev u).
Qed.

(** A capture is a piece of the text. *)
Lemma den_length r st st' :
  den r st st' -> (length (rest st') <= length (rest st))%nat /\
  forall n v, (n, v) ∈ groups st' -> (n, v) ∈ groups st \/ (length v <= length (rest st))%nat.
Proof.
  revert st st'. induction r as [p| |r1 IH1 r2 IH2|r1 IH1 r2 IH2|p|p|r1 IH1|k r1 IH1| | | | |]; intros st st'; simpl.
  - intros (c & l & Hr & _ & ->). rewrite Hr. simpl. auto.
  - intros ->. auto.
  - intros (m & [H1 H2]%IH1 & [H3 H4]%IH2). split; [lia|].
    intros n v [Hg|Hg]%H4; [by apply H2 | right; lia].
  - intros [H|H]; auto.
  - intros (u & Hr & _ & ->)%many_spec. rewrite Hr, length_app. split; [lia | auto].
  - intros (u & Hr & _ & ->)%many_spec. rewrite Hr, length_app. split; [lia | auto].
  - intros [H| ->]; auto.
  - intros (m & [H1 H2]%IH1 & ->). split; [done|]. intros n v. simpl. rewrite elem_of_cons.
    intros [[= -> ->]|Hin]; [right | by apply H2]. unfold between_pos. rewrite length_take. lia.
  - intros [_ ->]. auto.
  - intros [_ ->]. auto.
  - intros [_ ->]. auto.
  - intros [_ ->]. auto.
  - intros [_ ->]. auto.
Qed.

Lemma search_group_length r text st n v :
  search r text = Some st -> group n st = Some v -> (length v <= length text)%nat.
Proof.
  intros Hs Hg%dict_get_elem. pose proof (search_from_spec r None text) as H. unfold search in Hs. rewrite Hs in H.
  destruct H as (st0 & Hpos & [_ Hd]%den_length). apply Hd in Hg.
  assert (groups st0 = [] /\ (length (rest st0) <= length text)%nat) as [H1 H2].
  { clear -Hpos. induction Hpos as [|b c l st Hp [IH1 IH2]]; simpl; [done|]. split; [done | lia]. }
  rewrite H1 in Hg. destruct Hg as [Hg%elem_of_nil|Hg]; [done | lia].
Qed.

Lemma den_Lit_chars w st st' : den (Lit_chars w) st st' -> rest st = w ++ rest st'.
Proof.
  revert st. induction w as [|c w IH]; intros st; simpl; [by intros ->|].
  intros (m & (c' & l & Hr & Hc & ->) & H). apply IH in H. simpl in H. rewrite Hr, H. by apply Ascii.eqb_eq in Hc as ->.
Qed.

Lemma den_Plus_text p st st' : den (Plus p) st st' -> exists u, rest st = u ++ rest st' /\ u <> [] /\ forallb p u = true.
Proof.
  intros (m & (c & l & Hr & Hc & ->) & (u & Hu & Hf & _)%many_spec). exists (c :: u). simpl in *. rewrite Hr, Hu, Hc. done.
Qed.

(** ** [re.sub] with an empty replacement *)

(** What no match covers, in order; after an empty match the scan moves one
    character, as in [finditer]. *)
Fixpoint remove_loop (fuel : nat) (r : re) (b : option ascii) (l : list ascii) : list ascii :=
  match fuel with
  | O => l
  | S fuel' =>
      match match_at r (mk_pos b l []) with
      | Some st =>
          if (length (rest st) <? length l)%nat then remove_loop fuel' r (before st) (rest st)
          else match l with c :: l' => c :: remove_loop fuel' r (Some c) l' | [] => [] end
      | None => match l with c :: l' => c :: remove_loop fuel' r (Some c) l' | [] => [] end
      end
  end.
Definition remove (r : re) (text : list ascii) : list ascii := remove_loop (S (length text)) r None text.

(** The length of the text is enough fuel. *)
Lemma remove_loop_fuel r n m b l : (length l < n)%nat -> (length l < m)%nat -> remove_loop n r b l = remove_loop m r b l.
Proof.
  revert m b l. induction n as [|n IH]; intros [|m] b l Hn Hm; [lia..|]. simpl.
  assert (match l with [] => [] | c :: l' => c :: remove_loop n r (Some c) l' end
          = match l with [] => [] | c :: l' => c :: remove_loop m r (Some c) l' end) as Hstep.
  { destruct l as [|c l]; [done|]. simpl in *. f_equal. apply IH; lia. }
  destruct (match_at r (mk_pos b l [])) as [st|]; [|done].
  destruct (length (rest st) <? length l)%nat eqn:Hlt; [|done]. apply Nat.ltb_lt in Hlt. apply IH; lia.
Qed.

(** Text in which nothing matches is kept. *)
Lemma remove_loop_none r n b l :
  (forall st st', suffix_pos b l st -> ~ den r st st') -> remove_loop n r b l = l.
Proof.
  revert b l. induction n as [|n IH]; intros b l Hno; [done|]. simpl.
  destruct (match_at r (mk_pos b l [])) as [st|] eqn:Hm.
  - apply run_sound in Hm as (st' & Hd & _). by destruct (Hno _ _ (suffix_here b l) Hd).
  - destruct l as [|c l]; [done|]. f_equal. apply IH. intros st st' Hs. apply (Hno st st'). by apply suffix_later.
Qed.
