(* ===== verification/FlprStatus.v ===== *)
(** * FLPR offload status parsing (scripts/flpr_status.py)

    The console grammar the stall and hang gates share.  The result
    dictionaries keep Python's insertion order; [None] of a parser is the
    [ValueError] of [int] on more than 4300 digits. *)

From S2P Require Import Prelude PyText PyRegex.

Open Scope re_scope.

(** ** Grammar *)

Definition spaces : re := Star is_space.
Definition spaces1 : re := Plus is_space.
Definition number (n : nat) : re := Group n (Plus is_digit).

(** [name=(\d+)] joined by [\s+]. *)
Fixpoint fields_re (n : nat) (names : list string) : re :=
  match names with
  | [] => Eps
  | [name] => Lit name • Lit "=" • number n
  | name :: names' => Lit name • Lit "=" • number n • spaces1 • fields_re (S n) names'
  end.

(** [label\s*:\s*] *)
Definition label_re (label : string) (r : re) : re := Lit label • spaces • Lit ":" • spaces • r.

Definition RE_STATE_LINE : re :=
  label_re "State" (Group 1 (Plus is_word) • spaces • Lit "/" • spaces • fields_re 2 ["epoch"; "gen"]).
Definition RE_COUNTERS : re := label_re "Counters" (fields_re 1 ["submit"; "success"; "fallback"; "busy"]).
Definition RE_RECOVERY : re := label_re "Recovery" (fields_re 1 ["attempts"; "fail"; "relapses"; "exhaustion"]).
Definition RE_PROBATION : re := label_re "Probation" (fields_re 1 ["active"; "success"; "cleared"]).
Definition RE_FAULTS : re :=
  label_re "Faults" (fields_re 1 ["timeout"; "full"; "stale"; "seq"; "frame"; "crc"; "payload"]).
Definition RE_RUNTIME : re := label_re "Runtime" (fields_re 1 ["restarts"; "fails"; "last_ms"; "remote_epoch"]).
Definition RE_HB_DEDUP : re := label_re "HB dedup" (number 1).
Definition RE_RECOVERY_OK : re := Lit "offload recovery OK:".

Definition RE_AUDIO_STATUS_MARKER : re := BolM • Lit "--- Audio status ---".
Definition RE_AUDIO_FAULT_FIELD : re :=
  BolM • spaces •
  Group 1 (Alt (Lit "Decode errors") (Alt (Lit "I2S underruns") (Alt (Lit "Stream resets") (Lit "Push failures")))) •
  spaces • Lit ":" • spaces • number 2.

(** ** Audio faults *)

Definition AUDIO_FAULT_FIELDS : list string := ["decode_errors"; "i2s_underruns"; "stream_resets"; "push_failures"].
Definition _AUDIO_FIELD_LABELS : list (string * string) :=
  [("Decode errors", "decode_errors"); ("I2S underruns", "i2s_underruns");
   ("Stream resets", "stream_resets"); ("Push failures", "push_failures")]%string.

Record audio_faults : Type := mk_audio_faults { status_seen : bool; faults : list (string * option Z) }.

(** [result[_AUDIO_FIELD_LABELS[m.group(1)]] = int(m.group(2))] *)
Definition set_fault (d : list (string * option Z)) (m : pos) : option (list (string * option Z)) :=
  label ← group 1 m; digits ← group 2 m;
  field ← dict_get (of_chars label) _AUDIO_FIELD_LABELS;
  v ← py_int digits;
  Some (dict_set field (Some v) d).

Definition parse_audio_faults (text : list ascii) : option audio_faults :=
  let seen := match search RE_AUDIO_STATUS_MARKER text with Some _ => true | None => false end in
  d ← fold_left (fun d m => d ← d; set_fault d m) (finditer RE_AUDIO_FAULT_FIELD text)
        (Some ((fun f => (f, None)) <$> AUDIO_FAULT_FIELDS));
  Some (mk_audio_faults seen d).

(** ** Offload status *)

Inductive field_value : Type := VNone | VWord (w : list ascii) | VInt (n : Z).
#[global] Instance field_value_eq : EqDecision field_value.
Proof. solve_decision. Defined.
Definition status : Type := list (string * field_value).

Definition STATUS_FIELDS : list string :=
  ["state"; "epoch"; "gen"; "submit"; "success"; "fallback"; "busy"; "recovery_attempts"; "recovery_fail"; "relapses";
   "exhaustion"; "probation_active"; "probation_success"; "probation_cleared"; "fault_timeout"; "fault_full";
   "fault_stale"; "fault_seq"; "fault_frame"; "fault_crc"; "fault_payload"; "runtime_restarts"; "runtime_fails";
   "runtime_last_ms"; "remote_epoch"; "hb_dedup"].

Definition empty_status : status :=
  dict_set "state"%string VNone ((fun f => (f, VInt (-1))) <$> STATUS_FIELDS).

(** [result[key] = int(m.group(n))], for consecutive groups. *)
Fixpoint set_ints (n : nat) (keys : list string) (m : pos) (d : status) : option status :=
  match keys with
  | [] => Some d
  | key :: keys' => digits ← group n m; v ← py_int digits; set_ints (S n) keys' m (dict_set key (VInt v) d)
  end.

(** [m = r.search(text); if m: ...] *)
Definition on_match (r : re) (text : list ascii) (f : pos -> status -> option status) (d : status) : option status :=
  match search r text with Some m => f m d | None => Some d end.

Definition set_state (m : pos) (d : status) : option status :=
  w ← group 1 m; set_ints 2 ["epoch"; "gen"] m (dict_set "state"%string (VWord w) d).

(** The numeric lines and the fields they fill. *)
Definition numeric_lines : list (re * list string) :=
  [(RE_COUNTERS, ["submit"; "success"; "fallback"; "busy"]);
   (RE_RECOVERY, ["recovery_attempts"; "recovery_fail"; "relapses"; "exhaustion"]);
   (RE_PROBATION, ["probation_active"; "probation_success"; "probation_cleared"]);
   (RE_FAULTS, ["fault_timeout"; "fault_full"; "fault_stale"; "fault_seq"; "fault_frame"; "fault_crc"; "fault_payload"]);
   (RE_RUNTIME, ["runtime_restarts"; "runtime_fails"; "runtime_last_ms"; "remote_epoch"]);
   (RE_HB_DEDUP, ["hb_dedup"])].

Definition parse_offload_status (text : list ascii) : option status :=
  d ← on_match RE_STATE_LINE text set_state empty_status;
  fold_left (fun d line => d ← d; on_match line.1 text (set_ints 1 line.2) d) numeric_lines (Some d).

(** ** Lemmas *)

(** A captured number, and a captured state word. *)
Definition digits_ok (n : nat) (v : list ascii) : Prop := forallb is_digit v = true.
Definition state_caps (n : nat) (v : list ascii) : Prop := (n = 1%nat /\ forallb is_word v = true) \/ digits_ok n v.

Lemma caps_Lit Q l : caps Q (Lit_chars l).
Proof. induction l; simpl; auto. Qed.

Lemma caps_mono (P Q : nat -> list ascii -> Prop) r : (forall n v, P n v -> Q n v) -> caps P r -> caps Q r.
Proof. intros H. induction r; simpl; naive_solver. Qed.

Lemma caps_number n : caps digits_ok (number n).
Proof. simpl. split; [done|]. intros st m H. by apply between_plus in H as [H _]. Qed.

Lemma caps_fields n names : caps digits_ok (fields_re n names).
Proof.
  revert n. induction names as [|x [|y names] IH]; intros n; [done| |].
  - split; [apply caps_Lit|]. split; [apply caps_Lit | apply caps_number].
  - change (caps digits_ok (Lit x • Lit "=" • number n • spaces1 • fields_re (S n) (y :: names))).
    split; [apply caps_Lit|]. split; [apply caps_Lit|]. split; [apply caps_number|]. split; [done|]. apply IH.
Qed.

Lemma sure_fields n names i : (i < length names)%nat -> (n + i)%nat ∈ sure (fields_re n names).
Proof.
  revert n i. induction names as [|x [|y names] IH]; intros n i Hi; simpl in Hi; [lia| |].
  - replace (n + i)%nat with n by lia. change (n ∈ sure (Lit x) ++ sure (Lit "=") ++ [n]).
    rewrite !elem_of_app. right; right. apply list_elem_of_here.
  - change ((n + i)%nat ∈ sure (Lit x) ++ sure (Lit "=") ++ [n] ++ [] ++ sure (fields_re (S n) (y :: names))).
    rewrite !elem_of_app. destruct i as [|i].
    + right; right; left. rewrite Nat.add_0_r. apply list_elem_of_here.
    + right; right; right; right. replace (n + S i)%nat with (S n + i)%nat by lia. apply IH. simpl. lia.
Qed.

Lemma caps_label Q label r : caps Q r -> caps Q (label_re label r).
Proof. intros H. split; [apply caps_Lit|]. split; [done|]. split; [apply caps_Lit|]. by split. Qed.

Lemma sure_label label r n : n ∈ sure r -> n ∈ sure (label_re label r).
Proof.
  intros H. change (n ∈ sure (Lit label) ++ [] ++ sure (Lit ":") ++ [] ++ sure r).
  rewrite !elem_of_app. auto.
Qed.

(** Numbers are captured in consecutive groups. *)
Lemma number_groups r text st n k :
  search r text = Some st -> caps state_caps r -> (2 <= n)%nat \/ caps digits_ok r ->
  (forall i, (i < k)%nat -> (n + i)%nat ∈ sure r) ->
  forall i, (i < k)%nat -> exists v, group (n + i) st = Some v /\ digits_ok (n + i) v.
Proof.
  intros Hs Hc Hn Hsure i Hi. destruct Hn as [Hn|Hd].
  - destruct (search_group state_caps r text st (n + i) Hs Hc (Hsure i Hi)) as (v & Hv & [[? _]|?]); [lia|]. eauto.
  - by apply (search_group digits_ok r text st (n + i) Hs Hd (Hsure i Hi)).
Qed.

(** What [set_ints] does to the dictionary. *)
Lemma set_ints_spec keys n m d d' :
  NoDup keys -> set_ints n keys m d = Some d' ->
  (forall i v, (i < length keys)%nat -> group (n + i) m = Some v -> digits_ok (n + i) v ->
    exists z, dict_get (nth i keys EmptyString) d' = Some (VInt z) /\ 0 <= z) /\
  (forall key, key ∉ keys -> dict_get key d' = dict_get key d).
Proof.
  intros Hnd. revert n d. induction Hnd as [|key keys Hk Hnd IH]; intros n d; simpl.
  { intros [= <-]. split; [lia | done]. }
  intros (digits & Hd & (v & Hv & H)%bind_Some)%bind_Some. apply IH in H as [H1 H2]. split.
  - intros [|i] w Hi Hg Hok.
    + rewrite Nat.add_0_r in Hg, Hok. rewrite Hd in Hg. injection Hg as <-. exists v.
      rewrite H2, dict_get_set_eq by done. split; [done|].
      unfold py_int in Hv. case_match; [|done]. injection Hv as <-. by apply int_of_digits_nonneg.
    + replace (n + S i)%nat with (S n + i)%nat in Hg, Hok by lia. apply (H1 i w); [lia | done | done].
  - intros k' Hk'. rewrite not_elem_of_cons in Hk'. destruct Hk' as [Hne Hk'].
    rewrite H2 by done. by rewrite dict_get_set_ne.
Qed.

(** A line whose regular expression captures one number per key. *)
Record numeric (line : re * list string) : Prop := mk_numeric {
  numeric_caps : caps digits_ok line.1;
  numeric_sure : forall i, (i < length line.2)%nat -> (1 + i)%nat ∈ sure line.1;
  numeric_keys : NoDup line.2;
}.

Lemma numeric_fields label names keys :
  length keys = length names -> NoDup keys -> numeric (label_re label (fields_re 1 names), keys).
Proof.
  intros Hl Hk. constructor; simpl; [apply caps_label, caps_fields | | done].
  intros i Hi. apply sure_label, (sure_fields 1 names i). lia.
Qed.

Definition seen (text : list ascii) (line : re * list string) (d : status) : Prop :=
  occurs line.1 text /\ forall key, key ∈ line.2 -> exists z, dict_get key d = Some (VInt z) /\ 0 <= z.
Definition unseen (text : list ascii) (line : re * list string) (d0 d : status) : Prop :=
  ~ occurs line.1 text /\ forall key, key ∈ line.2 -> dict_get key d = dict_get key d0.

Lemma elem_of_nth (key : string) keys : key ∈ keys -> exists i, (i < length keys)%nat /\ nth i keys EmptyString = key.
Proof. rewrite list_elem_of_In. apply In_nth. Qed.

Lemma numeric_line_spec line text d d' :
  numeric line -> on_match line.1 text (set_ints 1 line.2) d = Some d' ->
  (seen text line d' \/ unseen text line d d') /\ forall key, key ∉ line.2 -> dict_get key d' = dict_get key d.
Proof.
  intros [Hc Hs Hnd]. unfold on_match. destruct (search line.1 text) as [st|] eqn:Hr.
  - intros H. apply set_ints_spec in H as [H Ho]; [|done]. split; [left | done].
    split; [apply search_occurs; by eexists|]. intros key (i & Hi & <-)%elem_of_nth.
    destruct (number_groups line.1 text st 1 (length line.2) Hr) with (i := i) as (v & Hv & Hok); try done.
    + eapply caps_mono; [|done]. by right.
    + by right.
    + by eapply H.
  - intros [= <-]. split; [right | done]. split; [by apply search_None | done].
Qed.

Lemma fold_lines_None text (lines : list (re * list string)) :
  fold_left (fun d line => d ← d; on_match line.1 text (set_ints 1 line.2) d) lines None = None.
Proof. by induction lines. Qed.

(** The lines fill disjoint keys, one after the other. *)
Lemma fold_lines text lines d d' :
  Forall numeric lines -> NoDup (lines ≫= snd) ->
  fold_left (fun d line => d ← d; on_match line.1 text (set_ints 1 line.2) d) lines (Some d) = Some d' ->
  Forall (fun line => seen text line d' \/ unseen text line d d') lines /\
  forall key, key ∉ lines ≫= snd -> dict_get key d' = dict_get key d.
Proof.
  intros Hn. revert d. induction Hn as [|line lines Hl Hn IH]; intros d; simpl.
  { intros _ [= <-]. by split. }
  intros (Hd1 & Hd2 & Hd3)%NoDup_app H.
  destruct (on_match line.1 text (set_ints 1 line.2) d) as [d1|] eqn:H1; [|by rewrite fold_lines_None in H].
  apply numeric_line_spec in H1 as [H1 Ho1]; [|done]. apply IH in H as [H2 Ho2]; [|done].
  split; [constructor|].
  - destruct H1 as [[Hs H1]|[Hs H1]]; [left|right]; (split; [done|]); intros key Hk;
      (rewrite Ho2 by by apply Hd2); by apply H1.
  - rewrite Forall_forall in H2 |- *. intros l2 Hin. destruct (H2 l2 Hin) as [?|[Hs Hl2]]; [by left | right].
    split; [done|]. intros key Hk. rewrite Hl2 by done. apply Ho1. intros Hk1.
    apply (Hd2 key Hk1). apply list_elem_of_bind. by exists l2.
  - intros key Hk. rewrite not_elem_of_app in Hk. destruct Hk as [Hk1 Hk2]. by rewrite Ho2, Ho1.
Qed.

Lemma numeric_lines_numeric : Forall numeric numeric_lines.
Proof.
  unfold numeric_lines. repeat apply Forall_cons_2; [..|apply Forall_nil_2];
    try (apply numeric_fields; [done | apply (bool_decide_eq_true_1 _); reflexivity]).
  constructor; [apply caps_label, caps_number | | apply NoDup_singleton].
  intros [|i] Hi; simpl in Hi; [|lia]. apply sure_label. apply list_elem_of_here.
Qed.

(** The state line. *)
Definition state_seen (text : list ascii) (d : status) : Prop :=
  occurs RE_STATE_LINE text /\
  (exists w, dict_get "state"%string d = Some (VWord w) /\ forallb is_word w = true) /\
  (exists z, dict_get "epoch"%string d = Some (VInt z) /\ 0 <= z) /\
  (exists z, dict_get "gen"%string d = Some (VInt z) /\ 0 <= z).
Definition state_fields : list string := ["state"; "epoch"; "gen"].
Definition state_unseen (text : list ascii) (d : status) : Prop :=
  ~ occurs RE_STATE_LINE text /\ dict_get "state"%string d = Some VNone /\
  dict_get "epoch"%string d = Some (VInt (-1)) /\ dict_get "gen"%string d = Some (VInt (-1)).

Lemma digits_words v : forallb is_digit v = true -> forallb is_word v = true.
Proof.
  rewrite !forallb_forall. intros H c Hc%H. unfold is_word. rewrite Hc. by rewrite orb_true_r.
Qed.

Lemma caps_state : caps state_caps RE_STATE_LINE.
Proof.
  apply caps_label. split.
  - split; [done|]. intros st m H. left. split; [done|]. by apply between_plus in H as [H _].
  - split; [done|]. split; [apply caps_Lit|]. split; [done|].
    eapply caps_mono; [|apply (caps_fields 2)]. intros n v H. by right.
Qed.

Lemma sure_state n : n ∈ [1; 2; 3]%nat -> n ∈ sure RE_STATE_LINE.
Proof.
  rewrite !elem_of_cons. intros Hn. apply sure_label.
  change (n ∈ [1%nat] ++ [] ++ sure (Lit "/") ++ [] ++ sure (fields_re 2 ["epoch"; "gen"])).
  rewrite !elem_of_app. destruct Hn as [->|[->|[->|Hn%elem_of_nil]]]; [..|done].
  - left. apply list_elem_of_here.
  - right; right; right; right. by apply (sure_fields 2 _ 0); simpl; lia.
  - right; right; right; right. by apply (sure_fields 2 _ 1); simpl; lia.
Qed.

Lemma state_line_spec text d' :
  on_match RE_STATE_LINE text set_state empty_status = Some d' ->
  (state_seen text d' \/ state_unseen text d') /\
  forall key, key ∉ state_fields -> dict_get key d' = dict_get key empty_status.
Proof.
  unfold on_match. destruct (search RE_STATE_LINE text) as [st|] eqn:Hr.
  - unfold set_state. intros (w & Hw & H)%bind_Some. apply set_ints_spec in H as [H Ho];
      [|apply (bool_decide_eq_true_1 _); reflexivity]. split.
    + left. split; [apply search_occurs; by eexists|].
      assert (forall i, (i < 2)%nat -> exists v, group (2 + i) st = Some v /\ digits_ok (2 + i) v) as Hd.
      { apply (number_groups RE_STATE_LINE text st 2 2 Hr caps_state); [by left|].
        intros [|[|i]] Hi; [apply sure_state.. | lia]; rewrite !elem_of_cons; auto. }
      split_and!.
      * exists w. rewrite Ho by (rewrite !elem_of_cons, elem_of_nil; naive_solver). rewrite dict_get_set_eq.
        split; [done|]. destruct (search_group state_caps RE_STATE_LINE text st 1 Hr caps_state) as (v & Hv & Hq).
        { apply sure_state, list_elem_of_here. }
        rewrite Hw in Hv. injection Hv as <-. destruct Hq as [[_ Hq]|Hq]; [done | by apply digits_words].
      * destruct (Hd 0%nat) as (v & Hv & Hok); [lia|]. apply (H 0%nat v); [simpl; lia | done | done].
      * destruct (Hd 1%nat) as (v & Hv & Hok); [lia|]. apply (H 1%nat v); [simpl; lia | done | done].
    + intros key Hk. unfold state_fields in Hk. rewrite !not_elem_of_cons in Hk.
      rewrite Ho by (rewrite !not_elem_of_cons; naive_solver). rewrite dict_get_set_ne by naive_solver. done.
  - intros [= <-]. split; [right | done]. split; [by apply search_None | done].
Qed.

(** ** Properties *)

Lemma sentinels text d :
  parse_offload_status text = Some d ->
  (state_seen text d \/ state_unseen text d) /\
  Forall (fun line =>
    seen text line d \/
    ~ occurs line.1 text /\ forall key, key ∈ line.2 -> dict_get key d = Some (VInt (-1))) numeric_lines.
Proof.
  unfold parse_offload_status. intros (d1 & H1 & H)%bind_Some. apply state_line_spec in H1 as [H1 Ho1].
  apply fold_lines in H as [H2 Ho2]; [|apply numeric_lines_numeric | apply (bool_decide_eq_true_1 _); reflexivity].
  assert (Forall (fun key => dict_get key empty_status = Some (VInt (-1)) /\ key ∉ state_fields) (numeric_lines ≫= snd)) as Hinit.
  { apply (bool_decide_eq_true_1 _). vm_compute. reflexivity. }
  split.
  - assert (forall key, key ∈ state_fields -> dict_get key d = dict_get key d1) as Hk.
    { intros key Hk. apply Ho2. intros Hin. rewrite Forall_forall in Hinit. by destruct (Hinit key Hin). }
    unfold state_seen, state_unseen in *.
    rewrite !Hk by (apply (bool_decide_eq_true_1 _); reflexivity). done.
  - rewrite Forall_forall in H2 |- *. rewrite Forall_forall in Hinit. intros line Hl.
    destruct (H2 line Hl) as [?|[Hn Hl2]]; [by left | right]. split; [done|]. intros key Hk.
    assert (key ∈ numeric_lines ≫= snd) as Hin by (apply list_elem_of_bind; by exists line).
    destruct (Hinit key Hin) as [Hi Hs]. by rewrite Hl2, Ho1.
Qed.

(** Missing evidence is never read as a number: after parsing, the fields
    of each line are non-negative when the text contains that line, and keep
    their sentinels (-1, no state) exactly when it does not. *)
Theorem status_sentinels text d :
  parse_offload_status text = Some d ->
  (state_seen text d \/ state_unseen text d) /\
  Forall (fun line =>
    seen text line d \/
    ~ occurs line.1 text /\ forall key, key ∈ line.2 -> dict_get key d = Some (VInt (-1))) numeric_lines.
Proof. apply sentinels. Qed.

Lemma set_ints_total keys n m d :
  (forall i, (i < length keys)%nat -> exists v, group (n + i) m = Some v /\ (length v <= int_max_str_digits)%nat) ->
  is_Some (set_ints n keys m d).
Proof.
  revert n d. induction keys as [|key keys IH]; intros n d H; simpl; [by eexists|].
  destruct (H 0%nat) as (v & Hv & Hl); [simpl; lia|]. rewrite Nat.add_0_r in Hv. rewrite Hv. simpl.
  unfold py_int. apply Nat.leb_le in Hl. rewrite Hl. simpl. apply IH. intros i Hi.
  destruct (H (S i)) as (w & Hw & ?); [simpl; lia|]. exists w. by replace (S n + i)%nat with (n + S i)%nat by lia.
Qed.

Lemma fold_total text lines d :
  (length text <= int_max_str_digits)%nat -> Forall numeric lines ->
  is_Some (fold_left (fun d line => d ← d; on_match line.1 text (set_ints 1 line.2) d) lines (Some d)).
Proof.
  intros Hlen Hn. revert d. induction Hn as [|line lines Hl Hn IH]; intros d1; simpl; [by eexists|].
  assert (exists d2, on_match line.1 text (set_ints 1 line.2) d1 = Some d2) as [d2 ->]; [|apply IH].
  unfold on_match. destruct (search line.1 text) as [st|] eqn:Hr; [|by eexists].
  assert (is_Some (set_ints 1 line.2 st d1)) as [d2 Hd2]; [|by exists d2].
  apply set_ints_total. intros i Hi. destruct Hl as [Hc Hs _].
  destruct (search_group digits_ok _ _ _ (1 + i) Hr Hc (Hs i Hi)) as (v & Hv & _).
  exists v. split; [done|]. apply (search_group_length _ _ _ _ _ Hr) in Hv. lia.
Qed.

(** Parsing a status text of at most 4300 characters never raises. *)
Theorem status_total text :
  (length text <= int_max_str_digits)%nat -> is_Some (parse_offload_status text).
Proof.
  intros Hlen. unfold parse_offload_status.
  assert (exists d1, on_match RE_STATE_LINE text set_state empty_status = Some d1) as [d1 ->].
  { unfold on_match. destruct (search RE_STATE_LINE text) as [st|] eqn:Hr; [|by eexists].
    destruct (search_group state_caps _ _ _ 1 Hr caps_state) as (w & Hw & _); [apply sure_state, list_elem_of_here|].
    assert (set_state st empty_status = set_ints 2 ["epoch"; "gen"] st (dict_set "state"%string (VWord w) empty_status)) as ->
      by (unfold set_state; by rewrite Hw).
    assert (is_Some (set_ints 2 ["epoch"; "gen"] st (dict_set "state"%string (VWord w) empty_status))) as [d1 Hd1]; [|by exists d1].
    apply set_ints_total. intros i Hi.
    destruct (search_group state_caps _ _ _ (2 + i) Hr caps_state) as (v & Hv & _).
    { apply sure_state. destruct i as [|[|i]]; simpl in Hi; [..|lia]; rewrite !elem_of_cons; auto. }
    exists v. split; [done|]. apply (search_group_length _ _ _ _ _ Hr) in Hv. lia. }
  by apply fold_total, numeric_lines_numeric.
Qed.

(** Printing a line of fields, as the firmware's [%u] formats do. *)
Fixpoint fields_text (names : list string) (values : list Z) : list ascii :=
  match names, values with
  | [name], [v] => chars name ++ "="%char :: dec_digits v
  | name :: names', v :: values' => chars name ++ "="%char :: dec_digits v ++ " "%char :: fields_text names' values'
  | _, _ => []
  end.

Definition line_text (label : string) (names : list string) (values : list Z) : list ascii :=
  chars label ++ chars " : " ++ fields_text names values.

Lemma dec_digits_head v : 0 <= v -> exists c u, dec_digits v = c :: u /\ forallb is_digit (c :: u) = true.
Proof.
  intros Hv. pose proof (dec_digits_canonical v Hv) as Hc. pose proof (dec_digits_all v Hv) as Ha.
  destruct (dec_digits v) as [|c u]; [done|]. by exists c, u.
Qed.

(** The groups a line of fields leaves, innermost last. *)
Fixpoint field_groups (n : nat) (values : list Z) (gs : list (nat * list ascii)) : list (nat * list ascii) :=
  match values with
  | [] => gs
  | v :: values' => field_groups (S n) values' ((n, dec_digits v) :: gs)
  end.

(** The result of a continuation, up to the character before the position. *)
Definition yields {A} (P : A -> Prop) (o : option A) : Prop := exists a, o = Some a /\ P a.

Lemma run_number {A} (P : A -> Prop) n v b l gs (k : pos -> option A) :
  0 <= v -> match l with c :: _ => is_digit c = false | [] => True end ->
  (forall b', yields P (k (mk_pos b' l ((n, dec_digits v) :: gs)))) ->
  yields P (run (number n) (mk_pos b (dec_digits v ++ l) gs) k).
Proof.
  intros Hv Hl Hk. destruct (dec_digits_head v Hv) as (c & u & Hd & Hf). unfold number.
  change (run (Group n (Plus is_digit)) (mk_pos b (dec_digits v ++ l) gs) k)
    with (run (Plus is_digit) (mk_pos b (dec_digits v ++ l) gs)
            (fun st' => k (set_group n (between_pos (mk_pos b (dec_digits v ++ l) gs) st') st'))).
  destruct (Hk (match rev (c :: u) with [] => b | d :: _ => Some d end)) as (a & Ha & HP).
  exists a. split; [|done]. rewrite Hd. apply run_Plus; [done | done |].
  unfold set_group. simpl before. simpl groups. rewrite (between_pos_app _ _ (c :: u)) by done.
  simpl rest. rewrite <- Hd. exact Ha.
Qed.

(** A field name: not empty, and it does not start with white space. *)
Definition good_name (name : string) : bool :=
  match chars name with [] => false | c :: _ => negb (is_space c) end.

Lemma run_spaces {A} (P : A -> Prop) b v gs (k : pos -> option A) :
  match v with c :: _ => is_space c = false | [] => True end ->
  (forall b', yields P (k (mk_pos b' v gs))) ->
  yields P (run spaces (mk_pos b (" "%char :: v) gs) k) /\ yields P (run spaces1 (mk_pos b (" "%char :: v) gs) k).
Proof.
  intros Hv Hk. destruct (Hk (Some " "%char)) as (a & Ha & HP). split; exists a; (split; [|done]).
  - by apply (run_Star is_space [" "%char] b v gs k a).
  - by apply (run_Plus is_space " "%char [] b v gs k a).
Qed.

Lemma run_chr {A} c b v gs (k : pos -> option A) :
  run (Lit_chars [c]) (mk_pos b (c :: v) gs) k = k (mk_pos (Some c) v gs).
Proof. apply (run_Lit [c] b v gs k). Qed.

Lemma fields_text_head name names values l :
  good_name name = true -> length (name :: names) = length values ->
  match fields_text (name :: names) values ++ l with c :: _ => is_space c = false | [] => True end.
Proof.
  unfold good_name. intros Hg Hl. destruct values as [|v values]; [done|].
  destruct names as [|y names], values as [|w values]; try done; simpl; destruct (chars name); simpl; try done;
    by destruct (is_space _).
Qed.

Lemma run_fields {A} (P : A -> Prop) names values n b l gs (k : pos -> option A) :
  length names = length values -> names <> [] -> Forall (fun v => 0 <= v) values ->
  Forall (fun name => good_name name = true) names ->
  match l with c :: _ => is_digit c = false | [] => True end ->
  (forall b', yields P (k (mk_pos b' l (field_groups n values gs)))) ->
  yields P (run (fields_re n names) (mk_pos b (fields_text names values ++ l) gs) k).
Proof.
  revert values n b gs. induction names as [|x [|y names] IH]; intros values n b gs Hlen Hne Hv Hg Hl Hk; [done| |].
  - destruct values as [|v [|]]; try done. apply Forall_cons in Hv as [Hv _].
    change (yields P (run (Lit x) (mk_pos b ((chars x ++ "="%char :: dec_digits v) ++ l) gs)
      (fun st => run (Lit_chars ["="%char]) st (fun st => run (number n) st k)))).
    rewrite <- app_assoc. unfold Lit. rewrite run_Lit. simpl app. rewrite run_chr. by apply run_number.
  - destruct values as [|v [|w values]]; try done. apply Forall_cons in Hv as [Hv Hvs].
    apply Forall_cons in Hg as [Hgx Hg]. pose proof Hg as [Hgy _]%Forall_cons.
    change (yields P (run (Lit x) (mk_pos b ((chars x ++ "="%char :: dec_digits v ++ " "%char :: fields_text (y :: names) (w :: values)) ++ l) gs)
      (fun st => run (Lit_chars ["="%char]) st (fun st => run (number n) st (fun st => run spaces1 st
        (fun st => run (fields_re (S n) (y :: names)) st k)))))).
    rewrite <- app_assoc. unfold Lit. rewrite run_Lit.
    change (("="%char :: dec_digits v ++ " "%char :: fields_text (y :: names) (w :: values)) ++ l)
      with ("="%char :: (dec_digits v ++ " "%char :: fields_text (y :: names) (w :: values)) ++ l).
    rewrite run_chr, <- app_assoc. apply run_number; [done | done |]. intros b1.
    apply run_spaces; [apply fields_text_head; [done | simpl in *; lia]|]. intros b2.
    apply IH; try done. simpl in *; lia.
Qed.

Lemma field_groups_get values n gs i v :
  values !! i = Some v -> dict_get (n + i)%nat (field_groups n values gs) = Some (dec_digits v).
Proof.
  assert (forall values n gs m, (m < n)%nat -> dict_get m (field_groups n values gs) = dict_get m gs) as Hlow.
  { clear. induction values as [|v values IH]; intros n gs m Hm; [done|]. simpl. rewrite IH by lia.
    simpl. by rewrite decide_False by lia. }
  revert n gs i. induction values as [|w values IH]; intros n gs i; [done|]. destruct i as [|i]; simpl.
  - intros [= ->]. rewrite Nat.add_0_r, Hlow by lia. simpl. by rewrite decide_True.
  - intros H. replace (n + S i)%nat with (S n + i)%nat by lia. by apply IH.
Qed.

(** Print then parse: on a line of fields printed with their values, the
    line's regular expression matches and every group reads back as the value
    printed. *)
Theorem line_roundtrip label names values l :
  names <> [] -> length names = length values -> Forall (fun v => 0 <= v) values ->
  forallb good_name names = true -> match l with c :: _ => is_digit c = false | [] => True end ->
  exists st, search (label_re label (fields_re 1 names)) (line_text label names values ++ l) = Some st /\
    forall i v, values !! i = Some v -> int_of_digits <$> group (S i) st = Some v.
Proof.
  intros Hne Hlen Hv Hg Hl. set (r := label_re _ _). set (text := line_text _ _ _ ++ l).
  assert (Forall (fun name => good_name name = true) names) as Hg' by (apply Forall_forall; intros x Hx;
    rewrite forallb_forall in Hg; apply Hg; by rewrite <- list_elem_of_In).
  assert (yields (fun st => groups st = field_groups 1 values []) (match_at r (mk_pos None text []))) as (st & Hm & Hst).
  { subst text r. unfold line_text, match_at.
    change (yields (fun st => groups st = field_groups 1 values [])
      (run (Lit label) (mk_pos None ((chars label ++ " "%char :: ":"%char :: " "%char :: fields_text names values) ++ l) [])
        (fun st => run spaces st (fun st => run (Lit_chars [":"%char]) st (fun st => run spaces st
          (fun st => run (fields_re 1 names) st Some)))))).
    rewrite <- app_assoc. unfold Lit. rewrite run_Lit. apply run_spaces; [done|]. intros b1.
    change ((":"%char :: " "%char :: fields_text names values) ++ l)
      with (":"%char :: " "%char :: fields_text names values ++ l).
    rewrite run_chr. apply run_spaces.
    - destruct names as [|name names]; [done|]. apply fields_text_head; [by inversion Hg' | done].
    - intros b2. apply run_fields; try done. intros b3. by eexists. }
  exists st. split.
  - unfold search. subst text. destruct (line_text label names values ++ l) eqn:Ht; simpl; by rewrite Hm.
  - intros i v Hi. unfold group. rewrite Hst. change (S i) with (1 + i)%nat.
    rewrite (field_groups_get _ _ _ _ _ Hi). simpl. f_equal. apply int_dec_digits.
    apply (Forall_lookup_1 _ _ _ _ Hv Hi).
Qed.

(** The value of the last line with this label among the matches. *)
Fixpoint last_value (label : string) (ms : list pos) (v : option Z) : option Z :=
  match ms with
  | [] => v
  | m :: ms' =>
      last_value label ms'
        (if bool_decide (group 1 m = Some (chars label)) then int_of_digits <$> group 2 m else v)
  end.

Lemma set_fault_spec label field d m d' v :
  (label, field) ∈ _AUDIO_FIELD_LABELS -> set_fault d m = Some d' -> dict_get field d = Some v ->
  dict_get field d' = Some (if bool_decide (group 1 m = Some (chars label)) then int_of_digits <$> group 2 m else v).
Proof.
  intros Hin Hs Hd. unfold set_fault in Hs.
  apply bind_Some in Hs as (l & Hl & (digits & Hg & (f & Hf & (z & Hz & [= <-])%bind_Some)%bind_Some)%bind_Some).
  rewrite Hl, Hg. unfold py_int in Hz. case_match; [|done]. injection Hz as <-. simpl.
  apply dict_get_elem in Hf.
  assert (forall l1 l2 f1 f2, (l1, f1) ∈ _AUDIO_FIELD_LABELS -> (l2, f2) ∈ _AUDIO_FIELD_LABELS -> (f1 = f2 <-> l1 = l2)) as Hinj.
  { intros l1 l2 f1 f2. unfold _AUDIO_FIELD_LABELS. rewrite !elem_of_cons, !elem_of_nil.
    intros [[= -> ->]|[[= -> ->]|[[= -> ->]|[[= -> ->]|[]]]]] [[= -> ->]|[[= -> ->]|[[= -> ->]|[[= -> ->]|[]]]]]; done. }
  case_bool_decide as Hb.
  - injection Hb as ->. rewrite of_chars_chars in Hf.
    assert (f = field) as -> by (eapply Hinj; [exact Hf | exact Hin | done]). by rewrite dict_get_set_eq.
  - rewrite dict_get_set_ne; [done|]. intros ->. apply Hb.
    assert (label = of_chars l) as -> by (by apply (Hinj label (of_chars l) f f)). by rewrite chars_of_chars.
Qed.

(** The audio fault parser reports the last occurrence of each field, and
    no value at all when no line carries it. *)
Theorem audio_faults_last text r label field :
  parse_audio_faults text = Some r -> (label, field) ∈ _AUDIO_FIELD_LABELS ->
  dict_get field (faults r) = Some (last_value label (finditer RE_AUDIO_FAULT_FIELD text) None) /\
  (status_seen r = true <-> occurs RE_AUDIO_STATUS_MARKER text).
Proof.
  unfold parse_audio_faults. intros (d & Hd & [= <-])%bind_Some Hin. simpl. split.
  - assert (forall ms d0 v, dict_get field d0 = Some v ->
      fold_left (fun d m => d ← d; set_fault d m) ms (Some d0) = Some d ->
      dict_get field d = Some (last_value label ms v)) as H.
    { clear Hd. induction ms as [|m ms IH]; intros d0 v Hv; simpl; [by intros [= <-]|].
      destruct (set_fault d0 m) as [d1|] eqn:Hs.
      - intros H. eapply IH; [|exact H]. by eapply set_fault_spec.
      - intros H. exfalso. clear -H. simpl in H. induction ms as [|m' ms IH]; [done|]. by apply IH. }
    eapply H; [|exact Hd]. unfold _AUDIO_FIELD_LABELS in Hin. rewrite !elem_of_cons, !elem_of_nil in Hin.
    by destruct Hin as [[= -> ->]|[[= -> ->]|[[= -> ->]|[[= -> ->]|[]]]]].
  - rewrite <- search_occurs. destruct (search _ _); split; intros H; try done; by destruct H.
Qed.

Module FlprWitnesses.
Definition demo_status : list ascii :=
  chars "  State      : ACTIVE / epoch=3 gen=17" ++ [newline] ++ chars "  Counters   : submit=12 success=11 fallback=1 busy=0".

Lemma status_sentinels_witness :
  exists d, parse_offload_status demo_status = Some d /\ (state_seen demo_status d \/ state_unseen demo_status d) /\
    dict_get "busy"%string d = Some (VInt 0) /\ dict_get "relapses"%string d = Some (VInt (-1)).
Proof.
  assert (exists d, parse_offload_status demo_status = Some d /\ dict_get "busy"%string d = Some (VInt 0) /\
    dict_get "relapses"%string d = Some (VInt (-1))) as (d & Hd & H1 & H2)
    by (eexists; split; [vm_compute; reflexivity | by vm_compute]).
  exists d. split; [done|]. split; [apply (status_sentinels _ _ Hd) | done].
Defined.

Lemma status_total_witness : is_Some (parse_offload_status demo_status).
Proof. apply status_total. apply (Nat.leb_le _ _). vm_compute. reflexivity. Defined.

Lemma line_roundtrip_witness :
  exists st, search RE_COUNTERS (line_text "Counters" ["submit"; "success"; "fallback"; "busy"] [12; 11; 1; 0] ++ [newline]) = Some st /\
    int_of_digits <$> group 2 st = Some 11.
Proof.
  destruct (line_roundtrip "Counters" ["submit"; "success"; "fallback"; "busy"] [12; 11; 1; 0] [newline])
    as (st & Hst & H); [done | done | repeat constructor; lia | done | done |].
  exists st. split; [exact Hst | by apply (H 1%nat)].
Defined.

Definition demo_audio : list ascii :=
  chars "--- Audio status ---" ++ [newline] ++ chars "Decode errors : 3" ++ [newline] ++ chars "  Decode errors : 5".

Lemma audio_faults_last_witness :
  exists r, parse_audio_faults demo_audio = Some r /\ dict_get "decode_errors"%string (faults r) = Some (Some 5).
Proof.
  assert (exists r, parse_audio_faults demo_audio = Some r) as [r Hr] by (eexists; vm_compute; reflexivity).
  exists r. split; [done|].
  destruct (audio_faults_last demo_audio r "Decode errors" "decode_errors" Hr) as [H _]; [apply list_elem_of_here|].
  etransitivity; [exact H|]. vm_compute. reflexivity.
Defined.
End FlprWitnesses.
