(* ===== verification/ProjectVersion.v ===== *)
(** * Zephyr VERSION reader (scripts/project-version.py)

    [parse_version] on the decoded text (ASCII), [_read_version_file] on what
    the file system answers, and the exit status and output of [main]. *)

From S2P Require Import Prelude PyText PyRegex.

Open Scope re_scope.
#[local] Arguments Ascii.eqb : simpl never.

Definition KEYS : list string := ["VERSION_MAJOR"; "VERSION_MINOR"; "PATCHLEVEL"; "VERSION_TWEAK"; "EXTRAVERSION"].

Definition is_ident_start (c : ascii) : bool := is_alpha c || (code c =? 95).
(** A zero, or a number without leading zero. *)
Definition _NUMERIC_RE : re := Bol • Group 1 (Alt (Lit "0") (Cls (between 49 57) • Star is_digit)) • Eos.
(** An identifier, [=], and the value without surrounding white space. *)
Definition _ASSIGN_RE : re :=
  Bol • Group 1 (Cls is_ident_start • Star is_word) • Star is_space • Lit "=" • Star is_space •
  Group 2 (Lazy dot) • Star is_space • Eos.

Inductive version_error : Type :=
| MalformedAssignment (lineno : nat) | UnknownKey (key : list ascii) (lineno : nat) | DuplicateKey (key : list ascii) (lineno : nat)
| MissingKeys (keys : list string) | InvalidValue (key : string) | OutsideRange (key : string) (n : Z)
| TweakNotZero | ExtraNotEmpty
| IsSymlink | CannotBeRead | NotRegular | EmptyFile | NotUtf8
| PlainValueError. (** the [ValueError] of [int], not a [VersionError] *)

Definition values_t : Type := list (string * list ascii).

(** One line of the file. *)
Definition parse_line (lineno : nat) (raw : list ascii) (values : values_t) : result version_error values_t :=
  let line := rstrip (Ascii.eqb "013"%char) raw in
  let stripped := strip line in
  match stripped with
  | [] => Ok values
  | c :: _ =>
      if Ascii.eqb c "#"%char then Ok values
      else
        m ← result_of_option (MalformedAssignment lineno) (re_match _ASSIGN_RE line);
        key ← result_of_option (MalformedAssignment lineno) (group 1 m);
        value ← result_of_option (MalformedAssignment lineno) (group 2 m);
        ensure (py_in (of_chars key) KEYS) (UnknownKey key lineno);;
        ensure (negb (dict_has (of_chars key) values)) (DuplicateKey key lineno);;
        Ok (dict_set (of_chars key) value values)
  end.

Fixpoint parse_lines (lineno : nat) (lines : list (list ascii)) (values : values_t) : result version_error values_t :=
  match lines with
  | [] => Ok values
  | raw :: lines' => values ← parse_line lineno raw values; parse_lines (S lineno) lines' values
  end.

Definition value_of (key : string) (values : values_t) : list ascii := default [] (dict_get key values).

Definition check_value (values : values_t) (key : string) : result version_error unit :=
  if String.eqb key "EXTRAVERSION" then Ok tt
  else
    let value := value_of key values in
    _ ← result_of_option (InvalidValue key) (re_match _NUMERIC_RE value);
    n ← result_of_option PlainValueError (py_int value);
    ensure (n <=? 255) (OutsideRange key n).

Definition parse_version (text : list ascii) : result version_error (list ascii) :=
  values ← parse_lines 1 (split_on newline text) [];
  let missing := List.filter (fun key => negb (dict_has key values)) KEYS in
  ensure (bool_decide (missing = [])) (MissingKeys missing);;
  _ ← result_mapM (check_value values) KEYS;
  ensure (bool_decide (value_of "VERSION_TWEAK" values = ["0"%char])) TweakNotZero;;
  ensure (bool_decide (value_of "EXTRAVERSION" values = [])) ExtraNotEmpty;;
  Ok (value_of "VERSION_MAJOR" values ++ "."%char :: value_of "VERSION_MINOR" values ++ "."%char ::
      value_of "PATCHLEVEL" values).

(** What the file system says of the path; [decoded] is [raw.decode("utf-8")]. *)
Record file_answer : Type := mk_file {
  islink : bool; stat_ok : bool; is_regular : bool; size : Z; read_ok : bool; decoded : option (list ascii);
}.

Definition _read_version_file (f : file_answer) : result version_error (list ascii) :=
  ensure (negb (islink f)) IsSymlink;;
  ensure (stat_ok f) CannotBeRead;;
  ensure (is_regular f) NotRegular;;
  ensure (negb (size f =? 0)) EmptyFile;;
  ensure (read_ok f) CannotBeRead;;
  result_of_option NotUtf8 (decoded f).

(** How the process ends. *)
Inductive main_outcome : Type :=
| Printed (line : list ascii)          (** exit status 0 *)
| Diagnostic (e : version_error)       (** one stderr line, exit status 1 *)
| Traceback.

Definition main (f : file_answer) : main_outcome :=
  match text ← _read_version_file f; parse_version text with
  | Ok v => Printed v
  | Err PlainValueError => Traceback
  | Err e => Diagnostic e
  end.

(** ** Lemmas *)

Lemma numeric_re_spec v : is_Some (re_match _NUMERIC_RE v) -> newline ∉ v -> canonical_digits v = true.
Proof.
  unfold re_match, match_at. intros [st H] Hn. apply run_sound in H as (st' & H & [= <-]).
  destruct H as (m1 & [_ ->] & m2 & (m & Hg & ->) & He & _). unfold at_eos in He. simpl in He.
  assert (exists r, v = r ++ rest m /\ (r = ["0"%char] \/ exists c u, r = c :: u /\ between 49 57 c = true /\ forallb is_digit u = true))
    as (r & Hv & Hr).
  { destruct Hg as [(m3 & (c & l & Hr & Hc & ->) & ->)|(m3 & (c & l & Hr & Hc & ->) & (u & Hu & Hf & _)%many_spec)]; simpl in *.
    - exists ["0"%char]. split; [|by left]. apply Ascii.eqb_eq in Hc as <-. done.
    - exists (c :: u). split; [by rewrite Hr, Hu | right; eauto]. }
  assert (rest m = []) as Hm.
  { destruct (rest m) as [|c [|]]; try done. apply Ascii.eqb_eq in He as ->. exfalso. apply Hn. rewrite Hv.
    apply elem_of_app. right. apply list_elem_of_here. }
  rewrite Hm, app_nil_r in Hv. subst v. destruct Hr as [->|(c & u & -> & Hc & Hu)]; [done|].
  simpl. destruct u; [|by rewrite Hc, Hu].
  unfold between in *. unfold is_digit, between. bool_to_prop. apply andb_true_iff; split; apply Z.leb_le; lia.
Qed.

Lemma canonical_numeric_re v : canonical_digits v = true -> is_Some (re_match _NUMERIC_RE v).
Proof.
  intros Hc. unfold re_match, match_at.
  assert (exists c u, v = c :: u /\ (c = "0"%char /\ u = [] \/ between 49 57 c = true /\ forallb is_digit u = true)) as (c & u & -> & H).
  { destruct v as [|c [|d u]]; [done| |].
    - exists c, []. split; [done|]. simpl in Hc. destruct (decide (c = "0"%char)); [by left | right; split; [|done]].
      unfold is_digit, between in *. bool_to_prop. apply andb_true_iff.
      split; apply Z.leb_le; [|lia]. destruct (decide (code c = 48)) as [He|]; [|lia].
      exfalso. apply n, code_inj. by rewrite He.
    - exists c, (d :: u). split; [done|]. right. simpl in Hc. by apply andb_true_iff in Hc. }
  clear Hc. set (st0 := mk_pos None (c :: u) []).
  assert (exists m, den (Alt (Lit "0") (Cls (between 49 57) • Star is_digit)) st0 m /\ rest m = []) as (m & Hm & Hr).
  { destruct H as [[-> ->]|[Hc Hu]].
    - exists (mk_pos (Some "0"%char) [] []). split; [|done]. left. exists (mk_pos (Some "0"%char) [] []).
      split; [|done]. by exists "0"%char, [].
    - assert (forall b gs, exists m, many is_digit (mk_pos b u gs) m /\ rest m = []) as Hmany.
      { induction u as [|d u IH]; intros b gs; [eexists; split; [apply many_none | done]|].
        simpl in Hu. apply andb_true_iff in Hu as [Hd Hu]. destruct (IH Hu (Some d) gs) as (m & Hm & Hr).
        exists m. split; [|done]. by apply (many_more _ (mk_pos b (d :: u) gs) d u). }
      destruct (Hmany (Some c) []) as (m & Hm & Hr). exists m. split; [|done]. right.
      exists (mk_pos (Some c) u []). split; [|done]. by exists c, u. }
  apply (run_complete _ st0 (set_group 1 (between_pos st0 m) m) Some); [|by eexists].
  exists st0. split; [by split|]. exists (set_group 1 (between_pos st0 m) m). split; [by exists m|].
  split; [|done]. unfold at_eos, set_group. simpl. by rewrite Hr.
Qed.

(** What a line is. *)
Inductive line_kind : Type := Blank | Assign (key : string) (value : list ascii) | Malformed.

Definition classify (raw : list ascii) : line_kind :=
  let line := rstrip (Ascii.eqb "013"%char) raw in
  match strip line with
  | [] => Blank
  | c :: _ =>
      if Ascii.eqb c "#"%char then Blank
      else match m ← re_match _ASSIGN_RE line; k ← group 1 m; v ← group 2 m; Some (k, v) with
      | Some (k, v) => Assign (of_chars k) v
      | None => Malformed
      end
  end.

Definition assignment (raw : list ascii) : option (string * list ascii) :=
  match classify raw with Assign k v => Some (k, v) | _ => None end.

(** The captured value has no newline. *)
Lemma classify_value raw k v : classify raw = Assign k v -> newline ∉ v.
Proof.
  unfold classify. destruct (strip _); [done|]. destruct (Ascii.eqb _ _); [done|].
  destruct (re_match _ASSIGN_RE _) as [m|] eqn:Hm; simpl; [|done].
  destruct (group 1 m) as [k'|]; simpl; [|done]. destruct (group 2 m) as [v'|] eqn:Hv; simpl; [|done].
  intros [= _ ->]. unfold re_match, match_at in Hm. apply run_sound in Hm as (st & Hd & [= ->]).
  pose (Q := fun (n : nat) (u : list ascii) => n = 2%nat -> forallb dot u = true).
  assert (groups_ok Q m) as Hq.
  { eapply den_caps; [exact Hd | | by intros ? ? ?%elem_of_nil].
    split; [done|]. split; [split; [by split | by intros ? ? ?] |]. split; [done|]. split; [by split|]. split; [done|].
    split; [|by split]. split; [done|]. intros st0 m0 (u & Hu & Hf & _)%many_spec _.
    by rewrite (between_pos_app _ _ u). }
  apply dict_get_elem, Hq in Hv. specialize (Hv eq_refl). intros Hin%list_elem_of_In.
  rewrite forallb_forall in Hv. apply Hv in Hin. by vm_compute in Hin.
Qed.

Lemma parse_line_spec lineno raw values values' :
  parse_line lineno raw values = Ok values' <->
  (classify raw = Blank /\ values' = values) \/
  (exists k v, classify raw = Assign k v /\ k ∈ KEYS /\ dict_has k values = false /\ values' = dict_set k v values).
Proof.
  unfold parse_line, classify. destruct (strip _) as [|c l]; [naive_solver|].
  destruct (Ascii.eqb c "#"%char); [naive_solver|].
  destruct (re_match _ASSIGN_RE _) as [m|]; simpl; [|naive_solver].
  destruct (group 1 m) as [k|]; simpl; [|naive_solver]. destruct (group 2 m) as [v|]; simpl; [|naive_solver].
  split.
  - intros H. result_inv H. right. exists (of_chars k), v. unfold py_in in *. bool_to_prop.
    repeat match goal with H : bool_decide _ = true |- _ => apply bool_decide_eq_true in H end. by subst.
  - intros [[? _]|(k' & v' & [= <- <-] & H1 & H2 & ->)]; [done|].
    rewrite !bind_ensure; [done | by rewrite H2 | by apply bool_decide_eq_true].
Qed.

(** The dictionary of a file: its assignments in order, each key once. *)
Lemma parse_lines_spec n lines vs vs' :
  NoDup vs.*1 ->
  parse_lines n lines vs = Ok vs' <->
  Forall (fun raw => classify raw <> Malformed) lines /\ vs' = vs ++ omap assignment lines /\
  NoDup vs'.*1 /\ Forall (fun k => k ∈ KEYS) (omap assignment lines).*1.
Proof.
  revert n vs. induction lines as [|raw lines IH]; intros n vs Hnd; simpl.
  { rewrite app_nil_r. split; [intros [= <-]; by split_and! | intros (_ & -> & _); done]. }
  rewrite bind_Ok. setoid_rewrite parse_line_spec.
  pose proof (eq_refl (assignment raw)) as Ha. unfold assignment at 2 in Ha. rewrite !Ha. clear Ha.
  split.
  - intros (v1 & [[Hc ->]|(k & v & Hc & Hk & Hf & ->)] & H); rewrite Hc.
    + apply IH in H as (H1 & H2 & H3 & H4); [|done]. split_and!; try done. constructor; [by rewrite Hc | done].
    + rewrite dict_set_fresh in H by done. apply dict_has_false in Hf.
      apply IH in H as (H1 & -> & H3 & H4).
      * rewrite <- app_assoc in *. split_and!; try done; [constructor; [by rewrite Hc | done] | by constructor].
      * rewrite fmap_app. apply NoDup_app. split_and!; [done | | apply NoDup_singleton].
        intros x Hx ->%list_elem_of_singleton. done.
  - intros (H1 & -> & H3 & H4). apply Forall_cons in H1 as [Hc H1].
    destruct (classify raw) as [|k v|] eqn:Hk; [| |done].
    + exists vs. split; [by left|]. by apply IH.
    + exists (dict_set k v vs). apply Forall_cons in H4 as [Hin H4].
      assert (k ∉ vs.*1) as Hf.
      { intros Hx. rewrite fmap_app in H3. apply NoDup_app in H3 as (_ & H3 & _). apply (H3 k Hx). apply list_elem_of_here. }
      split; [right; exists k, v; split_and!; try done; by apply dict_has_false|].
      rewrite dict_set_fresh by by apply dict_has_false. apply IH.
      * rewrite fmap_app. apply NoDup_app. split_and!; [done | | apply NoDup_singleton].
        intros x Hx ->%list_elem_of_singleton. done.
      * rewrite <- app_assoc. by split_and!.
Qed.

Definition version_text (a b c : list ascii) : list ascii := a ++ "."%char :: b ++ "."%char :: c.
Definition in_range_numeral (v : list ascii) : Prop := canonical_digits v = true /\ int_of_digits v <= 255.

(** A numeral of a bounded value is short, so [int] accepts it. *)
Lemma canonical_short v : canonical_digits v = true -> int_of_digits v <= 255 -> py_int v = Some (int_of_digits v).
Proof.
  intros Hc Hv. unfold py_int.
  assert ((length v <= 3)%nat) as Hl; [|by rewrite (proj2 (Nat.leb_le _ _)) by (unfold int_max_str_digits; lia)].
  destruct (decide (length v <= 3)%nat) as [|Hn]; [done|]. exfalso.
  destruct v as [|c [|d [|e [|f l]]]]; simpl in Hn; try lia.
  assert (forall l acc, 0 <= acc -> forallb is_digit l = true -> acc <= fold_left (fun acc c => acc * 10 + digit_val c) l acc) as Hmono.
  { clear. induction l as [|c l IH]; intros acc Ha; simpl; [lia|]. intros [Hc Hl]%andb_true_iff.
    apply is_digit_val in Hc. specialize (IH (acc * 10 + digit_val c) ltac:(lia) Hl). lia. }
  simpl in Hc. unfold between in Hc. bool_to_prop.
  repeat match goal with H : is_digit _ = true |- _ => apply is_digit_val in H end.
  unfold int_of_digits in Hv. simpl in Hv. unfold digit_val in *.
  match type of Hv with fold_left _ _ ?x <= _ => specialize (Hmono l x ltac:(lia) ltac:(done)) end. lia.
Qed.

Lemma check_value_spec values key :
  check_value values key = Ok tt <->
  key = "EXTRAVERSION"%string \/ key <> "EXTRAVERSION"%string /\
  is_Some (re_match _NUMERIC_RE (value_of key values)) /\
  exists n, py_int (value_of key values) = Some n /\ n <= 255.
Proof.
  unfold check_value. destruct (String.eqb_spec key "EXTRAVERSION") as [->|Hne]; [naive_solver|].
  rewrite bind_Ok. setoid_rewrite result_of_option_Ok. setoid_rewrite bind_Ok. setoid_rewrite result_of_option_Ok.
  setoid_rewrite ensure_Ok. setoid_rewrite Z.leb_le. unfold is_Some. naive_solver.
Qed.

Lemma values_by_key (values : values_t) keys :
  NoDup values.*1 -> values.*1 ≡ₚ keys -> values ≡ₚ (fun k => (k, value_of k values)) <$> keys.
Proof.
  intros Hnd Hp. rewrite <- Hp. clear Hp keys. rewrite <- list_fmap_compose.
  assert (forall l : values_t, (forall x, x ∈ l -> x ∈ values) -> l = (fun x => (x.1, value_of x.1 values)) <$> l) as H.
  { induction l as [|[k v] l IH]; intros Hin; [done|]. rewrite fmap_cons. f_equal.
    - simpl. unfold value_of. rewrite (dict_get_NoDup k v) by (try done; apply Hin, list_elem_of_here). done.
    - apply IH. intros x Hx. apply Hin. by apply list_elem_of_further. }
  rewrite (H values) at 1 by done. done.
Qed.

Lemma value_of_perm (values : values_t) k v :
  NoDup values.*1 -> (k, v) ∈ values -> value_of k values = v.
Proof. intros Hnd Hin. unfold value_of. by rewrite (dict_get_NoDup k v) by done. Qed.

Definition version_assignments (a b c : list ascii) : values_t :=
  [("VERSION_MAJOR"%string, a); ("VERSION_MINOR"%string, b); ("PATCHLEVEL"%string, c);
   ("VERSION_TWEAK"%string, ["0"%char]); ("EXTRAVERSION"%string, [])].

Lemma KEYS_NoDup : NoDup KEYS.
Proof. apply (bool_decide_eq_true_1 _). reflexivity. Qed.

Lemma missing_spec values :
  bool_decide (List.filter (fun key => negb (dict_has key values)) KEYS = []) = true <->
  forall k, k ∈ KEYS -> dict_has (V := list ascii) k values = true.
Proof.
  rewrite bool_decide_eq_true. split.
  - intros H k Hk. destruct (dict_has k values) eqn:Hh; [done|]. exfalso.
    apply list_elem_of_In in Hk. assert (In k (List.filter (fun key => negb (dict_has key values)) KEYS)) as Hin.
    { apply List.filter_In. by rewrite Hh. }
    by rewrite H in Hin.
  - intros H. assert (forall l, (forall k, k ∈ l -> dict_has k values = true) ->
      List.filter (fun key => negb (dict_has key values)) l = []) as Hl; [|by apply Hl].
    induction l as [|k l IH]; intros Hall; [done|]. simpl. rewrite Hall by apply list_elem_of_here. simpl.
    apply IH. intros k' Hk'. apply Hall. by apply list_elem_of_further.
Qed.

(** What the reader prints a version for. *)
Definition version_file (lines : list (list ascii)) (out : list ascii) : Prop :=
  exists a b c, Forall (fun raw => classify raw <> Malformed) lines /\
    omap assignment lines ≡ₚ version_assignments a b c /\
    in_range_numeral a /\ in_range_numeral b /\ in_range_numeral c /\ out = version_text a b c.
Lemma parse_version_sound text out : parse_version text = Ok out -> version_file (split_on newline text) out.
Proof.
  unfold parse_version. generalize (split_on newline text) as lines. intros lines.
  intros H. apply bind_Ok in H as (values & Hl & H).
  apply parse_lines_spec in Hl as (Hcl & Hv & Hnd & Hk); [|constructor]. simpl in Hv. rewrite <- Hv in Hk.
  result_inv H. rename a into u1, a0 into us, a1 into u2, a2 into u3.
  pose proof (proj1 (missing_spec values) Ha) as Hmiss. clear Ha. rename Hmiss into Ha. apply result_mapM_Ok in Ha0. apply bool_decide_eq_true in Ha1, Ha2.
  assert (values.*1 ≡ₚ KEYS) as Hp.
  { apply NoDup_Permutation; [done | apply KEYS_NoDup |]. intros k. split.
    - rewrite Forall_forall in Hk. by apply Hk.
    - intros Hin. by apply dict_has_spec, Ha. }
  assert (forall k, k ∈ KEYS -> k <> "EXTRAVERSION"%string -> in_range_numeral (value_of k values)) as Hr.
  { intros k Hin Hne. apply list_elem_of_lookup in Hin as [i Hi]. destruct (Forall2_lookup_l _ _ _ _ _ Ha0 Hi) as (y & _ & Hc).
    destruct y. apply check_value_spec in Hc as [?|(_ & Hm & n & Hn & Hle)]; [done|].
    split; [|unfold py_int in Hn; case_match; [|done]; by injection Hn as <-].
    apply numeric_re_spec; [done|]. unfold value_of. destruct (dict_get k values) as [v|] eqn:Hg; [|apply not_elem_of_nil].
    apply dict_get_elem in Hg. rewrite Hv in Hg. apply list_elem_of_omap in Hg as (raw & _ & Hraw).
    unfold assignment in Hraw. destruct (classify raw) eqn:Hcr; try done. injection Hraw as -> ->.
    by eapply classify_value. }
  exists (value_of "VERSION_MAJOR" values), (value_of "VERSION_MINOR" values), (value_of "PATCHLEVEL" values).
  split; [done|]. rewrite <- Hv. split; [|split_and!; try done; apply Hr; try done; unfold KEYS; rewrite !elem_of_cons; auto].
  rewrite (values_by_key values KEYS Hnd Hp) at 1. simpl. by rewrite Ha1, Ha2.
Qed.
Lemma parse_version_complete text out : version_file (split_on newline text) out -> parse_version text = Ok out.
Proof.
  unfold parse_version. generalize (split_on newline text) as lines. intros lines.
  intros (a & b & c & Hcl & Hp & Ha & Hb & Hc & ->).
  assert (NoDup (omap assignment lines).*1) as Hnd by (rewrite Hp; apply KEYS_NoDup).
  assert (parse_lines 1 lines [] = Ok (omap assignment lines)) as Hl.
  { apply parse_lines_spec; [constructor|]. split_and!; try done. rewrite Hp. apply Forall_forall. by intros. }
  apply bind_Ok. exists (omap assignment lines). split; [done|]. set (values := omap assignment lines) in *.
  assert (forall k v, (k, v) ∈ version_assignments a b c -> value_of k values = v) as Hval
    by (intros k v Hin; apply value_of_perm; [done | by rewrite Hp]).
  unfold version_assignments in Hval.
  assert (value_of "VERSION_MAJOR" values = a) as E1 by (apply Hval; rewrite !elem_of_cons; auto).
  assert (value_of "VERSION_MINOR" values = b) as E2 by (apply Hval; rewrite !elem_of_cons; auto).
  assert (value_of "PATCHLEVEL" values = c) as E3 by (apply Hval; rewrite !elem_of_cons; auto).
  assert (value_of "VERSION_TWEAK" values = ["0"%char]) as E4 by (apply Hval; rewrite !elem_of_cons; auto).
  assert (value_of "EXTRAVERSION" values = []) as E5 by (apply Hval; rewrite !elem_of_cons; auto 6).
  assert (forall k v, k <> "EXTRAVERSION"%string -> value_of k values = v -> in_range_numeral v -> check_value values k = Ok tt) as Hck.
  { intros k v Hne Hv [Hcan Hle]. apply check_value_spec. right. rewrite Hv. split_and!; [done | by apply canonical_numeric_re|].
    exists (int_of_digits v). split; [by apply canonical_short | done]. }
  apply bind_Ok. exists tt. split.
  { apply ensure_Ok, missing_spec. intros k Hin. apply dict_has_spec. by rewrite Hp. }
  apply bind_Ok. exists [tt; tt; tt; tt; tt]. split.
  { apply result_mapM_Ok. repeat constructor; try (by eapply Hck). }
  rewrite bind_ensure by by apply bool_decide_eq_true.
  rewrite bind_ensure by by apply bool_decide_eq_true. by rewrite E1, E2, E3.
Qed.

(** C39. The exact language of the reader: a version is printed precisely when
    every line is blank, a comment or an assignment, the assignments are the
    five keys once each in any order, the three components are canonical
    numerals of at most 255, the tweak is 0 and the extra version is empty;
    what is printed is [MAJOR.MINOR.PATCH]. *)
Theorem parse_version_spec text out :
  parse_version text = Ok out <->
  exists a b c, Forall (fun raw => classify raw <> Malformed) (split_on newline text) /\
    omap assignment (split_on newline text) ≡ₚ version_assignments a b c /\
    in_range_numeral a /\ in_range_numeral b /\ in_range_numeral c /\ out = version_text a b c.
Proof. split; [apply parse_version_sound | apply parse_version_complete]. Qed.

(** A numeral of more than 4300 digits is not reported as an error of the
    file: [int] raises before the range check, and the process ends with a
    traceback. *)
Theorem long_component_is_a_traceback :
  main (mk_file false true true 1 true
    (Some (chars "VERSION_MAJOR=" ++ repeat "1"%char 4301 ++ [newline] ++ chars "VERSION_MINOR=0" ++ [newline] ++
           chars "PATCHLEVEL=0" ++ [newline] ++ chars "VERSION_TWEAK=0" ++ [newline] ++ chars "EXTRAVERSION=" ++ [newline])))
  = Traceback.
Proof. vm_compute. reflexivity. Qed.
