(* ===== verification/Json.v ===== *)
(** * JSON: the part of Python's [json] module the scripts rely on

    [loads] follows CPython's C scanner (Modules/_json.c): strict strings with
    escapes and surrogate pairs, the number grammar, the constants
    [NaN]/[Infinity], and [object_pairs_hook], which is called when an object
    closes.  [dumps] is [json.dumps] with given separators.  A float keeps its
    literal.  Not modelled: the interpreter's recursion limit on deeply nested
    documents. *)

From S2P Require Import Prelude PyText.

#[warnings="-register-all"]
Inductive json : Type :=
| JNull
| JBool (b : bool)
| JInt (z : Z)
| JFloat (lit : string)
| JStr (s : string)
| JArr (l : list json)
| JObj (d : list (string * json)).

(** What [json.loads] can raise: [JSONDecodeError], an exception of the
    hook, the plain [ValueError] of [int] on more than 4300 digits
    ([sys.get_int_max_str_digits]); [JFuel] is the model's own and is shown
    unreachable from [loads]. *)
Inductive json_error (E : Type) : Type :=
| JDecode | JHook (e : E) | JIntLimit | JFuel.
Arguments JDecode {E}. Arguments JHook {E} e. Arguments JIntLimit {E}. Arguments JFuel {E}.


(** ** Lexical level *)

Definition json_ws (c : ascii) : bool :=
  (code c =? 32) || (code c =? 9) || (code c =? 10) || (code c =? 13).

Fixpoint skip_ws (l : list ascii) : list ascii :=
  match l with
  | [] => []
  | c :: l' => if json_ws c then skip_ws l' else l
  end.

Definition hex_val (c : ascii) : option Z :=
  if is_digit c then Some (code c - 48)
  else if between 97 102 c then Some (code c - 87)
  else if between 65 70 c then Some (code c - 55)
  else None.

Definition hex4 (a b c d : ascii) : option Z :=
  x ← hex_val a; y ← hex_val b; z ← hex_val c; w ← hex_val d;
  Some (x * 4096 + y * 256 + z * 16 + w).

(** UTF-8 encoding of one code point. *)
Definition utf8_encode (u : Z) : list ascii :=
  if u <? 128 then [chr u]
  else if u <? 2048 then [chr (192 + u / 64); chr (128 + u mod 64)]
  else if u <? 65536 then
    [chr (224 + u / 4096); chr (128 + (u / 64) mod 64); chr (128 + u mod 64)]
  else
    [chr (240 + u / 262144); chr (128 + (u / 4096) mod 64);
     chr (128 + (u / 64) mod 64); chr (128 + u mod 64)].

Definition high_surrogate (u : Z) : bool := (55296 <=? u) && (u <=? 56319).
Definition low_surrogate (u : Z) : bool := (56320 <=? u) && (u <=? 57343).

Definition escape_char (c : ascii) : option ascii :=
  match code c with
  | 34 => Some (chr 34) | 92 => Some (chr 92) | 47 => Some (chr 47)
  | 98 => Some (chr 8) | 102 => Some (chr 12) | 110 => Some (chr 10)
  | 114 => Some (chr 13) | 116 => Some (chr 9)
  | _ => None
  end.

(** [scanstring]: the text after the opening quote to the text after the
    closing one; [None] is a JSONDecodeError. *)
Fixpoint scan_string (l : list ascii) (acc : list ascii) : option (list ascii * list ascii) :=
  match l with
  | [] => None
  | c :: l' =>
      if code c =? 34 then Some (rev acc, l')
      else if code c =? 92 then
        match l' with
        | [] => None
        | e :: r =>
            if code e =? 117 then
              match r with
              | a :: b :: c4 :: d :: r' =>
                  match hex4 a b c4 d with
                  | None => None
                  | Some u =>
                      if high_surrogate u then
                        match r' with
                        | b0 :: u0 :: a2 :: b2 :: c2 :: d2 :: r2 =>
                            if (code b0 =? 92) && (code u0 =? 117) then
                              match hex4 a2 b2 c2 d2 with
                              | Some v =>
                                  if low_surrogate v then
                                    scan_string r2 (rev_append
                                      (utf8_encode (65536 + (u - 55296) * 1024 + (v - 56320))) acc)
                                  else scan_string r' (rev_append (utf8_encode u) acc)
                              | None => None
                              end
                            else scan_string r' (rev_append (utf8_encode u) acc)
                        | _ => scan_string r' (rev_append (utf8_encode u) acc)
                        end
                      else scan_string r' (rev_append (utf8_encode u) acc)
                  end
              | _ => None
              end
            else
              match escape_char e with
              | Some x => scan_string r (x :: acc)
              | None => None
              end
        end
      else if code c <=? 31 then None
      else scan_string l' (c :: acc)
  end.

(** Longest run of digits. *)
Fixpoint span_digits (l : list ascii) : list ascii * list ascii :=
  match l with
  | c :: l' => if is_digit c then let '(d, r) := span_digits l' in (c :: d, r) else ([], l)
  | [] => ([], [])
  end.

(** The optional fraction and exponent of a number: they are consumed only
    when at least one digit follows. *)
Definition scan_frac (l : list ascii) : list ascii * list ascii :=
  match l with
  | c :: l' =>
      if code c =? 46 then
        match span_digits l' with
        | ([], _) => ([], l)
        | (d, r) => (c :: d, r)
        end
      else ([], l)
  | [] => ([], [])
  end.

Definition scan_exp (l : list ascii) : list ascii * list ascii :=
  match l with
  | c :: l' =>
      if (code c =? 101) || (code c =? 69) then
        let '(sg, l2) := match l' with
          | s :: l3 => if (code s =? 43) || (code s =? 45) then ([s], l3) else ([], l')
          | [] => ([], []) end in
        match span_digits l2 with
        | ([], _) => ([], l)
        | (d, r) => (c :: sg ++ d, r)
        end
      else ([], l)
  | [] => ([], [])
  end.

Section scanner.
Context {E : Type}.
#[local] Abbreviation jres A := (result (json_error E) A).

(** [_match_number_unicode]: sign already split off. *)
Definition scan_number (neg : bool) (l : list ascii) : jres (json * list ascii) :=
  let int_part :=
    match l with
    | c :: l' =>
        if code c =? 48 then Some ([c], l')
        else if between 49 57 c then Some (span_digits l)
        else None
    | [] => None
    end in
  match int_part with
  | None => Err JDecode
  | Some (ip, r) =>
      let '(fp, r1) := scan_frac r in
      let '(ep, r2) := scan_exp r1 in
      match fp, ep with
      | [], [] =>
          if (int_max_str_digits <? length ip)%nat then Err JIntLimit
          else Ok (JInt (if neg then - int_of_digits ip else int_of_digits ip), r2)
      | _, _ =>
          let body := ip ++ fp ++ ep in
          Ok (JFloat (of_chars (if neg then "-"%char :: body else body)), r2)
      end
  end.

Context (hook : list (string * json) -> result E (list (string * json))).

Definition close_object (pairs : list (string * json)) (r : list ascii) : jres (json * list ascii) :=
  match hook pairs with
  | Ok d => Ok (JObj d, r)
  | Err e => Err (JHook e)
  end.

Definition scan_const (l : list ascii) : jres (json * list ascii) :=
  let try kw v (k : jres (json * list ascii)) :=
    match strip_prefix (chars kw) l with Some r => Ok (v, r) | None => k end in
  try "null" JNull (try "true" (JBool true) (try "false" (JBool false)
    (try "NaN" (JFloat "NaN") (try "Infinity" (JFloat "Infinity")
      (try "-Infinity" (JFloat "-Infinity")
        (match l with
         | c :: l' => if code c =? 45 then scan_number true l' else scan_number false l
         | [] => Err JDecode
         end)))))).

(** [scan_once]: [members] and [elements] scan the rest of a nonempty object
    or array. *)
Definition value_step (members elements : list ascii -> jres (json * list ascii))
    (l : list ascii) : jres (json * list ascii) :=
  match l with
  | [] => Err JDecode
  | c :: l' =>
      if code c =? 34 then
        match scan_string l' [] with
        | Some (s, r) => Ok (JStr (of_chars s), r)
        | None => Err JDecode
        end
      else if code c =? 123 then
        match skip_ws l' with
        | c2 :: r => if code c2 =? 125 then close_object [] r else members (c2 :: r)
        | [] => Err JDecode
        end
      else if code c =? 91 then
        match skip_ws l' with
        | c2 :: r => if code c2 =? 93 then Ok (JArr [], r) else elements (c2 :: r)
        | [] => Err JDecode
        end
      else scan_const l
  end.

(** One [key : value] of [_parse_object], then [,] or [}]. *)
Definition members_step (value : list ascii -> jres (json * list ascii))
    (members : list (string * json) -> list ascii -> jres (json * list ascii))
    (acc : list (string * json)) (l : list ascii) : jres (json * list ascii) :=
  match l with
  | [] => Err JDecode
  | q :: l' =>
      if code q =? 34 then
        match scan_string l' [] with
        | None => Err JDecode
        | Some (key, r) =>
            match skip_ws r with
            | [] => Err JDecode
            | col :: r1 =>
                if code col =? 58 then
                  match value (skip_ws r1) with
                  | Err e => Err e
                  | Ok (v, r2) =>
                      match skip_ws r2 with
                      | [] => Err JDecode
                      | d :: r3 =>
                          if code d =? 125 then close_object (acc ++ [(of_chars key, v)]) r3
                          else if code d =? 44 then members (acc ++ [(of_chars key, v)]) (skip_ws r3)
                          else Err JDecode
                      end
                  end
                else Err JDecode
            end
        end
      else Err JDecode
  end.

(** One value of [_parse_array], then [,] or [\]]. *)
Definition elements_step (value : list ascii -> jres (json * list ascii))
    (elements : list json -> list ascii -> jres (json * list ascii))
    (acc : list json) (l : list ascii) : jres (json * list ascii) :=
  match value l with
  | Err e => Err e
  | Ok (v, r2) =>
      match skip_ws r2 with
      | [] => Err JDecode
      | d :: r3 =>
          if code d =? 93 then Ok (JArr (acc ++ [v]), r3)
          else if code d =? 44 then elements (acc ++ [v]) (skip_ws r3)
          else Err JDecode
      end
  end.

Fixpoint scan_value (fuel : nat) (l : list ascii) {struct fuel} : jres (json * list ascii) :=
  match fuel with
  | O => Err JFuel
  | S f => value_step (scan_members f []) (scan_elements f []) l
  end
with scan_members (fuel : nat) (acc : list (string * json)) (l : list ascii) {struct fuel}
    : jres (json * list ascii) :=
  match fuel with
  | O => Err JFuel
  | S f => members_step (scan_value f) (scan_members f) acc l
  end
with scan_elements (fuel : nat) (acc : list json) (l : list ascii) {struct fuel}
    : jres (json * list ascii) :=
  match fuel with
  | O => Err JFuel
  | S f => elements_step (scan_value f) (scan_elements f) acc l
  end.

Lemma scan_value_S f l :
  scan_value (S f) l = value_step (scan_members f []) (scan_elements f []) l.
Proof. done. Qed.
Lemma scan_members_S f acc l :
  scan_members (S f) acc l = members_step (scan_value f) (scan_members f) acc l.
Proof. done. Qed.
Lemma scan_elements_S f acc l :
  scan_elements (S f) acc l = elements_step (scan_value f) (scan_elements f) acc l.
Proof. done. Qed.

Lemma scan_members_key f acc l key r1 :
  scan_string l [] = Some (key, ":"%char :: r1) ->
  scan_members (S f) acc (chr 34 :: l) =
    match scan_value f (skip_ws r1) with
    | Err e => Err e
    | Ok (v, r2) =>
        match skip_ws r2 with
        | [] => Err JDecode
        | d :: r3 =>
            if code d =? 125 then close_object (acc ++ [(of_chars key, v)]) r3
            else if code d =? 44 then scan_members f (acc ++ [(of_chars key, v)]) (skip_ws r3)
            else Err JDecode
        end
    end.
Proof. intros Hs. rewrite scan_members_S. simpl. by rewrite Hs. Qed.

Definition json_fuel (l : list ascii) : nat := S (2 * length l).

(** [json.loads(text, object_pairs_hook=hook)] *)
Definition loads_chars (l : list ascii) : jres json :=
  match scan_value (json_fuel l) (skip_ws l) with
  | Err e => Err e
  | Ok (v, r) => match skip_ws r with [] => Ok v | _ => Err JDecode end
  end.
Definition loads (s : string) : jres json := loads_chars (chars s).
End scanner.

(** Without a hook, a repeated key overwrites the earlier value. *)
Definition dict_hook {E} (pairs : list (string * json)) : result E (list (string * json)) :=
  Ok (fold_left (fun d '(k, v) => dict_set k v d) pairs []).

Lemma dict_hook_id {E} d : NoDup d.*1 -> dict_hook (E := E) d = Ok d.
Proof. intros H. unfold dict_hook. by rewrite (dict_of_pairs d []). Qed.

(** ** [json.dumps] (ensure_ascii) *)

Definition hex_digit (d : Z) : ascii := if d <? 10 then chr (48 + d) else chr (87 + d).
Definition u_escape (u : Z) : list ascii :=
  ["\"%char; "u"%char; hex_digit (u / 4096); hex_digit ((u / 256) mod 16);
   hex_digit ((u / 16) mod 16); hex_digit (u mod 16)].

Definition escape_code (u : Z) : list ascii :=
  if u <? 65536 then u_escape u
  else let v := u - 65536 in u_escape (55296 + v / 1024) ++ u_escape (56320 + v mod 1024).

Definition escape_ascii (c : ascii) : list ascii :=
  match code c with
  | 34 => [chr 92; chr 34]
  | 92 => [chr 92; chr 92]
  | 10 => ["\"; "n"]%char
  | 13 => ["\"; "r"]%char
  | 9 => ["\"; "t"]%char
  | 12 => ["\"; "f"]%char
  | 8 => ["\"; "b"]%char
  | u => if (u <? 32) || (u =? 127) then u_escape u else [c]
  end.

(** The body of [py_encode_basestring_ascii]: one escape per code point of
    the UTF-8 text. *)
Fixpoint escape_text (l : list ascii) : list ascii :=
  match l with
  | [] => []
  | a :: l1 =>
      if code a <? 128 then escape_ascii a ++ escape_text l1
      else if code a <? 224 then
        match l1 with
        | b :: l2 => escape_code ((code a - 192) * 64 + (code b - 128)) ++ escape_text l2
        | [] => []
        end
      else if code a <? 240 then
        match l1 with
        | b :: c :: l3 =>
            escape_code ((code a - 224) * 4096 + (code b - 128) * 64 + (code c - 128))
              ++ escape_text l3
        | _ => []
        end
      else
        match l1 with
        | b :: c :: d :: l4 =>
            escape_code ((code a - 240) * 262144 + (code b - 128) * 4096
                         + (code c - 128) * 64 + (code d - 128)) ++ escape_text l4
        | _ => []
        end
  end.

Definition dump_string (s : string) : list ascii := chr 34 :: escape_text (chars s) ++ [chr 34].

Section dump.
(** [true]: the default separators [", "] and [": "]; [false]: compact. *)
Context (spaced : bool).

Definition sep (c : ascii) : list ascii := if spaced then [c; " "%char] else [c].

Fixpoint dump (v : json) : list ascii :=
  match v with
  | JNull => chars "null"
  | JBool true => chars "true"
  | JBool false => chars "false"
  | JInt z => chars (dec z)
  | JFloat lit => chars lit
  | JStr s => dump_string s
  | JArr [] => chars "[]"
  | JArr (x :: l) =>
      "["%char :: dump x ++
        (fix elems (l : list json) : list ascii :=
           match l with
           | [] => ["]"%char]
           | y :: l' => sep "," ++ dump y ++ elems l'
           end) l
  | JObj [] => chars "{}"
  | JObj ((k, x) :: d) =>
      "{"%char :: dump_string k ++ sep ":" ++ dump x ++
        (fix membs (d : list (string * json)) : list ascii :=
           match d with
           | [] => ["}"%char]
           | (k', y) :: d' => sep "," ++ dump_string k' ++ sep ":" ++ dump y ++ membs d'
           end) d
  end.
Definition dumps (v : json) : string := of_chars (dump v).

Definition dump_elems : list json -> list ascii :=
  fix elems l := match l with
  | [] => ["]"%char]
  | y :: l' => sep "," ++ dump y ++ elems l'
  end.
Definition dump_membs : list (string * json) -> list ascii :=
  fix membs d := match d with
  | [] => ["}"%char]
  | (k', y) :: d' => sep "," ++ dump_string k' ++ sep ":" ++ dump y ++ membs d'
  end.

Lemma dump_arr x l : dump (JArr (x :: l)) = "["%char :: dump x ++ dump_elems l.
Proof. done. Qed.
Lemma dump_obj k x d :
  dump (JObj ((k, x) :: d)) = "{"%char :: dump_string k ++ sep ":" ++ dump x ++ dump_membs d.
Proof. done. Qed.
End dump.

(** Induction over a document. *)
Section json_ind.
Context (P : json -> Prop).
Context (HN : P JNull) (HB : forall b, P (JBool b)) (HI : forall z, P (JInt z))
  (HF : forall s, P (JFloat s)) (HS : forall s, P (JStr s))
  (HA : forall l, Forall P l -> P (JArr l))
  (HO : forall d, Forall (fun kv => P kv.2) d -> P (JObj d)).
Fixpoint json_ind' (v : json) : P v :=
  match v with
  | JNull => HN | JBool b => HB b | JInt z => HI z | JFloat s => HF s | JStr s => HS s
  | JArr l => HA l ((fix go l : Forall P l :=
      match l with [] => Forall_nil_2 _ | x :: l' => Forall_cons_2 _ _ _ (json_ind' x) (go l') end) l)
  | JObj d => HO d ((fix go d : Forall (fun kv => P kv.2) d :=
      match d with [] => Forall_nil_2 _
      | (k, x) :: d' => Forall_cons_2 _ (k, x) _ (json_ind' x) (go d') end) d)
  end.
End json_ind.

(** ** Documents that survive [loads (dumps v)]: ASCII text, no floats,
    integers below the digit limit, objects with distinct keys. *)

Definition json_dict_ok (d : list (string * json)) : bool :=
  bool_decide (NoDup d.*1) && forallb (fun '(k, _) => all_ascii k) d.

Fixpoint json_ok (v : json) : bool :=
  match v with
  | JNull | JBool _ => true
  | JInt z => (length (dec_digits (Z.abs z)) <=? int_max_str_digits)%nat
  | JFloat _ => false
  | JStr s => all_ascii s
  | JArr l => forallb json_ok l
  | JObj d => json_dict_ok d && forallb (fun '(_, x) => json_ok x) d
  end.

(** ** Lemmas on the lexical level *)

Ltac by_ascii c := destruct c as [[] [] [] [] [] [] [] []]; try discriminate; reflexivity.

Lemma scan_string_escape_ascii c t acc :
  is_ascii c = true -> scan_string (escape_ascii c ++ t) acc = scan_string t (c :: acc).
Proof. intros Hc. by_ascii c. Qed.

Lemma escape_text_ascii l : forallb is_ascii l = true -> escape_text l = concat (escape_ascii <$> l).
Proof.
  induction l as [|c l IH]; simpl; [done|]. intros [Hc Hl]%andb_true_iff.
  unfold is_ascii in Hc. rewrite Hc. by rewrite (IH Hl).
Qed.

Lemma scan_string_escape l t acc :
  forallb is_ascii l = true ->
  scan_string (escape_text l ++ chr 34 :: t) acc = Some (rev acc ++ l, t).
Proof.
  intros Hl. rewrite escape_text_ascii by done.
  revert acc; induction l as [|c l IH]; intros acc; simpl.
  - by rewrite app_nil_r.
  - simpl in Hl. apply andb_true_iff in Hl as [Hc Hl].
    rewrite <- app_assoc, scan_string_escape_ascii, IH by done. simpl. by rewrite <- app_assoc.
Qed.

Lemma scan_string_dump s t :
  all_ascii s = true -> scan_string (escape_text (chars s) ++ chr 34 :: t) [] = Some (chars s, t).
Proof. intros Hs. by rewrite scan_string_escape. Qed.

(** A text that does not continue a number. *)
Definition num_stop (r : list ascii) : bool :=
  match r with
  | [] => true
  | c :: _ => negb (is_digit c || (code c =? 46) || (code c =? 101) || (code c =? 69))
  end.

Lemma num_stop_cons c r : num_stop (c :: r) = true ->
  is_digit c = false /\ (code c =? 46) = false /\ (code c =? 101) = false /\ (code c =? 69) = false.
Proof. simpl. intros H. apply negb_true_iff in H. bool_to_prop. rewrite !Z.eqb_neq. auto. Qed.

Lemma span_digits_app ds r :
  forallb is_digit ds = true -> num_stop r = true -> span_digits (ds ++ r) = (ds, r).
Proof.
  intros Hds Hr. induction ds as [|c ds IH]; simpl in *.
  - destruct r as [|c r]; [done|]. apply num_stop_cons in Hr as (Hd & _). simpl. by rewrite Hd.
  - apply andb_true_iff in Hds as [-> Hds]. by rewrite IH.
Qed.

Lemma scan_frac_stop r : num_stop r = true -> scan_frac r = ([], r).
Proof. destruct r as [|c r]; [done|]. intros (_ & H & _)%num_stop_cons. simpl. by rewrite H. Qed.

Lemma scan_exp_stop r : num_stop r = true -> scan_exp r = ([], r).
Proof. destruct r as [|c r]; [done|]. intros (_ & _ & H1 & H2)%num_stop_cons. simpl. by rewrite H1, H2. Qed.

Lemma scan_number_digits {E} neg ds r :
  canonical_digits ds = true -> num_stop r = true -> (length ds <= int_max_str_digits)%nat ->
  scan_number (E:=E) neg (ds ++ r) =
    Ok (JInt (if neg then - int_of_digits ds else int_of_digits ds), r).
Proof.
  intros Hds Hr Hlen. unfold scan_number.
  assert (Hint : (match ds ++ r with
     | [] => None
     | c :: l' => if code c =? 48 then Some ([c], l')
                  else if between 49 57 c then Some (span_digits (ds ++ r)) else None end) = Some (ds, r)).
  { assert (Hall := canonical_digits_all _ Hds). rewrite span_digits_app by done.
    destruct ds as [|c ds]; [done|]. simpl.
    destruct (Z.eqb_spec (code c) 48) as [H0|H0].
    - destruct ds as [|c2 ds]; [done|]. simpl in Hds. unfold between in Hds. rewrite H0 in Hds. done.
    - simpl in Hall. apply andb_true_iff in Hall as [Hc _].
      unfold is_digit, between in *. bool_to_prop.
      destruct (Z.leb_spec 49 (code c)); [|lia].
      destruct (Z.leb_spec (code c) 57); [done|lia]. }
  rewrite Hint, scan_frac_stop, scan_exp_stop by done.
  destruct (Nat.ltb_spec int_max_str_digits (length ds)); [lia | done].
Qed.

Lemma scan_const_digit {E} c l : is_digit c = true -> scan_const (E:=E) (c :: l) = scan_number false (c :: l).
Proof. intros Hc. destruct c as [[] [] [] [] [] [] [] []]; try discriminate; reflexivity. Qed.

Lemma scan_const_minus {E} c l : is_digit c = true ->
  scan_const (E:=E) ("-"%char :: c :: l) = scan_number true (c :: l).
Proof. intros Hc. destruct c as [[] [] [] [] [] [] [] []]; try discriminate; reflexivity. Qed.

Lemma chars_dec z :
  chars (dec z) = if z <? 0 then "-"%char :: dec_digits (- z) else dec_digits z.
Proof. unfold dec. destruct (z <? 0); simpl; by rewrite chars_of_chars. Qed.

Lemma dec_digits_cons z : 0 <= z -> exists c l, dec_digits z = c :: l /\ is_digit c = true.
Proof.
  intros Hz. pose proof (dec_digits_canonical z Hz) as Hc. pose proof (dec_digits_all z Hz) as Ha.
  destruct (dec_digits z) as [|c l]; [done|]. simpl in Ha. apply andb_true_iff in Ha as [Ha _]. eauto.
Qed.

Lemma scan_const_dec {E} z r :
  (length (dec_digits (Z.abs z)) <= int_max_str_digits)%nat -> num_stop r = true ->
  scan_const (E:=E) (chars (dec z) ++ r) = Ok (JInt z, r).
Proof.
  intros Hlen Hr. rewrite chars_dec. destruct (Z.ltb_spec z 0) as [Hz|Hz].
  - rewrite Z.abs_neq in Hlen by lia.
    destruct (dec_digits_cons (- z)) as (c & l & Hd & Hc); [lia|].
    rewrite Hd. simpl. rewrite scan_const_minus by done. change (c :: l ++ r) with ((c :: l) ++ r).
    rewrite <- Hd, scan_number_digits, int_dec_digits by (done || lia || auto with le_audio).
    do 3 f_equal. lia.
  - rewrite Z.abs_eq in Hlen by lia.
    destruct (dec_digits_cons z) as (c & l & Hd & Hc); [lia|].
    rewrite Hd. simpl. rewrite scan_const_digit by done. change (c :: l ++ r) with ((c :: l) ++ r).
    by rewrite <- Hd, scan_number_digits, int_dec_digits by (done || lia || auto with le_audio).
Qed.

(** ** [loads] undoes [dumps] *)

Lemma skip_ws_not c l : json_ws c = false -> skip_ws (c :: l) = c :: l.
Proof. simpl. by intros ->. Qed.


Lemma dump_head spaced v : json_ok v = true ->
  exists c t, dump spaced v = c :: t /\ json_ws c = false /\ code c <> 93 /\ code c <> 125.
Proof.
  destruct v as [|[]|z|lit|s|[|x l]|[|[k x] d]]; try done; simpl; intros Hok; try by eexists _, _.
  rewrite chars_dec. destruct (Z.ltb_spec z 0); [by eexists _, _|].
  destruct (dec_digits_cons z) as (c & l & -> & Hc); [lia|].
  exists c, l. split; [done|]. unfold is_digit, between in Hc. unfold json_ws. bool_to_prop.
  rewrite !(proj2 (Z.eqb_neq _ _)) by lia. repeat split; (done || lia).
Qed.

Lemma skip_ws_head spaced v r : json_ok v = true -> skip_ws (dump spaced v ++ r) = dump spaced v ++ r.
Proof. intros (c & t & -> & Hc & _)%(dump_head spaced). by apply skip_ws_not. Qed.

Section roundtrip.
Context {E : Type} (hook : list (string * json) -> result E (list (string * json))).
Context (hook_id : forall d, NoDup d.*1 -> hook d = Ok d).
Context (spaced : bool).

Let scans (v : json) : Prop := forall fuel r,
  json_ok v = true -> num_stop r = true -> (length (dump spaced v) <= fuel)%nat ->
  scan_value hook fuel (dump spaced v ++ r) = Ok (v, r).

Lemma skip_ws_after_sep c v r : json_ok v = true ->
  skip_ws (tail (sep spaced c) ++ dump spaced v ++ r) = dump spaced v ++ r.
Proof. intros Hv. destruct spaced; simpl; by apply skip_ws_head. Qed.

Lemma sep_cons c : sep spaced c = c :: tail (sep spaced c).
Proof. by destruct spaced. Qed.

Lemma num_stop_sep c r : num_stop [c] = true -> num_stop (sep spaced c ++ r) = true.
Proof. by destruct spaced. Qed.

Lemma num_stop_elems l r : num_stop (dump_elems spaced l ++ r) = true.
Proof. destruct l; [done|]. simpl. rewrite <- app_assoc. by apply num_stop_sep. Qed.

Lemma num_stop_membs d r : num_stop (dump_membs spaced d ++ r) = true.
Proof. destruct d as [|[k v] d]; [done|]. simpl. rewrite <- app_assoc. by apply num_stop_sep. Qed.

Lemma skip_ws_membs k v d r :
  skip_ws (dump_membs spaced ((k, v) :: d) ++ r) =
    ","%char :: tail (sep spaced ",") ++ dump_string k ++ sep spaced ":" ++ dump spaced v ++ dump_membs spaced d ++ r.
Proof. destruct spaced; simpl; by repeat (rewrite <- app_assoc; simpl). Qed.

Lemma skip_ws_after_comma k r : skip_ws (tail (sep spaced ",") ++ dump_string k ++ r) = dump_string k ++ r.
Proof. by destruct spaced. Qed.

Lemma scan_elements_dump v l acc fuel r :
  scans v -> Forall scans l -> json_ok v = true -> forallb json_ok l = true ->
  (length (dump spaced v ++ dump_elems spaced l) <= fuel)%nat ->
  scan_elements hook fuel acc (dump spaced v ++ dump_elems spaced l ++ r)
    = Ok (JArr (acc ++ v :: l), r).
Proof.
  intros Hv Hl. revert v acc fuel Hv; induction Hl as [|w l Hw Hl IH]; intros v acc fuel Hv Hokv Hokl Hlen.
  - rewrite length_app in Hlen. simpl in Hlen. destruct fuel as [|fuel]; [lia|].
    rewrite scan_elements_S; unfold elements_step; rewrite Hv by (done || lia). done.
  - rewrite length_app in Hlen. simpl in Hokl. apply andb_true_iff in Hokl as [Hokw Hokl].
    change (dump_elems spaced (w :: l)) with (sep spaced "," ++ dump spaced w ++ dump_elems spaced l) in *.
    rewrite sep_cons in Hlen |- *. rewrite !length_app in Hlen. simpl in Hlen.
    destruct fuel as [|fuel]; [lia|]. rewrite scan_elements_S; unfold elements_step; rewrite Hv by (done || lia). simpl. rewrite <- !app_assoc, skip_ws_after_sep by done.
    rewrite IH by (done || rewrite length_app; lia). by rewrite <- app_assoc.
Qed.

(** One member: the key, the colon and the value are consumed. *)
Lemma scan_members_dump_key f acc k v r1 :
  all_ascii k = true -> json_ok v = true ->
  scan_members hook (S f) acc (dump_string k ++ sep spaced ":" ++ dump spaced v ++ r1) =
    match scan_value hook f (dump spaced v ++ r1) with
    | Err e => Err e
    | Ok (v', r2) =>
        match skip_ws r2 with
        | [] => Err JDecode
        | d :: r3 =>
            if code d =? 125 then close_object hook (acc ++ [(k, v')]) r3
            else if code d =? 44 then scan_members hook f (acc ++ [(k, v')]) (skip_ws r3)
            else Err JDecode
        end
    end.
Proof.
  intros Hk Hv. unfold dump_string. simpl app. rewrite <- app_assoc. simpl app.
  erewrite scan_members_key; [|by rewrite scan_string_dump, sep_cons].
  by rewrite skip_ws_after_sep, of_chars_chars.
Qed.

Lemma length_dump_string k : (2 <= length (dump_string k))%nat.
Proof. unfold dump_string. rewrite length_cons, length_app, length_cons. lia. Qed.

Lemma dump_membs_cons k v d :
  dump_membs spaced ((k, v) :: d) =
    sep spaced "," ++ dump_string k ++ sep spaced ":" ++ dump spaced v ++ dump_membs spaced d.
Proof. done. Qed.

Lemma scan_members_dump k v d acc fuel r :
  scans v -> Forall (fun kv => scans kv.2) d -> json_ok v = true ->
  forallb (fun '(_, x) => json_ok x) d = true ->
  all_ascii k = true -> forallb (fun '(k, _) => all_ascii k) d = true ->
  NoDup (acc ++ (k, v) :: d).*1 ->
  (length (dump_string k ++ sep spaced ":" ++ dump spaced v ++ dump_membs spaced d) <= fuel)%nat ->
  scan_members hook fuel acc (dump_string k ++ sep spaced ":" ++ dump spaced v ++ dump_membs spaced d ++ r)
    = Ok (JObj (acc ++ (k, v) :: d), r).
Proof.
  intros Hv Hd. revert k v acc fuel Hv.
  induction Hd as [|[k' w] d Hw Hd IH]; intros k v acc fuel Hv Hokv Hokd Hk Hkd Hnd Hlen;
    pose proof (length_dump_string k) as Hk2; rewrite !length_app in Hlen;
    (destruct fuel as [|fuel]; [lia|]); rewrite scan_members_dump_key by done.
  - rewrite Hv by (done || lia). simpl. unfold close_object. by rewrite hook_id.
  - simpl in Hokd, Hkd. apply andb_true_iff in Hokd as [Hokw Hokd].
    apply andb_true_iff in Hkd as [Hk' Hkd].
    rewrite Hv by (done || apply (num_stop_membs ((k', w) :: d)) || lia).
    rewrite skip_ws_membs. change (code "," =? 125) with false. change (code "," =? 44) with true.
    cbn match. rewrite skip_ws_after_comma, IH; [by rewrite <- app_assoc | done.. | by rewrite <- app_assoc |].
    rewrite dump_membs_cons, !length_app in Hlen. rewrite !length_app. lia.
Qed.

Lemma scan_value_dump v : scans v.
Proof.
  induction v as [| b | z | lit | s | l IH | d IH] using json_ind'; intros fuel r Hok Hr Hlen.
  - destruct fuel; [simpl in Hlen; lia | done].
  - destruct fuel; [destruct b; simpl in Hlen; lia | by destruct b].
  - destruct fuel as [|fuel].
    { destruct (dump_head spaced (JInt z) Hok) as (c & t & Hd & _). rewrite Hd in Hlen. simpl in Hlen. lia. }
    destruct (dump_head spaced (JInt z) Hok) as (c & t & Hd & _).
    pose proof (scan_const_dec (E:=E) z r (proj1 (Nat.leb_le _ _) Hok) Hr) as Hs.
    simpl in Hd |- *. assert (Hc : code c <> 34 /\ code c <> 123 /\ code c <> 91).
    { clear -Hd. rewrite chars_dec in Hd. destruct (Z.ltb_spec z 0) as [|Hz].
      - injection Hd as <- _. done.
      - destruct (dec_digits_cons z Hz) as (c' & l & Hd' & Hc'). rewrite Hd' in Hd.
        injection Hd as -> _. unfold is_digit, between in Hc'. bool_to_prop. lia. }
    rewrite Hd in Hs |- *. simpl. rewrite !(proj2 (Z.eqb_neq _ _)) by apply Hc. exact Hs.
  - done.
  - destruct fuel as [|fuel]; [simpl in Hlen; lia|]. simpl.
    rewrite <- app_assoc. simpl. by rewrite scan_string_dump, of_chars_chars.
  - simpl in Hok. destruct l as [|x l]; [by destruct fuel; [simpl in Hlen; lia|]|].
    rewrite dump_arr in Hlen |- *. simpl in Hlen, Hok. destruct fuel as [|fuel]; [lia|].
    apply andb_true_iff in Hok as [Hx Hl]. apply Forall_cons in IH as [IHx IHl].
    destruct (dump_head spaced x Hx) as (c & t & Hd & Hws & Hne & _).
    simpl. rewrite <- app_assoc, skip_ws_head by done. rewrite Hd at 1. simpl.
    rewrite (proj2 (Z.eqb_neq _ _)) by done.
    change (c :: t ++ ?k) with ((c :: t) ++ k). rewrite <- Hd.
    by rewrite (scan_elements_dump x l []) by (done || lia).
  - simpl in Hok. apply andb_true_iff in Hok as [Hd Hok]. unfold json_dict_ok in Hd. bool_to_prop.
    destruct d as [|[k x] d].
    { destruct fuel; [simpl in Hlen; lia|]. simpl. unfold close_object. by rewrite hook_id. }
    rewrite dump_obj in Hlen |- *. rewrite length_cons in Hlen. destruct fuel as [|fuel]; [lia|].
    apply Forall_cons in IH as [IHx IHd]. simpl in Hok, H0. bool_to_prop.
    rewrite <- app_comm_cons, <- !app_assoc.
    transitivity (scan_members hook fuel []
      (dump_string k ++ sep spaced ":" ++ dump spaced x ++ dump_membs spaced d ++ r)); [done|].
    apply (scan_members_dump k x d []); (done || lia).
Qed.

(** [json.loads(json.dumps(v))] rebuilds [v]. *)
Lemma loads_chars_dump v : json_ok v = true -> loads_chars hook (dump spaced v) = Ok v.
Proof.
  intros Hv. unfold loads_chars.
  rewrite <- (app_nil_r (dump spaced v)) at 2. rewrite skip_ws_head by done.
  rewrite scan_value_dump by (done || unfold json_fuel; lia). done.
Qed.

Lemma loads_dumps v : json_ok v = true -> loads hook (dumps spaced v) = Ok v.
Proof.
  intros Hv. assert (Hc : chars (dumps spaced v) = dump spaced v) by apply chars_of_chars.
  transitivity (loads_chars hook (chars (dumps spaced v))); [reflexivity|].
  rewrite Hc. by apply loads_chars_dump.
Qed.

(** The same with a trailing newline, as a record read from a line. *)
Lemma loads_dumps_newline v :
  json_ok v = true -> loads_chars hook (dump spaced v ++ [chr 10]) = Ok v.
Proof.
  intros Hv. unfold loads_chars. rewrite skip_ws_head by done.
  rewrite scan_value_dump by (done || rewrite ?length_app; unfold json_fuel; rewrite ?length_app; lia). done.
Qed.
End roundtrip.

(** ** What [dumps] writes is printable ASCII: one line *)

Definition is_print : ascii -> bool := between 32 126.

Lemma escape_text_printable l : forallb is_ascii l = true -> forallb is_print (escape_text l) = true.
Proof.
  intros Hl. rewrite escape_text_ascii by done. induction l as [|c l IH]; [done|].
  simpl in Hl. apply andb_true_iff in Hl as [Hc Hl]. rewrite fmap_cons. simpl. rewrite forallb_app, IH by done.
  rewrite andb_true_r. by_ascii c.
Qed.

Lemma dump_string_printable k : all_ascii k = true -> forallb is_print (dump_string k) = true.
Proof. intros Hk. unfold dump_string. simpl. rewrite forallb_app, escape_text_printable by done. done. Qed.

Lemma digits_printable l : forallb is_digit l = true -> forallb is_print l = true.
Proof.
  rewrite !forallb_forall. intros H c Hc. apply H in Hc. unfold is_digit, is_print, between in *. bool_to_prop. apply andb_true_iff. lia.
Qed.

Lemma dump_printable spaced v : json_ok v = true -> forallb is_print (dump spaced v) = true.
Proof.
  assert (forall c, is_print c = true -> forallb is_print (sep spaced c) = true) as Hsep.
  { intros c Hc. unfold sep. destruct spaced; simpl; by rewrite Hc. }
  assert (forall c l, is_print c = true -> forallb is_print (c :: l) = forallb is_print l) as Hcons by (intros c l Hc; simpl; by rewrite Hc).
  induction v as [| | | | |l IH|d IH] using json_ind'; intros Hv; try done; try (by destruct b).
  - cbn [dump]. rewrite chars_dec. destruct (Z.ltb_spec z 0); [simpl|]; apply digits_printable, dec_digits_all; lia.
  - by apply dump_string_printable.
  - simpl in Hv. destruct l as [|x l]; [done|]. rewrite dump_arr. simpl in Hv. apply andb_true_iff in Hv as [Hx Hl].
    apply Forall_cons in IH as [IHx IHl]. simpl. rewrite forallb_app, IHx by done. simpl.
    induction l as [|y l IH']; [done|]. simpl in Hl. apply andb_true_iff in Hl as [Hy Hl].
    apply Forall_cons in IHl as [IHy IHl]. cbn [dump_elems]. rewrite !forallb_app, Hsep, IHy by done. by apply IH'.
  - simpl in Hv. apply andb_true_iff in Hv as [Hd Hv]. unfold json_dict_ok in Hd. apply andb_true_iff in Hd as [_ Hk].
    destruct d as [|[k x] d]; [done|]. rewrite dump_obj. simpl in Hv, Hk. apply andb_true_iff in Hv as [Hx Hv].
    apply andb_true_iff in Hk as [Hk0 Hk]. apply Forall_cons in IH as [IHx IHd]. simpl in IHx.
    rewrite Hcons by done. rewrite !forallb_app, dump_string_printable, Hsep, IHx by done. cbn [andb].
    induction d as [|[k' y] d IH']; [done|]. simpl in Hk, Hv. apply andb_true_iff in Hk as [Hk1 Hk].
    apply andb_true_iff in Hv as [Hy Hv]. apply Forall_cons in IHd as [IHy IHd]. simpl in IHy.
    cbn [dump_membs]. rewrite !forallb_app, !Hsep, dump_string_printable, IHy by done. by apply IH'.
Qed.

Lemma dump_is_ascii spaced v : json_ok v = true -> forallb is_ascii (dump spaced v) = true.
Proof.
  intros Hv%(dump_printable spaced). rewrite forallb_forall in *. intros c Hc%Hv. unfold is_print, between, is_ascii in *.
  bool_to_prop. apply Z.ltb_lt. lia.
Qed.

(** ** The fuel of [loads] is enough: the scanner always reaches a verdict *)

Section termination.
Context {E : Type} (hook : list (string * json) -> result E (list (string * json))).

Lemma skip_ws_length l : (length (skip_ws l) <= length l)%nat.
Proof. induction l as [|c l IH]; simpl; [lia|]. destruct (json_ws c); simpl; lia. Qed.

Lemma span_digits_length l d r : span_digits l = (d, r) -> length l = (length d + length r)%nat.
Proof.
  revert d r; induction l as [|c l IH]; intros d r; simpl; [by intros [= <- <-]|].
  destruct (is_digit c); [|by intros [= <- <-]].
  destruct (span_digits l) as [d' r'] eqn:Hs. intros [= <- <-]. simpl. rewrite (IH _ _ eq_refl). lia.
Qed.

Lemma scan_frac_length l d r : scan_frac l = (d, r) -> (length r <= length l)%nat.
Proof.
  destruct l as [|c l]; simpl; [by intros [= <- <-]|].
  destruct (code c =? 46); [|by intros [= <- <-]].
  destruct (span_digits l) as [[|x d'] r'] eqn:Hs; [by intros [= <- <-]|].
  apply span_digits_length in Hs. intros [= <- <-]. simpl in *. lia.
Qed.

Lemma scan_exp_length l d r : scan_exp l = (d, r) -> (length r <= length l)%nat.
Proof.
  destruct l as [|c l]; simpl; [by intros [= <- <-]|].
  destruct ((code c =? 101) || (code c =? 69)); [|by intros [= <- <-]].
  destruct (match l with | [] => _ | s :: l3 => _ end) as [sg l2] eqn:Hsg.
  assert (length l2 <= length l)%nat.
  { destruct l as [|s l3]; [by injection Hsg as <- <-|].
    destruct ((code s =? 43) || (code s =? 45)); injection Hsg as <- <-; simpl; lia. }
  destruct (span_digits l2) as [[|x d'] r'] eqn:Hs; [by intros [= <- <-]|].
  apply span_digits_length in Hs. intros [= <- <-]. simpl in *. lia.
Qed.

(** A successful scan consumes text; a failing one never blames the fuel. *)
Definition scan_fine (l : list ascii) (res : result (json_error E) (json * list ascii)) : Prop :=
  match res with
  | Ok (_, r) => (length r < length l)%nat
  | Err JFuel => False
  | Err _ => True
  end.

Lemma scan_number_fine neg l : scan_fine l (scan_number neg l).
Proof.
  unfold scan_number.
  destruct (match l with | [] => None | c :: l' => _ end) as [[ip r]|] eqn:Hip; [|done].
  assert (length r < length l)%nat.
  { destruct l as [|c l']; [done|]. destruct (code c =? 48); [injection Hip as <- <-; simpl; lia|].
    destruct (between 49 57 c) eqn:Hb; [|done]. assert (Hs : span_digits (c :: l') = (ip, r)) by congruence.
    apply span_digits_length in Hs as Hl. destruct ip as [|x ip]; [|simpl in *; lia]. exfalso.
    simpl in Hs. unfold is_digit, between in *. bool_to_prop.
    destruct (Z.leb_spec 48 (code c)), (Z.leb_spec (code c) 57); try lia.
    simpl in Hs. by destruct (span_digits l'). }
  destruct (scan_frac r) as [fp r1] eqn:Hf. apply scan_frac_length in Hf.
  destruct (scan_exp r1) as [ep r2] eqn:He. apply scan_exp_length in He.
  destruct fp, ep; simpl; try lia. destruct (_ <? _)%nat; simpl; [done | lia].
Qed.

Lemma scan_const_fine l : scan_fine l (scan_const l).
Proof.
  unfold scan_const. cbv zeta beta.
  repeat match goal with |- context [strip_prefix (chars ?kw) l] =>
    let Hp := fresh in destruct (strip_prefix (chars kw) l) as [r|] eqn:Hp;
    [apply strip_prefix_Some in Hp; subst l; simpl; lia | clear Hp] end.
  destruct l as [|c l]; [done|]. destruct (code c =? 45); [|apply scan_number_fine].
  pose proof (scan_number_fine true l) as Hs.
  destruct (scan_number true l) as [[v r]|[]]; simpl in *; try done; lia.
Qed.

Lemma scan_string_length l : forall acc s r, scan_string l acc = Some (s, r) -> (length r < length l)%nat.
Proof.
  induction l as [l IH] using (induction_ltof1 _ (@length ascii)). unfold ltof in IH.
  intros acc s r. destruct l as [|c l]; simpl; [done|].
  repeat case_match; intros; simplify_eq; simpl; try lia;
    match goal with H : scan_string _ _ = Some _ |- _ => apply IH in H; simpl in *; lia end.
Qed.

Lemma scan_fine_mono l l' res : (length l <= length l')%nat -> scan_fine l res -> scan_fine l' res.
Proof. destruct res as [[v r]|[]]; simpl; intros; try done; lia. Qed.

Lemma close_object_fine l d r : (length r < length l)%nat -> scan_fine l (close_object hook d r).
Proof. unfold close_object. by destruct (hook d). Qed.

Lemma scan_all_fine f : forall l,
  ((2 * length l + 1 <= f)%nat -> scan_fine l (scan_value hook f l)) /\
  ((2 * length l + 2 <= f)%nat -> forall acc, scan_fine l (scan_members hook f acc l)) /\
  ((2 * length l + 2 <= f)%nat -> forall acc, scan_fine l (scan_elements hook f acc l)).
Proof.
  induction f as [|f IH]; intros l; [repeat split; lia|]. split_and!; intros Hf; [|intros acc..].
  - rewrite scan_value_S. unfold value_step. destruct l as [|c l]; [done|]. simpl length in Hf.
    destruct (code c =? 34).
    { destruct (scan_string l []) as [[s r]|] eqn:Hs; [|done]. apply scan_string_length in Hs. simpl. lia. }
    pose proof (skip_ws_length l) as Hws.
    destruct (code c =? 123); [|destruct (code c =? 91); [|apply scan_const_fine]];
      (destruct (skip_ws l) as [|c2 r]; [done|]); simpl in Hws.
    + destruct (_ =? 125); [apply close_object_fine; simpl; lia|].
      eapply scan_fine_mono; [|apply IH]; simpl; lia.
    + destruct (_ =? 93); [simpl; lia|]. eapply scan_fine_mono; [|apply IH]; simpl; lia.
  - rewrite scan_members_S. unfold members_step. destruct l as [|q l]; [done|]. simpl length in Hf.
    destruct (code q =? 34); [|done].
    destruct (scan_string l []) as [[key r]|] eqn:Hs; [|done]. apply scan_string_length in Hs.
    pose proof (skip_ws_length r). destruct (skip_ws r) as [|col r1]; [done|]. simpl in *.
    destruct (code col =? 58); [|done]. pose proof (skip_ws_length r1).
    assert (Hv : scan_fine (skip_ws r1) (scan_value hook f (skip_ws r1))) by (apply IH; lia).
    destruct (scan_value hook f (skip_ws r1)) as [[v r2]|e]; [|by destruct e]. simpl in Hv.
    pose proof (skip_ws_length r2). destruct (skip_ws r2) as [|d r3]; [done|]. simpl in *.
    pose proof (skip_ws_length r3).
    destruct (code d =? 125); [apply close_object_fine; simpl; lia|]. destruct (code d =? 44); [|done].
    eapply scan_fine_mono; [|apply IH]; simpl; lia.
  - rewrite scan_elements_S. unfold elements_step.
    assert (Hv : scan_fine l (scan_value hook f l)) by (apply IH; lia).
    destruct (scan_value hook f l) as [[v r2]|e]; [|by destruct e]. simpl in Hv.
    pose proof (skip_ws_length r2). destruct (skip_ws r2) as [|d r3]; [done|]. simpl in *.
    pose proof (skip_ws_length r3).
    destruct (code d =? 93); [simpl; lia|]. destruct (code d =? 44); [|done].
    eapply scan_fine_mono; [|apply IH]; simpl; lia.
Qed.

(** [json.loads] always reaches a verdict. *)
Lemma loads_chars_fuel l : loads_chars hook l <> Err JFuel.
Proof.
  unfold loads_chars, json_fuel. pose proof (skip_ws_length l).
  assert (Hs : scan_fine (skip_ws l) (scan_value hook (S (2 * length l)) (skip_ws l)))
    by (apply scan_all_fine; lia).
  destruct (scan_value _ _ _) as [[v r]|e].
  - by destruct (skip_ws r).
  - intros [= ->]. done.
Qed.
End termination.
