(* ===== verification/HilProtocol.v ===== *)
(** * HIL1 protocol: record parser and run tracker (scripts/hil/protocol.py)

    [parse_hil1_line] is modelled on the text of a console line down to the
    JSON scanner; [HilRunTracker] is a record of the object's fields and
    [accept] a method over it, in the statement order of the source.  Every
    [raise HilProtocolError(...)] is a constructor of [HilProtocolError]. *)

From S2P Require Import Prelude PyText Json.

(** ** Constants *)

Definition PROTOCOL_VERSION : Z := 1.
Definition KINDS : list string := ["ack"; "state"; "terminal"; "status"].
Definition STATES : list string :=
  ["idle"; "configured"; "connecting"; "secured"; "discovered"; "qos";
   "streaming"; "scored_complete"; "teardown"].
Definition TERMINAL_VERDICTS : list string := ["pass"; "fail"].
Definition ABORT_CAUSES : list string := ["stop"; "timeout"; "error"].
Definition REQUIRED_KEYS : list string :=
  ["protocol_version"; "kind"; "firmware_id"; "monotonic_ms"; "command_id";
   "run_id"; "segment"; "data"].

(** ** Errors *)

(** The messages of [HilProtocolError] raised by [parse_hil1_line]. *)
Inductive parse_error : Type :=
| NotUtf8                      (* line is not valid UTF-8 *)
| NotText                      (* line must be text *)
| EmptyObject                  (* empty HIL1 JSON object *)
| DuplicateKey (key : string)
| InvalidJson
| NotAnObject
| UnknownKey (key : string)
| MissingKey (key : string)
| BadProtocolVersion | BadKind | BadFirmwareId | BadCommandId | BadRunId
| BadMonotonic | BadSegment | BadData
| AbortStateNotTeardown | BadAbortCause
| StateKeysNotExact | UnknownState
| BadVerdict.

(** The messages of [HilProtocolError] raised by the tracker. *)
Inductive track_error : Type :=
| RunIdMismatch | FirmwareIdMismatch | MonotonicRegression
| SegmentNotZero | TerminalBeforeTeardown | SegmentRegression | SegmentSkip
| CommandIdMismatch | StatusSameCommandId | DuplicateTerminal | PostTerminalRecord
| AbortBeforeStart | AbortAfterTeardown | RepeatAbort | PassAfterAbort
| SegmentMustStartAt0 | FirstStateNotIdle | StateRepeat | StateRegression | StateSkip
| NewSegmentBeforeTeardown | ReconnectAfterAbort | NewSegmentNotConnecting.

(** What a call raises: a [HilProtocolError], or an exception of Python
    itself ([ValueError] from [int] or [STATES.index], [KeyError] from
    [record.data[...]]). *)
Inductive exn (E : Type) : Type :=
| HilProtocolError (e : E)
| ValueError
| KeyError (key : string).
Arguments HilProtocolError {E} e. Arguments ValueError {E}. Arguments KeyError {E} key.

(** ** Records *)

Record HilRecord : Type := mkHilRecord {
  protocol_version : Z;
  kind : string;
  firmware_id : string;
  monotonic_ms : Z;
  command_id : string;
  run_id : string;
  segment : Z;
  data : list (string * json);
}.

Fixpoint reject_loop (pairs out : list (string * json)) : result string (list (string * json)) :=
  match pairs with
  | [] => Ok out
  | (key, value) :: pairs' =>
      if dict_has key out then Err key else reject_loop pairs' (dict_set key value out)
  end.
Definition _reject_duplicate_keys (pairs : list (string * json)) : result string (list (string * json)) :=
  reject_loop pairs [].

(** [isinstance(value, int) and not isinstance(value, bool)] *)
Definition _is_int (v : json) : option Z := match v with JInt z => Some z | _ => None end.

Definition is_str (v : json) : option string := match v with JStr s => Some s | _ => None end.
Definition is_dict (v : json) : option (list (string * json)) :=
  match v with JObj d => Some d | _ => None end.

(** [isinstance(value, str) and value] *)
Definition nonempty_str (v : json) : option string :=
  s ← is_str v; if decide (s = "") then None else Some s.

(** [set(data.keys()) == set(ks)] *)
Definition keys_are (d : list (string * json)) (ks : list string) : bool :=
  forallb (fun k => py_in k ks) d.*1 && forallb (fun k => dict_has k d) ks.

(** [data.get(key) in choices] for a tuple of strings. *)
Definition get_in (key : string) (choices : list string) (d : list (string * json)) : bool :=
  match dict_get key d with Some (JStr s) => py_in s choices | _ => false end.

(** [not body.strip()]: only white space, the non-ASCII spaces of
    [str.isspace] included (as UTF-8 sequences). *)
Fixpoint blank (l : list ascii) : bool :=
  match l with
  | [] => true
  | a :: l1 =>
      if code a <? 128 then is_space a && blank l1
      else match l1 with
      | [] => false
      | b :: l2 =>
          if code a =? 194 then ((code b =? 133) || (code b =? 160)) && blank l2
          else match l2 with
          | [] => false
          | c :: l3 =>
              ((code a =? 225) && (code b =? 154) && (code c =? 128)
               || (code a =? 226) && (code b =? 128) && (between 128 138 c || (code c =? 168) || (code c =? 169) || (code c =? 175))
               || (code a =? 226) && (code b =? 129) && (code c =? 159)
               || (code a =? 227) && (code b =? 128) && (code c =? 128))
              && blank l3
          end
      end
  end.

(** A console line as the caller hands it over. *)
Inductive line : Type :=
| LBytes (b : string)      (* [bytes] *)
| LStr (s : string)        (* [str] *)
| LOther.                  (* any other object *)

Abbreviation presult A := (result (exn parse_error) A).
Definition pcheck (b : bool) (e : parse_error) : presult unit := ensure b (HilProtocolError e).
Definition pget {A} (o : option A) (e : parse_error) : presult A :=
  result_of_option (HilProtocolError e) o.

(** [json.loads(body, object_pairs_hook=_reject_duplicate_keys)] with its handlers. *)
Definition loads_strict (body : list ascii) : presult json :=
  match loads_chars _reject_duplicate_keys body with
  | Ok v => Ok v
  | Err (JHook key) => Err (HilProtocolError (DuplicateKey key))
  | Err JIntLimit => Err ValueError
  | Err _ => Err (HilProtocolError InvalidJson)
  end.

Definition first_unknown (allowed : list string) (d : list (string * json)) : option string :=
  find (fun k => negb (py_in k allowed)) d.*1.
Definition first_missing (required : list string) (d : list (string * json)) : option string :=
  find (fun k => negb (dict_has k d)) required.

Arguments first_unknown : simpl never.
Arguments first_missing : simpl never.

Definition no_key (o : option string) (e : string -> parse_error) : presult unit :=
  match o with Some k => Err (HilProtocolError (e k)) | None => Ok tt end.

(** [obj[key]]; every use follows the missing-key check. *)
Definition item (d : list (string * json)) (key : string) : presult json :=
  result_of_option (KeyError key) (dict_get key d).

(** The shape of [data] required of a [state] record. *)
Definition check_state_data (data : list (string * json)) : presult unit :=
  if keys_are data ["state"; "cause"] then
    pcheck (get_in "state" ["teardown"] data) AbortStateNotTeardown;;
    pcheck (get_in "cause" ABORT_CAUSES data) BadAbortCause
  else
    pcheck (keys_are data ["state"]) StateKeysNotExact;;
    pcheck (get_in "state" STATES data) UnknownState.

Definition nonneg_int (v : json) : option Z :=
  z ← _is_int v; if z <? 0 then None else Some z.

(** The record checks of [parse_hil1_line] after [json.loads]. *)
Definition record_of_json (v : json) : presult HilRecord :=
  obj ← pget (is_dict v) NotAnObject;
  no_key (first_unknown REQUIRED_KEYS obj) UnknownKey;;
  no_key (first_missing REQUIRED_KEYS obj) MissingKey;;
  pv ← item obj "protocol_version";
  version ← pget (_is_int pv) BadProtocolVersion;
  pcheck (version =? PROTOCOL_VERSION) BadProtocolVersion;;
  k ← item obj "kind";
  kd ← pget (is_str k) BadKind;
  pcheck (py_in kd KINDS) BadKind;;
  fw ← item obj "firmware_id"; firmware ← pget (nonempty_str fw) BadFirmwareId;
  cm ← item obj "command_id"; command ← pget (nonempty_str cm) BadCommandId;
  rn ← item obj "run_id"; run ← pget (nonempty_str rn) BadRunId;
  ms ← item obj "monotonic_ms"; monotonic ← pget (nonneg_int ms) BadMonotonic;
  sg ← item obj "segment"; seg ← pget (nonneg_int sg) BadSegment;
  dt ← item obj "data"; dat ← pget (is_dict dt) BadData;
  (if decide (kd = "state") then check_state_data dat else Ok tt);;
  (if decide (kd = "terminal") then pcheck (get_in "verdict" TERMINAL_VERDICTS dat) BadVerdict else Ok tt);;
  Ok (mkHilRecord version kd firmware monotonic command run seg dat).

Definition PREFIX : string := "HIL1 ".

Definition parse_text (s : string) : presult (option HilRecord) :=
  match strip_prefix (chars PREFIX) (chars s) with
  | None => Ok None
  | Some body =>
      if blank body then Err (HilProtocolError EmptyObject)
      else v ← loads_strict body; Some <$> record_of_json v
  end.

Definition parse_hil1_line (l : line) : presult (option HilRecord) :=
  match l with
  | LBytes b =>
      if startswith PREFIX b then
        if utf8_valid (chars b) then parse_text b else Err (HilProtocolError NotUtf8)
      else Ok None
  | LStr s => parse_text s
  | LOther => Err (HilProtocolError NotText)
  end.

(** ** The run tracker *)

Module HilRunTracker.

Record t : Type := mk {
  run_id : string;
  command_id : string;
  firmware_id : option string;
  segment : option Z;
  state_index : Z;
  last_monotonic : Z;
  terminal : option HilRecord;
  aborted : bool;
  abort_cause : option json;
}.

Definition init (rid cid : string) : t :=
  mk rid cid None None (-1) (-1) None false None.

Definition set_firmware_id f (s : t) := mk (run_id s) (command_id s) f (segment s)
  (state_index s) (last_monotonic s) (terminal s) (aborted s) (abort_cause s).
Definition set_last_monotonic m (s : t) := mk (run_id s) (command_id s) (firmware_id s) (segment s)
  (state_index s) m (terminal s) (aborted s) (abort_cause s).
Definition set_segment g (s : t) := mk (run_id s) (command_id s) (firmware_id s) g
  (state_index s) (last_monotonic s) (terminal s) (aborted s) (abort_cause s).
Definition set_state_index i (s : t) := mk (run_id s) (command_id s) (firmware_id s) (segment s)
  i (last_monotonic s) (terminal s) (aborted s) (abort_cause s).
Definition set_aborted b (s : t) := mk (run_id s) (command_id s) (firmware_id s) (segment s)
  (state_index s) (last_monotonic s) (terminal s) b (abort_cause s).
Definition set_abort_cause c (s : t) := mk (run_id s) (command_id s) (firmware_id s) (segment s)
  (state_index s) (last_monotonic s) (terminal s) (aborted s) c.
Definition set_terminal r (s : t) := mk (run_id s) (command_id s) (firmware_id s) (segment s)
  (state_index s) (last_monotonic s) r (aborted s) (abort_cause s).

Abbreviation tresult A := (result (exn track_error) A).
Abbreviation M A := (method t (exn track_error) A).

Definition terr {A} (e : track_error) : tresult A := Err (HilProtocolError e).
Definition tcheck (b : bool) (e : track_error) : tresult unit := ensure b (HilProtocolError e).

(** [len(STATES) - 1] *)
Definition TEARDOWN : Z := Z.of_nat (length STATES) - 1.

Definition _is_abort_record (record : HilRecord) : bool :=
  keys_are (data record) ["state"; "cause"].

(** [record.data[key]] *)
Definition data_item (record : HilRecord) (key : string) : tresult json :=
  result_of_option (KeyError key) (dict_get key (data record)).

(** Returns the proposed [(segment, state_index, aborted, abort_cause)]. *)
Definition _validate_abort (s : t) (record : HilRecord) : tresult (option Z * Z * bool * json) :=
  cause ← data_item record "cause";
  match segment s with
  | None => terr AbortBeforeStart
  | Some seg =>
      let rseg := HilProtocol.segment record in
      if negb (rseg =? seg) then
        if rseg <? seg then terr SegmentRegression else terr SegmentSkip
      else
        tcheck (negb (state_index s =? TEARDOWN)) AbortAfterTeardown;;
        tcheck (negb (aborted s)) RepeatAbort;;
        Ok (Some seg, TEARDOWN, true, cause)
  end.

(** [STATES.index(state)] *)
Definition states_index (state : json) : tresult (string * Z) :=
  match state with
  | JStr st => match py_index st STATES with Some i => Ok (st, i) | None => Err ValueError end
  | _ => Err ValueError
  end.

(** Returns the proposed [(segment, state_index)]. *)
Definition _validate_state (s : t) (record : HilRecord) : tresult (option Z * Z) :=
  st ← data_item record "state";
  '(state, index) ← states_index st;
  let rseg := HilProtocol.segment record in
  match segment s with
  | None =>
      tcheck (rseg =? 0) SegmentMustStartAt0;;
      tcheck (bool_decide (state = "idle")) FirstStateNotIdle;;
      Ok (Some 0, index)
  | Some seg =>
      if rseg =? seg then
        let expected := state_index s + 1 in
        tcheck (negb (index =? state_index s)) StateRepeat;;
        tcheck (negb (index <? state_index s)) StateRegression;;
        tcheck (index =? expected) StateSkip;;
        Ok (Some seg, index)
      else if rseg =? seg + 1 then
        tcheck (state_index s =? TEARDOWN) NewSegmentBeforeTeardown;;
        tcheck (negb (aborted s)) ReconnectAfterAbort;;
        tcheck (bool_decide (state = "connecting")) NewSegmentNotConnecting;;
        Ok (Some rseg, index)
      else if rseg <? seg then terr SegmentRegression
      else terr SegmentSkip
  end.

Definition _validate_terminal (s : t) (record : HilRecord) : tresult unit :=
  tcheck (bool_decide (is_Some (segment s)) && (state_index s =? TEARDOWN)) TerminalBeforeTeardown.

(** The firmware identity of the proposed transition. *)
Definition propose_firmware (s : t) (record : HilRecord) : tresult string :=
  match firmware_id s with
  | None => Ok (HilProtocol.firmware_id record)
  | Some f => if decide (HilProtocol.firmware_id record = f) then Ok f else terr FirmwareIdMismatch
  end.

(** The segment contract of every record kind. *)
Definition check_segment (s : t) (record : HilRecord) : tresult unit :=
  let k := kind record in
  let rseg := HilProtocol.segment record in
  match segment s with
  | None =>
      tcheck (negb (py_in k ["ack"; "status"] && negb (rseg =? 0))) SegmentNotZero;;
      tcheck (negb (bool_decide (k = "terminal"))) TerminalBeforeTeardown
  | Some seg =>
      if py_in k ["ack"; "status"; "terminal"] && negb (rseg =? seg) then
        if rseg <? seg then terr SegmentRegression else terr SegmentSkip
      else Ok tt
  end.

Definition check_command (s : t) (record : HilRecord) : tresult unit :=
  let k := kind record in
  let same := bool_decide (HilProtocol.command_id record = command_id s) in
  if py_in k ["ack"; "state"; "terminal"] then tcheck same CommandIdMismatch
  else if decide (k = "status") then tcheck (negb same) StatusSameCommandId
  else Ok tt.

Definition check_terminal (s : t) (record : HilRecord) : tresult unit :=
  let k := kind record in
  match terminal s with
  | Some _ =>
      tcheck (negb (bool_decide (k = "terminal"))) DuplicateTerminal;;
      tcheck (negb (py_in k ["ack"; "state"])) PostTerminalRecord
  | None => Ok tt
  end.

(** The proposed [(segment, state_index, aborted, abort_cause)]. *)
Definition propose (s : t) (record : HilRecord) : tresult (option Z * Z * bool * option json) :=
  let k := kind record in
  if decide (k = "state") then
    if _is_abort_record record then
      '(g, i, a, c) ← _validate_abort s record; Ok (g, i, a, Some c)
    else
      '(g, i) ← _validate_state s record; Ok (g, i, aborted s, abort_cause s)
  else if decide (k = "terminal") then
    _validate_terminal s record;;
    tcheck (negb (aborted s && get_in "verdict" ["pass"] (data record))) PassAfterAbort;;
    Ok (segment s, state_index s, aborted s, abort_cause s)
  else Ok (segment s, state_index s, aborted s, abort_cause s).

Definition accept (record : HilRecord) : M unit :=
  s ← self;
  check (bool_decide (HilProtocol.run_id record = run_id s)) (HilProtocolError RunIdMismatch);;
  proposed_firmware ← lift (propose_firmware s record);
  check (negb (monotonic_ms record <? last_monotonic s)) (HilProtocolError MonotonicRegression);;
  let proposed_monotonic := monotonic_ms record in
  lift (check_segment s record);;
  lift (check_command s record);;
  lift (check_terminal s record);;
  p ← lift (propose s record);
  let '(g, i, a, c) := p in
  (* commit *)
  assign (set_firmware_id (Some proposed_firmware));;
  assign (set_last_monotonic proposed_monotonic);;
  if decide (kind record = "state") then
    assign (set_segment g);;
    assign (set_state_index i);;
    if _is_abort_record record then
      assign (set_aborted a);; assign (set_abort_cause c)
    else mret tt
  else if decide (kind record = "terminal") then
    assign (set_terminal (Some record))
  else mret tt.

(** Feed a sequence of records; the first error stops the run. *)
Fixpoint run (s : t) (rs : list HilRecord) : tresult t :=
  match rs with
  | [] => Ok s
  | r :: rs' =>
      match accept r s with
      | (Ok _, s') => run s' rs'
      | (Err e, _) => Err e
      end
  end.
End HilRunTracker.

(** ** Lemmas on the tracker *)

Module TrackerFacts.
Import HilRunTracker.

(** [accept] decomposed: validation against the current state, then one commit. *)
Definition validate (s : t) (r : HilRecord) : tresult (string * (option Z * Z * bool * option json)) :=
  tcheck (bool_decide (HilProtocol.run_id r = run_id s)) RunIdMismatch;;
  f ← propose_firmware s r;
  tcheck (negb (monotonic_ms r <? last_monotonic s)) MonotonicRegression;;
  check_segment s r;; check_command s r;; check_terminal s r;;
  p ← propose s r;
  Ok (f, p).

Definition commit (s : t) (r : HilRecord) (f : string) (p : option Z * Z * bool * option json) : t :=
  let '(g, i, a, c) := p in
  mk (run_id s) (command_id s) (Some f) g i (monotonic_ms r)
    (if decide (kind r = "terminal") then Some r else terminal s) a c.

Lemma propose_other s r p : kind r <> "state" -> propose s r = Ok p ->
  p = (segment s, state_index s, aborted s, abort_cause s).
Proof.
  intros Hk. unfold propose. rewrite decide_False by done.
  case_decide; intros Hp; result_inv Hp; congruence.
Qed.

Lemma propose_ordinary s r g i a c : kind r = "state" -> _is_abort_record r = false ->
  propose s r = Ok (g, i, a, c) -> a = aborted s /\ c = abort_cause s.
Proof.
  intros Hk Hr. unfold propose. rewrite decide_True, Hr by done. intros H. result_inv H.
  destruct a0 as [g' i']. naive_solver.
Qed.

Lemma accept_spec r s :
  accept r s = match validate s r with
               | Err e => (Err e, s)
               | Ok (f, p) => (Ok tt, commit s r f p)
               end.
Proof.
  unfold accept, validate, mbind, method_bind, result_bind, self, check, lift, assign, mret, method_ret, tcheck.
  destruct (ensure _ _) as [[]|]; [|done].
  destruct (propose_firmware s r) as [f|]; [|done].
  destruct (ensure _ _) as [[]|]; [|done].
  destruct (check_segment s r) as [[]|]; [|done].
  destruct (check_command s r) as [[]|]; [|done].
  destruct (check_terminal s r) as [[]|]; [|done].
  destruct (propose s r) as [[[[g i] a] c]|] eqn:Hp; [|done].
  unfold commit. destruct s as [rid cid fw seg idx mono term ab cause].
  destruct (decide (kind r = "state")) as [Hk|Hk].
  - rewrite (decide_False (P := kind r = "terminal")) by congruence.
    destruct (_is_abort_record r) eqn:Hab; [done|].
    by destruct (propose_ordinary _ _ _ _ _ _ Hk Hab Hp) as [-> ->].
  - pose proof (propose_other _ _ _ Hk Hp) as [= -> -> -> ->]. by case_decide.
Qed.

Lemma run_snoc s rs r :
  run s (rs ++ [r]) = (s' ← run s rs; match accept r s' with (Ok _, s2) => Ok s2 | (Err e, _) => Err e end).
Proof.
  revert s; induction rs as [|r' rs IH]; intros s; simpl.
  - by destruct (accept r s) as [[]].
  - destruct (accept r' s) as [[]]; [apply IH | done].
Qed.

Lemma run_snoc_Ok s rs r s2 : run s (rs ++ [r]) = Ok s2 ->
  exists s1 f p, run s rs = Ok s1 /\ validate s1 r = Ok (f, p) /\ s2 = commit s1 r f p.
Proof.
  rewrite run_snoc, bind_Ok. intros (s1 & Hs1 & H). rewrite accept_spec in H.
  destruct (validate s1 r) as [[f p]|e] eqn:Hv; [|done]. injection H as <-. by exists s1, f, p.
Qed.

(** What a successful validation establishes. *)
Lemma validate_Ok s r f p : validate s r = Ok (f, p) ->
  HilProtocol.run_id r = run_id s /\ propose_firmware s r = Ok f /\
  last_monotonic s <= monotonic_ms r /\ check_segment s r = Ok tt /\
  check_command s r = Ok tt /\ check_terminal s r = Ok tt /\ propose s r = Ok p.
Proof.
  unfold validate, tcheck. intros H. result_inv H. simplify_eq. bool_to_prop.
  repeat match goal with u : () |- _ => destruct u end. split_and!; done || lia.
Qed.

Lemma firmware_Ok s r f : propose_firmware s r = Ok f ->
  f = HilProtocol.firmware_id r /\ (firmware_id s = None \/ firmware_id s = Some f).
Proof. unfold propose_firmware. destruct (firmware_id s); [case_decide|]; naive_solver. Qed.

(** *** Positions: the pair of a segment and a state index *)

(** The position an ordinary state record reports. *)
Definition position (r : HilRecord) : option (Z * string) :=
  if decide (kind r = "state") then
    if _is_abort_record r then None
    else match dict_get "state" (data r) with
         | Some (JStr st) => Some (HilProtocol.segment r, st)
         | _ => None
         end
  else None.

(** The ordinary state records of a run, in order. *)
Definition path (rs : list HilRecord) : list (Z * string) := omap position rs.

(** The states of segment [k] up to index [i]: segment 0 starts at idle, a
    reconnect segment at connecting. *)
Definition seg_start (k : Z) : nat := if k =? 0 then 0 else 2.
Definition seg_states (k : Z) (i : Z) : list (Z * string) :=
  (fun st => (k, st)) <$> drop (seg_start k) (take (S (Z.to_nat i)) STATES).
(** Segments [0 .. n-1], each run to teardown. *)
Definition full_segments (n : nat) : list (Z * string) :=
  concat ((fun k => seg_states (Z.of_nat k) TEARDOWN) <$> seq 0 n).

Arguments full_segments : simpl never.
Arguments seg_states : simpl never.

Lemma full_segments_S n : full_segments (S n) = full_segments n ++ seg_states (Z.of_nat n) TEARDOWN.
Proof. unfold full_segments. rewrite seq_S, fmap_app, concat_app. simpl. by rewrite app_nil_r. Qed.

(** The tracker's fields as a function of the accepted path: the last
    accepted index is [state_index] unless the run was aborted. *)
Inductive tracks (s : t) (rs : list HilRecord) : Prop :=
| tracks_fresh :
    segment s = None -> state_index s = -1 -> aborted s = false -> terminal s = None ->
    path rs = [] -> tracks s rs
| tracks_in k i :
    segment s = Some (Z.of_nat k) -> Z.of_nat (seg_start (Z.of_nat k)) <= i <= TEARDOWN ->
    path rs = full_segments k ++ seg_states (Z.of_nat k) i ->
    state_index s = (if aborted s then TEARDOWN else i) ->
    (is_Some (terminal s) -> state_index s = TEARDOWN) ->
    tracks s rs.

Lemma states_index_Ok st nm i : states_index st = Ok (nm, i) ->
  st = JStr nm /\ 0 <= i <= TEARDOWN /\ STATES !! Z.to_nat i = Some nm.
Proof.
  unfold states_index. destruct st as [| | | | s | | ]; try done.
  destruct (py_index s STATES) as [j|] eqn:Hj; [|done]. intros [= -> ->].
  apply py_index_lookup in Hj as [Hb Hl]. change (Z.of_nat (length STATES)) with 9 in Hb.
  change TEARDOWN with 8. split_and!; done || lia.
Qed.

Lemma seg_states_snoc k i nm : Z.of_nat (seg_start k) <= i + 1 -> 0 <= i ->
  STATES !! Z.to_nat (i + 1) = Some nm ->
  seg_states k (i + 1) = seg_states k i ++ [(k, nm)].
Proof.
  intros Hs Hi Hl. unfold seg_states. rewrite (take_S_r STATES _ nm) by done.
  replace (Z.to_nat (i + 1)) with (S (Z.to_nat i)) in * by lia.
  assert (S (Z.to_nat i) < length STATES)%nat by (by apply lookup_lt_Some in Hl).
  rewrite drop_app_le, fmap_app; [done|]. rewrite length_take. lia.
Qed.

Lemma path_snoc rs r : path (rs ++ [r]) = path rs ++ match position r with Some x => [x] | None => [] end.
Proof. unfold path. rewrite omap_app. simpl. by destruct (position r). Qed.

Lemma seg_states_next k : seg_states (Z.of_nat (S k)) 2 = [(Z.of_nat (S k), "connecting")].
Proof. unfold seg_states, seg_start. by rewrite (proj2 (Z.eqb_neq _ _)) by lia. Qed.

Lemma seg_start_le k : (seg_start k <= 2)%nat.
Proof. unfold seg_start. destruct (k =? 0); lia. Qed.

Lemma validate_state_Ok s r g i : kind r = "state" -> _is_abort_record r = false ->
  _validate_state s r = Ok (g, i) ->
  exists nm, position r = Some (HilProtocol.segment r, nm) /\
    0 <= i <= TEARDOWN /\ STATES !! Z.to_nat i = Some nm /\ g = Some (HilProtocol.segment r) /\
    ((segment s = None /\ HilProtocol.segment r = 0 /\ nm = "idle") \/
     (segment s = Some (HilProtocol.segment r) /\ i = state_index s + 1) \/
     (segment s = Some (HilProtocol.segment r - 1) /\ state_index s = TEARDOWN /\
      aborted s = false /\ nm = "connecting")).
Proof.
  intros Hk Hab. unfold _validate_state, data_item, tcheck. intros H.
  apply bind_Ok in H as (st & Hst & H). apply result_of_option_Ok in Hst.
  apply bind_Ok in H as ([nm idx] & Hnm & H). apply states_index_Ok in Hnm as (-> & Hb & Hl).
  exists nm. assert (position r = Some (HilProtocol.segment r, nm)) as ->.
  { unfold position. by rewrite decide_True, Hab, Hst. }
  split; [done|]. destruct (segment s) as [seg|].
  - destruct (Z.eqb_spec (HilProtocol.segment r) seg) as [->|Hne].
    { result_inv H. simplify_eq. bool_to_prop. split_and!; try done; try lia. right; left. auto. }
    destruct (Z.eqb_spec (HilProtocol.segment r) (seg + 1)) as [Heq|Hne'].
    { result_inv H. simplify_eq. bool_to_prop. split_and!; try done; try lia.
      right; right. split_and!; try done. f_equal. lia. }
    destruct (_ <? seg) in H; unfold terr in H; result_inv H.
  - result_inv H. simplify_eq. bool_to_prop. split_and!; try done; try lia; [congruence|]. left. auto.
Qed.

Lemma tracks_state s rs r g i f : tracks s rs -> terminal s = None ->
  kind r = "state" -> _is_abort_record r = false ->
  _validate_state s r = Ok (g, i) ->
  tracks (commit s r f (g, i, aborted s, abort_cause s)) (rs ++ [r]).
Proof.
  intros Ht Hnt Hk Hab Hv.
  destruct (validate_state_Ok _ _ _ _ Hk Hab Hv) as (nm & Hpos & Hb & Hl & -> & Hcase).
  assert (Hpath := path_snoc rs r). rewrite Hpos in Hpath.
  assert (Hterm : forall X Y : option HilRecord, (if decide (kind r = "terminal") then X else Y) = Y).
  { intros. by rewrite decide_False by congruence. }
  destruct Hcase as [(Hs & Hz & ->)|[(Hs & ->)|(Hs & Hi & Ha & ->)]];
    inversion Ht as [Hsg Hidx Hnab Htm Hp|k i0 Hsg Hi0 Hp Hidx Htm]; try congruence.
  - assert (i = 0) as ->.
    { apply Z2Nat.inj; [lia | lia |].
      eapply (NoDup_lookup STATES); [by apply (bool_decide_unpack _) | exact Hl | done]. }
    eapply (tracks_in _ _ 0%nat 0); unfold commit; cbn [segment state_index terminal aborted]; rewrite ?Hterm, ?Hz, ?Hnab, ?Hnt; try done.
    + by rewrite Hpath, Hp, Hz.
  - rewrite Hs in Hsg. injection Hsg as Hsg.
    assert (aborted s = false) as Hnab.
    { destruct (aborted s); [|done]. rewrite Hidx in Hb. lia. }
    rewrite Hnab in Hidx. subst i0.
    eapply (tracks_in _ _ k (state_index s + 1)); unfold commit; cbn [segment state_index terminal aborted]; rewrite ?Hterm, ?Hnab, ?Hnt; try done.
    + by rewrite Hsg.
    + lia.
    + rewrite Hpath, Hp, <- app_assoc, Hsg. f_equal. symmetry. apply seg_states_snoc; [lia | | done].
      pose proof (seg_start_le (Z.of_nat k)). lia.
  - rewrite Hs in Hsg. injection Hsg as Hsg. rewrite Ha in Hidx. subst i0.
    assert (i = 2) as ->.
    { apply Z2Nat.inj; [lia | lia |].
      eapply (NoDup_lookup STATES); [by apply (bool_decide_unpack _) | exact Hl | done]. }
    eapply (tracks_in _ _ (S k) 2); unfold commit; cbn [segment state_index terminal aborted]; rewrite ?Hterm, ?Ha, ?Hnt; try done.
    + f_equal. lia.
    + rewrite Hpath, Hp, Hi, full_segments_S, seg_states_next.
      replace (HilProtocol.segment r) with (Z.of_nat (S k)) by lia. by rewrite <- app_assoc.
Qed.

Lemma check_terminal_state s r : kind r = "state" -> check_terminal s r = Ok tt -> terminal s = None.
Proof.
  intros Hk. unfold check_terminal, tcheck. rewrite Hk. destruct (terminal s); [|done].
  intros H. result_inv H. by vm_compute in H.
Qed.

(** Every accepted record extends the tracked path. *)
Lemma tracks_step s rs r f p : tracks s rs -> validate s r = Ok (f, p) -> tracks (commit s r f p) (rs ++ [r]).
Proof.
  intros Ht Hv. apply validate_Ok in Hv as (_ & _ & _ & _ & _ & Hterm & Hp).
  destruct (decide (kind r = "state")) as [Hk|Hk].
  - apply check_terminal_state in Hterm; [|done].
    destruct (_is_abort_record r) eqn:Hab; destruct p as [[[g i] a] c].
    + unfold propose in Hp. rewrite decide_True, Hab in Hp by done.
      apply bind_Ok in Hp as ([[[g' i'] a'] c'] & Hva & [= <- <- <- <-]).
      unfold _validate_abort, tcheck, terr in Hva. result_inv Hva.
      inversion Ht as [Hsg Hidx Hnab Htm Hpa|k i0 Hsg Hi0 Hpa Hidx Htm]; rewrite Hsg in Hva; [done|].
      destruct (_ =? _); [|destruct (_ <? _); done]. simpl in Hva. result_inv Hva. simplify_eq.
      eapply (tracks_in _ _ k i0); unfold commit; cbn [segment state_index terminal aborted]; try done.
      rewrite path_snoc, Hpa. unfold position. rewrite decide_True, Hab by done. by rewrite app_nil_r.
    + unfold propose in Hp. rewrite decide_True, Hab in Hp by done.
      apply bind_Ok in Hp as ([g' i'] & Hvs & [= <- <- <- <-]). by apply tracks_state.
  - assert (path (rs ++ [r]) = path rs) as Hpath.
    { rewrite path_snoc. unfold position. rewrite decide_False by done. by rewrite app_nil_r. }
    pose proof (propose_other _ _ _ Hk Hp) as ->.
    inversion Ht as [Hsg Hidx Hnab Htm Hpa|k i0 Hsg Hi0 Hpa Hidx Htm].
    + unfold propose, _validate_terminal, tcheck in Hp. rewrite decide_False in Hp by done.
      case_decide as Hkt; [result_inv Hp; rewrite Hsg in *; done|].
      apply tracks_fresh; unfold commit; cbn [segment state_index terminal aborted]; try done; [by rewrite decide_False | by rewrite Hpath].
    + eapply (tracks_in _ _ k i0); unfold commit; cbn [segment state_index terminal aborted]; rewrite ?Hpath; try done. intros Hst.
      case_decide as Hkt; [|by apply Htm].
      unfold propose, _validate_terminal, tcheck in Hp. rewrite decide_False, decide_True in Hp by done.
      result_inv Hp. bool_to_prop. done.
Qed.

Lemma run_tracks rid cid rs s : run (init rid cid) rs = Ok s -> tracks s rs.
Proof.
  revert s; induction rs as [|r rs IH] using rev_ind; intros s.
  - intros [= <-]. by apply tracks_fresh.
  - intros (s1 & f & p & Hs1 & Hv & ->)%run_snoc_Ok. apply tracks_step; auto.
Qed.

(** A verdict stays, and segments only advance. *)
Lemma step_forward s r f p : validate s r = Ok (f, p) ->
  (forall x, terminal s = Some x -> terminal (commit s r f p) = Some x) /\
  (forall a, segment s = Some a -> exists b, segment (commit s r f p) = Some b /\ a <= b).
Proof.
  intros Hv. apply validate_Ok in Hv as (_ & _ & _ & _ & _ & Hterm & Hp). destruct p as [[[g i] a0] c]. unfold commit. cbn [terminal segment].
  split.
  - intros x Hx. rewrite decide_False; [done|]. intros Hk. unfold check_terminal, tcheck in Hterm. rewrite Hx in Hterm.
    result_inv Hterm. bool_to_prop. done.
  - intros a Ha. destruct (decide (kind r = "state")) as [Hk|Hk]; [|apply propose_other in Hp as [= -> _ _ _]; [eauto with lia | done]].
    unfold propose in Hp. rewrite decide_True in Hp by done. destruct (_is_abort_record r) eqn:Hab.
    + apply bind_Ok in Hp as ([[[g' i'] a'] c'] & Hp & [= <- <- <- <-]). unfold _validate_abort in Hp. rewrite Ha in Hp.
      result_inv Hp. destruct (negb _); [case_match; done|]. result_inv Hp. simplify_eq. eauto with lia.
    + apply bind_Ok in Hp as ([g' i'] & Hp & [= -> -> <- <-]). apply validate_state_Ok in Hp as (nm & _ & _ & _ & -> & H); [|done..].
      rewrite Ha in H. destruct H as [[? _]|[[[= ->] _]|[[= ->] _]]]; [done|..]; eexists; (split; [done | lia]).
Qed.

Lemma run_forward s rs s' : run s rs = Ok s' ->
  (forall x, terminal s = Some x -> terminal s' = Some x) /\
  (forall a, segment s = Some a -> exists b, segment s' = Some b /\ a <= b).
Proof.
  revert s'. induction rs as [|r rs IH] using rev_ind; intros s'; [intros [= <-]; eauto with lia|].
  intros (s1 & f & p & Hs1 & Hv & ->)%run_snoc_Ok. destruct (IH _ Hs1) as [H1 H2]. apply step_forward in Hv as [H3 H4].
  split; [auto|]. intros a Ha. destruct (H2 a Ha) as (b & Hb & ?). destruct (H4 b Hb) as (d & ? & ?). exists d. split; [done | lia].
Qed.
End TrackerFacts.

(** ** Lemmas on the parser *)

Module ParserFacts.

(** The records the parser lets through. *)
Record record_wf (r : HilRecord) : Prop := {
  wf_version : protocol_version r = PROTOCOL_VERSION;
  wf_kind : kind r ∈ KINDS;
  wf_firmware : firmware_id r <> "";
  wf_command : command_id r <> "";
  wf_run : run_id r <> "";
  wf_monotonic : 0 <= monotonic_ms r;
  wf_segment : 0 <= segment r;
  wf_state : kind r = "state" -> check_state_data (data r) = Ok tt;
  wf_verdict : kind r = "terminal" -> get_in "verdict" TERMINAL_VERDICTS (data r) = true;
}.

Lemma reject_loop_Ok pairs out d :
  NoDup out.*1 -> reject_loop pairs out = Ok d -> NoDup d.*1 /\ d = out ++ pairs.
Proof.
  revert out; induction pairs as [|[k v] pairs IH]; intros out Hnd; simpl.
  - intros [= <-]. split; [done | by rewrite app_nil_r].
  - destruct (dict_has k out) eqn:Hk; [done|]. intros H.
    assert (Hni : k ∉ out.*1) by (intros Hin; apply dict_has_spec in Hin; congruence).
    assert (dict_set k v out = out ++ [(k, v)]) as Hset.
    { clear -Hni. induction out as [|[k' v'] out IHo]; [done|]. simpl in *.
      rewrite not_elem_of_cons in Hni. destruct Hni. rewrite decide_False by done. by rewrite IHo. }
    rewrite Hset in H. apply IH in H as [Hd ->]; [split; [done | by rewrite <- app_assoc]|].
    rewrite fmap_app. apply NoDup_app. split_and!; [done | | apply NoDup_singleton].
    intros x Hx ->%list_elem_of_singleton. done.
Qed.

Lemma reject_loop_NoDup pairs out :
  NoDup (out ++ pairs).*1 -> reject_loop pairs out = Ok (out ++ pairs).
Proof.
  revert out; induction pairs as [|[k v] pairs IH]; intros out Hnd; simpl; [by rewrite app_nil_r|].
  assert (Hni : k ∉ out.*1).
  { rewrite fmap_app in Hnd. apply NoDup_app in Hnd as (_ & Hnd & _). intros Hin.
    apply (Hnd _ Hin). apply list_elem_of_here. }
  destruct (dict_has k out) eqn:Hk; [by apply dict_has_spec in Hk|].
  assert (dict_set k v out = out ++ [(k, v)]) as ->.
  { clear -Hni. induction out as [|[k' v'] out IHo]; [done|]. simpl in *.
    rewrite not_elem_of_cons in Hni. destruct Hni. rewrite decide_False by done. by rewrite IHo. }
  rewrite IH; by rewrite <- app_assoc.
Qed.

(** The hook accepts exactly the pair lists without a repeated key. *)
Lemma reject_duplicate_keys_id d : NoDup d.*1 -> _reject_duplicate_keys d = Ok d.
Proof. intros Hd. by apply (reject_loop_NoDup d []). Qed.

Lemma find_None {A} (p : A -> bool) l : find p l = None <-> Forall (fun x => p x = false) l.
Proof.
  induction l as [|x l IH]; simpl; [split; [constructor | done]|].
  rewrite Forall_cons. destruct (p x); naive_solver.
Qed.

Lemma first_missing_None req d k : first_missing req d = None -> k ∈ req -> exists v, dict_get k d = Some v.
Proof.
  unfold first_missing. rewrite find_None, Forall_forall. intros H Hk.
  specialize (H _ Hk). apply negb_false_iff in H. unfold dict_has in H.
  destruct (dict_get k d) as [v|]; [by exists v | done].
Qed.

Lemma no_key_Ok o e u : no_key o e = Ok u -> o = None.
Proof. by destruct o. Qed.

Lemma nonempty_str_Ok v s : nonempty_str v = Some s -> v = JStr s /\ s <> "".
Proof.
  unfold nonempty_str. intros (s' & Hs & H)%bind_Some. destruct v; simplify_eq/=.
  case_decide; by simplify_eq.
Qed.

Lemma nonneg_int_Ok v z : nonneg_int v = Some z -> v = JInt z /\ 0 <= z.
Proof.
  unfold nonneg_int. intros (z' & Hz & H)%bind_Some. destruct v; simplify_eq/=.
  destruct (Z.ltb_spec z' 0); simplify_eq. auto.
Qed.

Lemma record_of_json_wf v r : record_of_json v = Ok r -> record_wf r.
Proof.
  unfold record_of_json, item, pget, pcheck. intros H. result_inv H. subst r. bool_to_prop.
  repeat match goal with
  | H : nonempty_str _ = Some _ |- _ => apply nonempty_str_Ok in H as [-> ?]
  | H : nonneg_int _ = Some _ |- _ => apply nonneg_int_Ok in H as [-> ?]
  end.
  split; simpl; try done.
  - unfold py_in in *. bool_to_prop. done.
  - intros ->. by repeat match goal with H : context [decide ("state" = _)] |- _ => rewrite decide_True in H by done;
      match type of H with _ = Ok ?u => by destruct u end end.
  - intros ->. repeat match goal with H : context [decide ("terminal" = "terminal")] |- _ =>
      rewrite decide_True in H by done end. unfold pcheck in *.
    match goal with H : ensure (get_in "verdict" _ _) _ = Ok _ |- _ => by apply ensure_Ok in H end.
Qed.

(** Computations whose only exceptions are [HilProtocolError]s. *)
Definition only_protocol {E A} (m : result (exn E) A) : Prop :=
  forall e, m = Err e -> exists pe, e = HilProtocolError pe.

Lemma only_bind {E A B} (m : result (exn E) A) (f : A -> result (exn E) B) :
  only_protocol m -> (forall a, m = Ok a -> only_protocol (f a)) -> only_protocol (m ≫= f).
Proof. intros Hm Hf e [H|(a & Ha & H)]%bind_Err; [by apply Hm | by eapply Hf]. Qed.
Lemma only_ok {E A} (a : A) : only_protocol (E:=E) (Ok a).
Proof. done. Qed.
Lemma only_err {E A} (e : E) : only_protocol (A:=A) (Err (HilProtocolError e)).
Proof. intros e' H. injection H as <-. eauto. Qed.
Lemma only_ensure {E} b (e : E) : only_protocol (ensure b (HilProtocolError e)).
Proof. destruct b; [apply only_ok | apply only_err]. Qed.
Lemma only_pget {A} (o : option A) e : only_protocol (pget o e).
Proof. destruct o; [apply only_ok | apply only_err]. Qed.
Lemma only_pcheck b e : only_protocol (pcheck b e).
Proof. apply only_ensure. Qed.
Lemma only_no_key o e : only_protocol (no_key o e).
Proof. destruct o; [apply only_err | apply only_ok]. Qed.
Lemma only_item d k : first_missing REQUIRED_KEYS d = None -> k ∈ REQUIRED_KEYS -> only_protocol (item d k).
Proof. intros Hm Hk e. unfold item. destruct (first_missing_None _ _ _ Hm Hk) as [v ->]. done. Qed.
#[export] Hint Resolve only_ok only_err only_ensure only_pget only_pcheck only_no_key : le_audio.

Lemma only_check_state d : only_protocol (check_state_data d).
Proof. unfold check_state_data. case_match; apply only_bind; auto with le_audio. Qed.

(** A call of [record_of_json] never raises a Python [KeyError]. *)
Lemma record_of_json_only v : only_protocol (record_of_json v).
Proof.
  unfold record_of_json. apply only_bind; [auto with le_audio|]. intros obj _.
  apply only_bind; [auto with le_audio|]. intros _ _.
  apply only_bind; [auto with le_audio|]. intros u Hm. apply no_key_Ok in Hm. clear u.
  repeat (apply only_bind; [first [apply only_item; [done | by apply (bool_decide_unpack _)] | by auto with le_audio]|intros ? _]).
  apply only_bind; [case_decide; [apply only_check_state | done]|]. intros _ _.
  apply only_bind; [case_decide; auto with le_audio|]. done.
Qed.

Lemma parse_text_err s e : parse_text s = Err e -> e = ValueError \/ exists pe, e = HilProtocolError pe.
Proof.
  unfold parse_text. destruct (strip_prefix _ _) as [body|]; [|done].
  destruct (blank body); [intros [= <-]; eauto|]. rewrite bind_Err. intros [H|(v & _ & H)].
  - unfold loads_strict in H. destruct (loads_chars _ _) as [v|[]]; simplify_eq; eauto.
  - destruct (record_of_json v) eqn:Hr; simplify_eq/=. apply record_of_json_only in Hr. eauto.
Qed.

Lemma parse_text_Some s r : parse_text s = Ok (Some r) ->
  exists body v, chars s = chars PREFIX ++ body /\ loads_strict body = Ok v /\ record_of_json v = Ok r.
Proof.
  unfold parse_text. destruct (strip_prefix _ _) as [body|] eqn:Hp; [|done].
  apply strip_prefix_Some in Hp. destruct (blank body); [done|]. intros H. result_inv H.
  exists body, a. destruct (record_of_json a); by simplify_eq/=.
Qed.

Lemma parse_hil1_line_Some l r : parse_hil1_line l = Ok (Some r) -> exists s, parse_text s = Ok (Some r).
Proof. destruct l as [b|s|]; simpl; [|eauto|done]. repeat case_match; try done. eauto. Qed.

(** *** Rendering: the line the source prints for a record *)

Definition record_json (r : HilRecord) : json :=
  JObj [("protocol_version", JInt (protocol_version r)); ("kind", JStr (kind r));
        ("firmware_id", JStr (firmware_id r)); ("monotonic_ms", JInt (monotonic_ms r));
        ("command_id", JStr (command_id r)); ("run_id", JStr (run_id r));
        ("segment", JInt (segment r)); ("data", JObj (data r))].

(** ["HIL1 " + json.dumps(record)] with the given separators. *)
Definition render (spaced : bool) (r : HilRecord) : string :=
  of_chars (chars PREFIX ++ dump spaced (record_json r)).

Lemma ensure_true {E} (b : bool) (e : E) : b = true -> ensure b e = Ok tt.
Proof. by intros ->. Qed.

Lemma nonneg_int_intro z : 0 <= z -> nonneg_int (JInt z) = Some z.
Proof. intros Hz. unfold nonneg_int. simpl. by destruct (Z.ltb_spec z 0); [lia|]. Qed.

Lemma nonempty_str_intro s : s <> "" -> nonempty_str (JStr s) = Some s.
Proof. intros Hs. unfold nonempty_str. simpl. by rewrite decide_False. Qed.

Lemma record_of_json_render r : record_wf r -> record_of_json (record_json r) = Ok r.
Proof.
  intros [Hv Hk Hf Hc Hr Hm Hs Hst Htm].
  destruct r as [v k f m c rn s d]; simpl in *. subst v.
  assert (Hk' : py_in k KINDS = true) by (unfold py_in; by apply bool_decide_eq_true).
  unfold record_of_json, record_json, item, pget, pcheck.
  simpl. rewrite Hk'. simpl.
  rewrite !nonempty_str_intro, !nonneg_int_intro by done. simpl.
  destruct (decide (k = "state")) as [Hks|Hks]; [rewrite (Hst Hks)|]; simpl;
    (destruct (decide (k = "terminal")) as [Hkt|Hkt]; [by rewrite (Htm Hkt) | done]).
Qed.
End ParserFacts.

(** ** Properties *)

Module ProtocolTheorems.
Import HilRunTracker TrackerFacts ParserFacts.

Lemma terminal_pass_stays rid cid rs s : run (init rid cid) rs = Ok s ->
  match terminal s with
  | Some r => kind r = "terminal" /\ (get_in "verdict" ["pass"] (data r) = true -> aborted s = false)
  | None => True
  end.
Proof.
  revert s; induction rs as [|r rs IH] using rev_ind; intros s; [intros [= <-]; exact I|].
  intros (s1 & f & p & Hs1 & Hv & ->)%run_snoc_Ok. specialize (IH _ Hs1).
  apply validate_Ok in Hv as (_ & _ & _ & _ & _ & Hterm & Hp).
  destruct p as [[[g i] a] c]. unfold commit; cbn [terminal aborted].
  destruct (decide (kind r = "terminal")) as [Hk|Hk].
  - split; [done|]. intros Hpass. unfold propose, tcheck in Hp.
    rewrite decide_False, decide_True in Hp by (done || congruence).
    rewrite Hpass, andb_true_r in Hp. result_inv Hp. simplify_eq. bool_to_prop. done.
  - destruct (decide (kind r = "state")) as [Hs|Hs].
    + by rewrite (check_terminal_state _ _ Hs Hterm).
    + pose proof (propose_other _ _ _ Hs Hp) as [= -> -> -> ->]. done.
Qed.

Lemma pass_lifecycle rid cid rs s r :
  run (init rid cid) rs = Ok s -> terminal s = Some r ->
  get_in "verdict" ["pass"] (data r) = true ->
  exists k, segment s = Some (Z.of_nat k) /\ aborted s = false /\ path rs = full_segments (S k).
Proof.
  intros Hrun Hterm Hpass. pose proof (terminal_pass_stays _ _ _ _ Hrun) as Hab.
  rewrite Hterm in Hab. destruct Hab as [_ Hab]. specialize (Hab Hpass).
  destruct (run_tracks _ _ _ _ Hrun) as [_ _ _ Hn _|k i Hsg Hi Hpath Hidx Ht]; [congruence|].
  exists k. rewrite Hab in Hidx. specialize (Ht (ltac:(by rewrite Hterm))).
  rewrite full_segments_S, Hpath. repeat split; congruence.
Qed.

(** C2. A pass verdict is only ever accepted at the end of complete
    lifecycles: when a run of accepted records ends with a pass terminal,
    its ordinary state records are, in order and without gap or repetition,
    all nine states of segment 0 followed by connecting..teardown of every
    reconnect segment, and the run was not aborted. *)
Theorem pass_requires_full_lifecycle rid cid rs s r :
  run (init rid cid) rs = Ok s -> terminal s = Some r ->
  get_in "verdict" ["pass"] (data r) = true ->
  exists k, segment s = Some (Z.of_nat k) /\ aborted s = false /\ path rs = full_segments (S k).
Proof. apply pass_lifecycle. Qed.

(** Every accepted run, finished or not, aborted or not, has reported a
    prefix of the lifecycle: complete earlier segments and the current one
    from its start to the tracker's index (to the index where it was
    aborted, in an aborted run). *)
Theorem accepted_path_is_lifecycle rid cid rs s :
  run (init rid cid) rs = Ok s -> is_Some (segment s) ->
  exists k i, segment s = Some (Z.of_nat k) /\ 0 <= i <= TEARDOWN /\
    path rs = full_segments k ++ seg_states (Z.of_nat k) i /\
    (aborted s = false -> state_index s = i) /\ (aborted s = true -> state_index s = TEARDOWN).
Proof.
  intros Hrun Hsome. destruct (run_tracks _ _ _ _ Hrun) as [Hn _ _ _ _|k i Hsg Hi Hpath Hidx Ht].
  - rewrite Hn in Hsome. by destruct Hsome.
  - exists k, i. split_and!; try done; try lia; intros Ha; by rewrite Ha in Hidx.
Qed.

(** [accept] is atomic: when it raises, every tracker field is unchanged. *)
Theorem accept_atomic r s e : (accept r s).1 = Err e -> (accept r s).2 = s.
Proof. rewrite accept_spec. destruct (validate s r) as [[f p]|]; done. Qed.

(** The records of an accepted run belong to the run, carry one firmware
    identity and non-decreasing monotonic times. *)
Theorem accepted_records_ordered rid cid rs s :
  run (init rid cid) rs = Ok s ->
  Forall (fun r => HilProtocol.run_id r = rid /\ firmware_id s = Some (HilProtocol.firmware_id r)) rs /\
  StronglySorted Z.le (monotonic_ms <$> rs) /\
  Forall (fun r => monotonic_ms r <= last_monotonic s) rs.
Proof.
  enough (Hgen : run (init rid cid) rs = Ok s -> run_id s = rid /\
    Forall (fun r => HilProtocol.run_id r = rid /\ firmware_id s = Some (HilProtocol.firmware_id r)) rs /\
    StronglySorted Z.le (monotonic_ms <$> rs) /\ Forall (fun r => monotonic_ms r <= last_monotonic s) rs)
    by (intros H; apply Hgen in H; apply H).
  revert s; induction rs as [|r rs IH] using rev_ind; intros s.
  - intros [= <-]. repeat constructor.
  - intros (s1 & f & p & Hs1 & Hv & ->)%run_snoc_Ok.
    destruct (IH _ Hs1) as (Hrid & Hall & Hsort & Hle).
    apply validate_Ok in Hv as (Hr & Hf & Hm & _). apply firmware_Ok in Hf as [-> Hf].
    destruct p as [[[g i] a] c]. unfold commit; cbn [run_id firmware_id last_monotonic].
    split_and!; [done | | |].
    + apply Forall_app_2; [|repeat constructor; congruence].
      eapply Forall_impl; [exact Hall|]. intros r' [? Hr']. split; [done|].
      rewrite Hr' in Hf. by destruct Hf as [|[= ->]].
    + rewrite fmap_app. apply StronglySorted_app_2; [|done|repeat constructor].
      intros x y Hx Hy. apply list_elem_of_singleton in Hy as ->.
      apply list_elem_of_fmap in Hx as (r' & -> & Hr').
      rewrite Forall_forall in Hle. specialize (Hle _ Hr'). lia.
    + apply Forall_app_2; [|repeat constructor; lia].
      eapply Forall_impl; [exact Hle|]. simpl. lia.
Qed.

Lemma after_terminal s r f p : is_Some (terminal s) -> kind r ∈ KINDS -> validate s r = Ok (f, p) ->
  kind r = "status" /\ p = (segment s, state_index s, aborted s, abort_cause s) /\
  terminal (commit s r f p) = terminal s.
Proof.
  intros [r0 Ht] Hk Hv. apply validate_Ok in Hv as (_ & _ & _ & _ & _ & Hterm & Hp).
  assert (kind r = "status") as Hst.
  { unfold check_terminal, tcheck in Hterm. rewrite Ht in Hterm. result_inv Hterm. bool_to_prop.
    unfold KINDS in Hk. unfold py_in in *. bool_to_prop. set_solver. }
  pose proof (propose_other s r p ltac:(congruence) Hp) as ->.
  split_and!; [done..|]. unfold commit; cbn [terminal]. by rewrite decide_False by congruence.
Qed.

(** After a terminal verdict the run is over: every later accepted
    record is a status reply, and the verdict, the segment, the state index
    and the abort outcome never change again. *)
Theorem post_terminal_only_status rs s s' :
  is_Some (terminal s) -> Forall (fun r => kind r ∈ KINDS) rs -> run s rs = Ok s' ->
  Forall (fun r => kind r = "status") rs /\ terminal s' = terminal s /\ segment s' = segment s /\
  state_index s' = state_index s /\ aborted s' = aborted s /\ abort_cause s' = abort_cause s.
Proof.
  intros Ht. revert s'. induction rs as [|r rs IH] using rev_ind; intros s' Hks.
  - intros [= <-]. split_and!; try done.
  - apply Forall_app in Hks as [Hks [Hk _]%Forall_cons].
    intros (s1 & f & p & Hs1 & Hv & ->)%run_snoc_Ok.
    destruct (IH _ Hks Hs1) as (Hst & Ht1 & Hg & Hi & Ha & Hc).
    destruct (after_terminal s1 r f p) as (Hkr & -> & Htc); [by rewrite Ht1 | done..|].
    rewrite Htc. unfold commit; cbn [segment state_index aborted abort_cause].
    split_and!; try done. apply Forall_app_2; [done | by constructor].
Qed.

(** An aborted tracker sits at teardown of its segment. *)
Definition abort_closed (s : t) : Prop :=
  is_Some (segment s) /\ state_index s = TEARDOWN /\ aborted s = true.

Lemma abort_closed_step s r f p : abort_closed s -> validate s r = Ok (f, p) ->
  abort_closed (commit s r f p) /\ kind r <> "state" /\
  (kind r = "terminal" -> get_in "verdict" ["pass"] (data r) = false).
Proof.
  intros ([k Hsg] & Hi & Ha) Hv. apply validate_Ok in Hv as (_ & _ & _ & _ & _ & _ & Hp).
  assert (Hk : kind r <> "state").
  { intros Hk. unfold propose in Hp. rewrite decide_True in Hp by done.
    destruct (_is_abort_record r) eqn:Hr.
    - apply bind_Ok in Hp as ([[[g i] a] c] & Hva & _). unfold _validate_abort, tcheck, terr in Hva.
      result_inv Hva. rewrite Hsg in Hva. destruct (negb _); [destruct (_ <? _); done|].
      by rewrite Hi in Hva.
    - apply bind_Ok in Hp as ([g i] & Hvs & _).
      destruct (validate_state_Ok _ _ _ _ Hk Hr Hvs)
        as (nm & _ & Hb & _ & _ & [(Hs & _)|[(_ & Hidx)|(_ & _ & Hf & _)]]); [congruence | lia | congruence]. }
  pose proof (propose_other _ _ _ Hk Hp) as ->. split_and!; [|done|].
  - unfold commit, abort_closed; cbn [segment state_index aborted]. rewrite Hsg. eauto.
  - intros Ht. unfold propose, tcheck in Hp. rewrite decide_False, decide_True in Hp by done.
    result_inv Hp. rewrite Ha in *. by destruct (get_in _ _ _).
Qed.

Lemma run_aborted_closed rid cid rs s : run (init rid cid) rs = Ok s -> aborted s = true -> abort_closed s.
Proof.
  intros Hrun Ha. destruct (run_tracks _ _ _ _ Hrun) as [_ _ Hn _ _|k i Hsg _ _ Hidx _]; [congruence|].
  rewrite Ha in Hidx. split_and!; [by exists (Z.of_nat k) | done..].
Qed.

(** A bounded abort is final for the whole run: once it is accepted no
    further state record (hence no reconnect segment) and no pass verdict
    is accepted, and the tracker stays aborted at teardown. *)
Theorem abort_is_final rid cid rs1 rs2 s1 s2 :
  run (init rid cid) rs1 = Ok s1 -> aborted s1 = true -> run s1 rs2 = Ok s2 ->
  aborted s2 = true /\ state_index s2 = TEARDOWN /\
  Forall (fun r => kind r <> "state" /\
    (kind r = "terminal" -> get_in "verdict" ["pass"] (data r) = false)) rs2.
Proof.
  intros H1 Ha H2. pose proof (run_aborted_closed _ _ _ _ H1 Ha) as Hc.
  enough (abort_closed s2 /\ Forall (fun r => kind r <> "state" /\
    (kind r = "terminal" -> get_in "verdict" ["pass"] (data r) = false)) rs2)
    as ((_ & ? & ?) & ?) by done.
  clear H1 Ha. revert s2 H2. induction rs2 as [|r rs2 IH] using rev_ind; intros s2.
  - by intros [= <-].
  - intros (s' & f & p & Hs' & Hv & ->)%run_snoc_Ok. destruct (IH _ Hs') as [Hc' Hall].
    destruct (abort_closed_step _ _ _ _ Hc' Hv) as (? & ? & ?).
    split; [done|]. apply Forall_app_2; [done | by repeat constructor].
Qed.


Lemma loads_strict_render spaced r : json_ok (record_json r) = true ->
  loads_strict (dump spaced (record_json r)) = Ok (record_json r).
Proof.
  intros Hok. unfold loads_strict.
  by rewrite (loads_chars_dump _ reject_duplicate_keys_id spaced _ Hok).
Qed.

Lemma blank_render spaced r : blank (dump spaced (record_json r)) = false.
Proof. unfold record_json. rewrite dump_obj. reflexivity. Qed.

Lemma parse_text_body s body v r : chars s = chars PREFIX ++ body -> blank body = false ->
  loads_strict body = Ok v -> record_of_json v = Ok r -> parse_text s = Ok (Some r).
Proof.
  intros Hs Hb Hv Hr. unfold parse_text. rewrite Hs, strip_prefix_app, Hb, Hv.
  change (Some <$> record_of_json v = Ok (Some r)). by rewrite Hr.
Qed.

Lemma parse_bytes_text b : startswith PREFIX b = true -> utf8_valid (chars b) = true ->
  parse_hil1_line (LBytes b) = parse_text b.
Proof. intros H1 H2. unfold parse_hil1_line. by rewrite H1, H2. Qed.

(** C38. Parsing undoes rendering: a well-formed record printed as a HIL1
    line, compact or spaced, is read back as the same record, from bytes
    and from text. *)
Theorem parse_render_roundtrip spaced r :
  record_wf r -> json_ok (record_json r) = true -> forallb is_ascii (chars (render spaced r)) = true ->
  parse_hil1_line (LStr (render spaced r)) = Ok (Some r) /\
  parse_hil1_line (LBytes (render spaced r)) = Ok (Some r).
Proof.
  intros Hwf Hok Hascii.
  assert (Hc : chars (render spaced r) = chars PREFIX ++ dump spaced (record_json r)) by apply chars_of_chars.
  assert (Hp : parse_text (render spaced r) = Ok (Some r)).
  { apply (parse_text_body _ _ _ _ Hc (blank_render _ _) (loads_strict_render _ _ Hok)).
    by apply record_of_json_render. }
  split; [exact Hp|]. rewrite parse_bytes_text; [exact Hp | | by apply utf8_valid_ascii].
  unfold startswith. by rewrite Hc, strip_prefix_app.
Qed.

(** The parser is total: it returns [None], a record, or a
    [HilProtocolError]; the only other exception is the [ValueError] of
    Python's [int] on an over-long integer literal, never a [KeyError]. *)
Theorem parse_hil1_errors l e : parse_hil1_line l = Err e ->
  (exists pe, e = HilProtocolError pe) \/
  (e = ValueError /\ exists body, loads_chars _reject_duplicate_keys body = Err JIntLimit).
Proof.
  assert (Ht : forall s, parse_text s = Err e -> (exists pe, e = HilProtocolError pe) \/
    (e = ValueError /\ exists body, loads_chars _reject_duplicate_keys body = Err JIntLimit)).
  { intros s. unfold parse_text. destruct (strip_prefix _ _) as [body|]; [|done].
    destruct (blank body); [intros [= <-]; eauto|]. rewrite bind_Err. intros [H|(v & _ & H)].
    - unfold loads_strict in H. destruct (loads_chars _ body) as [v|[]] eqn:Hl; simplify_eq; eauto.
    - destruct (record_of_json v) eqn:Hr; simplify_eq/=. apply record_of_json_only in Hr. eauto. }
  destruct l as [b|s|]; simpl; [|apply Ht | intros [= <-]; eauto].
  destruct (startswith PREFIX b); [|done].
  destruct (utf8_valid (chars b)); [apply Ht | intros [= <-]; eauto].
Qed.

Lemma keys_are_get d ks k : keys_are d ks = true -> k ∈ ks -> exists v, dict_get k d = Some v.
Proof.
  unfold keys_are. intros [_ H]%andb_true_iff Hk. rewrite forallb_forall in H.
  apply list_elem_of_In, H in Hk. unfold dict_has in Hk. destruct (dict_get k d); [eauto | done].
Qed.

Lemma get_in_Some k choices d : get_in k choices d = true ->
  exists nm, dict_get k d = Some (JStr nm) /\ nm ∈ choices.
Proof.
  unfold get_in, py_in. destruct (dict_get k d) as [[]|]; try done.
  intros ?%bool_decide_eq_true. eauto.
Qed.

Lemma py_index_in (x : string) l : x ∈ l -> is_Some (py_index x l).
Proof.
  induction l as [|y l IH]; [by intros ?%elem_of_nil|]. rewrite elem_of_cons. intros Hx. simpl.
  case_decide; [by eexists|]. destruct Hx as [?|Hx]; [done|]. destruct (IH Hx) as [i ->]. by eexists.
Qed.

(** The shape checked by the parser makes the tracker's accesses safe. *)
Lemma state_data_safe r : check_state_data (data r) = Ok tt ->
  if _is_abort_record r then exists c, data_item r "cause" = Ok c
  else exists nm i, data_item r "state" = Ok (JStr nm) /\ states_index (JStr nm) = Ok (nm, i).
Proof.
  unfold check_state_data, _is_abort_record, data_item, pcheck.
  destruct (keys_are (data r) ["state"; "cause"]) eqn:Hk; intros H.
  - destruct (keys_are_get _ _ "cause" Hk) as [c ->]; [by apply (bool_decide_unpack _)|]. by exists c.
  - result_inv H. apply get_in_Some in H as (nm & -> & Hin). destruct (py_index_in _ _ Hin) as [i Hi].
    exists nm, i. split; [done|]. unfold states_index. by rewrite Hi.
Qed.

Ltac solve_only :=
  repeat first [ solve [auto with le_audio] | apply only_bind; [|intros ? _] | case_match ].

Lemma only_propose s r : (kind r = "state" -> check_state_data (data r) = Ok tt) -> only_protocol (propose s r).
Proof.
  intros Hst. unfold propose, _validate_terminal, tcheck. case_decide as Hk; [|solve_only].
  specialize (Hst Hk). apply state_data_safe in Hst. destruct (_is_abort_record r).
  - destruct Hst as [c Hc]. unfold _validate_abort, tcheck, terr. rewrite Hc. cbn [mbind result_bind].
    solve_only.
  - destruct Hst as (nm & i & Hd & Hi). unfold _validate_state, tcheck, terr. rewrite Hd.
    cbn [mbind result_bind]. rewrite Hi. cbn [mbind result_bind]. solve_only.
Qed.

(** Whatever the parser returned, the tracker's verdict on it is
    acceptance or a [HilProtocolError]: the dictionary accesses and
    [STATES.index] inside [accept] never raise on a parsed record. *)
Theorem parsed_accept_protocol_errors l r s e :
  parse_hil1_line l = Ok (Some r) -> (accept r s).1 = Err e -> exists te, e = HilProtocolError te.
Proof.
  intros (s' & Hl)%parse_hil1_line_Some He. apply parse_text_Some in Hl as (body & v & _ & _ & Hr).
  apply record_of_json_wf in Hr. rewrite accept_spec in He.
  destruct (validate s r) as [[f p]|e'] eqn:Hv; [done|]. injection He as ->. revert e Hv.
  change (only_protocol (validate s r)).
  unfold validate, propose_firmware, check_segment, check_command, check_terminal, tcheck, terr.
  assert (Hp : only_protocol (propose s r)) by (apply only_propose; apply Hr).
  solve_only.
Qed.
(** An integer literal of more than 4300 digits in a prefixed line
    raises Python's plain [ValueError], not [HilProtocolError]. *)
Theorem long_integer_is_not_a_protocol_error :
  parse_hil1_line (LStr (of_chars (chars PREFIX ++ repeat "9"%char (S int_max_str_digits)))) = Err ValueError.
Proof. vm_compute. reflexivity. Qed.
End ProtocolTheorems.

(** ** Witnesses: a two-segment run with a pass verdict, and an aborted one *)

Module ProtocolWitnesses.
Import HilRunTracker TrackerFacts ParserFacts ProtocolTheorems.

Definition mkrec (k : string) (t : Z) (seg : Z) (cmd : string) (d : list (string * json)) : HilRecord :=
  mkHilRecord 1 k "fw" t cmd "run" seg d.
Definition st (t seg : Z) (name : string) : HilRecord := mkrec "state" t seg "start" [("state", JStr name)].
Definition segment0 : list HilRecord :=
  mkrec "ack" 0 0 "start" [] :: imap (fun i n => st (Z.of_nat i) 0 n) STATES.
Definition segment1 : list HilRecord := imap (fun i n => st (10 + Z.of_nat i) 1 n) (drop 2 STATES).
Definition verdict (v : string) (t seg : Z) : HilRecord := mkrec "terminal" t seg "start" [("verdict", JStr v)].
Definition passed : list HilRecord := segment0 ++ segment1 ++ [verdict "pass" 20 1].
Definition stopped : list HilRecord :=
  take 5 segment0 ++ [mkrec "state" 7 0 "start" [("state", JStr "teardown"); ("cause", JStr "stop")]].
Definition after (rs : list HilRecord) : t :=
  match run (init "run" "start") rs with Ok s => s | Err _ => init "" "" end.
Definition query : HilRecord := mkrec "status" 30 1 "q1" [].

Lemma pass_requires_full_lifecycle_witness :
  exists k, segment (after passed) = Some (Z.of_nat k) /\ aborted (after passed) = false /\
    path passed = full_segments (S k).
Proof.
  apply (pass_requires_full_lifecycle "run" "start" passed (after passed) (verdict "pass" 20 1));
    vm_compute; reflexivity.
Defined.

Lemma accepted_path_is_lifecycle_witness :
  exists k i, segment (after stopped) = Some (Z.of_nat k) /\ 0 <= i <= TEARDOWN /\
    path stopped = full_segments k ++ seg_states (Z.of_nat k) i /\
    (aborted (after stopped) = false -> state_index (after stopped) = i) /\
    (aborted (after stopped) = true -> state_index (after stopped) = TEARDOWN).
Proof.
  apply (accepted_path_is_lifecycle "run" "start" stopped);
    [vm_compute; reflexivity | vm_compute; eauto].
Defined.

Lemma accept_atomic_witness : (accept (st 3 0 "qos") (init "run" "start")).2 = init "run" "start".
Proof. apply (accept_atomic _ _ (HilProtocolError FirstStateNotIdle)). vm_compute. reflexivity. Defined.

Lemma accepted_records_ordered_witness :
  Forall (fun r => HilProtocol.run_id r = "run" /\
    firmware_id (after passed) = Some (HilProtocol.firmware_id r)) passed /\
  StronglySorted Z.le (monotonic_ms <$> passed) /\
  Forall (fun r => monotonic_ms r <= last_monotonic (after passed)) passed.
Proof. apply (accepted_records_ordered "run" "start"). vm_compute. reflexivity. Defined.

Lemma post_terminal_only_status_witness :
  exists s', run (after passed) [query] = Ok s' /\ Forall (fun r => kind r = "status") [query] /\
    terminal s' = terminal (after passed).
Proof.
  eexists. split; [vm_compute; reflexivity|].
  edestruct (post_terminal_only_status [query] (after passed)) as (H1 & H2 & _);
    [ | | vm_compute; reflexivity | split; [exact H1 | exact H2]].
  - vm_compute. eauto.
  - apply (bool_decide_unpack _). vm_compute. exact I.
Defined.

Lemma abort_is_final_witness :
  exists s2, run (after stopped) [verdict "fail" 9 0] = Ok s2 /\ aborted s2 = true.
Proof.
  eexists. split; [vm_compute; reflexivity|].
  refine (proj1 (abort_is_final "run" "start" stopped [verdict "fail" 9 0] (after stopped) _ _ _ _));
    vm_compute; reflexivity.
Defined.

Definition example_line : string := render true (verdict "pass" 20 1).


Lemma example_wf : record_wf (verdict "pass" 20 1).
Proof. by apply (record_of_json_wf (record_json (verdict "pass" 20 1))). Qed.

Lemma parse_render_roundtrip_witness :
  parse_hil1_line (LStr example_line) = Ok (Some (verdict "pass" 20 1)) /\
  parse_hil1_line (LBytes example_line) = Ok (Some (verdict "pass" 20 1)).
Proof. apply parse_render_roundtrip; [exact example_wf | vm_compute; reflexivity..]. Defined.

Lemma parse_hil1_errors_witness :
  (exists pe : parse_error, HilProtocolError InvalidJson = HilProtocolError pe) \/
  (HilProtocolError (E:=parse_error) InvalidJson = ValueError /\
    exists body, loads_chars _reject_duplicate_keys body = Err JIntLimit).
Proof. apply (parse_hil1_errors (LStr "HIL1 {")). vm_compute. reflexivity. Defined.

Lemma parsed_accept_protocol_errors_witness :
  exists te, HilProtocolError TerminalBeforeTeardown = HilProtocolError (E:=track_error) te.
Proof.
  apply (parsed_accept_protocol_errors (LStr example_line) (verdict "pass" 20 1) (init "run" "start"));
    vm_compute; reflexivity.
Defined.
End ProtocolWitnesses.
