(* ===== verification/HilRows.v ===== *)
(** * HIL row definitions (scripts/hil/rows.py)

    The frozen rows, the validation [RowSpec.__post_init__] performs on
    arbitrary Python arguments (carried as [json] scalars), the counters each
    row derives, and the two-pass schedule. *)

From S2P Require Import Prelude PyText Json.

Definition SIGNAL_SEED : Z := 1218649181.

Definition MODE_STREAM_COUNTS : list (string * Z) := [("mono", 1); ("mode_a", 2); ("mode_b", 1)]%string.
Definition PROFILE_FRAME_US : list (string * Z) := [("48_4_1", 10000); ("48_3_1", 7500)]%string.
Definition PROFILE_PREAMBLE_SDUS : list (string * Z) := [("48_4_1", 144); ("48_3_1", 192)]%string.
Definition PROFILE_TAIL_SDUS : list (string * Z) := [("48_4_1", 500); ("48_3_1", 667)]%string.

(** [RowSpecError] by message; [Unhashable] is the [TypeError] of looking an
    array or an object up in a dict. *)
Inductive row_error : Type :=
| EmptyRowName | BadState | BadMode | BadProfile | BadScored | BadSeed | BadReconnect | BadFault | FaultProfile
| Unhashable | UnknownRow | NamesNotUnique.

Record RowSpec : Type := mk_row {
  name : string; state : string; mode : string; profile : string; scored_sdu_count : Z; signal_seed : Z;
  reconnect_policy : string; fault : option string;
}.
#[export] Instance RowSpec_eq_dec : EqDecision RowSpec.
Proof. solve_decision. Defined.

(** *** [RowSpec.__post_init__] *)

(** [value not in d] for a dict with string keys. *)
Definition in_table (d : list (string * Z)) (v : json) (e : row_error) : result row_error string :=
  match v with
  | JStr s => ensure (dict_has s d) e;; Ok s
  | JArr _ | JObj _ => Err Unhashable
  | _ => Err e
  end.

(** [value not in (a, b)] for a tuple of strings. *)
Definition in_tuple (l : list string) (v : json) (e : row_error) : result row_error string :=
  match v with JStr s => ensure (py_in s l) e;; Ok s | _ => Err e end.

(** [isinstance(value, int)], not a [bool], and [lo <= value <= hi]. *)
Definition int_between (lo hi : Z) (v : json) (e : row_error) : result row_error Z :=
  match v with JInt z => ensure ((lo <=? z) && (z <=? hi)) e;; Ok z | _ => Err e end.

Definition check_fault (v : json) : result row_error (option string) :=
  match v with
  | JNull => Ok None
  | JStr s => ensure (py_in s ["hang"; "stall"]%string) BadFault;; Ok (Some s)
  | _ => Err BadFault
  end.

Definition new_row (name state mode profile scored seed reconnect fault : json) : result row_error RowSpec :=
  name ← match name with JStr s => ensure (negb (String.eqb s EmptyString)) EmptyRowName;; Ok s | _ => Err EmptyRowName end;
  state ← in_tuple ["fresh"; "preserved"]%string state BadState;
  mode ← in_table MODE_STREAM_COUNTS mode BadMode;
  profile ← in_table PROFILE_FRAME_US profile BadProfile;
  scored ← int_between 1 20000 scored BadScored;
  seed ← int_between 1 4294967295 seed BadSeed;
  reconnect ← in_tuple ["none"; "once"]%string reconnect BadReconnect;
  fault ← check_fault fault;
  ensure (negb (match fault with Some _ => true | None => false end && negb (String.eqb profile "48_4_1"))) FaultProfile;;
  Ok (mk_row name state mode profile scored seed reconnect fault).

(** *** Derived counters *)

(** A table lookup that [__post_init__] has checked. *)
Definition table (d : list (string * Z)) (k : string) : Z := match dict_get k d with Some v => v | None => 0 end.

Definition stream_count (r : RowSpec) : Z := table MODE_STREAM_COUNTS (mode r).
Definition segment_count (r : RowSpec) : Z := if String.eqb (reconnect_policy r) "once" then 2 else 1.
Definition expected_scored_per_stream (r : RowSpec) : Z := scored_sdu_count r * segment_count r.
Definition expected_submitted_per_segment (r : RowSpec) : Z :=
  table PROFILE_PREAMBLE_SDUS (profile r) + scored_sdu_count r + table PROFILE_TAIL_SDUS (profile r).
Definition expected_submitted_per_stream (r : RowSpec) : Z := segment_count r * expected_submitted_per_segment r.
(** In microseconds; the code divides by 1,000,000 in floating point. *)
Definition minimum_scored_interval_us (r : RowSpec) : Z := scored_sdu_count r * table PROFILE_FRAME_US (profile r).
Definition healthy (r : RowSpec) : bool := match fault r with None => true | Some _ => false end.

(** *** The checked-in rows *)

(** The constructor with the defaults of the remaining fields. *)
Definition row (n st m p : string) (scored : Z) : RowSpec := mk_row n st m p scored SIGNAL_SEED "none" None.

Definition RH2_ROW : RowSpec := row "rh2.short_mono_48_4_1" "fresh" "mono" "48_4_1" 120.

Definition RH3_HEALTHY_ROWS : list RowSpec := [
  row "rh3.fresh_mono_48_4_1" "fresh" "mono" "48_4_1" 12000;
  row "rh3.fresh_mode_a_48_4_1" "fresh" "mode_a" "48_4_1" 12000;
  row "rh3.fresh_mode_b_48_4_1" "fresh" "mode_b" "48_4_1" 12000;
  row "rh3.preserved_mode_b_48_4_1" "preserved" "mode_b" "48_4_1" 12000;
  row "rh3.fresh_mono_48_3_1" "fresh" "mono" "48_3_1" 16000;
  row "rh3.fresh_mode_a_48_3_1" "fresh" "mode_a" "48_3_1" 16000;
  row "rh3.fresh_mode_b_48_3_1" "fresh" "mode_b" "48_3_1" 16000].

Definition RH3_7P5_DIAGNOSTIC_ROWS : list RowSpec := take 3 (drop 4 RH3_HEALTHY_ROWS).

Definition RH3_RECONNECT_ROW : RowSpec :=
  mk_row "rh3.reconnect_mode_b_48_4_1" "preserved" "mode_b" "48_4_1" 12000 SIGNAL_SEED "once" None.
Definition RH3_HANG_ROW : RowSpec :=
  mk_row "rh3.flpr_hang_mode_b_48_4_1" "preserved" "mode_b" "48_4_1" 12000 SIGNAL_SEED "none" (Some "hang").
Definition RH3_STALL_ROW : RowSpec :=
  mk_row "rh3.flpr_stall_mode_b_48_4_1" "preserved" "mode_b" "48_4_1" 12000 SIGNAL_SEED "none" (Some "stall").

Definition RH3_PASS_ROWS : list RowSpec := RH3_HEALTHY_ROWS ++ [RH3_RECONNECT_ROW; RH3_HANG_ROW; RH3_STALL_ROW].
Definition RH3_PASS_COUNT : Z := 2.

(** [enumerate(l, start=n)] *)
Fixpoint enumerate {A} (n : Z) (l : list A) : list (Z * A) :=
  match l with [] => [] | x :: l' => (n, x) :: enumerate (n + 1) l' end.

Definition rh3_schedule : list (Z * Z * RowSpec) :=
  pass ← seqZ 1 RH3_PASS_COUNT; (fun ir => (pass, ir.1, ir.2)) <$> enumerate 1 RH3_PASS_ROWS.

Definition ALL_ROWS : list RowSpec := [RH2_ROW] ++ RH3_HEALTHY_ROWS ++ [RH3_RECONNECT_ROW; RH3_HANG_ROW; RH3_STALL_ROW].

Definition ROW_BY_NAME : list (string * RowSpec) := fold_left (fun d r => dict_set (name r) r d) ALL_ROWS [].

(** The check when the module is imported. *)
Definition import_check : result row_error unit :=
  ensure (length ROW_BY_NAME =? length ALL_ROWS)%nat NamesNotUnique.

(** A lookup with a value that cannot be hashed is the same error. *)
Definition get_row (n : json) : result row_error RowSpec :=
  match n with
  | JStr s => result_of_option UnknownRow (dict_get s ROW_BY_NAME)
  | _ => Err UnknownRow
  end.

Definition row_names : list string := name <$> ALL_ROWS.
Definition rh3_rows (include_faults : bool) : list RowSpec := if include_faults then RH3_PASS_ROWS else RH3_HEALTHY_ROWS.

(** ** What a row promises *)

(** The fields of every value [__post_init__] lets through. *)
Record valid_row (r : RowSpec) : Prop := mk_valid_row {
  v_name : name r <> EmptyString;
  v_state : state r ∈ ["fresh"; "preserved"]%string;
  v_mode : dict_has (mode r) MODE_STREAM_COUNTS = true;
  v_profile : dict_has (profile r) PROFILE_FRAME_US = true;
  v_scored : 1 <= scored_sdu_count r <= 20000;
  v_seed : 1 <= signal_seed r <= 4294967295;
  v_reconnect : reconnect_policy r ∈ ["none"; "once"]%string;
  v_fault : forall f, fault r = Some f -> f ∈ ["hang"; "stall"]%string /\ profile r = "48_4_1"%string;
}.

Definition row_args (r : RowSpec) : result row_error RowSpec :=
  new_row (JStr (name r)) (JStr (state r)) (JStr (mode r)) (JStr (profile r)) (JInt (scored_sdu_count r))
    (JInt (signal_seed r)) (JStr (reconnect_policy r)) (match fault r with None => JNull | Some f => JStr f end).

Lemma in_tuple_Ok l v e s : in_tuple l v e = Ok s <-> v = JStr s /\ s ∈ l.
Proof.
  unfold in_tuple. destruct v; try (split; [done | by intros [? _]]). rewrite bind_Ok. unfold py_in.
  split.
  - intros (u & Hu%ensure_Ok%bool_decide_eq_true & [= ->]). done.
  - intros [[= ->] Hin]. exists tt. split; [|done]. by apply ensure_Ok, bool_decide_eq_true.
Qed.

Lemma in_table_Ok d v e s : in_table d v e = Ok s <-> v = JStr s /\ dict_has s d = true.
Proof.
  unfold in_table. destruct v; try (split; [done | by intros [? _]]). rewrite bind_Ok. split.
  - intros (u & Hu%ensure_Ok & [= ->]). done.
  - intros [[= ->] Hin]. exists tt. split; [|done]. by apply ensure_Ok.
Qed.

Lemma int_between_Ok lo hi v e z : int_between lo hi v e = Ok z <-> v = JInt z /\ lo <= z <= hi.
Proof.
  unfold int_between. destruct v; try (split; [done | by intros [? _]]). rewrite bind_Ok. split.
  - intros (u & Hu%ensure_Ok & [= ->]). bool_to_prop. done.
  - intros [[= ->] Hin]. exists tt. split; [|done]. apply ensure_Ok, andb_true_iff. lia.
Qed.

Lemma check_fault_Ok v f :
  check_fault v = Ok f <->
  v = match f with None => JNull | Some s => JStr s end /\ forall s, f = Some s -> s ∈ ["hang"; "stall"]%string.
Proof.
  unfold check_fault, py_in. destruct v; try (split; [done | by intros [? _]; destruct f]).
  - split; [intros [= <-]; done | intros [H _]; by destruct f].
  - rewrite bind_Ok. split.
    + intros (u & Hu%ensure_Ok%bool_decide_eq_true & [= <-]). split; [done|]. by intros s' [= ->].
    + intros [H Hin]. destruct f as [f|]; [|done]. injection H as ->. exists tt. split; [|done].
      apply ensure_Ok, bool_decide_eq_true. by apply Hin.
Qed.

Lemma new_row_Ok n st m p sc sd rc f r :
  new_row n st m p sc sd rc f = Ok r <->
  (n = JStr (name r) /\ st = JStr (state r) /\ m = JStr (mode r) /\ p = JStr (profile r) /\
   sc = JInt (scored_sdu_count r) /\ sd = JInt (signal_seed r) /\ rc = JStr (reconnect_policy r) /\
   f = match fault r with None => JNull | Some x => JStr x end) /\ valid_row r.
Proof.
  unfold new_row. split.
  - intros H. repeat (apply bind_Ok in H as (? & ? & H)).
    repeat match goal with
    | G : in_tuple _ _ _ = Ok _ |- _ => apply in_tuple_Ok in G as [-> ?]
    | G : in_table _ _ _ = Ok _ |- _ => apply in_table_Ok in G as [-> ?]
    | G : int_between _ _ _ _ = Ok _ |- _ => apply int_between_Ok in G as [-> ?]
    | G : check_fault _ = Ok _ |- _ => apply check_fault_Ok in G as [-> ?]
    | G : ensure _ _ = Ok _ |- _ => apply ensure_Ok in G
    end.
    destruct n; try done. apply bind_Ok in H0 as (? & Hn%ensure_Ok & [= ->]). apply Ok_inj in H. subst r. simpl.
    split; [done|]. constructor; simpl; try done.
    + by destruct (String.eqb_spec x EmptyString).
    + intros s ->. split; [by apply H7|]. simpl in H8. by destruct (String.eqb_spec x2 "48_4_1").
  - intros [(-> & -> & -> & -> & -> & -> & -> & ->) [V1 V2 V3 V4 V5 V6 V7 V8]].
    assert (negb (String.eqb (name r) EmptyString) = true) as Hn by by (destruct (String.eqb_spec (name r) EmptyString)).
    rewrite Hn. cbn [ensure mbind result_bind].
    rewrite (proj2 (in_tuple_Ok _ _ _ (state r)) (conj eq_refl V2)). cbn [mbind result_bind].
    rewrite (proj2 (in_table_Ok _ _ _ (mode r)) (conj eq_refl V3)). cbn [mbind result_bind].
    rewrite (proj2 (in_table_Ok _ _ _ (profile r)) (conj eq_refl V4)). cbn [mbind result_bind].
    rewrite (proj2 (int_between_Ok _ _ _ _ (scored_sdu_count r)) (conj eq_refl V5)). cbn [mbind result_bind].
    rewrite (proj2 (int_between_Ok _ _ _ _ (signal_seed r)) (conj eq_refl V6)). cbn [mbind result_bind].
    rewrite (proj2 (in_tuple_Ok _ _ _ (reconnect_policy r)) (conj eq_refl V7)). cbn [mbind result_bind].
    rewrite (proj2 (check_fault_Ok _ (fault r)) (conj eq_refl (fun s Hs => proj1 (V8 s Hs)))). cbn [mbind result_bind].
    destruct (fault r) as [s|] eqn:Hf; simpl.
    + destruct (V8 s eq_refl) as [_ Hp]. rewrite Hp. simpl. rewrite <- Hp, <- Hf. by destruct r.
    + rewrite <- Hf. by destruct r.
Qed.

(** [RowSpec] accepts exactly the valid rows: whatever Python values are
    passed, the constructor returns [r] iff the arguments are the fields of [r]
    (no coercion, no [bool] for an integer) and [r] is valid; every other call
    raises. *)
Theorem new_row_exact n st m p sc sd rc f r :
  new_row n st m p sc sd rc f = Ok r <->
  (n = JStr (name r) /\ st = JStr (state r) /\ m = JStr (mode r) /\ p = JStr (profile r) /\
   sc = JInt (scored_sdu_count r) /\ sd = JInt (signal_seed r) /\ rc = JStr (reconnect_policy r) /\
   f = match fault r with None => JNull | Some x => JStr x end) /\ valid_row r.
Proof. apply new_row_Ok. Qed.

Lemma profile_cases p : dict_has p PROFILE_FRAME_US = true -> p = "48_4_1"%string \/ p = "48_3_1"%string.
Proof. rewrite dict_has_spec. simpl. rewrite !elem_of_cons, elem_of_nil. tauto. Qed.

Lemma segment_cases r : segment_count r = 1 \/ segment_count r = 2.
Proof. unfold segment_count. destruct (String.eqb _ _); tauto. Qed.

(** The counters of a valid row: what a stream submits is at least what is
    scored plus a full preamble and tail per segment, fits 16 bits, and the
    preamble lasts exactly 1.44 s and the tail at least 5 s in either
    profile. *)
Theorem row_counters r :
  valid_row r ->
  expected_scored_per_stream r < expected_submitted_per_stream r < 65536 /\
  expected_submitted_per_stream r - expected_scored_per_stream r =
    segment_count r * (table PROFILE_PREAMBLE_SDUS (profile r) + table PROFILE_TAIL_SDUS (profile r)) /\
  table PROFILE_PREAMBLE_SDUS (profile r) * table PROFILE_FRAME_US (profile r) = 1440000 /\
  5000000 <= table PROFILE_TAIL_SDUS (profile r) * table PROFILE_FRAME_US (profile r) < 5000000 + table PROFILE_FRAME_US (profile r) /\
  1 <= stream_count r <= 2.
Proof.
  intros [_ _ V3 V4 V5 _ _ _].
  unfold expected_scored_per_stream, expected_submitted_per_stream, expected_submitted_per_segment, stream_count.
  assert (1 <= table MODE_STREAM_COUNTS (mode r) <= 2).
  { apply dict_has_spec in V3. simpl in V3. rewrite !elem_of_cons, elem_of_nil in V3.
    destruct V3 as [->|[->|[->|[]]]]; vm_compute; split; discriminate. }
  destruct (segment_cases r) as [-> | ->], (profile_cases _ V4) as [-> | ->];
    change (table PROFILE_PREAMBLE_SDUS "48_4_1") with 144; change (table PROFILE_TAIL_SDUS "48_4_1") with 500;
    change (table PROFILE_FRAME_US "48_4_1") with 10000; change (table PROFILE_PREAMBLE_SDUS "48_3_1") with 192;
    change (table PROFILE_TAIL_SDUS "48_3_1") with 667; change (table PROFILE_FRAME_US "48_3_1") with 7500; lia.
Qed.

(** A finite check over the rows. *)
Ltac each_row := repeat (apply Forall_cons; split); try apply Forall_nil; vm_compute; try reflexivity.

Lemma all_rows_valid : Forall (fun r => row_args r = Ok r /\ get_row (JStr (name r)) = Ok r) ALL_ROWS.
Proof. repeat (apply Forall_cons; split); try apply Forall_nil; split; vm_compute; reflexivity. Qed.

Lemma names_of_rows : Forall (fun x => x.2 ∈ ALL_ROWS /\ x.1 = name x.2) ROW_BY_NAME.
Proof.
  assert (Forall (fun x => bool_decide (x.2 ∈ ALL_ROWS /\ x.1 = name x.2) = true) ROW_BY_NAME) as H by each_row.
  eapply Forall_impl; [exact H|]. intros x Hx. by apply bool_decide_eq_true in Hx.
Qed.

(** The checked-in matrix: every row is accepted by [RowSpec], the import
    check passes, [get_row] finds exactly the checked-in rows, each under its
    own name; every RH3 row scores the same 120 s, and the fixed schedule runs
    every row of the pass once per pass, in order, no fault row before a
    healthy one. *)
Theorem schedule_complete :
  import_check = Ok tt /\
  (forall r, r ∈ ALL_ROWS -> valid_row r /\ get_row (JStr (name r)) = Ok r) /\
  (forall n r, get_row n = Ok r -> r ∈ ALL_ROWS /\ n = JStr (name r)) /\
  (forall r, r ∈ RH3_PASS_ROWS -> minimum_scored_interval_us r = 120000000) /\
  (forall k, k ∈ [1; 2] -> (fun x => (x.1.2, x.2)) <$> filter (fun x => x.1.1 = k) rh3_schedule = enumerate 1 RH3_PASS_ROWS) /\
  (forall x, x ∈ rh3_schedule -> x.1.1 ∈ [1; 2]) /\
  (forall i j r r', RH3_PASS_ROWS !! i = Some r -> RH3_PASS_ROWS !! j = Some r' -> (i < j)%nat -> healthy r' = true -> healthy r = true).
Proof.
  split; [vm_compute; reflexivity|]. split; [|split; [|split; [|split; [|split]]]].
  - intros r Hr. pose proof all_rows_valid as H. rewrite Forall_forall in H. destruct (H r Hr) as [Hv Hg].
    split; [|done]. unfold row_args in Hv. by apply new_row_Ok in Hv as [_ Hv].
  - intros n r H. destruct n as [| | | |s| |]; try done. apply result_of_option_Ok, dict_get_elem in H.
    pose proof names_of_rows as G. rewrite Forall_forall in G. destruct (G _ H) as [H1 H2]. simpl in *. by subst s.
  - assert (Forall (fun r => minimum_scored_interval_us r = 120000000) RH3_PASS_ROWS) as H by each_row.
    by apply Forall_forall.
  - intros k Hk. rewrite !elem_of_cons, elem_of_nil in Hk. destruct Hk as [->|[->|[]]]; vm_compute; reflexivity.
  - assert (Forall (fun x => bool_decide (x.1.1 ∈ [1; 2]) = true) rh3_schedule) as H by each_row.
    intros x Hx. rewrite Forall_forall in H. by apply H, bool_decide_eq_true in Hx.
  - intros i j r r' Hi Hj Hij Hr'.
    assert (Forall (fun r => healthy r = true) (take 8 RH3_PASS_ROWS)) as H1 by each_row.
    assert (Forall (fun r => healthy r = false) (drop 8 RH3_PASS_ROWS)) as H2 by each_row.
    rewrite Forall_forall in H1, H2. destruct (decide (j < 8)%nat) as [Hlt|Hge].
    + apply H1, (list_elem_of_lookup_2 _ i). by rewrite lookup_take_lt by lia.
    + assert (r' ∈ drop 8 RH3_PASS_ROWS) as Hin.
      { apply (list_elem_of_lookup_2 _ (j - 8)). rewrite lookup_drop. by replace (8 + (j - 8))%nat with j by lia. }
      apply H2 in Hin. congruence.
Qed.

(** ** Concrete rows *)

Module RowWitnesses.

Lemma row_counters_witness :
  new_row (JStr "r") (JStr "fresh") (JStr "mode_b") (JStr "48_3_1") (JInt 20000) (JInt 1) (JStr "once") JNull =
    Ok (mk_row "r" "fresh" "mode_b" "48_3_1" 20000 1 "once" None) /\
  expected_submitted_per_stream (mk_row "r" "fresh" "mode_b" "48_3_1" 20000 1 "once" None) = 41718 /\
  expected_submitted_per_stream (mk_row "r" "fresh" "mode_b" "48_3_1" 20000 1 "once" None) < 65536.
Proof.
  split; [reflexivity|]. split; [reflexivity|].
  apply (row_counters (mk_row "r" "fresh" "mode_b" "48_3_1" 20000 1 "once" None)). constructor; simpl; try done; try lia.
  - apply list_elem_of_In. simpl. tauto.
  - apply list_elem_of_In. simpl. tauto.
Defined.
End RowWitnesses.
