(* ===== verification/SerialIo.v ===== *)
(** * Serial console ownership (scripts/hil/serial_io.py)

    Line framing and its evidence; the reader thread and the owner thread as a
    step function over their shared state (gate, descriptor, evidence, queue),
    one event per observable step, in any order; the waits and the receiver
    command over what the reader did between their observations; [open].
    Clocks are integers in microseconds.  Decoded text is kept as its UTF-8
    bytes. *)

From S2P Require Import Prelude PyText PyRegex.

Definition LINE_QUEUE_CAP : nat := Z.to_nat 4096.
Definition READ_TIMEOUT : Z := 100000.
Definition CLOSE_JOIN_TIMEOUT : Z := 5000000.

(** ** Text *)

(** [os.path.splitext] of the last path component: the extension starts at
    its last dot, unless only dots precede that dot. *)
Fixpoint split_last (c : ascii) (l : list ascii) : option (list ascii * list ascii) :=
  match l with
  | [] => None
  | a :: l' =>
      match split_last c l' with
      | Some (u, v) => Some (a :: u, v)
      | None => if Ascii.eqb a c then Some ([], l) else None
      end
  end.
Definition splitext (path : list ascii) : list ascii * list ascii :=
  let '(dir, name) := match split_last "/"%char path with
                      | Some (u, _ :: v) => (u ++ ["/"%char], v) | _ => ([], path) end in
  match split_last "."%char name with
  | Some (stem, ext) => if forallb (Ascii.eqb "."%char) stem then (path, []) else (dir ++ stem, ext)
  | None => (path, [])
  end.
Definition tx_evidence_path (evidence_path : string) : string :=
  let '(stem, suffix) := splitext (chars evidence_path) in of_chars (stem ++ chars "-tx" ++ suffix).

Definition ESC : ascii := "027"%char.
Definition VT100_CSI_RE : re :=
  Seq (Chr ESC) (Seq (Chr "["%char) (Seq (Star (between 48 63)) (Seq (Star (between 32 47)) (Cls (between 64 126))))).

Definition strip_vt100 (text : list ascii) : list ascii := remove VT100_CSI_RE text.

(** [bytes.rstrip(b"\r")] *)
Definition CR : ascii := "013"%char.
Fixpoint rstrip_cr (l : list ascii) : list ascii :=
  match l with
  | [] => []
  | c :: l' => match rstrip_cr l' with [] => if Ascii.eqb c CR then [] else [c] | r => c :: r end
  end.

Definition ends_with (suffix text : list ascii) : bool :=
  bool_decide (drop (length text - length suffix) text = suffix).

(** ** Framing *)

Inductive decode_failure : Type := Undecodable | QueueOverflow.

(** The fields of the console that one lock protects. *)
Record framing : Type := mk_framing {
  partial : list ascii;
  lines : list (Z * list ascii);
  line_seq : Z;
  decode_error : option decode_failure }.

Definition new_framing : framing := mk_framing [] [] 0 None.

(** [self._decode_error = self._decode_error or e] *)
Definition first_error (e : decode_failure) (s : framing) : framing :=
  mk_framing (partial s) (lines s) (line_seq s) (Some (default e (decode_error s))).
Definition set_partial (p : list ascii) (s : framing) : framing := mk_framing p (lines s) (line_seq s) (decode_error s).

(** [find(b"\n")] with the two slices it is used for. *)
Fixpoint take_line (l : list ascii) : option (list ascii * list ascii) :=
  match l with
  | [] => None
  | c :: l' => if Ascii.eqb c newline then Some ([], l')
               else match take_line l' with Some (u, v) => Some (c :: u, v) | None => None end
  end.

Definition publish_line (raw : list ascii) (s : framing) : framing :=
  match utf8_status raw with
  | Decoded =>
      if (LINE_QUEUE_CAP <=? length (lines s))%nat then first_error QueueOverflow s
      else mk_framing (partial s) (lines s ++ [(line_seq s, raw)]) (line_seq s + 1) (decode_error s)
  | _ => first_error Undecodable s
  end.

(** The loop ends when no newline is left; each round removes one. *)
Fixpoint publish_loop (fuel : nat) (s : framing) : framing :=
  match fuel with
  | O => s
  | S fuel' =>
      match take_line (partial s) with
      | None => s
      | Some (raw, rest) => publish_loop fuel' (publish_line (rstrip_cr raw) (set_partial rest s))
      end
  end.
Definition _publish_lines_locked (s : framing) : framing := publish_loop (S (length (partial s))) s.

(** [self._partial.extend(chunk); self._publish_lines_locked()] *)
Definition receive (chunk : list ascii) (s : framing) : framing :=
  _publish_lines_locked (set_partial (partial s ++ chunk) s).

(** [mark_rx]: queue and fragment are cleared, the line counter goes on. *)
Definition clear_parse_state (s : framing) : framing := mk_framing [] [] (line_seq s) (decode_error s).

(** One pop of [next_line]. *)
Definition pop_line (s : framing) : option (list ascii * framing) :=
  match lines s with
  | [] => None
  | (_, l) :: ls => Some (l, mk_framing (partial s) ls (line_seq s) (decode_error s))
  end.
Definition drain_lines (s : framing) : list (list ascii) * framing :=
  ((lines s).*2, mk_framing (partial s) [] (line_seq s) (decode_error s)).

(** ** The reference: the lines of a byte string, and what follows the last *)

Fixpoint cut (l : list ascii) : list (list ascii) * list ascii :=
  match l with
  | [] => ([], [])
  | c :: l' =>
      let '(ls, p) := cut l' in
      if Ascii.eqb c newline then ([] :: ls, p)
      else match ls with [] => ([], c :: p) | x :: xs => ((c :: x) :: xs, p) end
  end.
Definition text_lines (l : list ascii) : list (list ascii) := rstrip_cr <$> (cut l).1.
Definition fragment (l : list ascii) : list ascii := (cut l).2.

(** ** The reader and its owner *)

Inductive thread : Type := Reader | Owner.

(** Where the reader thread is: [RTop] before the loop test, [RGate] waiting
    for the gate, [RHeld] with the gate before the two tests, [RRead] inside
    [ser.read], [RGot c] with the chunk read. *)
Inductive reader_pc : Type := RStart | RTop | RGate | RHeld | RRead | RGot (chunk : list ascii) | RDone.

(** Where the owner thread is: between calls; in [mark_rx] with the gate,
    before the purge, after the purge, and after the parse state was cleared;
    in [close] with the gate, after [stop] was set, before the join
    ([d]: the descriptor was closed), after the join with the descriptor still
    open ([alive]: the reader lives), with the gate for the second attempt, and
    before the evidence handles are dealt with. *)
Inductive owner_pc : Type :=
| Idle
| MarkHeld | MarkPurged | MarkCleared
| CloseTop | CloseHeld | CloseStopped | Join (d : bool) | Joined (alive : bool)
| CloseHeld2 (alive : bool) | CloseEvidence (d alive : bool).

#[global] Instance owner_pc_eq_dec : EqDecision owner_pc.
Proof. solve_decision. Defined.

Inductive read_failure : Type := BackendFailed | EvidenceFailed.
(** How a call of [close] ended. *)
Inductive close_outcome : Type := CloseOk | ReaderAlive | DescriptorOpen.

(** The receive side: the parse state, the raw evidence file, the absolute
    byte counter and the first read failure. *)
Record receipt : Type := mk_receipt {
  frame : framing; evidence : list ascii; bytes_received : Z; read_error : option read_failure }.
(** The backend: whether [self._ser] is set, how often its [close] was called,
    and the bytes in the input buffer of the operating system. *)
Record port : Type := mk_port { owned : bool; fd_closes : nat; input : list ascii }.
Record control : Type := mk_control {
  gate : option thread; stop : bool; closed : bool; reader_ready : bool; evidence_open : bool }.
(** History, for the statements: the offset at which the parse state was last
    cleared, the lines popped since, the bytes that arrived since the last
    purge, the result of the last [mark_rx], the outcome of [close]. *)
Record history : Type := mk_history {
  edge : Z; popped : list (list ascii); fresh : list ascii; marked : option Z; outcome : option close_outcome }.

Record console : Type := mk_console {
  rx : receipt; prt : port; ctl : control; rpc : reader_pc; opc : owner_pc; hist : history }.

Definition at_reader (pc : reader_pc) (s : console) : console := mk_console (rx s) (prt s) (ctl s) pc (opc s) (hist s).
Definition at_owner (pc : owner_pc) (s : console) : console := mk_console (rx s) (prt s) (ctl s) (rpc s) pc (hist s).
Definition on_rx (f : receipt -> receipt) (s : console) : console := mk_console (f (rx s)) (prt s) (ctl s) (rpc s) (opc s) (hist s).
Definition on_port (f : port -> port) (s : console) : console := mk_console (rx s) (f (prt s)) (ctl s) (rpc s) (opc s) (hist s).
Definition on_ctl (f : control -> control) (s : console) : console := mk_console (rx s) (prt s) (f (ctl s)) (rpc s) (opc s) (hist s).
Definition on_hist (f : history -> history) (s : console) : console := mk_console (rx s) (prt s) (ctl s) (rpc s) (opc s) (f (hist s)).

Definition set_gate (g : option thread) (c : control) : control := mk_control g (stop c) (closed c) (reader_ready c) (evidence_open c).
Definition set_stop (c : control) : control := mk_control (gate c) true (closed c) (reader_ready c) (evidence_open c).
Definition set_ready (c : control) : control := mk_control (gate c) (stop c) (closed c) true (evidence_open c).
Definition set_closed (c : control) : control := mk_control (gate c) (stop c) true (reader_ready c) (evidence_open c).
Definition take_gate (t : thread) : console -> console := on_ctl (set_gate (Some t)).
Definition release_gate : console -> console := on_ctl (set_gate None).
Definition set_input (l : list ascii) (p : port) : port := mk_port (owned p) (fd_closes p) l.
Definition set_frame (f : framing) (r : receipt) : receipt := mk_receipt f (evidence r) (bytes_received r) (read_error r).
Definition fail_read (e : read_failure) (r : receipt) : receipt := mk_receipt (frame r) (evidence r) (bytes_received r) (Some e).

(** The console as [open] leaves it. *)
Definition opened : console :=
  mk_console (mk_receipt new_framing [] 0 None) (mk_port true 0 []) (mk_control None false false false true)
             RStart Idle (mk_history 0 [] [] None None).

(** *** The reader thread *)

(** What the world answers a reader step: nothing to answer; [n] bytes read
    ([0]: the timeout); the read raised; the evidence write raised after [n]
    bytes of the chunk reached the file. *)
Inductive answer : Type := Go | Chunk (n : nat) | ReadRaises | AppendRaises (n : nat).

Definition append_evidence (l : list ascii) (r : receipt) : receipt :=
  mk_receipt (frame r) (evidence r ++ l) (bytes_received r) (read_error r).

(** The receive transaction: evidence, counter, framing. *)
Definition receive_transaction (chunk : list ascii) (r : receipt) : receipt :=
  mk_receipt (receive chunk (frame r)) (evidence r ++ chunk) (bytes_received r + Z.of_nat (length chunk)) (read_error r).

(** [_append_evidence] on a missing handle: the first failure is kept. *)
Definition no_handle (r : receipt) : receipt :=
  match read_error r with None => fail_read EvidenceFailed r | Some _ => r end.

Definition _reader_loop (a : answer) (s : console) : option console :=
  match rpc s, a with
  | RStart, Go => Some (at_reader RTop (on_ctl set_ready s))
  | RTop, Go => Some (at_reader (if stop (ctl s) then RDone else RGate) s)
  | RGate, Go =>
      match gate (ctl s) with None => Some (at_reader RHeld (take_gate Reader s)) | Some _ => None end
  | RHeld, Go =>
      if stop (ctl s) || negb (owned (prt s)) then Some (at_reader RDone (release_gate s))
      else Some (at_reader RRead s)
  | RRead, Chunk n =>
      if Z.of_nat n <=? Z.min 512 (Z.of_nat (length (input (prt s)))) then
        match n with
        | O => Some (at_reader RTop (release_gate s))
        | _ => Some (at_reader (RGot (take n (input (prt s)))) (on_port (set_input (drop n (input (prt s)))) s))
        end
      else None
  | RRead, ReadRaises =>
      Some (at_reader RDone (release_gate
        (if stop (ctl s) && negb (owned (prt s)) then s else on_rx (fail_read BackendFailed) s)))
  | RGot chunk, Go =>
      if evidence_open (ctl s) then Some (at_reader RTop (release_gate (on_rx (receive_transaction chunk) s)))
      else Some (at_reader RDone (release_gate (on_rx no_handle s)))
  | RGot chunk, AppendRaises n =>
      Some (at_reader RDone (release_gate (on_rx (fun r => fail_read EvidenceFailed (append_evidence (take n chunk) r)) s)))
  | _, _ => None
  end.

(** *** The owner thread *)

Inductive call : Type :=
| NextLine | DrainLines
| MarkRx | Purge (ok : bool) | ClearParse | Snapshot
| Close | AcquireGate | GateTimeout | SetStop | CloseSerial | ThreadExited | JoinTimeout | CloseEvidenceHandles.

Definition pop_history (ls : list (list ascii)) (h : history) : history :=
  mk_history (edge h) (popped h ++ ls) (fresh h) (marked h) (outcome h).

Definition mark_rx (c : call) (s : console) : option console :=
  match opc s, c with
  | Idle, MarkRx =>
      if owned (prt s) then
        match gate (ctl s) with None => Some (at_owner MarkHeld (take_gate Owner s)) | Some _ => None end
      else Some s
  | MarkHeld, Purge true =>
      Some (at_owner MarkPurged (on_hist (fun h => mk_history (edge h) (popped h) [] (marked h) (outcome h))
                                         (on_port (set_input []) s)))
  | MarkHeld, Purge false => Some (at_owner Idle (release_gate s))
  | MarkPurged, ClearParse =>
      Some (at_owner MarkCleared
              (on_hist (fun h => mk_history (bytes_received (rx s)) [] (fresh h) (marked h) (outcome h))
                 (on_rx (fun r => set_frame (clear_parse_state (frame r)) r) s)))
  | MarkCleared, Snapshot =>
      Some (at_owner Idle (release_gate
              (on_hist (fun h => mk_history (edge h) (popped h) (fresh h) (Some (bytes_received (rx s))) (outcome h)) s)))
  | _, _ => None
  end.

Definition _close_serial_locked (p : port) : port :=
  mk_port false (if owned p then S (fd_closes p) else fd_closes p) (input p).

Definition close_evidence_handles (c : control) : control :=
  mk_control (gate c) (stop c) (closed c) (reader_ready c) false.

Definition close (c : call) (s : console) : option console :=
  match opc s, c with
  | Idle, Close => if closed (ctl s) then Some s else Some (at_owner CloseTop (on_ctl set_closed s))
  | CloseTop, AcquireGate =>
      match gate (ctl s) with None => Some (at_owner CloseHeld (take_gate Owner s)) | Some _ => None end
  | CloseTop, GateTimeout =>
      match gate (ctl s) with None => None | Some _ => Some (at_owner (Join false) (on_ctl set_stop s)) end
  | CloseHeld, SetStop => Some (at_owner CloseStopped (on_ctl set_stop s))
  | CloseStopped, CloseSerial => Some (at_owner (Join true) (release_gate (on_port _close_serial_locked s)))
  | Join d, ThreadExited =>
      match rpc s with
      | RDone => Some (at_owner (if d then CloseEvidence true false else Joined false) s)
      | _ => None
      end
  | Join d, JoinTimeout =>
      match rpc s with
      | RDone => None
      | _ => Some (at_owner (if d then CloseEvidence true true else Joined true) s)
      end
  | Joined alive, AcquireGate =>
      match gate (ctl s) with None => Some (at_owner (CloseHeld2 alive) (take_gate Owner s)) | Some _ => None end
  | Joined alive, GateTimeout =>
      match gate (ctl s) with None => None | Some _ => Some (at_owner (CloseEvidence false alive) s) end
  | CloseHeld2 alive, CloseSerial => Some (at_owner (CloseEvidence true alive) (release_gate (on_port _close_serial_locked s)))
  | CloseEvidence d alive, CloseEvidenceHandles =>
      let result := if alive then ReaderAlive else if d then CloseOk else DescriptorOpen in
      Some (at_owner Idle
              (on_hist (fun h => mk_history (edge h) (popped h) (fresh h) (marked h) (Some result))
                 (if alive then s else on_ctl close_evidence_handles s)))
  | _, _ => None
  end.

Definition owner_step (c : call) (s : console) : option console :=
  match opc s, c with
  | Idle, NextLine =>
      match pop_line (frame (rx s)) with
      | Some (l, f) => Some (on_hist (pop_history [l]) (on_rx (set_frame f) s))
      | None => Some s
      end
  | Idle, DrainLines =>
      let '(ls, f) := drain_lines (frame (rx s)) in Some (on_hist (pop_history ls) (on_rx (set_frame f) s))
  | _, (MarkRx | Purge _ | ClearParse | Snapshot) => mark_rx c s
  | _, _ => close c s
  end.

(** *** Histories *)

Inductive event : Type := Arrive (l : list ascii) | ReaderStep (a : answer) | OwnerStep (c : call).

Definition arrive (l : list ascii) (s : console) : console :=
  on_hist (fun h => mk_history (edge h) (popped h) (fresh h ++ l) (marked h) (outcome h))
    (on_port (fun p => set_input (input p ++ l) p) s).

Definition step (e : event) (s : console) : option console :=
  match e with Arrive l => Some (arrive l s) | ReaderStep a => _reader_loop a s | OwnerStep c => owner_step c s end.

Fixpoint steps (es : list event) (s : console) : option console :=
  match es with [] => Some s | e :: es' => s' ← step e s; steps es' s' end.

Definition reachable (s : console) : Prop := exists es, steps es opened = Some s.

(** ** [open] *)

Module Opening.

Inductive action : Type :=
| OpenEvidence | OpenTxEvidence | MakeSerial | SetLineFormat | SetDtr (b : bool) | SetRts (b : bool)
| RequestExclusive | AssignPort | OpenPort | StartReader | CloseSerial | CloseEvidence | CloseTxEvidence.

Inductive open_error : Type := AlreadyOpen | CannotOpen | CannotStart.

(** The attributes [open] sets, and what was done in order. *)
Record opening : Type := mk_opening { evidence_fh : bool; tx_evidence_fh : bool; ser : bool; thread_started : bool; log : list action }.
Definition closed_console : opening := mk_opening false false false false [].

Section open.
(** The binding's line states; whether the backend has [exclusive]; which
    actions raise. *)
Variables (dtr rts has_exclusive : bool) (raises : action -> bool).

Abbreviation O := (method opening open_error).
Definition logged (a : action) (s : opening) : opening :=
  mk_opening (evidence_fh s) (tx_evidence_fh s) (ser s) (thread_started s) (log s ++ [a]).
Definition act (a : action) : O unit := assign (logged a);; check (negb (raises a)) CannotOpen.
Definition set_evidence (b : bool) (s : opening) : opening := mk_opening b (tx_evidence_fh s) (ser s) (thread_started s) (log s).
Definition set_tx (b : bool) (s : opening) : opening := mk_opening (evidence_fh s) b (ser s) (thread_started s) (log s).
Definition set_ser (b : bool) (s : opening) : opening := mk_opening (evidence_fh s) (tx_evidence_fh s) b (thread_started s) (log s).
Definition set_started (s : opening) : opening := mk_opening (evidence_fh s) (tx_evidence_fh s) (ser s) true (log s).

(** Closing never raises out of these helpers. *)
Definition _close_evidence_handles : O unit :=
  s ← self;
  (if evidence_fh s then assign (set_evidence false);; assign (logged CloseEvidence) else mret tt);;
  (if tx_evidence_fh s then assign (set_tx false);; assign (logged CloseTxEvidence) else mret tt).

(** The calls on the local [ser]. *)
Definition configure_and_open : O unit :=
  act SetLineFormat;;
  act (SetDtr dtr);;
  act (SetRts rts);;
  (if has_exclusive then act RequestExclusive else mret tt);;
  act AssignPort;;
  act OpenPort.

(** [try: m  except Exception: h; raise] *)
Definition try_or (m h : O unit) : O unit := fun s =>
  match m s with
  | (Ok u, s1) => (Ok u, s1)
  | (Err e, s1) => match h s1 with (Ok _, s2) => (Err e, s2) | (Err e', s2) => (Err e', s2) end
  end.

(** [except Exception] of the start of the reader. *)
Definition start_reader : O unit := fun s =>
  match act StartReader s with
  | (Ok _, s1) => (Ok tt, set_started s1)
  | (Err _, s1) => (assign (set_ser false);; assign (logged CloseSerial);; _close_evidence_handles;; raise CannotStart) s1
  end.

Definition open : O unit :=
  s ← self;
  check (negb (ser s)) AlreadyOpen;;
  try_or (act OpenEvidence;; assign (set_evidence true);;
          act OpenTxEvidence;; assign (set_tx true);;
          act MakeSerial;;
          try_or configure_and_open (assign (logged CloseSerial)))
         _close_evidence_handles;;
  assign (set_ser true);;
  start_reader.

(** [__init__]: other values than booleans are refused. *)
Definition modem_lines_ok (dtr rts : option bool) : bool := bool_decide (is_Some dtr) && bool_decide (is_Some rts).
End open.
End Opening.

(** ** Waits and commands *)

Module Client.

Inductive serial_error : Type :=
| NotOpen | TxEvidenceFailed | WriteFailed | ShortWrite | EmptyCommand | Cancelled | InvalidUtf8 | ReaderFailed | TimedOut
| OutOfTurns.

(** What happened before one observation of shared state: the chunks the
    reader received, whether it failed, whether the console was stopped; and
    what a clock reading and the caller's [cancel] answer there. *)
Record turn : Type := mk_turn { chunks : list (list ascii); fails : bool; stops : bool; now : Z; cancels : bool }.

Record client : Type := mk_client {
  w_frame : framing; w_failed : bool; w_stop : bool;
  w_tx : list ascii;               (** TX evidence *)
  w_sent : list ascii;             (** bytes given to the backend *)
  w_popped : list (list ascii);    (** lines taken off the queue *)
  w_turns : list turn }.

Abbreviation M := (method client serial_error).

Definition take_turn (t : turn) (ts : list turn) (c : client) : client :=
  mk_client (fold_left (fun f k => receive k f) (chunks t) (w_frame c)) (w_failed c || fails t) (w_stop c || stops t)
            (w_tx c) (w_sent c) (w_popped c) ts.
Definition observe : M turn :=
  c ← self;
  match w_turns c with
  | [] => raise OutOfTurns
  | t :: ts => assign (take_turn t ts);; mret t
  end.
Definition clock : M Z := t ← observe; mret (now t).
Definition observed {A} (f : client -> A) : M A := observe;; c ← self; mret (f c).
Definition has_decode_error (c : client) : bool := bool_decide (is_Some (decode_error (w_frame c))).

Definition set_w_frame (f : framing) (c : client) : client :=
  mk_client f (w_failed c) (w_stop c) (w_tx c) (w_sent c) (w_popped c) (w_turns c).
Definition popped_line (l : list ascii) (f : framing) (c : client) : client :=
  mk_client f (w_failed c) (w_stop c) (w_tx c) (w_sent c) (w_popped c ++ [l]) (w_turns c).
Definition sends (data : list ascii) (c : client) : client :=
  mk_client (w_frame c) (w_failed c) (w_stop c) (w_tx c) (w_sent c ++ data) (w_popped c) (w_turns c).
Definition retains (data : list ascii) (c : client) : client :=
  mk_client (w_frame c) (w_failed c) (w_stop c) (w_tx c ++ data) (w_sent c) (w_popped c) (w_turns c).

(** *** [next_line] *)

(** Every round observes, so the number of turns is enough fuel. *)
Fixpoint next_line_loop (fuel : nat) (deadline : Z) : M (option (list ascii)) :=
  match fuel with
  | O => raise OutOfTurns
  | S fuel =>
      c ← observed id;
      match pop_line (w_frame c) with
      | Some (l, f) => assign (popped_line l f);; mret (Some l)
      | None =>
          stopped ← observed w_stop;
          if stopped || w_failed c then mret None
          else
            t ← clock;
            if deadline - t <=? 0 then mret None else next_line_loop fuel deadline
      end
  end.
Definition with_fuel {A} (f : nat -> M A) : M A := c ← self; f (S (length (w_turns c))).
Definition next_line (timeout : Z) : M (option (list ascii)) :=
  t ← clock; with_fuel (fun fuel => next_line_loop fuel (t + timeout)).

(** [min(cap, max(0.0, deadline - self._clock()))] *)
Definition slice (cap deadline : Z) : M Z := t ← clock; mret (Z.min cap (Z.max 0 (deadline - t))).
Definition utf8_gate : M unit := bad ← observed has_decode_error; check (negb bad) InvalidUtf8.
(** [self._clock() >= deadline or self._stop.is_set()] *)
Definition over (deadline : Z) : M bool :=
  t ← clock;
  if deadline <=? t then mret true else observed w_stop.

(** *** [wait_line] *)

Fixpoint wait_line_loop (fuel : nat) (predicate : list ascii -> bool) (deadline : Z) : M (option (list ascii)) :=
  match fuel with
  | O => raise OutOfTurns
  | S fuel =>
      utf8_gate;;
      d ← slice 200000 deadline;
      line ← next_line d;
      utf8_gate;;
      match line with
      | None =>
          failed ← observed w_failed;
          check (negb failed) ReaderFailed;;
          expired ← over deadline;
          if expired : bool then mret None else wait_line_loop fuel predicate deadline
      | Some l => if predicate l then mret (Some l) else wait_line_loop fuel predicate deadline
      end
  end.
Definition wait_line (predicate : list ascii -> bool) (timeout : Z) : M (option (list ascii)) :=
  t ← clock; with_fuel (fun fuel => wait_line_loop fuel predicate (t + timeout)).

(** *** [write] *)

Section backend.
(** Whether the console is open, the evidence write succeeds, and what the
    backend's [write] returns ([None]: it raises). *)
Variables (is_open tx_ok : bool) (backend_write : list ascii -> option Z).

Definition write (data : list ascii) : M unit :=
  check is_open NotOpen;;
  check tx_ok TxEvidenceFailed;;
  assign (retains data);;
  match backend_write data with
  | None => raise WriteFailed
  | Some n => assign (sends (take (Z.to_nat n) data));; check (n =? Z.of_nat (length data)) ShortWrite
  end.

(** *** [command_receiver] *)

Definition poison (c : client) : client :=
  set_w_frame (mk_framing (partial (w_frame c)) (lines (w_frame c)) (line_seq (w_frame c))
                 (match decode_error (w_frame c) with None => Some Undecodable | e => e end)) c.

Definition _partial_prompt_text (prompt : list ascii) : M (option (list ascii)) :=
  f ← observed w_frame;
  match lines f with
  | _ :: _ => mret None
  | [] =>
      let raw := rstrip_cr (partial f) in
      match utf8_status raw with
      | Truncated => mret None
      | Malformed => observe;; assign poison;; mret None
      | Decoded =>
          let plain_text := strip_vt100 raw in
          mret (if ends_with prompt plain_text then Some plain_text else None)
      end
  end.

(** Python's ["\n".join]. *)
Fixpoint join_lines (ls : list (list ascii)) : list ascii :=
  match ls with [] => [] | [l] => l | l :: ls' => l ++ newline :: join_lines ls' end.

Definition cancel_gate (cancellable : bool) : M unit :=
  if cancellable then t ← observe; check (negb (cancels t)) Cancelled else mret tt.

Section command.
Variables (text prompt : list ascii) (cancellable : bool).
Definition echo : list ascii := prompt ++ text.

(** [if partial_prompt is not None: return ...] before [continue_]. *)
Definition partial_or (ls : list (list ascii)) (continue_ : M (list ascii)) : M (list ascii) :=
  p ← _partial_prompt_text prompt;
  match p with Some t => mret (join_lines (ls ++ [t])) | None => continue_ end.

Fixpoint command_loop (fuel : nat) (deadline : Z) (ls : list (list ascii)) (echo_seen : bool) : M (list ascii) :=
  match fuel with
  | O => raise OutOfTurns
  | S fuel =>
      cancel_gate cancellable;;
      utf8_gate;;
      d ← slice 100000 deadline;
      line ← next_line d;
      cancel_gate cancellable;;
      utf8_gate;;
      match line with
      | None =>
          failed ← observed w_failed;
          check (negb failed) ReaderFailed;;
          let timeout_check :=
            (expired ← over deadline;
             check (negb expired) TimedOut;;
             command_loop fuel deadline ls echo_seen) in
          if echo_seen then partial_or ls timeout_check else timeout_check
      | Some l =>
          let plain_line := strip_vt100 l in
          let ls := ls ++ [plain_line] in
          let echo_seen := echo_seen || ends_with echo plain_line in
          if echo_seen && ends_with prompt plain_line then mret (join_lines ls)
          else if echo_seen then partial_or ls (command_loop fuel deadline ls echo_seen)
          else command_loop fuel deadline ls echo_seen
      end
  end.

Definition command_receiver (timeout : Z) : M (list ascii) :=
  check (negb (bool_decide (text = []))) EmptyCommand;;
  write (text ++ [CR]);;
  t ← clock;
  with_fuel (fun fuel => command_loop fuel (t + timeout) [] false).
End command.
End backend.

(** *** [raw_text_since] *)

Definition REPLACEMENT : list ascii := ["239"; "191"; "189"]%char.
(** [decode("utf-8", errors="replace")]: one replacement character per
    maximal malformed part, as CPython resumes. *)
Fixpoint utf8_replace (l : list ascii) : list ascii :=
  match l with
  | [] => []
  | a :: l1 =>
      if code a <? 128 then a :: utf8_replace l1
      else if between 194 223 a then
        match l1 with
        | [] => REPLACEMENT
        | b :: l2 => if cont b then a :: b :: utf8_replace l2 else REPLACEMENT ++ utf8_replace l1
        end
      else if between 224 239 a then
        match l1 with
        | [] => REPLACEMENT
        | b :: l2 =>
            if negb (second_ok a b) then REPLACEMENT ++ utf8_replace l1
            else match l2 with
                 | [] => REPLACEMENT
                 | c :: l3 => if cont c then a :: b :: c :: utf8_replace l3 else REPLACEMENT ++ utf8_replace l2
                 end
        end
      else if between 240 244 a then
        match l1 with
        | [] => REPLACEMENT
        | b :: l2 =>
            if negb (second_ok a b) then REPLACEMENT ++ utf8_replace l1
            else match l2 with
                 | [] => REPLACEMENT
                 | c :: l3 =>
                     if negb (cont c) then REPLACEMENT ++ utf8_replace l2
                     else match l3 with
                          | [] => REPLACEMENT
                          | d :: l4 => if cont d then a :: b :: c :: d :: utf8_replace l4 else REPLACEMENT ++ utf8_replace l3
                          end
                 end
        end
      else REPLACEMENT ++ utf8_replace l1
  end.

(** [evidence]: the content of the file, [None] when it does not exist. *)
Definition raw_text_since (evidence : option (list ascii)) (offset : Z) : list ascii * bool :=
  match evidence with
  | None => ([], false)
  | Some content =>
      let offset := Z.max 0 (Z.min offset (Z.of_nat (length content))) in
      let raw := drop (Z.to_nat offset) content in
      (utf8_replace raw, match utf8_status raw with Decoded => false | _ => true end)
  end.
End Client.

(** ** Lemmas on framing *)

#[local] Opaque LINE_QUEUE_CAP.
#[local] Arguments Nat.leb : simpl never.
#[local] Arguments Z.leb : simpl never.
#[local] Arguments Z.min : simpl never.

Lemma take_line_None l : take_line l = None -> cut l = ([], l).
Proof.
  induction l as [|c l IH]; [done|]. simpl. destruct (Ascii.eqb c newline); [done|].
  destruct (take_line l) as [[u v]|]; [done|]. intros _. by rewrite IH.
Qed.

Lemma take_line_Some l raw rest :
  take_line l = Some (raw, rest) -> cut l = (raw :: (cut rest).1, (cut rest).2) /\ (length rest < length l)%nat.
Proof.
  revert raw. induction l as [|c l IH]; intros raw; [done|]. simpl. destruct (Ascii.eqb c newline).
  - intros [= <- <-]. destruct (cut l). split; [done | lia].
  - destruct (take_line l) as [[u v]|]; [|done]. intros [= <- <-]. destruct (IH u eq_refl) as [-> ?]. split; [done | lia].
Qed.

Lemma cut_app a b :
  cut (a ++ b) = match (cut b).1 with
                 | [] => ((cut a).1, (cut a).2 ++ (cut b).2)
                 | x :: xs => ((cut a).1 ++ ((cut a).2 ++ x) :: xs, (cut b).2)
                 end.
Proof.
  induction a as [|c a IH]; simpl; [by destruct (cut b) as [[|x xs] q]|].
  rewrite IH. destruct (cut a) as [ls p], (cut b) as [[|x xs] q]; simpl; destruct (Ascii.eqb c newline); simpl; try done;
    by destruct ls.
Qed.

(** What remains after a cut has no newline. *)
Lemma cut_fragment a : cut (cut a).2 = ([], (cut a).2).
Proof.
  induction a as [|c a IH]; [done|]. simpl. destruct (cut a) as [[|x xs] p]; simpl in *; destruct (Ascii.eqb c newline) eqn:Hc; simpl; try done.
  by rewrite IH, Hc.
Qed.

Definition publish_all (ls : list (list ascii)) (s : framing) : framing :=
  fold_left (fun s raw => publish_line (rstrip_cr raw) s) ls s.

Lemma publish_line_partial raw p s : publish_line raw (set_partial p s) = set_partial p (publish_line raw s).
Proof. unfold publish_line, first_error, set_partial. simpl. destruct (utf8_status raw); [destruct (LINE_QUEUE_CAP <=? length (lines s))%nat|..]; done. Qed.
Lemma publish_all_partial ls p s : publish_all ls (set_partial p s) = set_partial p (publish_all ls s).
Proof. revert s. induction ls as [|l ls IH]; intros s; [done|]. simpl. by rewrite publish_line_partial, IH. Qed.
Lemma publish_all_app ls ls' s : publish_all (ls ++ ls') s = publish_all ls' (publish_all ls s).
Proof. apply fold_left_app. Qed.
Lemma set_partial_id s : set_partial (partial s) s = s.
Proof. by destruct s. Qed.
Lemma publish_all_keeps_partial ls s : partial (publish_all ls s) = partial s.
Proof. rewrite <- (set_partial_id s), publish_all_partial at 1. done. Qed.

Lemma publish_loop_spec n s : (length (partial s) < n)%nat ->
  publish_loop n s = set_partial (cut (partial s)).2 (publish_all (cut (partial s)).1 s).
Proof.
  revert s. induction n as [|n IH]; intros s Hn; [lia|]. simpl.
  destruct (take_line (partial s)) as [[raw rest]|] eqn:Ht.
  - apply take_line_Some in Ht as [-> Hlen]. simpl.
    rewrite publish_line_partial, IH by (simpl; lia). simpl. by rewrite publish_all_partial.
  - apply take_line_None in Ht as ->. simpl. by destruct s.
Qed.

Lemma receive_spec chunk s :
  receive chunk s = set_partial (cut (partial s ++ chunk)).2 (publish_all (cut (partial s ++ chunk)).1 s).
Proof.
  unfold receive, _publish_lines_locked. rewrite publish_loop_spec by (simpl; lia). simpl. by rewrite publish_all_partial.
Qed.

(** The framing holds no newline between two transactions. *)
Definition settled (s : framing) : Prop := cut (partial s) = ([], partial s).

Lemma receive_settled chunk s : settled (receive chunk s).
Proof. unfold settled. rewrite receive_spec. simpl. apply cut_fragment. Qed.

Lemma receive_app a b s : receive b (receive a s) = receive (a ++ b) s.
Proof.
  rewrite (receive_spec b), (receive_spec a), (receive_spec (a ++ b)). simpl.
  rewrite publish_all_partial. unfold set_partial at 1 3. simpl. rewrite app_assoc, (cut_app (partial s ++ a) b), (cut_app (cut (partial s ++ a)).2 b).
  rewrite cut_fragment. simpl. destruct (cut b) as [[|x xs] q]; simpl; [done|]. by rewrite publish_all_app.
Qed.

Lemma receive_nil s : settled s -> receive [] s = s.
Proof. intros H. rewrite receive_spec, app_nil_r, H. apply set_partial_id. Qed.

(** Without a decode error every line was queued. *)
Lemma publish_line_None raw s : decode_error (publish_line raw s) = None ->
  decode_error s = None /\ utf8_status raw = Decoded
  /\ publish_line raw s = mk_framing (partial s) (lines s ++ [(line_seq s, raw)]) (line_seq s + 1) None.
Proof.
  unfold publish_line. destruct (utf8_status raw); [|done..]. destruct (LINE_QUEUE_CAP <=? length (lines s))%nat; [done|]. simpl. by intros ->.
Qed.

Lemma publish_all_None ls s : decode_error (publish_all ls s) = None ->
  decode_error s = None /\ (lines (publish_all ls s)).*2 = (lines s).*2 ++ (rstrip_cr <$> ls).
Proof.
  revert s. induction ls as [|l ls IH]; intros s; simpl; [by rewrite app_nil_r|].
  intros [Hd ->]%IH. apply publish_line_None in Hd as (Hs & _ & ->). simpl. by rewrite fmap_app, <- app_assoc.
Qed.

(** In any case the queue holds well-formed text, numbered without gaps. *)
Definition queue_ok (s : framing) : Prop :=
  Forall (fun l => utf8_valid l = true) (lines s).*2
  /\ (lines s).*1 = seqZ (line_seq s - Z.of_nat (length (lines s))) (Z.of_nat (length (lines s)))
  /\ (length (lines s) <= LINE_QUEUE_CAP)%nat.

Lemma seqZ_pop m n i l : i :: l = seqZ (m - (n + 1)) (n + 1) -> 0 <= n -> l = seqZ (m - n) n.
Proof.
  intros H Hn. rewrite seqZ_cons in H by lia. injection H as _ ->. f_equal; lia.
Qed.

Lemma publish_line_queue_ok raw s : queue_ok s -> queue_ok (publish_line raw s).
Proof.
  intros (Hv & Hs & Hc). unfold publish_line. destruct (utf8_status raw) eqn:Hu; [|done..].
  destruct (LINE_QUEUE_CAP <=? length (lines s))%nat eqn:Hle; [done|]. apply Nat.leb_gt in Hle. unfold queue_ok. simpl. rewrite !fmap_app, length_app. simpl. split_and!.
  - apply Forall_app. split; [done|]. apply Forall_singleton. by apply utf8_status_decoded.
  - rewrite Nat2Z.inj_add. simpl Z.of_nat. replace (line_seq s + 1 - _) with (line_seq s - Z.of_nat (length (lines s))) by lia.
    rewrite (seqZ_app _ (Z.of_nat (length (lines s))) 1) by lia. rewrite Hs. f_equal.
    rewrite seqZ_cons by lia. rewrite Z.sub_add. done.
  - lia.
Qed.

Lemma publish_all_queue_ok ls s : queue_ok s -> queue_ok (publish_all ls s).
Proof. revert s. induction ls as [|l ls IH]; intros s Hs; [done|]. simpl. by apply IH, publish_line_queue_ok. Qed.

(** ** The invariant of the two threads *)

(** The retained bytes since the edge, and the chunk a reader holds. *)
Definition since_edge (s : console) : list ascii :=
  take (Z.to_nat (bytes_received (rx s) - edge (hist s))) (drop (Z.to_nat (edge (hist s))) (evidence (rx s))).
Definition in_flight (s : console) : list ascii := match rpc s with RGot c => c | _ => [] end.

Definition reader_holds (pc : reader_pc) : bool := match pc with RHeld | RRead | RGot _ => true | _ => false end.
Definition reader_reads (pc : reader_pc) : bool := match pc with RRead | RGot _ => true | _ => false end.
Definition owner_holds (pc : owner_pc) : bool :=
  match pc with MarkHeld | MarkPurged | MarkCleared | CloseHeld | CloseStopped | CloseHeld2 _ => true | _ => false end.
Definition marking (pc : owner_pc) : bool := match pc with MarkHeld | MarkPurged | MarkCleared => true | _ => false end.
Definition closing (pc : owner_pc) : bool := match pc with Idle | MarkHeld | MarkPurged | MarkCleared => false | _ => true end.
(** In this state of [close] the reader has exited. *)
Definition exited (pc : owner_pc) : bool :=
  match pc with Joined false | CloseHeld2 false | CloseEvidence _ false => true | _ => false end.
(** In this state of [close] the descriptor has been closed, or not yet. *)
Definition port_state (pc : owner_pc) : option bool :=
  match pc with
  | Join d | CloseEvidence d _ => Some (negb d)
  | MarkHeld | MarkPurged | MarkCleared | CloseTop | CloseHeld | CloseStopped | Joined _ | CloseHeld2 _ => Some true
  | Idle => None
  end.

(** Gate, descriptor and evidence handles. *)
Record ownership_ok (s : console) : Prop := mk_ownership_ok {
  gate_iff : gate (ctl s) = if reader_holds (rpc s) then Some Reader else if owner_holds (opc s) then Some Owner else None;
  gate_one : reader_holds (rpc s) && owner_holds (opc s) = false;
  reads_owned : reader_reads (rpc s) = true -> owned (prt s) = true;
  closes_once : fd_closes (prt s) = if owned (prt s) then 0%nat else 1%nat;
  pc_port : forall b, port_state (opc s) = Some b -> owned (prt s) = b;
  stop_closed : stop (ctl s) = true -> closed (ctl s) = true;
  closing_closed : closing (opc s) = true -> closed (ctl s) = true;
  unowned_closed : owned (prt s) = false -> closed (ctl s) = true;
  exited_done : exited (opc s) = true -> rpc s = RDone;
  evidence_done : evidence_open (ctl s) = false -> rpc s = RDone }.

(** Counter, framing and history. *)
Record receipt_ok (s : console) : Prop := mk_receipt_ok {
  edge_bounds : 0 <= edge (hist s) <= bytes_received (rx s);
  count_le : bytes_received (rx s) <= Z.of_nat (length (evidence (rx s)));
  count_eq : read_error (rx s) <> Some EvidenceFailed -> bytes_received (rx s) = Z.of_nat (length (evidence (rx s)));
  failed_done : read_error (rx s) <> None -> rpc s = RDone;
  frame_partial : partial (frame (rx s)) = fragment (since_edge s);
  frame_lines : decode_error (frame (rx s)) = None ->
    popped (hist s) ++ (lines (frame (rx s))).*2 = text_lines (since_edge s);
  frame_queue : queue_ok (frame (rx s));
  fresh_bytes : read_error (rx s) <> Some EvidenceFailed ->
    fresh (hist s) = (if decide (opc s = MarkPurged) then [] else since_edge s ++ in_flight s) ++ input (prt s);
  marked_edge : forall o, marked (hist s) = Some o -> opc s <> MarkCleared -> edge (hist s) = o;
  cleared_edge : opc s = MarkCleared -> edge (hist s) = bytes_received (rx s) }.

Lemma opened_ownership_ok : ownership_ok opened.
Proof. by split. Qed.

(** Split a step into its cases. *)
Ltac step_cases H :=
  repeat match type of H with context [match ?x with _ => _ end] => destruct x eqn:?; try discriminate H end;
  try discriminate H; injection H as <-.

(** Finish a field of the invariant after a step. *)
Ltac field_tac :=
  intros; simpl in *; bool_to_prop;
  repeat match goal with
    | H : ?a = ?a -> _ |- _ => specialize (H eq_refl)
    | H : ?P -> _, H' : ?P |- _ => match type of P with Prop => specialize (H H') end
    end;
  try first [done | congruence | by auto | by destruct (owner_holds _) | by destruct (reader_holds _); destruct_or? | by repeat case_match; congruence].

Lemma reader_ownership_ok a s s' : ownership_ok s -> _reader_loop a s = Some s' -> ownership_ok s'.
Proof.
  intros Hok Hst. destruct s as [r p [g st cl rd ev] rp op h]. unfold _reader_loop in Hst. simpl in Hst.
  step_cases Hst; destruct Hok as [Hg H1 Hr Hc Hp Hs Hcc Hu He Hev]; split; field_tac.
Qed.

Lemma owner_ownership_ok c s s' : ownership_ok s -> owner_step c s = Some s' -> ownership_ok s'.
Proof.
  intros Hok Hst. destruct s as [r p [g st cl rd ev] rp op h]. unfold owner_step, mark_rx, close, drain_lines in Hst. simpl in Hst.
  step_cases Hst; destruct Hok as [Hg H1 Hr Hc Hp Hs Hcc Hu He Hev]; split; field_tac;
    try (by destruct rp; simpl in *; destruct_or?). simplify_eq. destruct (owned p); auto.
Qed.

Lemma step_ownership_ok e s s' : ownership_ok s -> step e s = Some s' -> ownership_ok s'.
Proof.
  destruct e; [|by apply reader_ownership_ok | by apply owner_ownership_ok]. intros [] Hst. injection Hst as <-. by split.
Qed.

(** *** Counter, framing and history *)

(** The receive transaction extends the bytes since the edge. *)
Lemma since_edge_receive n e (l k : list ascii) : 0 <= e <= n -> n = Z.of_nat (length l) ->
  take (Z.to_nat (n + Z.of_nat (length k) - e)) (drop (Z.to_nat e) (l ++ k)) = take (Z.to_nat (n - e)) (drop (Z.to_nat e) l) ++ k.
Proof.
  intros He ->. rewrite drop_app_le by lia. rewrite !take_ge; rewrite ?length_app, ?length_drop; try lia. done.
Qed.

Lemma fragment_app_frame u k s :
  partial s = fragment u -> partial (receive k s) = fragment (u ++ k)
  /\ forall ps, (decode_error s = None -> ps ++ (lines s).*2 = text_lines u) ->
     decode_error (receive k s) = None -> ps ++ (lines (receive k s)).*2 = text_lines (u ++ k).
Proof.
  intros Hp. rewrite receive_spec. unfold fragment, text_lines in *. simpl. rewrite Hp, !cut_app.
  rewrite cut_fragment. simpl. split; [by destruct (cut k) as [[|x xs] q]|].
  intros ps Hl [Hd ->]%publish_all_None. rewrite app_assoc, Hl by done.
  destruct (cut k) as [[|x xs] q]; simpl; [by rewrite app_nil_r | by rewrite fmap_app].
Qed.

Lemma receive_queue_ok k s : queue_ok s -> queue_ok (receive k s).
Proof. intros H. rewrite receive_spec. by apply (publish_all_queue_ok _ s). Qed.

Lemma opened_receipt_ok : receipt_ok opened.
Proof. split; simpl; try done. split_and!; [constructor | done | simpl; lia]. Qed.

(** Steps that touch neither the receive side nor the history. *)
Lemma receipt_ok_same s s' :
  rx s' = rx s -> input (prt s') = input (prt s) -> in_flight s' = in_flight s ->
  (edge (hist s'), popped (hist s'), fresh (hist s'), marked (hist s')) = (edge (hist s), popped (hist s), fresh (hist s), marked (hist s)) ->
  (opc s' = MarkPurged <-> opc s = MarkPurged) -> (opc s' = MarkCleared <-> opc s = MarkCleared) ->
  (read_error (rx s) <> None -> rpc s' = RDone) -> receipt_ok s -> receipt_ok s'.
Proof.
  intros Hr Hi Hf Hh Hp Hc Hd [He Hle Heq Hdone Hpart Hlines Hq Hfresh Hm Hce]. injection Hh as He' Hpop Hfr Hma.
  split; unfold since_edge; rewrite ?Hr, ?Hi, ?Hf, ?He', ?Hpop, ?Hfr, ?Hma; auto.
  - intros H. rewrite Hfresh by done. unfold since_edge. f_equal. by rewrite (decide_ext _ _ _ _ Hp).
  - intros o Ho Hn. apply Hm; [done|]. by rewrite <- Hc.
  - intros H. apply Hce. by apply Hc.
Qed.

Lemma in_flight_idle s : (forall c, rpc s <> RGot c) -> in_flight s = [].
Proof. unfold in_flight. destruct (rpc s); naive_solver. Qed.

(** While the reader is in the gate the owner is not in [mark_rx]. *)
Lemma reader_excludes_mark s : ownership_ok s -> reader_holds (rpc s) = true -> opc s <> MarkPurged /\ opc s <> MarkCleared.
Proof. intros Hok Hr. pose proof (gate_one s Hok) as H. rewrite Hr in H. by destruct (opc s). Qed.

Lemma receipt_ok_transaction chunk s :
  ownership_ok s -> receipt_ok s -> rpc s = RGot chunk ->
  receipt_ok (at_reader RTop (release_gate (on_rx (receive_transaction chunk) s))).
Proof.
  intros Hown [He Hle Heq Hdone Hpart Hlines Hq Hfresh Hm Hce] Hpc.
  destruct (reader_excludes_mark s Hown) as [Hp Hc]; [by rewrite Hpc|].
  assert (read_error (rx s) = None) as Hre by (destruct (read_error (rx s)); [by rewrite Hdone in Hpc|done]).
  specialize (Heq ltac:(by rewrite Hre)). specialize (Hfresh ltac:(by rewrite Hre)).
  assert (since_edge (at_reader RTop (release_gate (on_rx (receive_transaction chunk) s))) = since_edge s ++ chunk) as Hs
    by (by apply since_edge_receive).
  destruct (fragment_app_frame _ chunk _ Hpart) as [Hf1 Hf2].
  split; rewrite ?Hs; simpl; rewrite ?length_app, ?Nat2Z.inj_add; try lia; auto.
  - by rewrite Hre.
  - by apply receive_queue_ok.
  - intros _. rewrite Hfresh. rewrite !decide_False by done. unfold in_flight. simpl. rewrite Hpc. by rewrite app_nil_r.
  - done.
Qed.

Lemma receipt_ok_read n s :
  ownership_ok s -> receipt_ok s -> rpc s = RRead ->
  receipt_ok (at_reader (RGot (take n (input (prt s)))) (on_port (set_input (drop n (input (prt s)))) s)).
Proof.
  intros Hown [He Hle Heq Hdone Hpart Hlines Hq Hfresh Hm Hce] Hpc.
  destruct (reader_excludes_mark s Hown) as [Hp Hc]; [by rewrite Hpc|].
  split; simpl; auto.
  - intros H. by rewrite Hdone in Hpc.
  - intros H. rewrite Hfresh by done. rewrite !decide_False by done. unfold in_flight. rewrite Hpc. simpl.
    rewrite app_nil_r, <- app_assoc, take_drop. done.
Qed.

(** The first failure leaves everything that was received in place. *)
Lemma receipt_ok_failed e l s :
  ownership_ok s -> receipt_ok s -> reader_reads (rpc s) = true -> (e = BackendFailed -> l = [] /\ rpc s = RRead) ->
  receipt_ok (at_reader RDone (release_gate (on_rx (fun r => fail_read e (append_evidence l r)) s))).
Proof.
  intros Hown [He Hle Heq Hdone Hpart Hlines Hq Hfresh Hm Hce] Hpc Hl.
  assert (rpc s <> RDone) as Hnd by by destruct (rpc s).
  assert (read_error (rx s) = None) as Hre by (destruct (read_error (rx s)); [by rewrite Hdone in Hnd|done]).
  specialize (Heq ltac:(by rewrite Hre)). specialize (Hfresh ltac:(by rewrite Hre)).
  destruct (reader_excludes_mark s Hown) as [Hp Hc]; [by destruct (rpc s)|].
  assert (since_edge (at_reader RDone (release_gate (on_rx (fun r => fail_read e (append_evidence l r)) s))) = since_edge s) as Hs.
  { unfold since_edge. simpl. rewrite drop_app_le by lia. rewrite take_app_le by (rewrite length_drop; lia). done. }
  split; rewrite ?Hs; simpl; rewrite ?length_app, ?Nat2Z.inj_add; try lia; auto.
  - intros Hee. destruct e; [|done]. destruct Hl as [-> _]; [done|]. simpl. lia.
  - intros Hee. destruct e; [|done]. destruct Hl as [-> Hpc']; [done|]. rewrite Hfresh. unfold in_flight. simpl. by rewrite Hpc'.
Qed.

Lemma reader_receipt_ok a s s' : ownership_ok s -> receipt_ok s -> _reader_loop a s = Some s' -> receipt_ok s'.
Proof.
  intros Hown Hok Hst. pose proof (failed_done s Hok) as Hd. unfold _reader_loop in Hst.
  destruct (rpc s) as [| | | | |chunk|] eqn:Hpc, a as [|n| |n]; try discriminate Hst;
    assert (read_error (rx s) <> None -> False) as Hno by (by intros H%Hd).
  1,2: injection Hst as <-; apply (receipt_ok_same s); try done; unfold in_flight; rewrite Hpc; simpl; by destruct (stop (ctl s)).
  - destruct (gate (ctl s)); [done|]. injection Hst as <-. apply (receipt_ok_same s); try done. unfold in_flight; by rewrite Hpc.
  - destruct (stop (ctl s) || negb (owned (prt s))); injection Hst as <-; (apply (receipt_ok_same s); try done); unfold in_flight; by rewrite Hpc.
  - destruct (Z.of_nat n <=? _); [|done]. destruct n as [|n]; injection Hst as <-; [|by apply receipt_ok_read].
    apply (receipt_ok_same s); try done. unfold in_flight; by rewrite Hpc.
  - pose proof (reads_owned s Hown ltac:(by rewrite Hpc)) as Ho. rewrite Ho, andb_false_r in Hst. injection Hst as <-.
    assert (on_rx (fun r => fail_read BackendFailed (append_evidence [] r)) s = on_rx (fail_read BackendFailed) s) as <-
      by by unfold on_rx, fail_read, append_evidence; simpl; rewrite app_nil_r.
    apply receipt_ok_failed; try done. by rewrite Hpc.
  - destruct (evidence_open (ctl s)) eqn:Hev; injection Hst as <-; [by apply receipt_ok_transaction|].
    pose proof (evidence_done s Hown Hev). by rewrite Hpc in *.
  - injection Hst as <-. apply receipt_ok_failed; try done. by rewrite Hpc.
Qed.

Lemma pop_receipt_ok ls f s :
  receipt_ok s -> (lines (frame (rx s))).*2 = ls ++ (lines f).*2 -> partial f = partial (frame (rx s)) ->
  decode_error f = decode_error (frame (rx s)) -> queue_ok f ->
  receipt_ok (on_hist (pop_history ls) (on_rx (set_frame f) s)).
Proof.
  intros [He Hle Heq Hdone Hpart Hlines Hq Hfresh Hm Hce] Hl Hp Hd Hq'. split; simpl; auto; try done.
  - by rewrite Hp.
  - rewrite Hd. intros H. specialize (Hlines H). rewrite Hl in Hlines. by rewrite <- app_assoc.
Qed.

(** The owner in the gate: the reader holds no chunk. *)
Lemma owner_no_flight s : ownership_ok s -> owner_holds (opc s) = true -> in_flight s = [].
Proof. intros Hok Ho. pose proof (gate_one s Hok) as H. rewrite Ho, andb_true_r in H. unfold in_flight. by destruct (rpc s). Qed.

Lemma queue_ok_pop i l ls p n d d' : queue_ok (mk_framing p ((i, l) :: ls) n d) -> queue_ok (mk_framing p ls n d').
Proof.
  unfold queue_ok. simpl. intros (Hv & Hs & Hc). split_and!; [by inversion Hv | | lia].
  rewrite Nat2Z.inj_succ, <- Z.add_1_r in Hs. eapply seqZ_pop; [exact Hs | lia].
Qed.

Lemma mark_receipt_ok c s s' : ownership_ok s -> receipt_ok s -> mark_rx c s = Some s' -> receipt_ok s'.
Proof.
  intros Hown Hok Hst. unfold mark_rx in Hst.
  destruct (opc s) eqn:Hpc, c as [| | |ok| | | | | | | | | |]; try discriminate Hst.
  - destruct (owned (prt s)); [|by injection Hst as <-]. destruct (gate (ctl s)); [done|]. injection Hst as <-.
    apply (receipt_ok_same s); try done; [by rewrite Hpc | by rewrite Hpc | apply (failed_done s Hok)].
  - pose proof (owner_no_flight s Hown ltac:(by rewrite Hpc)) as Hf.
    destruct ok; injection Hst as <-; [|apply (receipt_ok_same s); try done; [by rewrite Hpc | by rewrite Hpc | apply (failed_done s Hok)]].
    destruct Hok as [He Hle Heq Hdone Hpart Hlines Hq Hfresh Hm Hce]. split; simpl; auto; try done.
    intros o Ho _. apply Hm; [done | by rewrite Hpc].
  - injection Hst as <-. pose proof (owner_no_flight s Hown ltac:(by rewrite Hpc)) as Hf.
    destruct Hok as [He Hle Heq Hdone Hpart Hlines Hq Hfresh Hm Hce].
    assert (forall q, take (Z.to_nat (bytes_received (rx s) - bytes_received (rx s))) q = @nil ascii) as H0 by (intros q; by rewrite Z.sub_diag).
    split; simpl; auto; unfold since_edge; simpl; rewrite ?H0; try done; [lia | | ].
    + split_and!; [constructor | simpl; by rewrite Z.sub_0_r | simpl; lia].
    + intros H. rewrite Hfresh by done. rewrite decide_True by done. unfold in_flight in *. simpl. by rewrite Hf.
  - injection Hst as <-. pose proof (owner_no_flight s Hown ltac:(by rewrite Hpc)) as Hf. pose proof (cleared_edge s Hok Hpc) as Hedge.
    destruct Hok as [He Hle Heq Hdone Hpart Hlines Hq Hfresh Hm Hce]. split; simpl; auto; try done.
    + intros H. rewrite Hfresh by done. rewrite Hpc. done.
    + by intros o [= <-] _.
Qed.

Lemma close_receipt_ok c s s' : ownership_ok s -> receipt_ok s -> close c s = Some s' -> receipt_ok s'.
Proof.
  intros Hown Hok Hst. unfold close in Hst.
  destruct (opc s) eqn:Hpc, c; try discriminate Hst;
    repeat match type of Hst with context [match ?x with _ => _ end] => destruct x eqn:?; try discriminate Hst end;
    injection Hst as <-; try done;
    (apply (receipt_ok_same s); [done.. | by rewrite Hpc | by rewrite Hpc | apply (failed_done s Hok) | done]).
Qed.

Lemma owner_receipt_ok c s s' : ownership_ok s -> receipt_ok s -> owner_step c s = Some s' -> receipt_ok s'.
Proof.
  intros Hown Hok Hst. pose proof (frame_queue s Hok) as Hq.
  assert (mark_rx c s = Some s' \/ close c s = Some s' \/ opc s = Idle /\ (c = NextLine \/ c = DrainLines)) as [H|[H|[Hpc Hc]]]
    by (unfold owner_step in Hst; destruct (opc s), c; auto);
    [by eapply mark_receipt_ok | by eapply close_receipt_ok|].
  unfold owner_step in Hst. rewrite Hpc in Hst. destruct (frame (rx s)) as [p [|[i l] ls] n d] eqn:Hf; simpl in Hq.
  - destruct Hc as [-> | ->]; simpl in Hst; injection Hst as <-; [done|].
    apply pop_receipt_ok; rewrite ?Hf; done.
  - destruct Hc as [-> | ->]; simpl in Hst; injection Hst as <-; apply pop_receipt_ok; rewrite ?Hf; simpl; try done;
      [by eapply queue_ok_pop | by rewrite app_nil_r|].
    split_and!; [constructor | simpl; by rewrite Z.sub_0_r | simpl; lia].
Qed.

Lemma step_receipt_ok e s s' : ownership_ok s -> receipt_ok s -> step e s = Some s' -> receipt_ok s'.
Proof.
  intros Hown. destruct e as [l|a|c]; [|by apply reader_receipt_ok | by apply owner_receipt_ok].
  intros [He Hle Heq Hdone Hpart Hlines Hq Hfresh Hm Hce] Hst. injection Hst as <-. split; simpl; auto.
  intros H. rewrite Hfresh by done. by rewrite app_assoc.
Qed.

Theorem steps_ok es s s' : ownership_ok s -> receipt_ok s -> steps es s = Some s' -> ownership_ok s' /\ receipt_ok s'.
Proof.
  revert s. induction es as [|e es IH]; intros s Hown Hok; simpl; [by intros [= <-]|].
  destruct (step e s) as [s1|] eqn:Hst; [|done]. apply IH; [by eapply step_ownership_ok | by eapply step_receipt_ok].
Qed.

Lemma reachable_ok s : reachable s -> ownership_ok s /\ receipt_ok s.
Proof. intros [es Hes]. eapply steps_ok; [apply opened_ownership_ok | apply opened_receipt_ok | exact Hes]. Qed.

(** ** The reader stops *)

(** Reader steps left once [stop] is set. *)
Definition rank (pc : reader_pc) : nat :=
  match pc with RDone => 0 | RTop | RHeld => 1 | RStart | RGate | RGot _ => 2 | RRead => 3 end%nat.
Definition is_reader_step (e : event) : bool := match e with ReaderStep _ => true | _ => false end.

Lemma owner_keeps_stop c s s' : owner_step c s = Some s' -> rpc s' = rpc s /\ (stop (ctl s) = true -> stop (ctl s') = true).
Proof.
  intros Hst. destruct s as [r p [g st cl rd ev] rp op h]. unfold owner_step, mark_rx, close, drain_lines in Hst. simpl in Hst.
  step_cases Hst; done.
Qed.

Lemma reader_keeps_stop a s s' : _reader_loop a s = Some s' -> stop (ctl s) = true ->
  stop (ctl s') = true /\ (rank (rpc s') < rank (rpc s))%nat.
Proof.
  intros Hst Hs. destruct s as [r p [g st cl rd ev] rp op h]. simpl in Hs. subst st. unfold _reader_loop in Hst. simpl in Hst.
  step_cases Hst; simpl in *; try done; split; try done; lia.
Qed.

Lemma stop_persists e s s' : step e s = Some s' -> stop (ctl s) = true -> stop (ctl s') = true.
Proof.
  destruct e; simpl; [by intros [= <-] | by intros H ?; eapply reader_keeps_stop | by intros [_ H]%owner_keeps_stop].
Qed.

Lemma stopped_rank es s s' : steps es s = Some s' -> stop (ctl s) = true ->
  (count is_reader_step es + rank (rpc s') <= rank (rpc s))%nat.
Proof.
  revert s. induction es as [|e es IH]; intros s; simpl; [by intros [= <-]|].
  destruct (step e s) as [s1|] eqn:Hst; simpl; [|done]. intros Hes Hs.
  specialize (IH s1 Hes (stop_persists _ _ _ Hst Hs)).
  destruct e as [l|a|c]; simpl in Hst; unfold count in *; simpl.
  - injection Hst as <-. done.
  - destruct (reader_keeps_stop a s s1 Hst Hs). lia.
  - destruct (owner_keeps_stop c s s1 Hst) as [<- _]. done.
Qed.

(** ** Lemmas on the client *)

(** [m] leaves the queue history and what was sent alone. *)
Definition same_io (c c' : Client.client) : Prop :=
  Client.w_tx c' = Client.w_tx c /\ Client.w_sent c' = Client.w_sent c /\ Client.w_popped c' = Client.w_popped c.
#[global] Instance same_io_preorder : PreOrder same_io.
Proof. split; [by intros c | intros a b c (? & ? & ?) (? & ? & ?); split_and!; congruence]. Qed.

Lemma observe_same : keeps same_io Client.observe.
Proof. intros c. unfold Client.observe. rewrite run_bind. simpl. by destruct (Client.w_turns c). Qed.
#[export] Hint Resolve observe_same : keeps.

Lemma observed_same {A} (f : Client.client -> A) : keeps same_io (Client.observed f).
Proof. unfold Client.observed. eauto with keeps typeclass_instances. Qed.
Lemma clock_same : keeps same_io Client.clock.
Proof. unfold Client.clock. eauto with keeps typeclass_instances. Qed.
#[export] Hint Resolve @observed_same clock_same : keeps.
Lemma slice_same cap d : keeps same_io (Client.slice cap d).
Proof. unfold Client.slice. eauto with keeps typeclass_instances. Qed.
Lemma utf8_gate_same : keeps same_io Client.utf8_gate.
Proof. unfold Client.utf8_gate. eauto with keeps typeclass_instances. Qed.
Lemma over_same d : keeps same_io (Client.over d).
Proof. unfold Client.over. apply keeps_bind; [apply _ | eauto with keeps|]. intros t. destruct (d <=? t); eauto with keeps typeclass_instances. Qed.
Lemma cancel_gate_same b : keeps same_io (Client.cancel_gate b).
Proof. unfold Client.cancel_gate. destruct b; eauto with keeps typeclass_instances. Qed.
Lemma partial_prompt_same prompt : keeps same_io (Client._partial_prompt_text prompt).
Proof.
  unfold Client._partial_prompt_text. apply keeps_bind; [apply _ | eauto with keeps|]. intros f.
  destruct (lines f); [|eauto with keeps typeclass_instances]. destruct (utf8_status _); eauto with keeps typeclass_instances.
  apply keeps_bind; [apply _ | eauto with keeps|]. intros t. apply keeps_bind; [apply _ | by intros c | eauto with keeps typeclass_instances].
Qed.
#[export] Hint Resolve slice_same utf8_gate_same over_same cancel_gate_same partial_prompt_same : keeps.

Lemma keeps_run {A} (m : Client.M A) c r c' : keeps same_io m -> m c = (r, c') -> same_io c c'.
Proof. intros Hm H. specialize (Hm c). by rewrite H in Hm. Qed.

(** [next_line] moves at most the line it returns. *)
Lemma next_line_loop_effect fuel d c o c' : Client.next_line_loop fuel d c = (Ok o, c') ->
  Client.w_tx c' = Client.w_tx c /\ Client.w_sent c' = Client.w_sent c /\ Client.w_popped c' = Client.w_popped c ++ option_list o.
Proof.
  revert c. induction fuel as [|fuel IH]; intros c; [done|]. cbn [Client.next_line_loop].
  intros (c1 & s1 & H1 & H)%bind_run_Ok. apply keeps_run in H1 as (Ht & Hs & Hp); [|eauto with keeps].
  destruct (pop_line (Client.w_frame c1)) as [[l f]|].
  - injection H as <- <-. simpl. by rewrite Ht, Hs, Hp.
  - apply bind_run_Ok in H as (b & s2 & H2 & H). apply keeps_run in H2 as (Ht2 & Hs2 & Hp2); [|eauto with keeps].
    destruct (b || Client.w_failed c1).
    + injection H as <- <-. simpl. rewrite app_nil_r. split_and!; congruence.
    + apply bind_run_Ok in H as (t & s3 & H3 & H). apply keeps_run in H3 as (Ht3 & Hs3 & Hp3); [|eauto with keeps].
      destruct (d - t <=? 0).
      * injection H as <- <-. simpl. rewrite app_nil_r. split_and!; congruence.
      * apply IH in H as (? & ? & ?). split_and!; congruence.
Qed.

Lemma next_line_effect d c o c' : Client.next_line d c = (Ok o, c') ->
  Client.w_tx c' = Client.w_tx c /\ Client.w_sent c' = Client.w_sent c /\ Client.w_popped c' = Client.w_popped c ++ option_list o.
Proof.
  unfold Client.next_line, Client.with_fuel. intros (t & s1 & H1 & H)%bind_run_Ok.
  apply keeps_run in H1 as (Ht & Hs & Hp); [|eauto with keeps].
  apply bind_run_Ok in H as (c2 & s2 & H2 & H). injection H2 as <- <-.
  apply next_line_loop_effect in H as (? & ? & ?). split_and!; congruence.
Qed.

Lemma ends_with_spec s t : ends_with s t = true <-> exists u, t = u ++ s.
Proof.
  unfold ends_with. rewrite bool_decide_eq_true. split.
  - intros H. exists (take (length t - length s) t). by rewrite <- H at 2; rewrite take_drop.
  - intros [u ->]. rewrite length_app. replace (length u + length s - length s)%nat with (length u) by lia. apply drop_app_length.
Qed.

Lemma join_lines_last ls x : exists u, Client.join_lines (ls ++ [x]) = u ++ x.
Proof.
  induction ls as [|l ls [u IH]]; [by exists []|]. destruct ls as [|l' ls]; simpl in *; [by exists (l ++ [newline]); rewrite <- app_assoc|].
  exists (l ++ newline :: u). rewrite IH, <- app_assoc. done.
Qed.

(** What a transcript is made of: the lines taken, without their terminal
    controls, and at most the decoded fragment with the prompt. *)
Definition transcript (prompt text : list ascii) (ls : list (list ascii)) (seen : bool) (taken : list (list ascii)) (t : list ascii) : Prop :=
  exists fin, t = Client.join_lines (ls ++ (strip_vt100 <$> taken) ++ fin) /\ (length fin <= 1)%nat
    /\ (seen = true \/ exists l, l ∈ taken /\ ends_with (prompt ++ text) (strip_vt100 l) = true)
    /\ exists front z, ls ++ (strip_vt100 <$> taken) ++ fin = front ++ [z] /\ ends_with prompt z = true.

Lemma partial_or_Ok prompt ls k c t c' : Client.partial_or prompt ls k c = (Ok t, c') ->
  (exists p, ends_with prompt p = true /\ t = Client.join_lines (ls ++ [p]) /\ same_io c c')
  \/ exists c1, same_io c c1 /\ k c1 = (Ok t, c').
Proof.
  unfold Client.partial_or. intros (o & c1 & H1 & H)%bind_run_Ok. pose proof (keeps_run _ _ _ _ (partial_prompt_same prompt) H1) as Hs.
  destruct o as [p|]; [|by right; exists c1].
  injection H as <- <-. left. exists p. split_and!; [|done..]. unfold Client._partial_prompt_text in H1.
  apply bind_run_Ok in H1 as (f & c2 & _ & H1). destruct (lines f); [|done]. destruct (utf8_status _); [|done|].
  - destruct (ends_with prompt _) eqn:He; [|done]. by injection H1 as <- <-.
  - apply bind_run_Ok in H1 as (? & ? & _ & H1). by apply bind_run_Ok in H1 as (? & ? & _ & H1).
Qed.

Lemma transcript_step prompt text ls seen l taken t :
  transcript prompt text (ls ++ [strip_vt100 l]) (seen || ends_with (prompt ++ text) (strip_vt100 l)) taken t ->
  transcript prompt text ls seen (l :: taken) t.
Proof.
  intros (fin & -> & Hf & Hseen & front & z & Hz & Hp). rewrite <- app_assoc in Hz. exists fin.
  split_and!; [by rewrite <- app_assoc | done | | by exists front, z].
  destruct Hseen as [[Hs|Hs]%orb_true_iff|(l' & Hl & He)]; [by left | right; exists l; split; [left | done] | right; exists l'; split; [by right | done]].
Qed.

(** Step over a part that leaves the history alone. *)
Tactic Notation "quiet" hyp(H) ident(a) ident(c) ident(Hs) :=
  apply bind_run_Ok in H as (a & c & Hs & H); apply keeps_run in Hs; [|by eauto with keeps].

Section command_loop.
Context (text prompt : list ascii) (cancellable : bool).
Abbreviation loop := (Client.command_loop text prompt cancellable).
(** What a successful rest of the loop amounts to. *)
Definition loop_ok (ls : list (list ascii)) (seen : bool) (c : Client.client) (t : list ascii) (c' : Client.client) : Prop :=
  exists taken, Client.w_tx c' = Client.w_tx c /\ Client.w_sent c' = Client.w_sent c
    /\ Client.w_popped c' = Client.w_popped c ++ taken /\ transcript prompt text ls seen taken t.

Lemma loop_ok_same ls seen c c1 t c' : same_io c c1 -> loop_ok ls seen c1 t c' -> loop_ok ls seen c t c'.
Proof. intros (? & ? & ?) (taken & ? & ? & ? & ?). exists taken. split_and!; congruence || done. Qed.

(** A transcript that ends here, with the fragment as its last piece. *)
Lemma loop_ok_partial ls c c' p : same_io c c' -> ends_with prompt p = true -> loop_ok ls true c (Client.join_lines (ls ++ [p])) c'.
Proof.
  intros (? & ? & ?) Hp. exists []. rewrite app_nil_r. split_and!; [done..|]. exists [p]. simpl.
  split_and!; [done | lia | by left | by exists ls, p].
Qed.

(** One line was taken before. *)
Lemma loop_ok_line ls seen l c c1 t c' :
  Client.w_tx c1 = Client.w_tx c -> Client.w_sent c1 = Client.w_sent c -> Client.w_popped c1 = Client.w_popped c ++ [l] ->
  loop_ok (ls ++ [strip_vt100 l]) (seen || ends_with (prompt ++ text) (strip_vt100 l)) c1 t c' -> loop_ok ls seen c t c'.
Proof.
  intros Ht Hs Hp (taken & ? & ? & Hpop & Htr). exists (l :: taken). rewrite Hp, <- app_assoc in Hpop. simpl in Hpop.
  split_and!; [congruence.. | by apply transcript_step].
Qed.

Lemma command_loop_Ok fuel d ls seen c t c' : loop fuel d ls seen c = (Ok t, c') -> loop_ok ls seen c t c'.
Proof.
  revert ls seen c. induction fuel as [|fuel IH]; intros ls seen c; [done|]. cbn [Client.command_loop]. intros H.
  quiet H u1 c1 H1. quiet H u2 c2 H2. quiet H s c3 H3. apply bind_run_Ok in H as (o & c4 & Hn & H).
  apply next_line_effect in Hn as (Ht & Hs & Hp). quiet H u5 c5 H5. quiet H u6 c6 H6.
  apply (loop_ok_same _ _ _ c3); [by do 2 (etrans; [eassumption|])|]. assert (same_io c4 c6) as H46 by by etrans.
  destruct o as [l|]; simpl in Hp.
  - apply (loop_ok_line _ _ l _ c4); [done..|]. apply (loop_ok_same _ _ _ c6); [done|].
    change (Client.echo text prompt) with (prompt ++ text) in H.
    destruct (seen || ends_with (prompt ++ text) (strip_vt100 l)); simpl in H; [|by apply IH in H].
    destruct (ends_with prompt (strip_vt100 l)) eqn:He.
    + injection H as <- <-. exists []. rewrite app_nil_r. split_and!; [done..|]. exists []. rewrite !app_nil_r.
      split_and!; [done | simpl; lia | by left | by exists ls, (strip_vt100 l)].
    + apply partial_or_Ok in H as [(p & Hend & -> & Hsm)|(c7 & Hsm & H)]; [by apply loop_ok_partial|].
      apply IH in H. by eapply loop_ok_same.
  - rewrite app_nil_r in Hp. apply (loop_ok_same _ _ _ c4); [done|]. apply (loop_ok_same _ _ _ c6); [done|].
    quiet H failed c7 H7. quiet H u8 c8 H8. apply (loop_ok_same _ _ _ c8); [by etrans|].
    assert (forall k, (expired ← Client.over d; check (negb expired) Client.TimedOut;; loop fuel d ls seen) k = (Ok t, c') ->
                      loop_ok ls seen k t c') as Hrest.
    { intros k H'. quiet H' e k1 Hk1. quiet H' u k2 Hk2. apply IH in H'. eapply loop_ok_same; [|exact H']. by etrans. }
    destruct seen; [|by apply Hrest].
    apply partial_or_Ok in H as [(p & Hend & -> & Hsm)|(c9 & Hsm & H)]; [by apply loop_ok_partial|].
    apply Hrest in H. by eapply loop_ok_same.
Qed.
End command_loop.

(** ** Lemmas on terminal controls and replacement *)

(** A complete control sequence: parameters, intermediates, final byte. *)
Definition is_csi (params intermediates : list ascii) (final : ascii) : Prop :=
  forallb (between 48 63) params = true /\ forallb (between 32 47) intermediates = true /\ between 64 126 final = true.

(** Shown text, and what is only presentation. *)
Inductive piece : Type := Shown (text : list ascii) | Csi (params intermediates : list ascii) (final : ascii).
Definition render (p : piece) : list ascii :=
  match p with Shown t => t | Csi ps ints f => [ESC; "["%char] ++ ps ++ ints ++ [f] end.
Definition shown (p : piece) : list ascii := match p with Shown t => t | Csi _ _ _ => [] end.
Definition piece_ok (p : piece) : Prop :=
  match p with Shown t => ESC ∉ t | Csi ps ints f => is_csi ps ints f end.

Lemma class_stops (p q : ascii -> bool) f u v : (forall c, q c = true -> p c = false) -> forallb q u = true -> p f = false ->
  match u ++ f :: v with c :: _ => p c = false | [] => True end.
Proof. intros Hpq Hu Hf. destruct u as [|c u]; simpl in *; [done|]. apply andb_true_iff in Hu as [Hc _]. auto. Qed.

Lemma between_disjoint lo hi lo' hi' c : between lo hi c = true -> hi < lo' \/ hi' < lo -> between lo' hi' c = false.
Proof. rewrite between_code. intros H Hd. apply not_true_iff_false. rewrite between_code. lia. Qed.

Lemma match_csi b ps ints f v : is_csi ps ints f ->
  match_at VT100_CSI_RE (mk_pos b ([ESC; "["%char] ++ ps ++ ints ++ [f] ++ v) []) = Some (mk_pos (Some f) v []).
Proof.
  intros (Hps & His & Hf). unfold match_at, VT100_CSI_RE, Chr. cbn [run rest app]. rewrite Ascii.eqb_refl. unfold advance. cbn [run rest groups].
  rewrite Ascii.eqb_refl.
  apply (run_Star _ ps _ (ints ++ f :: v) _ (fun st' => run (Star _) st' _)); [done | |].
  - apply (class_stops _ (between 32 47)); [|done|]; [intros c Hc; eapply between_disjoint; [exact Hc | lia] | eapply between_disjoint; [exact Hf | lia]].
  - apply (run_Star _ ints _ (f :: v) _ (fun st' => run (Cls _) st' _)); [done | eapply between_disjoint; [exact Hf | lia]|].
    cbn [run rest]. by rewrite Hf.
Qed.

Lemma match_not_esc b c v : c <> ESC -> match_at VT100_CSI_RE (mk_pos b (c :: v) []) = None.
Proof. intros Hc. unfold match_at, VT100_CSI_RE, Chr. cbn [run rest]. destruct (Ascii.eqb_spec ESC c); [by subst | done]. Qed.

Lemma strip_loop_csi n b ps ints f v : is_csi ps ints f -> (length (render (Csi ps ints f) ++ v) < n)%nat ->
  remove_loop n VT100_CSI_RE b (render (Csi ps ints f) ++ v) = remove_loop (pred n) VT100_CSI_RE (Some f) v.
Proof.
  intros Hc Hn. destruct n as [|n]; [lia|]. cbn [remove_loop pred].
  replace (render (Csi ps ints f) ++ v) with ([ESC; "["%char] ++ ps ++ ints ++ [f] ++ v) in * by (simpl; by rewrite <- !app_assoc).
  rewrite match_csi by done. cbn [rest before].
  rewrite (proj2 (Nat.ltb_lt (length v) _)); [done|]. rewrite !length_app. simpl. lia.
Qed.

Lemma strip_loop_shown n b t v : ESC ∉ t -> (length (t ++ v) < n)%nat ->
  exists b', remove_loop n VT100_CSI_RE b (t ++ v) = t ++ remove_loop (n - length t) VT100_CSI_RE b' v.
Proof.
  revert n b. induction t as [|c t IH]; intros n b Ht Hn; [exists b; simpl; by rewrite Nat.sub_0_r|].
  apply not_elem_of_cons in Ht as [Hc Ht]. destruct n as [|n]; [simpl in *; lia|]. cbn [remove_loop app].
  rewrite match_not_esc by done. simpl in Hn. destruct (IH n (Some c) Ht ltac:(lia)) as [b' ->]. by exists b'.
Qed.

Lemma strip_pieces ps n b : Forall piece_ok ps -> (length (concat (render <$> ps)) < n)%nat ->
  remove_loop n VT100_CSI_RE b (concat (render <$> ps)) = concat (shown <$> ps).
Proof.
  intros Hps. revert n b. induction Hps as [|p ps Hp Hps IH]; intros n b Hn; [by destruct n|].
  rewrite fmap_cons in *. simpl concat in *. destruct p as [t|params ints f]; simpl shown.
  - change (render (Shown t)) with t in *. destruct (strip_loop_shown n b t (concat (render <$> ps)) Hp Hn) as [b' ->]. f_equal. apply IH. rewrite length_app in Hn. lia.
  - rewrite strip_loop_csi by done. simpl app at 1. apply IH. rewrite length_app in Hn. unfold render in Hn at 1. simpl in Hn. lia.
Qed.

Lemma replacement_app l : utf8_status (Client.REPLACEMENT ++ l) = utf8_status l.
Proof. done. Qed.

Lemma replace_decoded l : utf8_status l = Decoded -> Client.utf8_replace l = l.
Proof.
  induction l as [l IH] using (induction_ltof1 _ (@length ascii)); unfold ltof in IH.
  destruct l as [|a l]; [done|]. simpl.
  destruct (code a <? 128); [intros; f_equal; apply IH; [simpl; lia | done]|].
  destruct (between 194 223 a).
  { destruct l as [|b l]; [done|]. destruct (cont b); [|done]. intros. do 2 f_equal. apply IH; [simpl; lia | done]. }
  destruct (between 224 239 a).
  { destruct l as [|b [|c l]]; [done|..]; (destruct (negb (second_ok a b)); [done|]); [done|].
    destruct (cont c); [|done]. intros. do 3 f_equal. apply IH; [simpl; lia | done]. }
  destruct (between 240 244 a); [|done].
  destruct l as [|b [|c [|d l]]]; [done|..]; (destruct (negb (second_ok a b)); [done|]); [done|..];
    (destruct (negb (cont c)); [done|]); [done|].
  destruct (cont d); [|done]. intros. do 4 f_equal. apply IH; [simpl; lia | done].
Qed.

Lemma replace_status l : utf8_status (Client.utf8_replace l) = Decoded.
Proof.
  induction l as [l IH] using (induction_ltof1 _ (@length ascii)); unfold ltof in IH.
  destruct l as [|a l]; [done|]. cbn [Client.utf8_replace].
  destruct (code a <? 128) eqn:H1; [cbn [utf8_status]; rewrite H1; apply IH; simpl; lia|].
  destruct (between 194 223 a) eqn:H2.
  { destruct l as [|b l]; [done|]. destruct (cont b) eqn:Hb; [|rewrite replacement_app; apply IH; simpl; lia].
    cbn [utf8_status]. rewrite H1, H2, Hb. apply IH. simpl. lia. }
  destruct (between 224 239 a) eqn:H3.
  { destruct l as [|b l]; [done|]. destruct (negb (second_ok a b)) eqn:Hb; [rewrite replacement_app; apply IH; simpl; lia|].
    destruct l as [|c l]; [done|]. destruct (cont c) eqn:Hc; [|rewrite replacement_app; apply IH; simpl; lia].
    cbn [utf8_status]. rewrite H1, H2, H3, Hb, Hc. apply IH. simpl. lia. }
  destruct (between 240 244 a) eqn:H4; [|rewrite replacement_app; apply IH; simpl; lia].
  destruct l as [|b l]; [done|]. destruct (negb (second_ok a b)) eqn:Hb; [rewrite replacement_app; apply IH; simpl; lia|].
  destruct l as [|c l]; [done|]. destruct (negb (cont c)) eqn:Hc; [rewrite replacement_app; apply IH; simpl; lia|].
  destruct l as [|d l]; [done|]. destruct (cont d) eqn:Hd; [|rewrite replacement_app; apply IH; simpl; lia].
  cbn [utf8_status]. rewrite H1, H2, H3, H4, Hb, Hc, Hd. apply IH. simpl. lia.
Qed.

(** ** A chatty receiver *)

Module Noise.
Definition log_line : list ascii := chars "log".
(** An hour later by the clock, with one more line, or with nothing new. *)
Definition line_turn : Client.turn := Client.mk_turn [log_line ++ [newline]] false false 3600000000 false.
Definition idle_turn : Client.turn := Client.mk_turn [] false false 3600000000 false.
Definition start : Client.turn := Client.mk_turn [] false false 0 false.
Fixpoint turns (n : nat) : list Client.turn :=
  match n with O => [] | S n => line_turn :: idle_turn :: idle_turn :: idle_turn :: idle_turn :: turns n end.

Lemma receive_log seq : receive (log_line ++ [newline]) (mk_framing [] [] seq None) = mk_framing [] [(seq, log_line)] (seq + 1) None.
Proof. by vm_compute. Qed.

Abbreviation waiting := (fun seq ls tx sent taken ts => Client.mk_client (mk_framing [] ls seq None) false false tx sent taken ts).
Lemma gate_line seq tx sent taken ts :
  Client.utf8_gate (waiting seq [] tx sent taken (line_turn :: ts)) = (Ok tt, waiting (seq + 1) [(seq, log_line)] tx sent taken ts).
Proof. by vm_compute. Qed.
Lemma gate_idle seq tx sent taken ts :
  Client.utf8_gate (waiting seq [] tx sent taken (idle_turn :: ts)) = (Ok tt, waiting seq [] tx sent taken ts).
Proof. done. Qed.
Lemma slice_idle cap d seq ls tx sent taken ts : Client.slice cap d (waiting seq ls tx sent taken (idle_turn :: ts))
  = (Ok (Z.min cap (Z.max 0 (d - 3600000000))), waiting seq ls tx sent taken ts).
Proof. done. Qed.
Lemma next_log d seq tx sent taken ts :
  Client.next_line d (waiting (seq + 1) [(seq, log_line)] tx sent taken (idle_turn :: idle_turn :: ts))
  = (Ok (Some log_line), waiting (seq + 1) [] tx sent (taken ++ [log_line]) ts).
Proof. done. Qed.
Lemma ret_run {A} (a : A) (c : Client.client) : (mret a : Client.M A) c = (Ok a, c).
Proof. done. Qed.

Section noise.
Context (text prompt : list ascii) (Hecho : ends_with (prompt ++ text) (strip_vt100 log_line) = false).

Lemma noise_goes_on n fuel d ls seq tx sent taken :
  (Client.command_loop text prompt false fuel d ls false
     (Client.mk_client (mk_framing [] [] seq None) false false tx sent taken (turns n))).1 = Err Client.OutOfTurns.
Proof.
  revert fuel ls seq taken. induction n as [|n IH]; intros [|fuel] ls seq taken; try done.
  cbn [Client.command_loop turns].
  rewrite run_bind. cbn [Client.cancel_gate]. rewrite ret_run, run_bind, gate_line, run_bind, slice_idle, run_bind, next_log, run_bind.
  rewrite ret_run, run_bind, gate_idle. unfold Client.echo. rewrite Hecho. apply IH.
Qed.
End noise.
End Noise.

(** ** Theorems *)

Module SerialTheorems.

(** C31. The lines, their numbers, the fragment and the first decode failure depend
    on the bytes received only, not on how the reads cut them into chunks. *)
Theorem framing_ignores_chunks (cs : list (list ascii)) (s : framing) :
  settled s -> fold_left (fun f k => receive k f) cs s = receive (concat cs) s.
Proof.
  revert s. induction cs as [|c cs IH]; intros s Hs; simpl; [by rewrite receive_nil|].
  rewrite IH by apply receive_settled. apply receive_app.
Qed.

(** After [mark_rx] returned an offset, whatever the two threads did before
    and after: as long as nothing failed, the lines the caller took and the
    lines still queued are together exactly the lines of the raw evidence from
    that offset on, the unterminated fragment is its rest, and these bytes are
    a prefix of the bytes that arrived after the input buffer was purged. *)
Theorem mark_starts_fresh (s : console) (offset : Z) :
  reachable s -> opc s = Idle -> marked (hist s) = Some offset ->
  decode_error (frame (rx s)) = None -> read_error (rx s) = None ->
  let retained := drop (Z.to_nat offset) (evidence (rx s)) in
  popped (hist s) ++ (lines (frame (rx s))).*2 = text_lines retained
  /\ partial (frame (rx s)) = fragment retained
  /\ exists unread, fresh (hist s) = retained ++ unread.
Proof.
  intros [_ Hok]%reachable_ok Hpc Hm Hd Hr retained.
  assert (since_edge s = retained) as Hs.
  { unfold since_edge, retained. rewrite (marked_edge s Hok offset Hm) by by rewrite Hpc.
    pose proof (count_eq s Hok ltac:(by rewrite Hr)) as Hc. apply take_ge. rewrite length_drop.
    pose proof (edge_bounds s Hok). rewrite (marked_edge s Hok offset Hm) in * by by rewrite Hpc. lia. }
  rewrite <- Hs. split_and!; [by apply Hok | by apply Hok|].
  pose proof (fresh_bytes s Hok ltac:(by rewrite Hr)) as Hf. rewrite Hpc in Hf. simpl in Hf.
  eexists. by rewrite Hf, <- app_assoc.
Qed.

(** C22. In every interleaving of the two threads: the backend's [close] is called
    at most once and never while a read is in flight; a chunk is appended only
    to open evidence handles, by the thread in the gate; the byte counter is
    the length of the raw evidence until an evidence write fails; and a failing
    read is always recorded. *)
Theorem console_ownership (s : console) :
  reachable s ->
  (fd_closes (prt s) <= 1)%nat
  /\ (reader_reads (rpc s) = true -> fd_closes (prt s) = 0%nat /\ evidence_open (ctl s) = true /\ gate (ctl s) = Some Reader)
  /\ (read_error (rx s) <> Some EvidenceFailed -> bytes_received (rx s) = Z.of_nat (length (evidence (rx s))))
  /\ (forall s', _reader_loop ReadRaises s = Some s' -> read_error (rx s') = Some BackendFailed).
Proof.
  intros [Hown Hok]%reachable_ok. split_and!.
  - rewrite (closes_once s Hown). destruct (owned (prt s)); lia.
  - intros Hr. rewrite (closes_once s Hown), (reads_owned s Hown Hr), (gate_iff s Hown).
    split_and!; [done | | by destruct (rpc s)].
    apply not_false_iff_true. intros Hev. by rewrite (evidence_done s Hown Hev) in Hr.
  - apply Hok.
  - intros s' Hst. unfold _reader_loop in Hst. destruct (rpc s) eqn:Hpc; try done.
    rewrite (reads_owned s Hown), andb_false_r in Hst by by rewrite Hpc. by injection Hst as <-.
Qed.

(** What [close] reports is what it did: success means the reader has exited,
    the descriptor was closed, exactly once, and the evidence handles are
    closed; a reader still alive keeps its evidence handles; a descriptor
    still open was never closed. *)
Theorem close_reports (s s' : console) :
  reachable s -> close CloseEvidenceHandles s = Some s' ->
  match outcome (hist s') with
  | Some CloseOk => rpc s' = RDone /\ owned (prt s') = false /\ fd_closes (prt s') = 1%nat /\ evidence_open (ctl s') = false
  | Some ReaderAlive => evidence_open (ctl s') = evidence_open (ctl s)
  | Some DescriptorOpen => fd_closes (prt s') = 0%nat /\ rpc s' = RDone /\ evidence_open (ctl s') = false
  | None => False
  end.
Proof.
  intros [Hown _]%reachable_ok Hst. unfold close in Hst. destruct (opc s) as [| | | | | | | | | |d alive] eqn:Hpc; try done.
  injection Hst as <-. pose proof (pc_port s Hown (negb d) ltac:(by rewrite Hpc)) as Hp. pose proof (closes_once s Hown) as Hc.
  rewrite Hp in Hc. destruct alive; simpl; [done|].
  pose proof (exited_done s Hown ltac:(by rewrite Hpc)) as Hd. by destruct d.
Qed.

(** Once [close] has asked it to stop, the reader makes at most three more
    steps, whatever else happens, and until it is done it can step unless the
    owner is in the gate. *)
Theorem reader_stops (s : console) :
  stop (ctl s) = true ->
  (forall es s', steps es s = Some s' -> (count is_reader_step es <= 3)%nat)
  /\ (gate (ctl s) = None \/ reader_holds (rpc s) = true -> rpc s <> RDone -> exists a, is_Some (_reader_loop a s)).
Proof.
  intros Hs. split.
  - intros es s' Hes. pose proof (stopped_rank es s s' Hes Hs). destruct (rpc s); simpl in *; lia.
  - intros Hg Hd. unfold _reader_loop. rewrite Hs. destruct (rpc s); try done.
    1,2,4: by exists Go. { exists Go. by destruct Hg as [->|]. } { by exists ReadRaises. }
    exists Go. by destruct (evidence_open (ctl s)).
Qed.

(** One action of [open] on a known state. *)
Lemma act_run raises a e t r th l :
  Opening.act raises a (Opening.mk_opening e t r th l)
  = (if raises a then Err Opening.CannotOpen else Ok tt, Opening.mk_opening e t r th (l ++ [a])).
Proof. unfold Opening.act. rewrite run_bind. simpl. unfold check, ensure. by destruct (raises a). Qed.
Lemma act_bind {B} raises a (k : unit -> method Opening.opening Opening.open_error B) e t r th l :
  (Opening.act raises a ≫= k) (Opening.mk_opening e t r th l)
  = if raises a then (Err Opening.CannotOpen, Opening.mk_opening e t r th (l ++ [a])) else k tt (Opening.mk_opening e t r th (l ++ [a])).
Proof. rewrite run_bind, act_run. by destruct (raises a). Qed.
Lemma assign_bind {B} f (k : unit -> method Opening.opening Opening.open_error B) s :
  ((assign f : method Opening.opening Opening.open_error unit) ≫= k) s = k tt (f s).
Proof. done. Qed.

Lemma ret_bind {B} (k : unit -> method Opening.opening Opening.open_error B) s :
  ((mret tt : method Opening.opening Opening.open_error unit) ≫= k) s = k tt s.
Proof. done. Qed.

Tactic Notation "next" uconstr(l) :=
  unfold Opening.set_evidence, Opening.set_tx, Opening.set_ser, Opening.set_started, Opening.logged;
  cbn [Opening.evidence_fh Opening.tx_evidence_fh Opening.ser Opening.thread_started Opening.log]; rewrite l.

(** Membership in a log that is a list of actions. *)
Ltac in_log :=
  intros;
  first [ solve [repeat first [apply list_elem_of_here | apply list_elem_of_further]]
        | repeat match goal with H : _ ∈ _ :: _ |- _ => apply elem_of_cons in H as [H|H]; [discriminate H|] | H : _ ∈ [] |- _ => by apply elem_of_nil in H end ].

Ltac log_done := simpl; split_and!; try done; in_log.

(** [open] either leaves everything open - both evidence files, the port with
    the binding's line states set before it was opened and not touched
    afterwards, the reader started - or leaves nothing: a port that was opened
    is closed again and no handle, port or thread remains. *)
Theorem open_all_or_nothing (dtr rts has_exclusive : bool) (raises : Opening.action -> bool) :
  let '(r, s) := Opening.open dtr rts has_exclusive raises Opening.closed_console in
  match r with
  | Ok _ =>
      Opening.evidence_fh s = true /\ Opening.tx_evidence_fh s = true /\ Opening.ser s = true /\ Opening.thread_started s = true
      /\ Opening.log s = [Opening.OpenEvidence; Opening.OpenTxEvidence; Opening.MakeSerial; Opening.SetLineFormat;
                          Opening.SetDtr dtr; Opening.SetRts rts] ++ (if has_exclusive then [Opening.RequestExclusive] else [])
                          ++ [Opening.AssignPort; Opening.OpenPort; Opening.StartReader]
  | Err _ =>
      Opening.evidence_fh s = false /\ Opening.tx_evidence_fh s = false /\ Opening.ser s = false /\ Opening.thread_started s = false
      /\ (Opening.OpenPort ∈ Opening.log s -> Opening.CloseSerial ∈ Opening.log s)
      /\ (raises Opening.OpenEvidence = false -> Opening.CloseEvidence ∈ Opening.log s)
      /\ (raises Opening.OpenEvidence = false -> raises Opening.OpenTxEvidence = false -> Opening.CloseTxEvidence ∈ Opening.log s)
  end.
Proof.
  unfold Opening.open, Opening.closed_console. rewrite run_bind. cbn [self Opening.ser negb]. rewrite run_bind. cbn [check ensure].
  rewrite run_bind. unfold Opening.try_or at 1. next act_bind.
  destruct (raises Opening.OpenEvidence) eqn:H1; [log_done|]. next assign_bind; next act_bind.
  destruct (raises Opening.OpenTxEvidence) eqn:H2; [log_done|]. next assign_bind; next act_bind.
  destruct (raises Opening.MakeSerial); [log_done|].
  unfold Opening.try_or, Opening.configure_and_open. next act_bind.
  destruct (raises Opening.SetLineFormat); [log_done|]. next act_bind.
  destruct (raises (Opening.SetDtr dtr)); [log_done|]. next act_bind.
  destruct (raises (Opening.SetRts rts)); [log_done|].
  destruct has_exclusive; [next act_bind; destruct (raises Opening.RequestExclusive); [log_done|]
                          |next ret_bind];
    (next act_bind; destruct (raises Opening.AssignPort); [log_done|]);
    (next act_run; destruct (raises Opening.OpenPort); [log_done|]);
    next assign_bind; unfold Opening.start_reader; next act_run;
    (destruct (raises Opening.StartReader); log_done).
Qed.

(** Terminal controls are presentation only: from any text interspersed with
    complete control sequences exactly the text remains. *)
Theorem strip_keeps_text (ps : list piece) :
  Forall piece_ok ps -> strip_vt100 (concat (render <$> ps)) = concat (shown <$> ps).
Proof. intros Hps. apply strip_pieces; [done | lia]. Qed.

(** A receiver command that returns wrote its text once, retained it in the
    TX evidence first, and returns the lines it took off the queue, without
    terminal controls and followed at most by the unterminated fragment; one of
    these lines ends with prompt and command (the echo), and the transcript
    ends with the prompt. *)
Theorem command_transcript_exact (is_open tx_ok : bool) (backend : list ascii -> option Z) (text prompt : list ascii)
    (cancellable : bool) (timeout : Z) (c c' : Client.client) (t : list ascii) :
  Client.command_receiver is_open tx_ok backend text prompt cancellable timeout c = (Ok t, c') ->
  exists taken fin,
    Client.w_popped c' = Client.w_popped c ++ taken
    /\ t = Client.join_lines ((strip_vt100 <$> taken) ++ fin) /\ (length fin <= 1)%nat
    /\ (exists l, l ∈ taken /\ ends_with (prompt ++ text) (strip_vt100 l) = true)
    /\ ends_with prompt t = true
    /\ Client.w_tx c' = Client.w_tx c ++ text ++ [CR] /\ Client.w_sent c' = Client.w_sent c ++ text ++ [CR]
    /\ text <> [].
Proof.
  unfold Client.command_receiver. intros H.
  apply bind_run_Ok in H as (? & c1 & H1 & H). apply check_run_Ok in H1 as [Htext ->]. apply negb_true_iff, bool_decide_eq_false in Htext.
  apply bind_run_Ok in H as (? & c1 & H1 & H). unfold Client.write in H1.
  apply bind_run_Ok in H1 as (? & c2 & H2 & H1). apply check_run_Ok in H2 as [_ ->].
  apply bind_run_Ok in H1 as (? & c2 & H2 & H1). apply check_run_Ok in H2 as [_ ->].
  apply bind_run_Ok in H1 as (? & c2 & H2 & H1). injection H2 as _ <-.
  destruct (backend (text ++ [CR])) as [n|]; [|done].
  apply bind_run_Ok in H1 as (? & c2 & H2 & H1). injection H2 as _ <-. apply check_run_Ok in H1 as [Hn ->]. apply Z.eqb_eq in Hn.
  quiet H now c3 H3. unfold Client.with_fuel in H. apply bind_run_Ok in H as (? & c4 & H4 & H). injection H4 as _ <-.
  apply command_loop_Ok in H as (taken & Htx & Hsent & Hpop & fin & Ht & Hfin & [?|Hecho] & front & z & Hz & Hend); [done|].
  destruct H3 as (Htx3 & Hsent3 & Hpop3). simpl in Htx3, Hsent3, Hpop3. exists taken, fin. simpl app in Ht, Hz.
  split_and!; [congruence | done | done | done | | congruence | | done].
  - rewrite Ht, Hz. destruct (join_lines_last front z) as [u ->]. apply ends_with_spec in Hend as [w ->].
    apply ends_with_spec. exists (u ++ w). by rewrite app_assoc.
  - rewrite Hsent, Hsent3, Hn, Nat2Z.id. by rewrite firstn_all.
Qed.

(** [raw_text_since] fails exactly on ranges that are not UTF-8, and otherwise
    returns the retained bytes from the clamped offset on. *)
Theorem raw_text_exact (content : list ascii) (offset : Z) :
  let raw := drop (Z.to_nat (Z.max 0 (Z.min offset (Z.of_nat (length content))))) content in
  let '(text, failed) := Client.raw_text_since (Some content) offset in
  (failed = false <-> utf8_valid raw = true) /\ (failed = false -> text = raw) /\ utf8_valid text = true.
Proof.
  unfold Client.raw_text_since. set (raw := drop _ _). cbv zeta. rewrite <- !utf8_status_decoded. split_and!.
  - by destruct (utf8_status raw).
  - destruct (utf8_status raw) eqn:Hu; [|done..]. intros _. by apply replace_decoded.
  - apply replace_status.
Qed.

(** The deadline of [command_receiver] is compared only after a read without a
    line: while the console keeps printing other lines, the command goes on
    past every deadline. *)
Theorem command_outlives_deadline (n : nat) :
  (Client.command_receiver true true (fun l => Some (Z.of_nat (length l))) (chars "status") (chars "uart:~$ ") false 1000
     (Client.mk_client new_framing false false [] [] [] (Noise.start :: Noise.turns n))).1 = Err Client.OutOfTurns.
Proof.
  set (sent := chars "status" ++ [CR]). apply (Noise.noise_goes_on (chars "status") (chars "uart:~$ ") ltac:(by vm_compute) n _ 1000 [] 0 sent sent []).
Qed.
End SerialTheorems.

(** ** Witnesses *)

Module SerialWitnesses.
Import SerialTheorems.

Lemma framing_ignores_chunks_witness :
  let cs := [chars "bo"; chars "ot" ++ [CR]; [newline] ++ chars "uart:~$ "] in
  settled new_framing
  /\ fold_left (fun f k => receive k f) cs new_framing = receive (concat cs) new_framing
  /\ lines (receive (concat cs) new_framing) = [(0, chars "boot")].
Proof. cbv zeta. split; [done|]. split; [by apply framing_ignores_chunks | by vm_compute]. Defined.

(** A stale line and a stale fragment before the mark, boot lines after it. *)
Definition marked_run : list event :=
  [Arrive (chars "old" ++ [newline] ++ chars "sta"); ReaderStep Go; ReaderStep Go; ReaderStep Go; ReaderStep Go; ReaderStep (Chunk 5);
   ReaderStep Go; OwnerStep MarkRx; OwnerStep (Purge true); Arrive (chars "boot" ++ [newline] ++ chars "ok" ++ [newline] ++ chars "ua");
   OwnerStep ClearParse; OwnerStep Snapshot; ReaderStep Go; ReaderStep Go; ReaderStep Go; ReaderStep (Chunk 9); ReaderStep Go; OwnerStep NextLine].
Definition marked_console : console := Eval vm_compute in default opened (steps marked_run opened).
Lemma marked_console_reachable : reachable marked_console.
Proof. exists marked_run. by vm_compute. Qed.

Lemma mark_starts_fresh_witness :
  popped (hist marked_console) = [chars "boot"] /\ (lines (frame (rx marked_console))).*2 = [chars "ok"]
  /\ (popped (hist marked_console) ++ (lines (frame (rx marked_console))).*2
      = text_lines (drop (Z.to_nat 5) (evidence (rx marked_console)))).
Proof.
  split; [done|]. split; [done|].
  apply (mark_starts_fresh marked_console 5 marked_console_reachable); reflexivity.
Defined.

Lemma console_ownership_witness : (fd_closes (prt marked_console) <= 1)%nat.
Proof. apply (console_ownership marked_console marked_console_reachable). Defined.

(** [close] while the reader waits for the gate. *)
Definition closing_run : list event :=
  marked_run ++ [OwnerStep Close; OwnerStep AcquireGate; OwnerStep SetStop; OwnerStep CloseSerial; ReaderStep Go; OwnerStep ThreadExited].
Definition closing_console : console := Eval vm_compute in default opened (steps closing_run opened).
Lemma closing_console_reachable : reachable closing_console.
Proof. exists closing_run. by vm_compute. Qed.
Definition closed_console : console := Eval vm_compute in default opened (close CloseEvidenceHandles closing_console).

Lemma close_reports_witness : outcome (hist closed_console) = Some CloseOk /\ fd_closes (prt closed_console) = 1%nat.
Proof.
  split; [done|].
  apply (close_reports closing_console closed_console closing_console_reachable); reflexivity.
Defined.

Definition stopping_console : console := Eval vm_compute in
  default opened (steps (marked_run ++ [OwnerStep Close; OwnerStep AcquireGate; OwnerStep SetStop]) opened).
Lemma reader_stops_witness :
  let es := [OwnerStep CloseSerial; ReaderStep Go; OwnerStep ThreadExited] in
  is_Some (steps es stopping_console) /\ (count is_reader_step es <= 3)%nat.
Proof.
  cbv zeta. assert (steps [OwnerStep CloseSerial; ReaderStep Go; OwnerStep ThreadExited] stopping_console = Some closing_console) as Hes
    by (vm_compute; reflexivity).
  split; [by eexists|]. exact (proj1 (reader_stops stopping_console ltac:(reflexivity)) _ _ Hes).
Defined.

Lemma strip_keeps_text_witness :
  let ps := [Csi (chars "1;32") [] "m"%char; Shown (chars "uart:~$ "); Csi [] [] "m"%char] in
  Forall piece_ok ps /\ strip_vt100 (concat (render <$> ps)) = chars "uart:~$ ".
Proof.
  cbv zeta. assert (Forall piece_ok [Csi (chars "1;32") [] "m"%char; Shown (chars "uart:~$ "); Csi [] [] "m"%char]) as Hps.
  { repeat constructor. unfold piece_ok. by apply (bool_decide_unpack (ESC ∉ chars "uart:~$ ")). }
  split; [done|]. rewrite (strip_keeps_text _ Hps). reflexivity.
Defined.

(** A command whose echo and output arrive in pieces, with a colored prompt. *)
Definition answering : Client.turn :=
  Client.mk_turn [chars "uart:~$ sta"; chars "tus" ++ [CR; newline] ++ chars "ok" ++ [CR; newline; ESC] ++ chars "[1;32muart:~$ "; [ESC] ++ chars "[m"]
                 false false 0 false.
Definition asking : Client.client :=
  Client.mk_client new_framing false false [] [] [] (answering :: replicate 30 (Client.mk_turn [] false false 10 false)).
Definition answered := Eval vm_compute in
  Client.command_receiver true true (fun l => Some (Z.of_nat (length l))) (chars "status") (chars "uart:~$ ") false 1000 asking.
Definition answered_text : list ascii := Eval vm_compute in
  chars "uart:~$ status" ++ [newline] ++ chars "ok" ++ [newline] ++ chars "uart:~$ ".

Lemma command_transcript_exact_witness : answered.1 = Ok answered_text /\ ends_with (chars "uart:~$ ") answered_text = true.
Proof.
  split; [reflexivity|].
  destruct (command_transcript_exact true true (fun l => Some (Z.of_nat (length l))) (chars "status") (chars "uart:~$ ") false 1000
              asking answered.2 answered_text) as (taken & fin & _ & _ & _ & _ & Hend & _); [vm_compute; reflexivity | exact Hend].
Defined.
End SerialWitnesses.
