(* ===== verification/HilReceiver.v ===== *)
(** * Receiver console parsing (scripts/hil/receiver.py, parsers and scanners)

    The grammar of the receiver's shell output, the parsers over it, the
    warning scanner with its bounded exemption, and the shell-error scanner.
    The trace of the SDC HCI commands (parse_hci_remove_iso_path_trace and
    parse_sdc_hci_remove_iso_path_trace) is not modelled.  A parser's [None]
    is the [ValueError] of [int] on more than 4300 digits. *)

From S2P Require Import Prelude PyText PyRegex FlprStatus SerialIo.

Open Scope re_scope.

Definition RECEIVER_PROMPT : string := "uart:~$ ".

(** ** [str.splitlines] *)

(** The length of the line terminator a text starts with, in bytes: LF, VT,
    FF, CR, CR LF, FS, GS, RS, U+0085, U+2028, U+2029. *)
Definition terminator (l : list ascii) : nat :=
  match l with
  | [] => 0%nat
  | c :: l1 =>
      let n := code c in
      if n =? 13 then match l1 with d :: _ => if Ascii.eqb d newline then 2%nat else 1%nat | [] => 1%nat end
      else if (n =? 10) || (n =? 11) || (n =? 12) || (n =? 28) || (n =? 29) || (n =? 30) then 1%nat
      else if n =? 194 then match l1 with d :: _ => if code d =? 133 then 2%nat else 0%nat | [] => 0%nat end
      else if n =? 226 then
        match l1 with
        | d :: e :: _ => if (code d =? 128) && ((code e =? 168) || (code e =? 169)) then 3%nat else 0%nat
        | _ => 0%nat
        end
      else 0%nat
  end.

(** A line with its terminator ([keepends=True] is their concatenation). *)
Abbreviation segment := (list ascii * list ascii)%type.

(** The length of the text is enough fuel. *)
Fixpoint split_ends (fuel : nat) (line : list ascii) (l : list ascii) : list segment :=
  match fuel, l with
  | O, _ | _, [] => match line with [] => [] | _ => [(rev line, [])] end
  | S fuel, c :: l' =>
      match terminator l with
      | O => split_ends fuel (c :: line) l'
      | n => (rev line, take n l) :: split_ends fuel [] (drop n l)
      end
  end.
Definition segments (text : list ascii) : list segment := split_ends (S (length text)) [] text.
Definition splitlines (text : list ascii) : list (list ascii) := (segments text).*1.

(** [iter_raw_utf8_lines]: start and end offsets, the line, whether it is
    complete; [None] is [UnicodeDecodeError]. *)
Record raw_line : Type := mk_raw_line { start_offset : Z; end_offset : Z; line_text : list ascii; complete : bool }.
Fixpoint number_segments (offset : Z) (ss : list segment) : list raw_line :=
  match ss with
  | [] => []
  | (line, ending) :: ss' =>
      let stop := offset + Z.of_nat (length line + length ending) in
      mk_raw_line offset stop line (match ending with [] => false | _ => true end) :: number_segments stop ss'
  end.
Definition iter_raw_utf8_lines (raw : list ascii) : option (list raw_line) :=
  if utf8_valid raw then Some (number_segments 0 (segments raw)) else None.

(** ** Grammar *)

Definition lower (c : ascii) : ascii := if is_upper c then chr (code c + 32) else c.
(** A literal under [re.IGNORECASE]. *)
Fixpoint CiChars (l : list ascii) : re :=
  match l with [] => Eps | c :: l' => Seq (Cls (fun d => Ascii.eqb (lower c) (lower d))) (CiChars l') end.
Definition Ci (s : string) : re := CiChars (chars s).

(** [lit1(\d+)lit2(\d+)...], numbered from [n], then [tail]. *)
Fixpoint numbers (n : nat) (labels : list string) (tail : re) : re :=
  match labels with [] => tail | label :: labels' => Lit label • number n • numbers (S n) labels' tail end.

Definition is_hex_upper (c : ascii) : bool := is_digit c || between 65 70 c.
Definition hex_pair : re := Cls is_hex_upper • Cls is_hex_upper.

Definition RE_IDENTITY : re :=
  Bol • Lit "Identity: " • Group 1 (hex_pair • Rep 5 (Group 2 (Lit ":" • hex_pair))) • Lit " (" •
  Group 3 (Alt (Lit "public") (Lit "random")) • Lit ")" • Eos.
Definition RE_BOND_COUNT : re := Bol • Lit "Bond count: " • number 1 • Eos.

Definition SUMMARY_LABELS : list string :=
  ["Stream["; "] summary: SDUs="; " decoded="; " plc="; " decode_err="; " i2s_underrun="; " stream_reset="; " empty_sdu="]%string.
Definition SUMMARY_RX_LABELS : list string := [" rx_valid="; " rx_error="; " rx_lost="; " rx_unknown="; " rx_no_ts="]%string.
Definition RE_STREAM_SUMMARY : re :=
  numbers 1 SUMMARY_LABELS (Opt (numbers 9 SUMMARY_RX_LABELS Eps) • Opt (Chr CR) • EosM).

Definition RE_ISO_LINK_QUALITY_HEADER : re := Bol • Lit "--- ISO link quality ---" • Eos.
Definition ISO_LABELS : list string :=
  [" tx_unacked="; " tx_flushed="; " tx_last_subevent="; " retransmitted="; " crc_error="; " rx_unreceived="; " duplicate=";
   " iso_interval_1250us="; " nse="; " cig_sync_us="; " cis_sync_us="; " c_max_pdu="; " c_phy="; " c_bn="; " c_flush_1250us="]%string.
Definition RE_ISO_LINK_QUALITY_STREAM : re :=
  Bol • Lit "  Stream[" • number 1 • Lit "] handle=0x" • Group 2 (Rep 4 (Cls is_hex_upper)) • numbers 3 ISO_LABELS Eos.
Definition is_blank (c : ascii) : bool := (code c =? 32) || (code c =? 9).
Definition RE_ISO_LINK_QUALITY_STREAM_CANDIDATE : re := Bol • Star is_blank • Lit "Stream[".

Definition RE_HANDSHAKE_HEADER : re := Bol • Lit "--- FLPR handshake ---" • Eos.
Definition RE_HS_BOOL : re :=
  Bol • Lit "  " • Group 1 (Alt (Lit "Ready") (Alt (Lit "ACKed") (Lit "Healthy"))) • spaces • Lit ":" • spaces •
  Group 2 (Alt (Lit "yes") (Lit "no")) • Eos.
Definition RE_HS_ERRORS : re :=
  Bol • Lit "  Errors" • spaces • Lit ":" • spaces • numbers 1 ["len="; " ver="; " unk="; " send="]%string Eos.
Definition hs_counter (label : string) : re := Bol • Lit label • spaces • Lit ":" • spaces • number 1 • Eos.
Definition RE_HS_RX_LOST : re := hs_counter "  RX lost".
Definition RE_HS_RX_DUP : re := hs_counter "  RX dup".
Definition RE_HS_RX_OOO : re := hs_counter "  RX ooo".
Definition RE_HS_RX_MISSED : re := hs_counter "  RX missed".

Definition RE_FAULT_HANG_ACK : re := Wb • Lit "FAULT_HANG_ACK received" • Wb.
Definition RE_TIMED_STALL_ACK : re :=
  Wb • Lit "FLPR timed stall applied:" • spaces • Lit "bits=0x01" • spaces1 • Lit "duration=60" • spaces1 • Lit "ms" • Wb.

Definition WARNING_PATTERNS : list re :=
  [Lit "LOG_WRN"; Lit "LOG_ERR"; Ci "<wrn>"; Ci "<err>"; Lit "FATAL"; Wb • Ci "assert" • Opt (Group 1 (Ci "ion")) • Wb;
   Wb • Ci "fault" • Wb; Ci "stack overflow"; Lit "i2s_nrfx: Next buffers not supplied on time"; Lit "Cannot write in state";
   Ci "ISO sequence discontinuity"; Ci "unexpected recovery"].

Definition two_digits : re := Cls is_digit • Cls is_digit.
Definition three_digits : re := Cls is_digit • two_digits.
Definition log_timestamp : re :=
  Lit "[" • two_digits • Lit ":" • two_digits • Lit ":" • two_digits • Lit "." • three_digits • Lit "," • three_digits • Lit "]" •
  Plus (Ascii.eqb " "%char).
(** Groups 1 and 2 are [module] and [payload]. *)
Definition RE_HANG_RECOVERY_WARNING_ENVELOPE : re :=
  Bol • Opt (Lit RECEIVER_PROMPT) • Opt log_timestamp • Alt (Lit "<wrn>") (Lit "LOG_WRN") • Opt (Lit ":") • Plus (Ascii.eqb " "%char) •
  Group 1 (Alt (Lit "audio_offload") (Lit "flpr_ring")) • Lit ":" • Plus (Ascii.eqb " "%char) • Group 2 (Star dot) • Eos.
Definition HANG_RECOVERY_WARNING_PAYLOADS : list (string * re) :=
  [("audio_offload"%string, Bol • Lit "offload: heartbeat supervisor → RECOVERING" • Eos);
   ("audio_offload"%string, Bol • Lit "offload recovery: handshake unhealthy, escalating to runtime restart" • Eos);
   ("audio_offload"%string, Bol • Lit "offload recovery: short ring reset failed (-116), escalating to runtime restart" • Eos);
   ("flpr_ring"%string, Bol • Lit "RING_RESET_ACK timeout (100 ms)" • Eos)].

Definition RE_SHELL_ERROR : re :=
  Alt (Bol • Ci "Error:") (Alt (Bol • Ci "error:") (Lit ":" • spaces • Ci "command not found" • Wb)).

(** ** Parsers *)

Definition is_match (o : option pos) : bool := match o with Some _ => true | None => false end.

Definition receiver_audio_faults (text : list ascii) : option audio_faults := parse_audio_faults (strip_vt100 text).
Definition receiver_offload_status (text : list ascii) : option status := parse_offload_status (strip_vt100 text).

(** The first line a regular expression matches. *)
Fixpoint first_match (r : re) (ls : list (list ascii)) : option pos :=
  match ls with
  | [] => None
  | l :: ls' => match re_match r (strip l) with Some m => Some m | None => first_match r ls' end
  end.
Definition parse_identity (text : list ascii) : option (option (list ascii) * option (list ascii)) :=
  m ← first_match RE_IDENTITY (splitlines (strip_vt100 text)); Some (group 1 m, group 3 m).

(** The outer [None]: [int] raised. *)
Definition parse_bond_count (text : list ascii) : option (option Z) :=
  match first_match RE_BOND_COUNT (splitlines (strip_vt100 text)) with
  | None => Some None
  | Some m => digits ← group 1 m; v ← py_int digits; Some (Some v)
  end.

(** [int(match.group(n))], and with the [None] of an unmatched group. *)
Definition group_int (m : pos) (n : nat) : option Z := digits ← group n m; py_int digits.
Definition group_opt_int (m : pos) (n : nat) : option (option Z) :=
  match group n m with None => Some None | Some digits => v ← py_int digits; Some (Some v) end.

(** Stream summaries: the core counters and the extended ones. *)
Record stream_summary : Type := mk_summary {
  slot : Z; sdus : Z; decoded : Z; plc : Z; decode_err : Z; i2s_underrun : Z; stream_reset : Z; empty_sdu : Z;
  rx_valid : option Z; rx_error : option Z; rx_lost : option Z; rx_unknown : option Z; rx_no_ts : option Z }.
Definition summary_of (m : pos) : option stream_summary :=
  g1 ← group_int m 1; g2 ← group_int m 2; g3 ← group_int m 3; g4 ← group_int m 4;
  g5 ← group_int m 5; g6 ← group_int m 6; g7 ← group_int m 7; g8 ← group_int m 8;
  g9 ← group_opt_int m 9; g10 ← group_opt_int m 10; g11 ← group_opt_int m 11; g12 ← group_opt_int m 12; g13 ← group_opt_int m 13;
  Some (mk_summary g1 g2 g3 g4 g5 g6 g7 g8 g9 g10 g11 g12 g13).
Definition parse_stream_summary (text : list ascii) : option (list stream_summary) :=
  mapM summary_of (finditer RE_STREAM_SUMMARY (strip_vt100 text)).

(** ISO link quality. *)
Definition hex_digit (c : ascii) : Z := if is_digit c then code c - 48 else code c - 55.
Definition int16_of (l : list ascii) : Z := fold_left (fun a c => a * 16 + hex_digit c) l 0.
Record iso_record : Type := mk_iso { iso_slot : Z; handle : Z; iso_counters : list Z }.
Record iso_quality : Type := mk_quality { iso_header_seen : bool; streams : list iso_record; malformed : bool }.
Definition iso_record_of (m : pos) : option iso_record :=
  s ← group_int m 1; h ← group 2 m;
  cs ← mapM (group_int m) (seq 3 15);
  Some (mk_iso s (int16_of h) cs).
Definition iso_line (q : iso_quality) (line : list ascii) : option iso_quality :=
  if is_match (fullmatch RE_ISO_LINK_QUALITY_HEADER line) then
    Some (mk_quality true (streams q) (malformed q || iso_header_seen q))
  else if negb (iso_header_seen q) then Some q
  else if negb (is_match (re_match RE_ISO_LINK_QUALITY_STREAM_CANDIDATE line)) then Some q
  else match fullmatch RE_ISO_LINK_QUALITY_STREAM line with
       | None => Some (mk_quality (iso_header_seen q) (streams q) true)
       | Some m => r ← iso_record_of m; Some (mk_quality (iso_header_seen q) (streams q ++ [r]) (malformed q))
       end.
Definition parse_iso_link_quality (text : list ascii) : option iso_quality :=
  fold_left (fun q line => q ← q; iso_line q line) (splitlines (strip_vt100 text)) (Some (mk_quality false [] false)).

(** FLPR handshake: a missing line leaves its field [None]. *)
Inductive hs_value : Type := HsNone | HsBool (b : bool) | HsInt (n : Z).
#[global] Instance hs_value_eq : EqDecision hs_value.
Proof. solve_decision. Defined.
Record handshake : Type := mk_handshake { hs_header_seen : bool; hs_fields : list (string * hs_value) }.
Definition HS_FIELDS : list string :=
  ["ready"; "acked"; "healthy"; "err_len"; "err_ver"; "err_unk"; "err_send"; "rx_lost"; "rx_dup"; "rx_ooo"; "rx_missed"]%string.
Definition empty_handshake : handshake := mk_handshake false ((fun f => (f, HsNone)) <$> HS_FIELDS).

Fixpoint set_hs_ints (n : nat) (keys : list string) (m : pos) (d : list (string * hs_value)) : option (list (string * hs_value)) :=
  match keys with
  | [] => Some d
  | key :: keys' => v ← group_int m n; set_hs_ints (S n) keys' m (dict_set key (HsInt v) d)
  end.
(** [result[match.group(1).lower()] = match.group(2) == "yes"] *)
Definition set_hs_bool (m : pos) (d : list (string * hs_value)) : option (list (string * hs_value)) :=
  label ← group 1 m; answer ← group 2 m;
  Some (dict_set (of_chars (map lower label)) (HsBool (bool_decide (answer = chars "yes"))) d).
(** The remaining lines, in the order they are tried. *)
Definition hs_lines : list (re * list string) :=
  [(RE_HS_ERRORS, ["err_len"; "err_ver"; "err_unk"; "err_send"]); (RE_HS_RX_LOST, ["rx_lost"]); (RE_HS_RX_DUP, ["rx_dup"]);
   (RE_HS_RX_OOO, ["rx_ooo"]); (RE_HS_RX_MISSED, ["rx_missed"])]%string.
Fixpoint hs_counters (table : list (re * list string)) (line : list ascii) (d : list (string * hs_value)) : option (list (string * hs_value)) :=
  match table with
  | [] => Some d
  | (r, keys) :: table' => match re_match r line with Some m => set_hs_ints 1 keys m d | None => hs_counters table' line d end
  end.
Definition hs_line (line : list ascii) (d : list (string * hs_value)) : option (list (string * hs_value)) :=
  match re_match RE_HS_BOOL line with
  | Some m => set_hs_bool m d
  | None => hs_counters hs_lines line d
  end.
Definition hs_block_ends (line : list ascii) : bool :=
  bool_decide (is_Some (strip_prefix (chars "---") line)) || bool_decide (is_Some (strip_prefix (chars "  State") line)).
Fixpoint hs_loop (in_block : bool) (ls : list (list ascii)) (h : handshake) : option handshake :=
  match ls with
  | [] => Some h
  | line :: ls' =>
      if is_match (re_match RE_HANDSHAKE_HEADER line) then hs_loop true ls' (mk_handshake true (hs_fields h))
      else if negb in_block then hs_loop false ls' h
      else if hs_block_ends line then Some h
      else d ← hs_line line (hs_fields h); hs_loop true ls' (mk_handshake (hs_header_seen h) d)
  end.
Definition parse_flpr_handshake (text : list ascii) : option handshake :=
  hs_loop false (splitlines (strip_vt100 text)) empty_handshake.

(** Named-fault acknowledgements. *)
Definition parse_fault_ack (text : list ascii) (fault : string) : option string :=
  let plain := strip_vt100 text in
  if String.eqb fault "hang" && is_match (search RE_FAULT_HANG_ACK plain) then Some "FAULT_HANG_ACK"%string
  else if String.eqb fault "stall" && is_match (search RE_TIMED_STALL_ACK plain) then Some "TIMED_STALL_ACK"%string
  else None.

(** ** Warnings *)

Definition is_warning (line : list ascii) : bool := existsb (fun p => is_match (search p (strip_vt100 line))) WARNING_PATTERNS.
Definition scan_warnings (ls : list (list ascii)) : list (list ascii) := List.filter is_warning ls.

(** A recovery window as the evidence carries it: the two entries, when the
    dictionary has exactly these keys; an entry that is no integer is [None]. *)
Definition _raw_window (window : option (option Z * option Z)) (raw_length : Z) : option (Z * Z) :=
  '(s, e) ← window; start ← s; stop ← e;
  if (start <? 0) || (stop <? start) || (raw_length <? stop) then None else Some (start, stop).

Definition _is_documented_hang_recovery_warning (line : list ascii) : bool :=
  match fullmatch RE_HANG_RECOVERY_WARNING_ENVELOPE (strip (strip_vt100 line)) with
  | None => false
  | Some envelope =>
      existsb (fun '(expected_module, pattern) =>
                 bool_decide (group 1 envelope = Some (chars expected_module))
                 && match group 2 envelope with Some payload => is_match (fullmatch pattern payload) | None => false end)
              HANG_RECOVERY_WARNING_PAYLOADS
  end.

Inductive scan_error : Type := NotUtf8 | WindowInvalid.

Definition exempt (fault : option string) (window : option (Z * Z)) (l : raw_line) : bool :=
  bool_decide (fault = Some "hang"%string)
  && match window with Some (start, stop) => (start <=? start_offset l) && (end_offset l <=? stop) | None => false end
  && complete l && _is_documented_hang_recovery_warning (line_text l).

Definition scan_raw_warnings (raw : list ascii) (fault : option string) (window : option (option Z * option Z)) : result scan_error (list (list ascii)) :=
  raw_lines ← result_of_option NotUtf8 (iter_raw_utf8_lines raw);
  w ← match fault with
      | None => Ok None
      | Some _ => match _raw_window window (Z.of_nat (length raw)) with None => Err WindowInvalid | w => Ok w end
      end;
  Ok (line_text <$> List.filter (fun l => is_warning (line_text l) && negb (exempt fault w l)) raw_lines).

(** ** Shell errors *)

Definition is_shell_error (line : list ascii) : bool :=
  match strip line with
  | [] => false
  | l => is_match (search RE_SHELL_ERROR l) && negb (contains_chars (chars "Identity unavailable.") line)
  end.
Definition scan_shell_errors (transcript : list ascii) : list (list ascii) :=
  List.filter is_shell_error (splitlines (strip_vt100 transcript)).

(** ** Lemmas on lines *)

Lemma terminator_length l : (terminator l <= length l)%nat.
Proof. destruct l as [|a [|b [|c l]]]; simpl; repeat case_match; simpl; lia. Qed.

Lemma split_ends_concat n line l : (length l < n)%nat -> concat ((fun s => s.1 ++ s.2) <$> split_ends n line l) = rev line ++ l.
Proof.
  revert line l. induction n as [|n IH]; intros line l Hn; [lia|]. cbn [split_ends].
  destruct l as [|c l]; [by destruct line; simpl; rewrite ?app_nil_r|].
  pose proof (terminator_length (c :: l)) as Ht. destruct (terminator (c :: l)) as [|k] eqn:Hk.
  - rewrite IH by (simpl in Hn; lia). simpl. by rewrite <- app_assoc.
  - rewrite fmap_cons. cbn [concat fst snd]. rewrite IH by (rewrite length_drop; simpl in *; lia). simpl rev.
    rewrite <- app_assoc. f_equal. apply take_drop.
Qed.

Lemma segments_concat text : concat ((fun s => s.1 ++ s.2) <$> segments text) = text.
Proof. unfold segments. rewrite split_ends_concat by lia. done. Qed.

(** No line holds a line feed or a carriage return. *)
Definition plain (l : list ascii) : Prop := (newline ∉ l) /\ (CR ∉ l).
Lemma terminator_zero c l : terminator (c :: l) = 0%nat -> c <> newline /\ c <> CR.
Proof. intros H. split; intros ->; [done|]. simpl in H. destruct l as [|d l]; [done|]. by destruct (Ascii.eqb d newline). Qed.

Lemma split_ends_plain n line l : (length l < n)%nat -> plain line ->
  Forall (fun s => plain s.1) (split_ends n line l).
Proof.
  revert line l. induction n as [|n IH]; intros line l Hn Hp; [lia|]. cbn [split_ends].
  assert (plain (rev line)) as Hr by (unfold plain in *; by rewrite !list_elem_of_In, <- !in_rev, <- !list_elem_of_In).
  destruct l as [|c l]; [destruct line; [constructor | by apply Forall_singleton]|].
  pose proof (terminator_length (c :: l)) as Ht. destruct (terminator (c :: l)) as [|k] eqn:Hk.
  - apply IH; [simpl in Hn; lia|]. apply terminator_zero in Hk as [H1 H2]. unfold plain in *. rewrite !not_elem_of_cons. naive_solver.
  - constructor; [done|]. apply IH; [rewrite length_drop; simpl in *; lia|]. split; apply not_elem_of_nil.
Qed.

(** Consecutive byte ranges from [a] to [b] that hold the lines. *)
Fixpoint covers (raw : list ascii) (a : Z) (ls : list raw_line) (b : Z) : Prop :=
  match ls with
  | [] => a = b
  | l :: ls' =>
      start_offset l = a /\ a <= end_offset l
      /\ (exists ending, take (Z.to_nat (end_offset l - a)) (drop (Z.to_nat a) raw) = line_text l ++ ending
                         /\ complete l = bool_decide (ending <> []))
      /\ plain (line_text l) /\ covers raw (end_offset l) ls' b
  end.

Lemma number_segments_covers raw ss pre : raw = pre ++ concat ((fun s => s.1 ++ s.2) <$> ss) -> Forall (fun s => plain s.1) ss ->
  covers raw (Z.of_nat (length pre)) (number_segments (Z.of_nat (length pre)) ss) (Z.of_nat (length raw)).
Proof.
  revert pre. induction ss as [|[line ending] ss IH]; intros pre Hraw Hp; cbn [number_segments covers].
  { rewrite Hraw. simpl. by rewrite app_nil_r. }
  apply Forall_cons in Hp as [Hl Hp]. cbn [start_offset end_offset line_text complete].
  rewrite fmap_cons in Hraw. cbn [concat fst snd] in Hraw.
  split_and!; [done | lia | | done |].
  - exists ending. split; [|by destruct ending].
    rewrite Z.add_simpl_l, !Nat2Z.id, Hraw, drop_app_length, <- length_app. apply take_app_length.
  - replace (Z.of_nat (length pre) + Z.of_nat (length line + length ending)) with (Z.of_nat (length (pre ++ line ++ ending)))
      by (rewrite !length_app; lia).
    apply IH; [|done]. rewrite Hraw, <- !app_assoc. done.
Qed.

(** ** Lemmas on the handshake block *)

(** The fields a line can set. *)
Definition hs_sources : list (re * list string) := (RE_HS_BOOL, ["ready"; "acked"; "healthy"]%string) :: hs_lines.
Definition hs_source (key : string) (line : list ascii) : Prop :=
  exists r keys, (r, keys) ∈ hs_sources /\ key ∈ keys /\ is_Some (re_match r line).

Lemma set_hs_ints_other n keys m d d' key : set_hs_ints n keys m d = Some d' -> key ∉ keys -> dict_get key d' = dict_get key d.
Proof.
  revert n d. induction keys as [|k keys IH]; intros n d; simpl; [by intros [= <-]|].
  rewrite not_elem_of_cons. intros (v & _ & H)%bind_Some [Hk Hks]. rewrite (IH _ _ H Hks). by apply dict_get_set_ne.
Qed.

Lemma hs_counters_source table line d d' key :
  hs_counters table line d = Some d' -> dict_get key d' = dict_get key d \/
  exists r keys, (r, keys) ∈ table /\ key ∈ keys /\ is_Some (re_match r line).
Proof.
  induction table as [|[r keys] table IH]; simpl; [intros [= <-]; by left|].
  destruct (re_match r line) as [m|] eqn:Hm.
  - intros H. destruct (decide (key ∈ keys)) as [Hk|Hk]; [|left; by eapply set_hs_ints_other].
    right. exists r, keys. split; [left|]. split; [done | by exists m].
  - intros [H|(r' & keys' & Hin & Hk & Hs)]%IH; [by left | right]. exists r', keys'. split; [by right | done].
Qed.

(** The label group of the flag lines is one of the three labels. *)
Lemma hs_bool_label line m v : re_match RE_HS_BOOL line = Some m -> group 1 m = Some v ->
  v ∈ [chars "Ready"; chars "ACKed"; chars "Healthy"].
Proof.
  intros Hm Hg. apply run_sound in Hm as (st & Hd & [= ->]).
  assert (groups_ok (fun n v => n = 1%nat -> v ∈ [chars "Ready"; chars "ACKed"; chars "Healthy"]) m) as Hok.
  { eapply den_caps; [exact Hd | | by intros ? ? ?%elem_of_nil].
    repeat split; try (apply caps_Lit); try done. intros st m0 H Hn.
    assert (forall w, den (Lit_chars w) st m0 -> between_pos st m0 = w) as Hw by (intros w Hw; by apply between_pos_app, den_Lit_chars).
    destruct H as [H|[H|H]].
    - rewrite (Hw _ H), !elem_of_cons. auto 10.
    - rewrite (Hw _ H), !elem_of_cons. auto 10.
    - rewrite (Hw _ H), !elem_of_cons. auto 10. }
  apply dict_get_elem in Hg. by apply (Hok 1%nat v).
Qed.

Lemma hs_line_source line d d' key : hs_line line d = Some d' -> dict_get key d' = dict_get key d \/ hs_source key line.
Proof.
  unfold hs_line. destruct (re_match RE_HS_BOOL line) as [m|] eqn:Hm.
  - unfold set_hs_bool. intros (label & Hl & (answer & _ & [= <-])%bind_Some)%bind_Some.
    destruct (decide (key = of_chars (map lower label))) as [->|Hne]; [|left; by apply dict_get_set_ne].
    right. exists RE_HS_BOOL, ["ready"; "acked"; "healthy"]%string. split; [left|]. split; [|by exists m].
    apply (hs_bool_label line m label Hm) in Hl. rewrite !elem_of_cons, elem_of_nil in Hl.
    destruct Hl as [->|[->|[->|[]]]]; apply (bool_decide_eq_true_1 _); reflexivity.
  - intros [H|(r & keys & Hin & Hk & Hs)]%(hs_counters_source _ _ _ _ key); [by left | right].
    exists r, keys. split; [by right | done].
Qed.

Lemma hs_loop_source b ls h h' :
  hs_loop b ls h = Some h' ->
  (hs_header_seen h' = true -> hs_header_seen h = true \/ exists line, line ∈ ls /\ is_match (re_match RE_HANDSHAKE_HEADER line) = true)
  /\ forall key, dict_get key (hs_fields h') = dict_get key (hs_fields h) \/ exists line, line ∈ ls /\ hs_source key line.
Proof.
  revert b h. induction ls as [|line ls IH]; intros b h; cbn [hs_loop]; [intros [= ->]; split; [by left | by left]|].
  assert (forall b1 h1, hs_loop b1 ls h1 = Some h' ->
    (hs_header_seen h1 = true -> hs_header_seen h = true \/ exists line0, line0 ∈ line :: ls /\ is_match (re_match RE_HANDSHAKE_HEADER line0) = true) ->
    (forall key, dict_get key (hs_fields h1) = dict_get key (hs_fields h) \/ hs_source key line) ->
    (hs_header_seen h' = true -> hs_header_seen h = true \/ exists line0, line0 ∈ line :: ls /\ is_match (re_match RE_HANDSHAKE_HEADER line0) = true)
    /\ forall key, dict_get key (hs_fields h') = dict_get key (hs_fields h) \/ exists line0, line0 ∈ line :: ls /\ hs_source key line0) as Hstep.
  { intros b1 h1 [H1 H2]%IH Hh Hf. split.
    - intros [H|(l & Hl & Hm)]%H1; [auto | right; exists l; split; [by right | done]].
    - intros key. destruct (H2 key) as [Hk|(l & Hl & Hs)]; [|right; exists l; split; [by right | done]].
      destruct (Hf key) as [Hk'|Hs]; [left; congruence | right; exists line; split; [left | done]]. }
  destruct (is_match (re_match RE_HANDSHAKE_HEADER line)) eqn:Hh.
  { intros H. apply (Hstep _ _ H); simpl; [|by left]. intros _. right. exists line. split; [left | done]. }
  destruct b; simpl; [|intros H; apply (Hstep _ _ H); by left].
  destruct (hs_block_ends line); [intros [= ->]; split; [by left | by left]|].
  intros (d & Hd & H)%bind_Some. apply (Hstep _ _ H); simpl; [by left|]. intros key. by apply hs_line_source.
Qed.

(** ** Printed counters *)

Fixpoint print_numbers (labels : list string) (values : list Z) : list ascii :=
  match labels, values with
  | label :: labels', v :: values' => chars label ++ dec_digits v ++ print_numbers labels' values'
  | _, _ => []
  end.
Definition no_digit_head (l : list ascii) : Prop := match l with c :: _ => is_digit c = false | [] => True end.
Definition label_ok (label : string) : bool := match chars label with c :: _ => negb (is_digit c) | [] => false end.

Lemma print_numbers_head labels values l :
  Forall (fun x => label_ok x = true) labels -> length labels = length values -> no_digit_head l ->
  no_digit_head (print_numbers labels values ++ l).
Proof.
  intros Hl Hlen H. destruct labels as [|x labels], values as [|v values]; try done. apply Forall_cons in Hl as [Hx _].
  unfold label_ok in Hx. cbn [print_numbers]. rewrite <- app_assoc. destruct (chars x); [done|]. simpl. by apply negb_true_iff in Hx.
Qed.

Lemma run_numbers {A} (P : A -> Prop) labels values n tail b l gs (k : pos -> option A) :
  length labels = length values -> Forall (fun v => 0 <= v) values -> Forall (fun x => label_ok x = true) labels -> no_digit_head l ->
  (forall b', yields P (run tail (mk_pos b' l (field_groups n values gs)) k)) ->
  yields P (run (numbers n labels tail) (mk_pos b (print_numbers labels values ++ l) gs) k).
Proof.
  revert values n b gs. induction labels as [|x labels IH]; intros values n b gs Hlen Hv Hx Hl Hk; destruct values as [|v values]; try done.
  apply Forall_cons in Hv as [Hv Hvs]. apply Forall_cons in Hx as [Hx Hxs]. injection Hlen as Hlen.
  change (yields P (run (Lit x) (mk_pos b ((chars x ++ dec_digits v ++ print_numbers labels values) ++ l) gs)
    (fun st => run (number n) st (fun st => run (numbers (S n) labels tail) st k)))).
  rewrite <- app_assoc. unfold Lit. rewrite run_Lit, <- app_assoc. apply run_number; [done | by apply print_numbers_head|].
  intros b1. apply IH; try done.
Qed.

(** The payload of a stream summary as the firmware prints it. *)
Definition core_values (s : stream_summary) : list Z :=
  [slot s; sdus s; decoded s; plc s; decode_err s; i2s_underrun s; stream_reset s; empty_sdu s].
(** All extended counters, or none of them. *)
Definition rx_values (s : stream_summary) : option (list Z) :=
  a ← rx_valid s; b ← rx_error s; c ← rx_lost s; d ← rx_unknown s; e ← rx_no_ts s; Some [a; b; c; d; e].
Definition no_rx (s : stream_summary) : Prop :=
  rx_valid s = None /\ rx_error s = None /\ rx_lost s = None /\ rx_unknown s = None /\ rx_no_ts s = None.
Definition print_summary (s : stream_summary) : list ascii :=
  print_numbers SUMMARY_LABELS (core_values s)
  ++ match rx_values s with Some vs => print_numbers SUMMARY_RX_LABELS vs | None => [] end.
Definition short (v : Z) : Prop := 0 <= v /\ (length (dec_digits v) <= int_max_str_digits)%nat.

Lemma field_groups_get' values n gs i v : values !! i = Some v -> dict_get (n + i)%nat (field_groups n values gs) = Some (dec_digits v).
Proof. apply field_groups_get. Qed.

Lemma field_groups_low values n gs m : (m < n)%nat -> dict_get m (field_groups n values gs) = dict_get m gs.
Proof. revert n gs. induction values as [|v values IH]; intros n gs Hm; [done|]. simpl. rewrite IH by lia. simpl. by rewrite decide_False by lia. Qed.
Lemma field_groups_high values n gs m : (n + length values <= m)%nat -> dict_get m (field_groups n values gs) = dict_get m gs.
Proof. revert n gs. induction values as [|v values IH]; intros n gs Hm; [done|]. simpl in *. rewrite IH by lia. simpl. by rewrite decide_False by lia. Qed.

Lemma group_int_get m n v : group n m = Some (dec_digits v) -> short v -> group_int m n = Some v.
Proof.
  intros Hg [Hv Hs]. unfold group_int. rewrite Hg. unfold py_int. simpl. rewrite (proj2 (Nat.leb_le _ _) Hs). by rewrite int_dec_digits.
Qed.
Lemma group_opt_int_get m n v : group n m = Some (dec_digits v) -> short v -> group_opt_int m n = Some (Some v).
Proof.
  intros Hg [Hv Hs]. unfold group_opt_int. rewrite Hg. unfold py_int. simpl. rewrite (proj2 (Nat.leb_le _ _) Hs). by rewrite int_dec_digits.
Qed.

Lemma summary_of_groups m s gs :
  groups m = gs -> Forall short (core_values s) ->
  (forall i v, core_values s !! i = Some v -> dict_get (1 + i)%nat gs = Some (dec_digits v)) ->
  (exists vs, rx_values s = Some vs /\ Forall short vs /\ forall i v, vs !! i = Some v -> dict_get (9 + i)%nat gs = Some (dec_digits v))
  \/ no_rx s /\ (forall n, (9 <= n)%nat -> dict_get n gs = None) ->
  summary_of m = Some s.
Proof.
  intros Hgs Hcore Hget Hrx. unfold summary_of.
  assert (forall i v, core_values s !! i = Some v -> group_int m (1 + i) = Some v) as Hc.
  { intros i v Hi. apply group_int_get; [unfold group; rewrite Hgs; auto | by eapply Forall_lookup_1]. }
  rewrite (Hc 0%nat (slot s) eq_refl : group_int m 1 = _).
  rewrite (Hc 1%nat (sdus s) eq_refl : group_int m 2 = _).
  rewrite (Hc 2%nat (decoded s) eq_refl : group_int m 3 = _).
  rewrite (Hc 3%nat (plc s) eq_refl : group_int m 4 = _).
  rewrite (Hc 4%nat (decode_err s) eq_refl : group_int m 5 = _).
  rewrite (Hc 5%nat (i2s_underrun s) eq_refl : group_int m 6 = _).
  rewrite (Hc 6%nat (stream_reset s) eq_refl : group_int m 7 = _).
  rewrite (Hc 7%nat (empty_sdu s) eq_refl : group_int m 8 = _).
  cbn [mbind option_bind].
  destruct Hrx as [(vs & Hvs & Hs & Hg)|[(H1 & H2 & H3 & H4 & H5) Hg]].
  - assert (forall i v, vs !! i = Some v -> group_opt_int m (9 + i) = Some (Some v)) as Ho.
    { intros i v Hi. apply group_opt_int_get; [unfold group; rewrite Hgs; auto | by eapply Forall_lookup_1]. }
    unfold rx_values in Hvs. destruct s as [a b c d e f g h [x1|] [x2|] [x3|] [x4|] [x5|]]; try done. simpl in Hvs. injection Hvs as <-.
    rewrite (Ho 0%nat x1 eq_refl : group_opt_int m 9 = _), (Ho 1%nat x2 eq_refl : group_opt_int m 10 = _), (Ho 2%nat x3 eq_refl : group_opt_int m 11 = _), (Ho 3%nat x4 eq_refl : group_opt_int m 12 = _), (Ho 4%nat x5 eq_refl : group_opt_int m 13 = _). done.
  - assert (forall n, (9 <= n)%nat -> group_opt_int m n = Some None) as Ho.
    { intros n Hn. unfold group_opt_int, group. by rewrite Hgs, Hg. }
    rewrite !Ho by lia. destruct s; simpl in *; by subst.
Qed.

(** *** A transcript of summaries *)

Definition summary_ok (s : stream_summary) : Prop :=
  Forall short (core_values s) /\ ((exists vs, rx_values s = Some vs /\ Forall short vs) \/ no_rx s).
Definition log_prefix_ok (p : list ascii) : Prop := ("S"%char ∉ p) /\ (ESC ∉ p).
(** One log line: a prefix, the payload, CR LF. *)
Definition summary_line (item : list ascii * stream_summary) : list ascii := item.1 ++ print_summary item.2 ++ [CR; newline].

Lemma labels_ok : Forall (fun x => label_ok x = true) SUMMARY_LABELS /\ Forall (fun x => label_ok x = true) SUMMARY_RX_LABELS.
Proof. split; apply (bool_decide_eq_true_1 _); reflexivity. Qed.

Lemma run_eol {A} (P : A -> Prop) b gs more (k : pos -> option A) :
  yields P (k (mk_pos (Some CR) (newline :: more) gs)) -> yields P (run (Opt (Chr CR) • EosM) (mk_pos b (CR :: newline :: more) gs) k).
Proof. intros (a & Ha & HP). exists a. split; [|done]. cbn -[newline]. unfold advance. simpl. by rewrite Ha. Qed.

Lemma no_rx_none s : no_rx s -> rx_values s = None.
Proof. intros (H & _). unfold rx_values. by rewrite H. Qed.

Lemma match_summary b s more : summary_ok s ->
  yields (fun st => rest st = newline :: more /\ summary_of st = Some s)
         (match_at RE_STREAM_SUMMARY (mk_pos b (print_summary s ++ CR :: newline :: more) [])).
Proof.
  intros [Hc Hrx]. destruct labels_ok as [Hl1 Hl2]. unfold match_at, RE_STREAM_SUMMARY, print_summary. rewrite <- app_assoc.
  assert (Forall (fun v => 0 <= v) (core_values s)) as Hc0 by (eapply Forall_impl; [exact Hc | by intros v [? _]]).
  destruct Hrx as [(vs & Hvs & Hs)|Hno].
  - assert (length SUMMARY_RX_LABELS = length vs) as Hlen.
    { unfold rx_values in Hvs. destruct s as [? ? ? ? ? ? ? ? [?|] [?|] [?|] [?|] [?|]]; try done. by injection Hvs as <-. }
    rewrite Hvs. apply run_numbers; [done | done | done | by apply print_numbers_head|]. intros b1.
    set (gs := field_groups 1 (core_values s) []).
    assert (yields (fun st => rest st = newline :: more /\ summary_of st = Some s)
      (run (numbers 9 SUMMARY_RX_LABELS Eps) (mk_pos b1 (print_numbers SUMMARY_RX_LABELS vs ++ CR :: newline :: more) gs)
           (fun st => run (Opt (Chr CR) • EosM) st Some))) as (a & Ha & HP).
    { apply run_numbers; [done | by eapply Forall_impl; [exact Hs | intros v [? _]] | done | done|]. intros b2.
      match goal with |- yields ?P (run Eps ?st ?k) => change (yields P (k st)) end. cbv beta. apply run_eol. eexists. split; [done|]. split; [done|]. apply (summary_of_groups _ _ (field_groups 9 vs gs)); [done | done | |].
      - intros i v Hi. rewrite field_groups_low by (apply lookup_lt_Some in Hi; simpl in Hi; lia). by apply (field_groups_get (core_values s) 1).
      - left. exists vs. split; [done|]. split; [done|]. intros i v Hi. by apply (field_groups_get vs 9). }
    exists a. split; [|done].
    change (run (Opt (numbers 9 SUMMARY_RX_LABELS Eps) • Opt (Chr CR) • EosM) ?st ?k)
      with (match run (numbers 9 SUMMARY_RX_LABELS Eps) st (fun q => run (Opt (Chr CR) • EosM) q k) with
            | Some a => Some a | None => run (Opt (Chr CR) • EosM) st k end).
    by rewrite Ha.
  - rewrite (no_rx_none s Hno). apply run_numbers; [done | done | done | done|]. intros b1.
    set (gs := field_groups 1 (core_values s) []).
    assert (yields (fun st => rest st = newline :: more /\ summary_of st = Some s)
      (run (Opt (Chr CR) • EosM) (mk_pos b1 (CR :: newline :: more) gs) Some)) as (a & Ha & HP).
    { apply run_eol. eexists. split; [done|]. split; [done|]. apply (summary_of_groups _ _ gs); [done | done | |].
      - intros i v Hi. by apply (field_groups_get (core_values s) 1).
      - right. split; [done|]. intros n Hn. unfold gs. by rewrite field_groups_high. }
    exists a. split; [|done]. exact Ha.
Qed.

Lemma match_summary_not_S b c l : c <> "S"%char -> match_at RE_STREAM_SUMMARY (mk_pos b (c :: l) []) = None.
Proof.
  intros Hc. unfold match_at, RE_STREAM_SUMMARY, SUMMARY_LABELS. cbn [numbers]. unfold Lit at 1.
  change (chars "Stream[") with ("S"%char :: chars "tream["). cbn [Lit_chars]. unfold Chr at 1. cbn [run rest].
  destruct (Ascii.eqb_spec "S"%char c); [by subst | done].
Qed.

Lemma finditer_prefix n b p l : "S"%char ∉ p -> (length p <= n)%nat ->
  exists b', finditer_loop n RE_STREAM_SUMMARY b (p ++ l) = finditer_loop (n - length p) RE_STREAM_SUMMARY b' l.
Proof.
  revert n b. induction p as [|c p IH]; intros n b Hp Hn; [exists b; by rewrite Nat.sub_0_r|].
  apply not_elem_of_cons in Hp as [Hc Hp]. destruct n as [|n]; [simpl in *; lia|]. cbn [finditer_loop app].
  rewrite match_summary_not_S by done. simpl in Hn. destruct (IH n (Some c) Hp ltac:(lia)) as [b' ->]. by exists b'.
Qed.

Lemma finditer_summaries items n b :
  Forall (fun item => ("S"%char ∉ item.1) /\ summary_ok item.2) items ->
  (length (concat (summary_line <$> items)) < n)%nat ->
  mapM summary_of (finditer_loop n RE_STREAM_SUMMARY b (concat (summary_line <$> items))) = Some (items.*2).
Proof.
  intros Hi. revert n b. induction Hi as [|[p s] items [Hp Hs] Hi IH]; intros n b Hn; [by destruct n|].
  rewrite fmap_cons in *. cbn [concat] in *. set (more := concat (summary_line <$> items)) in *.
  unfold summary_line in Hn |- * at 1. cbn [fst snd] in *. rewrite <- app_assoc. rewrite !length_app in Hn.
  destruct (finditer_prefix n b p ((print_summary s ++ [CR; newline]) ++ more) Hp ltac:(lia)) as [b1 ->].
  rewrite <- app_assoc. change ([CR; newline] ++ more) with (CR :: newline :: more).
  destruct (match_summary b1 s more Hs) as (st & Hm & Hrest & Hsum).
  destruct (n - length p)%nat as [|n1] eqn:Hn1; [lia|]. simpl in Hn.
  change (finditer_loop (S n1) RE_STREAM_SUMMARY b1 (print_summary s ++ CR :: newline :: more))
    with (match match_at RE_STREAM_SUMMARY (mk_pos b1 (print_summary s ++ CR :: newline :: more) []) with
      | Some st =>
          st :: (if (length (rest st) <? length (print_summary s ++ CR :: newline :: more))%nat
                 then finditer_loop n1 RE_STREAM_SUMMARY (before st) (rest st)
                 else match print_summary s ++ CR :: newline :: more with c :: l' => finditer_loop n1 RE_STREAM_SUMMARY (Some c) l' | [] => [] end)
      | None => match print_summary s ++ CR :: newline :: more with c :: l' => finditer_loop n1 RE_STREAM_SUMMARY (Some c) l' | [] => [] end
      end).
  rewrite Hm, Hrest. rewrite (proj2 (Nat.ltb_lt _ _)) by (rewrite length_app; simpl; lia).
  destruct n1 as [|n2]; [lia|]. cbn [finditer_loop]. rewrite match_summary_not_S by done.
  cbn [mapM]. rewrite Hsum. cbn [mbind option_bind]. rewrite IH by lia. done.
Qed.

Lemma print_numbers_no_esc labels values : Forall (fun x => ESC ∉ chars x) labels -> Forall (fun v => 0 <= v) values ->
  ESC ∉ print_numbers labels values.
Proof.
  intros Hl. revert values. induction Hl as [|x labels Hx Hl IH]; intros [|v values] Hv; try apply not_elem_of_nil.
  apply Forall_cons in Hv as [Hv Hvs]. cbn [print_numbers]. rewrite !not_elem_of_app. split_and!; [done | | by apply IH].
  intros Hin. pose proof (dec_digits_all v Hv) as Ha. rewrite forallb_forall in Ha. apply list_elem_of_In, Ha in Hin. done.
Qed.

(** ** Theorems *)

Module ReceiverTheorems.

(** The raw lines partition the evidence: consecutive byte ranges from 0 to
    its length; each range holds the line, without LF or CR, and its
    terminator, and a line is complete exactly when it has one. *)
Theorem raw_lines_partition (raw : list ascii) (ls : list raw_line) :
  iter_raw_utf8_lines raw = Some ls -> covers raw 0 ls (Z.of_nat (length raw)).
Proof.
  unfold iter_raw_utf8_lines. destruct (utf8_valid raw); [|done]. intros [= <-].
  apply (number_segments_covers raw (segments raw) []); [by rewrite segments_concat|].
  apply split_ends_plain; [lia | split; apply not_elem_of_nil].
Qed.

(** The exemption is bounded: a successful scan reports, in order, exactly the
    warning lines of the evidence, except those that are complete, documented
    hang diagnostics inside a valid recorded window of a hang row.  A fault row
    without a valid window is refused. *)
Theorem warnings_exempt_only_documented (raw : list ascii) (fault : option string) (window : option (option Z * option Z)) (hits : list (list ascii)) :
  scan_raw_warnings raw fault window = Ok hits ->
  exists ls, iter_raw_utf8_lines raw = Some ls
    /\ hits `sublist_of` (line_text <$> ls)
    /\ (forall line, line ∈ hits -> is_warning line = true)
    /\ (forall l, l ∈ ls -> is_warning (line_text l) = true -> line_text l ∉ hits ->
          fault = Some "hang"%string /\ complete l = true /\ _is_documented_hang_recovery_warning (line_text l) = true
          /\ exists s e, window = Some (Some s, Some e) /\ 0 <= s <= start_offset l /\ end_offset l <= e <= Z.of_nat (length raw))
    /\ (fault = None -> hits = scan_warnings (line_text <$> ls)).
Proof.
  unfold scan_raw_warnings. intros (ls & Hls & H)%bind_Ok. apply result_of_option_Ok in Hls.
  apply bind_Ok in H as (w & Hw & [= <-]). exists ls.
  assert (forall s e, w = Some (s, e) -> window = Some (Some s, Some e) /\ 0 <= s /\ e <= Z.of_nat (length raw)) as Hwin.
  { intros s e ->. destruct fault; [|done]. unfold _raw_window in Hw. destruct window as [[[s'|] [e'|]]|]; simpl in Hw; try done.
    destruct (_ || _) eqn:Hb; [done|]. injection Hw as <- <-. bool_to_prop. split; [done|]. lia. }
  split; [done|]. split_and!.
  - clear. induction ls as [|l ls IH]; [constructor|]. simpl. destruct (_ && _); [by apply sublist_skip | by apply sublist_cons].
  - intros line (l & -> & Hl)%list_elem_of_fmap. rewrite list_elem_of_In, filter_In in Hl. destruct Hl as [_ Hl].
    by apply andb_true_iff in Hl as [Hl _].
  - intros l Hl Hwarn Hn. assert (exempt fault w l = true) as He.
    { destruct (exempt fault w l) eqn:He; [done|]. destruct Hn. apply list_elem_of_fmap. exists l. split; [done|].
      rewrite list_elem_of_In, filter_In. split; [by apply list_elem_of_In|]. by rewrite Hwarn, He. }
    unfold exempt in He. apply andb_true_iff in He as [He Hdoc]. apply andb_true_iff in He as [He Hcomp].
    apply andb_true_iff in He as [Hf Hin]. apply bool_decide_eq_true in Hf. split_and!; [done..|].
    destruct w as [[s e]|]; [|done]. destruct (Hwin s e eq_refl) as (-> & ? & ?). bool_to_prop. exists s, e. split; [done|]. lia.
  - intros ->. clear. unfold scan_warnings. induction ls as [|l ls IH]; [done|]. rewrite fmap_cons. cbn [List.filter].
    unfold exempt at 1. rewrite bool_decide_false by done. cbn [andb negb]. rewrite andb_true_r.
    destruct (is_warning (line_text l)); [rewrite fmap_cons; by f_equal | done].
Qed.

(** Print then parse: from a log whose lines are summaries in any number, each
    behind a prefix, [parse_stream_summary] reads back exactly the printed
    counters, the extended ones absent where the firmware did not print them. *)
Theorem summaries_roundtrip (items : list (list ascii * stream_summary)) :
  Forall (fun item => log_prefix_ok item.1 /\ summary_ok item.2) items ->
  parse_stream_summary (concat (summary_line <$> items)) = Some (items.*2).
Proof.
  intros Hi. unfold parse_stream_summary.
  assert (strip_vt100 (concat (summary_line <$> items)) = concat (summary_line <$> items)) as ->.
  { assert (ESC ∉ concat (summary_line <$> items)) as He; [|unfold strip_vt100, remove;
      destruct (strip_loop_shown (S (length (concat (summary_line <$> items)))) None (concat (summary_line <$> items)) [] He) as [b Hb];
      rewrite ?app_nil_r in *; [lia | rewrite Hb; by destruct (_ - _)%nat; rewrite app_nil_r]].
    induction Hi as [|[p s] items [[_ Hp] [Hs Hrx]] Hi IH]; [apply not_elem_of_nil|]. rewrite fmap_cons. cbn [concat fst snd] in *.
    rewrite not_elem_of_app. split; [|done]. unfold summary_line. cbn [fst snd]. rewrite !not_elem_of_app. split_and!; [done | | by apply (bool_decide_eq_true_1 _)].
    unfold print_summary. rewrite not_elem_of_app. split.
    - apply print_numbers_no_esc; [apply (bool_decide_eq_true_1 _); reflexivity | by eapply Forall_impl; [exact Hs | intros v [? _]]].
    - destruct Hrx as [(vs & -> & Hvs)|Hno]; [|rewrite (no_rx_none s Hno); apply not_elem_of_nil].
      apply print_numbers_no_esc; [apply (bool_decide_eq_true_1 _); reflexivity | by eapply Forall_impl; [exact Hvs | intros v [? _]]]. }
  apply finditer_summaries; [|lia]. eapply Forall_impl; [exact Hi|]. by intros item [[? _] ?].
Qed.
End ReceiverTheorems.

Module ReceiverWitnesses.
Import ReceiverTheorems.

(** A hang row's log: boot text, one documented diagnostic, one other warning,
    and an unfinished last line. *)
Definition demo_escalating : list ascii :=
  chars "[00:00:12.345,678] <wrn> audio_offload: offload recovery: handshake unhealthy, escalating to runtime restart".
Definition demo_other : list ascii := chars "[00:00:13.000,000] <wrn> bt_bap: late SDU".
Definition demo_raw : list ascii :=
  chars "booted" ++ [CR; newline] ++ demo_escalating ++ [CR; newline] ++ demo_other ++ [newline] ++ chars "<wrn>".

Lemma raw_lines_partition_witness :
  exists ls, iter_raw_utf8_lines demo_raw = Some ls /\ length ls = 4%nat /\ covers demo_raw 0 ls (Z.of_nat (length demo_raw)).
Proof.
  assert (exists ls, iter_raw_utf8_lines demo_raw = Some ls /\ length ls = 4%nat) as (ls & H & Hn)
    by (eexists; split; [vm_compute; reflexivity | vm_compute; reflexivity]).
  exists ls. split; [done|]. split; [done|]. by apply raw_lines_partition.
Defined.

Lemma warnings_exempt_only_documented_witness :
  scan_raw_warnings demo_raw (Some "hang"%string) (Some (Some 0, Some 160)) = Ok [demo_other; chars "<wrn>"]
  /\ forall line, line ∈ [demo_other; chars "<wrn>"] -> is_warning line = true.
Proof.
  assert (scan_raw_warnings demo_raw (Some "hang"%string) (Some (Some 0, Some 160)) = Ok [demo_other; chars "<wrn>"]) as H
    by (vm_compute; reflexivity).
  split; [exact H|]. destruct (warnings_exempt_only_documented _ _ _ _ H) as (_ & _ & _ & Hw & _). exact Hw.
Defined.

Definition demo_short : stream_summary := mk_summary 0 1000 990 10 0 0 1 0 None None None None None.
Definition demo_long : stream_summary := mk_summary 1 2000 2000 0 0 3 0 0 (Some 1990) (Some 0) (Some 10) (Some 0) (Some 0).

Lemma summaries_roundtrip_witness :
  parse_stream_summary (concat (summary_line <$> [(chars "<inf> bap: ", demo_short); ([], demo_long)])) = Some [demo_short; demo_long].
Proof.
  apply (summaries_roundtrip [(chars "<inf> bap: ", demo_short); ([], demo_long)]).
  assert (forall l, forallb (fun v => (0 <=? v) && (length (dec_digits v) <=? int_max_str_digits)%nat) l = true -> Forall short l) as Hshort.
  { intros l Hl. apply Forall_forall. intros v Hv. rewrite forallb_forall in Hl. apply list_elem_of_In, Hl in Hv.
    apply andb_true_iff in Hv as [H1%Z.leb_le H2%Nat.leb_le]. by split. }
  apply Forall_cons. split; [|apply Forall_cons; split; [|by constructor]].
  - split; [by split; apply (bool_decide_eq_true_1 _)|]. split; [apply Hshort; vm_compute; reflexivity | right; repeat split].
  - split; [by split; apply (bool_decide_eq_true_1 _)|]. split; [apply Hshort; vm_compute; reflexivity | left].
    eexists. split; [reflexivity | apply Hshort; vm_compute; reflexivity].
Defined.
End ReceiverWitnesses.
