(* ===== verification/HilReceiverVerdict.v ===== *)
(** * Receiver verdicts (scripts/hil/receiver.py, validators)

    The validators of one receiver snapshot, of the stopped snapshot after it,
    of a recovery, of ISO link quality and of the stream transport limits.
    They take Python values: a dictionary maps keys to [value]s and [None]
    stands for an argument that is no dictionary.  An error string is its fixed
    text with the values its format shows.  The two ratio limits are IEEE
    doubles; their products are rounded to nearest, ties to even. *)

From S2P Require Import Prelude PyText PyRegex FlprStatus SerialIo HilReceiver.

(** ** Values *)

Inductive value : Type := NoneV | BoolV (b : bool) | IntV (z : Z) | StrV (s : string).
#[global] Instance value_eq : EqDecision value.
Proof. solve_decision. Defined.
Abbreviation dict := (list (string * value)).

(** An integer in the sense of [isinstance(v, int)], booleans included. *)
Definition as_int (v : value) : option Z := match v with IntV z => Some z | BoolV b => Some (if b then 1 else 0) | _ => None end.
(** [isinstance(v, int) and not isinstance(v, bool)] *)
Definition strict_int (v : value) : option Z := match v with IntV z => Some z | _ => None end.
Definition _is_nonnegative_int (v : value) : bool := match v with IntV z => 0 <=? z | _ => false end.
(** [v == z] *)
Definition eq_z (v : value) (z : Z) : bool := match as_int v with Some n => n =? z | None => false end.
Definition py_eq (a b : value) : bool :=
  match as_int a, as_int b with
  | Some m, Some n => m =? n
  | None, None => bool_decide (a = b)
  | _, _ => false
  end.
Definition is_none (v : value) : bool := match v with NoneV => true | _ => false end.
(** [value is None or value == -1] *)
Definition absent (v : value) : bool := is_none v || eq_z v (-1).
(** [d.get(k)], [d.get(k, default)] *)
Definition get (d : dict) (k : string) : value := default NoneV (dict_get k d).
Definition get_or (z : Z) (d : dict) (k : string) : value := default (IntV z) (dict_get k d).

(** What a parsed status, audio or handshake result looks like as a dictionary. *)
Definition of_field (v : field_value) : value := match v with VNone => NoneV | VWord w => StrV (of_chars w) | VInt n => IntV n end.
Definition of_status (d : status) : dict := (fun '(k, v) => (k, of_field v)) <$> d.
Definition of_option (o : option Z) : value := match o with Some z => IntV z | None => NoneV end.
Definition of_audio (a : audio_faults) : dict :=
  ("status_seen"%string, BoolV (status_seen a)) :: ((fun '(k, v) => (k, of_option v)) <$> faults a).
Definition of_hs (v : hs_value) : value := match v with HsNone => NoneV | HsBool b => BoolV b | HsInt n => IntV n end.
Definition of_handshake (h : handshake) : dict :=
  ("header_seen"%string, BoolV (hs_header_seen h)) :: ((fun '(k, v) => (k, of_hs v)) <$> hs_fields h).

(** ** Errors *)

(** A line of the returned list: its text, and the values shown after it. *)
Inductive complaint : Type := Says (text : string) | Shows (text : string) (v : value) | Counts (text : string) (ns : list Z).
Abbreviation complaints := (list complaint).
(** [if b: errors.append(c)] *)
Definition unless (ok : bool) (c : complaint) : complaints := if ok then [] else [c].

Inductive receiver_exn : Type := UnsupportedProfile (profile : string) | TypeError.
Abbreviation R := (result receiver_exn).
(** [a < b] between a value and an integer. *)
Definition less (v : value) (z : Z) : R bool := match as_int v with Some n => Ok (n <? z) | None => Err TypeError end.
Definition less_equal (v : value) (z : Z) : R bool := match as_int v with Some n => Ok (n <=? z) | None => Err TypeError end.

(** ** Audio faults and handshake *)

Definition AUDIO_LABELS : list (string * string) :=
  [("decode_errors", "Decode errors"); ("i2s_underruns", "I2S underruns"); ("stream_resets", "Stream resets");
   ("push_failures", "Push failures")]%string.
(** Absent or nonzero counters. *)
Definition zero_counter (prefix : string) (d : dict) (entry : string * string) : complaints :=
  let '(field, label) := entry in
  let v := get d field in
  if is_none v then [Says (prefix +:+ label +:+ " missing")]
  else unless (eq_z v 0) (Shows (prefix +:+ label) v).
Definition _validate_audio_faults (audio : option dict) : complaints :=
  match audio with None => [Says "audio faults missing"] | Some d => AUDIO_LABELS ≫= zero_counter EmptyString d end.

Definition HS_FLAGS : list (string * string) := [("ready", "Ready"); ("acked", "ACKed"); ("healthy", "Healthy")]%string.
Definition HS_COUNTERS : list (string * string) :=
  [("err_len", "errors len"); ("err_ver", "errors ver"); ("err_unk", "errors unk"); ("err_send", "errors send");
   ("rx_lost", "RX lost"); ("rx_dup", "RX dup"); ("rx_ooo", "RX ooo"); ("rx_missed", "RX missed")]%string.
Definition flag_set (d : dict) (entry : string * string) : complaints :=
  let '(field, label) := entry in unless (bool_decide (get d field = BoolV true)) (Shows ("handshake " +:+ label) (get d field)).
Definition _validate_handshake (handshake : option dict) : complaints :=
  match handshake with
  | None => [Says "handshake missing"]
  | Some d => (HS_FLAGS ≫= flag_set d) ++ (HS_COUNTERS ≫= zero_counter "handshake " d)
  end.

(** ** Recovery *)

Definition normalized_recovery_baseline (offload : dict) : dict :=
  fold_left (fun b field => if eq_z (get b field) (-1) then dict_set field (IntV 0) b else b)
            ["runtime_restarts"; "runtime_fails"; "hb_dedup"]%string offload.

Record recovery : Type := mk_recovery { r_fault : value; r_baseline : option dict; r_ack : value }.
(** The argument [recovery]: [None], no dictionary, or a dictionary. *)
Inductive recovery_arg : Type := NoRecovery | NoDict | Recovery (r : recovery).
Definition given (r : recovery_arg) : bool := match r with NoRecovery => false | _ => true end.

Definition BASELINE_FIELDS : list string :=
  ["recovery_attempts"; "recovery_fail"; "relapses"; "exhaustion"; "probation_cleared"; "runtime_restarts"; "epoch"; "success";
   "fallback"]%string.
Definition baseline_field (b : dict) (field : string) : complaints :=
  unless (match as_int (get b field) with Some n => 0 <=? n | None => false end)
         (Says ("recovery baseline " +:+ field +:+ " missing")).
(** [baseline[field]] once it is known to be an integer. *)
Definition base (b : dict) (field : string) : Z := default 0 (as_int (get b field)).

Definition _validate_recovery (offload : dict) (recovery : recovery_arg) : R complaints :=
  match recovery with
  | NoRecovery | NoDict => Ok [Says "recovery evidence missing"]
  | Recovery r =>
      if negb (bool_decide (r_fault r = StrV "hang" \/ r_fault r = StrV "stall")) then Ok [Shows "recovery fault" (r_fault r)]
      else match r_baseline r with
      | None => Ok [Says "recovery baseline missing"]
      | Some b =>
          match BASELINE_FIELDS ≫= baseline_field b with
          | (_ :: _) as errors => Ok errors
          | [] =>
              let hang := bool_decide (r_fault r = StrV "hang") in
              let e1 := if hang then unless (bool_decide (r_ack r = StrV "FAULT_HANG_ACK")) (Says "hang ACK missing")
                        else unless (bool_decide (r_ack r = StrV "TIMED_STALL_ACK")) (Says "timed stall ACK missing") in
              let e2 := unless (eq_z (get offload "recovery_attempts") (base b "recovery_attempts" + 1)) (Says "recovery attempts delta") in
              let e3 := unless (eq_z (get offload "recovery_fail") (base b "recovery_fail")) (Says "recovery fail changed") in
              let e4 := unless (eq_z (get offload "relapses") (base b "relapses")) (Says "recovery relapses changed") in
              let e5 := unless (eq_z (get offload "exhaustion") (base b "exhaustion")) (Says "recovery exhaustion changed") in
              let e6 := unless (eq_z (get offload "probation_active") 0) (Says "recovery probation active") in
              uncleared ← less (get_or (-1) offload "probation_cleared") (base b "probation_cleared" + 1);
              let e7 := unless (negb uncleared) (Says "recovery probation not cleared") in
              let e8 := unless (negb (eq_z (get offload "epoch") (base b "epoch"))) (Says "recovery epoch unchanged") in
              no_fallback ← less_equal (get_or (-1) offload "fallback") (base b "fallback");
              let e9 := unless (negb no_fallback) (Says "recovery fallback missing") in
              no_success ← less_equal (get_or (-1) offload "success") (base b "success");
              let e10 := unless (negb no_success) (Says "recovery success did not resume") in
              let e11 := if hang then unless (eq_z (get offload "runtime_restarts") (base b "runtime_restarts" + 1)) (Says "hang runtime restart delta")
                         else unless (eq_z (get offload "runtime_restarts") (base b "runtime_restarts")) (Says "stall runtime restart changed") in
              Ok (e1 ++ e2 ++ e3 ++ e4 ++ e5 ++ e6 ++ e7 ++ e8 ++ e9 ++ e10 ++ e11)
          end
      end
  end.

(** ** Active offload *)

Definition _OFFLOAD_FAULT_FIELDS : list string :=
  ["fault_timeout"; "fault_full"; "fault_stale"; "fault_seq"; "fault_frame"; "fault_crc"; "fault_payload"]%string.
Definition ACTIVE_FIELDS : list string :=
  ["fallback"; "busy"; "recovery_attempts"; "recovery_fail"; "relapses"; "exhaustion"; "probation_active"]%string.

Definition expects_zero (name : string) (v : value) : complaints :=
  match strict_int v with
  | None => [Says ("offload " +:+ name +:+ " missing or malformed")]
  | Some n => unless (n =? 0) (Counts ("offload " +:+ name +:+ " but offload-disabled run expects 0") [n])
  end.

Definition active_submits (d : dict) (recovering allow_pending allow_disabled : bool) : complaints :=
  let submit := get d "submit" in
  let success := get d "success" in
  if allow_disabled then expects_zero "submit" submit ++ expects_zero "success" success
  else if negb (match strict_int submit with Some n => 1 <=? n | None => false end) then [Says "offload submit missing or zero"]
  else if negb recovering then
    let moving_single_pending :=
      allow_pending && match strict_int success with Some n => (0 <=? n) && eq_z submit (n + 1) | None => false end in
    unless (py_eq submit success || moving_single_pending) (Says "offload submit/success mismatch")
  else [].

Definition active_field (d : dict) (profile : string) (recovering : bool) (field : string) : complaints :=
  let v := get d field in
  if absent v then [Says ("offload " +:+ field +:+ " missing")]
  else if negb recovering && String.eqb profile "48_4_1" then unless (eq_z v 0) (Shows ("offload " +:+ field) v)
  else [].

Definition fault_field (d : dict) (recovering : bool) (field : string) : complaints :=
  let v := get d field in
  if absent v then [Says ("offload " +:+ field +:+ " missing")]
  else if recovering && bool_decide (field ∈ ["fault_timeout"; "fault_full"]%string) then []
  else unless (eq_z v 0) (Shows ("offload " +:+ field) v).

Definition _validate_active_offload (offload : option dict) (profile : string) (recovery : recovery_arg)
    (allow_moving_single_pending allow_offload_disabled : bool) : R complaints :=
  match offload with
  | None => Ok [Says "offload missing"]
  | Some d =>
      let e1 := unless (bool_decide (get d "state" = StrV "ACTIVE")) (Shows "offload state" (get d "state")) in
      e2 ← (if String.eqb profile "48_4_1" then
              Ok (active_submits d (given recovery) allow_moving_single_pending allow_offload_disabled)
            else if String.eqb profile "48_3_1" then
              Ok (["submit"; "success"; "fallback"; "busy"]%string ≫= fun field =>
                    unless (eq_z (get d field) 0) (Shows ("7.5 ms offload " +:+ field) (get d field)))
            else Err (UnsupportedProfile profile));
      let e3 := ACTIVE_FIELDS ≫= active_field d profile (given recovery) in
      e4 ← (if given recovery then _validate_recovery d recovery else Ok []);
      let e5 := _OFFLOAD_FAULT_FIELDS ≫= fault_field d (given recovery) in
      Ok (e1 ++ e2 ++ e3 ++ e4 ++ e5)
  end.

Definition supported (profile : string) : bool := String.eqb profile "48_4_1" || String.eqb profile "48_3_1".

Definition validate_receiver_blocks (audio offload handshake : option dict) (profile : string) (recovery : recovery_arg)
    (allow_moving_single_pending : bool) : R complaints :=
  ensure (supported profile) (UnsupportedProfile profile);;
  let e1 := _validate_audio_faults audio in
  e2 ← _validate_active_offload offload profile recovery allow_moving_single_pending false;
  Ok (e1 ++ e2 ++ _validate_handshake handshake).

(** ** Stopped offload *)

Definition stopped_submits (d : dict) (profile : string) (recovering allow_disabled : bool) (submit success : Z) : R complaints :=
  let fallback := get d "fallback" in
  let e1 := if negb recovering then unless (submit =? success) (Says "post-stop offload submit/success mismatch")
            else match strict_int fallback with
                 | Some f => if 0 <=? f then unless (submit =? success + f) (Says "post-stop offload submit/success/fallback mismatch") else []
                 | None => []
                 end in
  e2 ← (if String.eqb profile "48_4_1" then
          Ok (if allow_disabled then
                unless (submit =? 0) (Counts "post-stop offload submit but offload-disabled run expects 0" [submit])
                ++ unless (success =? 0) (Counts "post-stop offload success but offload-disabled run expects 0" [success])
              else if negb recovering then unless (1 <=? submit) (Says "post-stop offload submit missing or zero") else [])
        else if String.eqb profile "48_3_1" then
          Ok (["submit"; "success"]%string ≫= fun field =>
                unless (eq_z (get d field) 0) (Shows ("7.5 ms post-stop offload " +:+ field) (get d field)))
        else Err (UnsupportedProfile profile));
  Ok (e1 ++ e2).

(** [v] when it is a non-negative integer. *)
Definition nonnegative (v : value) : option Z := match v with IntV z => if 0 <=? z then Some z else None | _ => None end.

Definition stopped_progress (active : option dict) (submit success : option Z) (recovering allow_disabled : bool) : complaints :=
  let of_active k := match active with Some a => get a k | None => NoneV end in
  match nonnegative (of_active "submit"%string) with
  | None => [Says "active offload submit missing or malformed"]
  | Some a => match submit with Some n => unless (a <=? n) (Says "post-stop offload submit regressed") | None => [] end
  end ++
  match nonnegative (of_active "success"%string) with
  | None => [Says "active offload success missing or malformed"]
  | Some a =>
      match success with
      | Some n =>
          if negb allow_disabled && negb recovering && (n <=? a) then [Says "post-stop offload success did not advance"]
          else if recovering && (n <? a) then [Says "post-stop offload success regressed"] else []
      | None => []
      end
  end.

Definition stopped_field (d : dict) (profile : string) (recovering : bool) (field : string) : complaints :=
  let v := get d field in
  if absent v then [Says ("post-stop offload " +:+ field +:+ " missing")]
  else if negb (_is_nonnegative_int v) then [Says ("post-stop offload " +:+ field +:+ " malformed")]
  else if negb recovering && negb (eq_z v 0) then [Shows ("post-stop offload " +:+ field) v]
  else if String.eqb profile "48_3_1" && bool_decide (field ∈ ["fallback"; "busy"]%string) && negb (eq_z v 0)
       then [Shows ("7.5 ms post-stop offload " +:+ field) v]
  else [].

Definition STOPPED_FIELDS : list string :=
  ["fallback"; "busy"; "recovery_attempts"; "recovery_fail"; "relapses"; "exhaustion"; "probation_active"]%string ++ _OFFLOAD_FAULT_FIELDS.
Definition COMPARED_FIELDS : list string :=
  ["fallback"; "busy"; "recovery_attempts"; "recovery_fail"; "relapses"; "exhaustion"; "probation_active"; "probation_cleared";
   "runtime_restarts"; "runtime_fails"; "hb_dedup"]%string ++ _OFFLOAD_FAULT_FIELDS.

Definition compared_field (active final : dict) (field : string) : complaints :=
  let f := get final field in
  if absent f then [Says ("post-stop offload " +:+ field +:+ " missing")]
  else unless (py_eq (get active field) f) (Says ("post-stop offload " +:+ field +:+ " changed")).

Definition _validate_post_stop_offload (active post : option dict) (profile : string) (recovery : recovery_arg)
    (allow_offload_disabled : bool) : R complaints :=
  match post with
  | None => Ok [Says "post-stop offload missing"]
  | Some d =>
      let recovering := given recovery in
      let e1 := unless (bool_decide (get d "state" = StrV "STOPPED")) (Shows "post-stop offload state" (get d "state")) in
      let submit := nonnegative (get d "submit") in
      let success := nonnegative (get d "success") in
      let e2 := unless (bool_decide (is_Some submit)) (Says "post-stop offload submit missing or malformed") in
      let e3 := unless (bool_decide (is_Some success)) (Says "post-stop offload success missing or malformed") in
      e4 ← match submit, success with
           | Some n, Some m => stopped_submits d profile recovering allow_offload_disabled n m
           | _, _ => Ok []
           end;
      let e5 := if String.eqb profile "48_4_1" then stopped_progress active submit success recovering allow_offload_disabled else [] in
      let e6 := STOPPED_FIELDS ≫= stopped_field d profile recovering in
      let e7 := match active with
                | Some a => if recovering then COMPARED_FIELDS ≫= compared_field (normalized_recovery_baseline a) (normalized_recovery_baseline d)
                            else []
                | None => []
                end in
      Ok (e1 ++ e2 ++ e3 ++ e4 ++ e5 ++ e6 ++ e7)
  end.

Definition validate_receiver_lifecycle_blocks (audio active post handshake : option dict) (profile : string) (recovery : recovery_arg)
    (allow_moving_single_pending allow_offload_disabled : bool) : R complaints :=
  ensure (supported profile) (UnsupportedProfile profile);;
  let e1 := _validate_audio_faults audio in
  e2 ← _validate_active_offload active profile recovery allow_moving_single_pending allow_offload_disabled;
  let e3 := _validate_handshake handshake in
  e4 ← _validate_post_stop_offload active post profile recovery allow_offload_disabled;
  Ok (e1 ++ e2 ++ e3 ++ e4).

(** ** ISO link quality *)

Definition ISO_FIELDS : list string :=
  ["handle"; "tx_unacked"; "tx_flushed"; "tx_last_subevent"; "retransmitted"; "crc_error"; "rx_unreceived"; "duplicate"]%string.
Definition ISO_SELECTED_FIELDS : list string :=
  ["iso_interval_1250us"; "nse"; "cig_sync_us"; "cis_sync_us"; "c_max_pdu"; "c_phy"; "c_bn"; "c_flush_1250us"]%string.

(** A parsed snapshot: the two flags and the list of records; [None] where the
    value is no list, and no dictionary. *)
Record iso_snapshot : Type := mk_snapshot { q_header : value; q_malformed : value; q_streams : option (list (option dict)) }.

(** The record of one stream as the parser builds it. *)
Definition of_iso_record (r : iso_record) : dict :=
  ("slot"%string, IntV (iso_slot r)) :: ("handle"%string, IntV (handle r))
  :: zip (tail ISO_FIELDS ++ ISO_SELECTED_FIELDS) (IntV <$> iso_counters r).
Definition of_quality (q : iso_quality) : iso_snapshot :=
  mk_snapshot (BoolV (iso_header_seen q)) (BoolV (malformed q)) (Some ((fun r => Some (of_iso_record r)) <$> streams q)).

Definition iso_slot_check (stream_count : Z) (seen : list Z) (v : value) : complaints * list Z :=
  match nonnegative v with
  | None => ([Says "ISO link quality slot malformed"], seen)
  | Some s =>
      if stream_count <=? s then ([Counts "ISO link quality slot out of range" [s; stream_count]], seen)
      else if bool_decide (s ∈ seen) then ([Counts "ISO link quality duplicate slot" [s]], seen)
      else ([], seen ++ [s])
  end.
Definition iso_field_check (least : Z) (d : dict) (field : string) : complaints :=
  unless (match strict_int (get d field) with Some n => least <=? n | None => false end)
         (Says ("ISO link quality " +:+ field +:+ " malformed")).
Fixpoint iso_records (stream_count : Z) (seen : list Z) (rs : list (option dict)) : complaints * list Z :=
  match rs with
  | [] => ([], seen)
  | None :: rs' => let '(es, seen') := iso_records stream_count seen rs' in (Says "ISO link quality stream record malformed" :: es, seen')
  | Some d :: rs' =>
      let '(e1, seen1) := iso_slot_check stream_count seen (get d "slot") in
      let '(es, seen') := iso_records stream_count seen1 rs' in
      (e1 ++ (ISO_FIELDS ≫= iso_field_check 0 d) ++ (ISO_SELECTED_FIELDS ≫= iso_field_check 1 d) ++ es, seen')
  end.

Definition validate_iso_link_quality (parsed : option iso_snapshot) (stream_count : Z) : complaints :=
  match parsed with
  | None => [Says "ISO link quality parser result missing"]
  | Some q =>
      let e1 := unless (bool_decide (q_header q = BoolV true)) (Says "ISO link quality header missing") in
      let e2 := unless (negb (bool_decide (q_malformed q = BoolV true))) (Says "ISO link quality grammar malformed") in
      match q_streams q with
      | None => e1 ++ e2 ++ [Says "ISO link quality stream records missing"]
      | Some rs =>
          let e3 := unless (Z.of_nat (length rs) =? stream_count)
                           (Counts "ISO link quality expected stream records" [stream_count; Z.of_nat (length rs)]) in
          let '(e4, seen) := iso_records stream_count [] rs in
          let missing := List.filter (fun s => negb (bool_decide (s ∈ seen))) (seqZ 0 stream_count) in
          e1 ++ e2 ++ e3 ++ e4 ++ unless (bool_decide (missing = [])) (Counts "ISO link quality missing slot(s)" missing)
      end
  end.

(** ** Stream transport limits *)

(** A non-negative double is [m * 2 ^ e]. *)
Record double : Type := mk_double { mantissa : Z; exponent : Z }.
(** The literals [0.90] and [0.05]. *)
Definition RX_VALID_RATIO_FLOOR : double := mk_double 8106479329266893 (-53).
Definition PLC_RATIO_CEILING : double := mk_double 3602879701896397 (-56).

(** [m / 2 ^ s] to the nearest integer, ties to even. *)
Definition round_shift (m s : Z) : Z :=
  let q := m / 2 ^ s in
  let r := m mod 2 ^ s in
  if (2 * r <? 2 ^ s) || ((2 * r =? 2 ^ s) && Z.even q) then q else q + 1.
(** [x * n] for [0 <= n < 2 ^ 53], an integer the conversion keeps exactly:
    the product rounded to 53 significant bits. *)
Definition times (x : double) (n : Z) : double :=
  let m := mantissa x * n in
  let s := Z.max 0 (Z.log2 m - 52) in
  mk_double (round_shift m s) (exponent x + s).

(** Comparisons of an integer with a double are exact. *)
Definition below_float (z : Z) (f : double) : bool :=
  if 0 <=? exponent f then z <? mantissa f * 2 ^ exponent f else z * 2 ^ (- exponent f) <? mantissa f.
Definition above_float (z : Z) (f : double) : bool :=
  if 0 <=? exponent f then mantissa f * 2 ^ exponent f <? z else mantissa f <? z * 2 ^ (- exponent f).
(** [int(f)] *)
Definition truncate (f : double) : Z :=
  if 0 <=? exponent f then mantissa f * 2 ^ exponent f else mantissa f / 2 ^ (- exponent f).

Definition required_zero (name : string) (v : option Z) : complaints :=
  match v with
  | None => [Says (name +:+ " missing (extended fields required)")]
  | Some z => unless (z =? 0) (Counts (name +:+ " (must be 0)") [z])
  end.

(** On a summary of [parse_stream_summary]. *)
Definition validate_stream_transport (s : stream_summary) (expected_submitted : Z) : complaints :=
  let e1 := match rx_valid s with
            | None => [Says "rx_valid missing (firmware summary without extended fields)"]
            | Some v =>
                let floor := times RX_VALID_RATIO_FLOOR expected_submitted in
                unless (negb (below_float v floor)) (Counts "rx_valid below floor" [v; truncate floor; expected_submitted])
            end in
  let e2 := required_zero "rx_error" (rx_error s) ++ required_zero "rx_unknown" (rx_unknown s)
            ++ required_zero "empty_sdu" (Some (empty_sdu s)) in
  let ceiling := times PLC_RATIO_CEILING (decoded s) in
  let e3 := unless (negb ((0 <? decoded s) && above_float (plc s) ceiling))
                   (Counts "plc above ceiling" [plc s; truncate ceiling; decoded s]) in
  e1 ++ e2 ++ e3.

(** ** Lemmas on the limits *)

Lemma pow2_pos s : 0 <= s -> 0 < 2 ^ s.
Proof. intros. apply Z.pow_pos_nonneg; lia. Qed.

Lemma round_shift_near m s : 0 <= m -> 0 <= s -> 2 * m - 2 ^ s <= 2 * (round_shift m s * 2 ^ s) <= 2 * m + 2 ^ s.
Proof.
  intros Hm Hs. unfold round_shift. pose proof (pow2_pos s Hs) as Hp. pose proof (Z.div_mod m (2 ^ s) ltac:(lia)) as Hd.
  pose proof (Z.mod_pos_bound m (2 ^ s) ltac:(lia)) as Hr.
  set (q := m / 2 ^ s) in *. set (r := m mod 2 ^ s) in *. set (p := 2 ^ s) in *. clearbody q r p.
  destruct (2 * r <? p) eqn:H1; simpl; [bool_to_prop; nia|]. destruct ((2 * r =? p) && Z.even q) eqn:H2; bool_to_prop; nia.
Qed.

(** Rounding does not cross a point of the grid. *)
Lemma round_shift_le m s k : 0 <= s -> m <= k * 2 ^ s -> round_shift m s <= k.
Proof.
  intros Hs Hm. unfold round_shift. pose proof (pow2_pos s Hs) as Hp. pose proof (Z.div_mod m (2 ^ s) ltac:(lia)) as Hd.
  pose proof (Z.mod_pos_bound m (2 ^ s) ltac:(lia)) as Hr.
  set (q := m / 2 ^ s) in *. set (r := m mod 2 ^ s) in *. set (p := 2 ^ s) in *. clearbody q r p.
  destruct ((2 * r <? p) || (2 * r =? p) && Z.even q) eqn:H; [nia|].
  apply orb_false_iff in H as [H _]. bool_to_prop. nia.
Qed.
Lemma round_shift_ge m s k : 0 <= s -> k * 2 ^ s <= m -> k <= round_shift m s.
Proof.
  intros Hs Hm. unfold round_shift. pose proof (pow2_pos s Hs) as Hp. pose proof (Z.div_mod m (2 ^ s) ltac:(lia)) as Hd.
  pose proof (Z.mod_pos_bound m (2 ^ s) ltac:(lia)) as Hr.
  set (q := m / 2 ^ s) in *. set (r := m mod 2 ^ s) in *. set (p := 2 ^ s) in *. clearbody q r p. destruct (_ || _); nia.
Qed.

(** A factor of the given size: how far the product is shifted. *)
Lemma shift_bounds c n lo : 0 < n -> 2 ^ lo <= c < 2 ^ (lo + 1) -> 0 <= lo ->
  Z.log2 n + lo <= Z.log2 (c * n) <= Z.log2 n + lo + 1.
Proof.
  intros Hn Hc Hlo. pose proof (pow2_pos lo Hlo). assert (0 < c) by lia. pose proof (Z.log2_mul_below c n ltac:(lia) Hn). pose proof (Z.log2_mul_above c n ltac:(lia) ltac:(lia)).
  assert (Z.log2 c = lo) as Hl by (apply Z.log2_unique; [lia | done]). lia.
Qed.

Lemma below_grid z m s k : 0 <= s <= k -> 0 <= k -> below_float z (mk_double m (- k + s)) = (z * 2 ^ (k - s) <? m).
Proof.
  intros Hs Hk. unfold below_float. simpl. destruct (Z.leb_spec 0 (- k + s)).
  - assert (s = k) as -> by lia. replace (- k + k) with 0 by lia. rewrite Z.sub_diag. f_equal; lia.
  - do 3 f_equal. lia.
Qed.
Lemma above_grid z m s k : 0 <= s <= k -> 0 <= k -> above_float z (mk_double m (- k + s)) = (m <? z * 2 ^ (k - s)).
Proof.
  intros Hs Hk. unfold above_float. simpl. destruct (Z.leb_spec 0 (- k + s)).
  - assert (s = k) as -> by lia. replace (- k + k) with 0 by lia. rewrite Z.sub_diag. f_equal; lia.
  - do 3 f_equal. lia.
Qed.

(** The scale of a product and what it means for [n]. *)
Lemma product_scale c n lo : 0 < n < 2 ^ 50 -> 2 ^ lo <= c < 2 ^ (lo + 1) -> 51 <= lo <= 52 ->
  exists s, Z.max 0 (Z.log2 (c * n) - 52) = s /\ 0 <= s <= 51 /\ n < 2 * 2 ^ s * 2 ^ (52 - lo) /\ 2 ^ s <= 2 * n.
Proof.
  intros [Hn Hb] Hc Hlo. pose proof (shift_bounds c n lo Hn Hc ltac:(lia)) as Hs. pose proof (Z.log2_nonneg n) as Hl.
  pose proof (Z.log2_spec n Hn) as [Hn1 Hn2]. rewrite <- Z.add_1_r in Hn2.
  assert (Z.log2 n < 50) as Hl50 by (apply Z.log2_lt_pow2; lia).
  exists (Z.max 0 (Z.log2 (c * n) - 52)). split; [done|]. set (s := Z.max _ _).
  assert (0 <= s <= 51 /\ Z.log2 n <= s + (52 - lo) /\ s <= Z.log2 n + 1) as (H1 & H2 & H3) by lia.
  split; [done|]. split.
  - assert (2 ^ (Z.log2 n + 1) <= 2 ^ (1 + s + (52 - lo))) as Hp by (apply Z.pow_le_mono_r; lia).
    rewrite !Z.pow_add_r in Hp by lia. rewrite Z.pow_add_r in Hn2 by lia. change (2 ^ 1) with 2 in *. lia.
  - assert (2 ^ s <= 2 ^ (Z.log2 n + 1)) as Hp by (apply Z.pow_le_mono_r; lia).
    rewrite Z.pow_add_r in Hp by lia. change (2 ^ 1) with 2 in *. lia.
Qed.

Lemma floor_limit z n : 0 < n < 2 ^ 50 -> below_float z (times RX_VALID_RATIO_FLOOR n) = (10 * z <? 9 * n).
Proof.
  intros Hn. destruct (product_scale 8106479329266893 n 52 Hn) as (s & Hs & Hs51 & Hns & Hsn); [done | lia|].
  unfold times, RX_VALID_RATIO_FLOOR. cbn [mantissa exponent]. rewrite Hs.
  change (-53 + s) with (Z.opp 53 + s). rewrite below_grid by lia.
  pose proof (round_shift_near (8106479329266893 * n) s ltac:(lia) ltac:(lia)) as Hr.
  set (R := round_shift _ _) in *. assert (2 ^ s * 2 ^ (53 - s) = 2 ^ 53) as Hp by (rewrite <- Z.pow_add_r by lia; f_equal; lia).
  pose proof (pow2_pos s ltac:(lia)) as Ha. pose proof (pow2_pos (53 - s) ltac:(lia)) as Hw.
  change (2 ^ 50) with 1125899906842624 in Hn. change (2 ^ 53) with 9007199254740992 in Hp. change (2 ^ (52 - 52)) with 1 in Hns.
  set (a := 2 ^ s) in *. set (w := 2 ^ (53 - s)) in *. clearbody R a w.
  assert (z * w * a = z * 9007199254740992) as Hz by (rewrite <- Hp; ring).
  destruct (10 * z <? 9 * n) eqn:H; bool_to_prop; [apply Z.ltb_lt | apply Z.ltb_ge]; nia.
Qed.

Lemma ceiling_limit z n : 0 < n < 2 ^ 50 -> above_float z (times PLC_RATIO_CEILING n) = (n <? 20 * z).
Proof.
  intros Hn. destruct (product_scale 3602879701896397 n 51 Hn) as (s & Hs & Hs51 & Hns & Hsn); [done | lia|].
  unfold times, PLC_RATIO_CEILING. cbn [mantissa exponent]. rewrite Hs.
  change (-56 + s) with (Z.opp 56 + s). rewrite above_grid by lia.
  pose proof (round_shift_near (3602879701896397 * n) s ltac:(lia) ltac:(lia)) as Hr.
  set (R := round_shift _ _) in *. assert (2 ^ s * 2 ^ (56 - s) = 2 ^ 56) as Hp by (rewrite <- Z.pow_add_r by lia; f_equal; lia).
  pose proof (pow2_pos s ltac:(lia)) as Ha. pose proof (pow2_pos (56 - s) ltac:(lia)) as Hw.
  change (2 ^ 50) with 1125899906842624 in Hn. change (2 ^ 56) with 72057594037927936 in Hp. change (2 ^ (52 - 51)) with 2 in Hns.
  set (a := 2 ^ s) in *. set (w := 2 ^ (56 - s)) in *. clearbody R a w.
  assert (z * w * a = z * 72057594037927936) as Hz by (rewrite <- Hp; ring).
  destruct (n <? 20 * z) eqn:H; bool_to_prop; [apply Z.ltb_lt | apply Z.ltb_ge]; nia.
Qed.

(** ** Lemmas on complaints *)

Lemma bind_nil {A} (f : A -> complaints) l : (l ≫= f) = [] <-> forall x, x ∈ l -> f x = [].
Proof.
  induction l as [|x l IH]; simpl; [split; [intros _ x Hx; by apply elem_of_nil in Hx | done]|].
  rewrite app_nil, IH. setoid_rewrite elem_of_cons. naive_solver.
Qed.
(** Complaints of a list of fields, given what one of them means. *)
Lemma all_fields (f : string -> complaints) (P : string -> Prop) (l : list string) : (forall x, f x = [] <-> P x) -> (forall x, x ∈ l -> f x = []) <-> forall x, x ∈ l -> P x.
Proof. intros H. split; intros Hl x Hx; apply H, Hl, Hx. Qed.
Lemma unless_nil b c : unless b c = [] <-> b = true.
Proof. by destruct b. Qed.
Lemma Ok_nil (a b : complaints) : @Ok receiver_exn _ a = Ok b <-> a = b.
Proof. split; [apply Ok_inj | by intros ->]. Qed.

(** Zero as the code compares it. *)
Definition zero (v : value) : Prop := v = IntV 0 \/ v = BoolV false.
Lemma eq_z_zero v : eq_z v 0 = true <-> zero v.
Proof.
  unfold zero, eq_z. destruct v as [|[]|z|]; simpl; try naive_solver. rewrite Z.eqb_eq. naive_solver.
Qed.
Lemma zero_present v : zero v -> absent v = false /\ is_none v = false.
Proof. by intros [->| ->]. Qed.

Lemma zero_counter_nil p d f l : zero_counter p d (f, l) = [] <-> zero (get d f).
Proof.
  unfold zero_counter. rewrite <- eq_z_zero. destruct (get d f) as [|[]|z|]; cbn [is_none]; rewrite ?unless_nil; naive_solver.
Qed.
Lemma zero_counters_nil p d (table : list (string * string)) : (table ≫= zero_counter p d) = [] <-> forall f, f ∈ table.*1 -> zero (get d f).
Proof.
  rewrite bind_nil. split.
  - intros H f (e & -> & He)%list_elem_of_fmap. destruct e as [f l]. by apply (zero_counter_nil p d f l), H.
  - intros H [f l] He. apply zero_counter_nil, H, list_elem_of_fmap. by exists (f, l).
Qed.

Lemma active_field_nil d f : active_field d "48_4_1" false f = [] <-> zero (get d f).
Proof.
  unfold active_field. cbn [negb andb String.eqb]. rewrite <- eq_z_zero. destruct (absent (get d f)) eqn:Ha; simpl.
  - split; [done|]. rewrite eq_z_zero. intros [H _]%zero_present. congruence.
  - by rewrite unless_nil.
Qed.
Lemma fault_field_nil d f : fault_field d false f = [] <-> zero (get d f).
Proof.
  unfold fault_field. simpl. rewrite <- eq_z_zero. destruct (absent (get d f)) eqn:Ha; simpl.
  - split; [done|]. rewrite eq_z_zero. intros [H _]%zero_present. congruence.
  - by rewrite unless_nil.
Qed.
Lemma stopped_field_nil d f : stopped_field d "48_4_1" false f = [] <-> get d f = IntV 0.
Proof.
  unfold stopped_field. cbn [negb andb String.eqb]. destruct (get d f) as [|[]|z|]; simpl; try naive_solver.
  unfold absent, eq_z. simpl. destruct (z =? -1) eqn:H1; [bool_to_prop; subst; naive_solver|].
  destruct (0 <=? z) eqn:H2; simpl; [|bool_to_prop; split; [done | intros [= ->]; lia]].
  destruct (z =? 0) eqn:H3; simpl; bool_to_prop; naive_solver.
Qed.

(** ** What a healthy snapshot is *)

Definition audio_clean (a : dict) : Prop := forall f, f ∈ AUDIO_LABELS.*1 -> zero (get a f).
Definition plane_healthy (h : dict) : Prop :=
  (forall f, f ∈ HS_FLAGS.*1 -> get h f = BoolV true) /\ (forall f, f ∈ HS_COUNTERS.*1 -> zero (get h f)).
(** An active 10 ms offload: everything submitted has succeeded, or, where the
    caller allows it, one submission is still pending. *)
Definition offload_live (pending : bool) (o : dict) : Prop :=
  get o "state" = StrV "ACTIVE"
  /\ (exists n, get o "submit" = IntV n /\ 1 <= n
       /\ (py_eq (IntV n) (get o "success") = true \/ pending = true /\ get o "success" = IntV (n - 1)))
  /\ forall f, f ∈ ACTIVE_FIELDS ++ _OFFLOAD_FAULT_FIELDS -> zero (get o f).
(** The stopped snapshot after it: the accounts are closed and grew. *)
Definition offload_stopped (a p : dict) : Prop :=
  get p "state" = StrV "STOPPED"
  /\ (exists n na ns, get p "submit" = IntV n /\ get p "success" = IntV n /\ 1 <= n
       /\ get a "submit" = IntV na /\ 0 <= na <= n /\ get a "success" = IntV ns /\ 0 <= ns < n)
  /\ forall f, f ∈ STOPPED_FIELDS -> get p f = IntV 0.

Lemma audio_clean_iff a : _validate_audio_faults a = [] <-> exists d, a = Some d /\ audio_clean d.
Proof. unfold _validate_audio_faults. destruct a as [d|]; [rewrite zero_counters_nil; unfold audio_clean | ]; naive_solver. Qed.

Lemma plane_healthy_iff h : _validate_handshake h = [] <-> exists d, h = Some d /\ plane_healthy d.
Proof.
  unfold _validate_handshake. destruct h as [d|]; [|naive_solver]. rewrite app_nil, zero_counters_nil, bind_nil. unfold plane_healthy.
  assert ((forall x, x ∈ HS_FLAGS -> flag_set d x = []) <-> forall f, f ∈ HS_FLAGS.*1 -> get d f = BoolV true) as ->; [|naive_solver].
  unfold flag_set. split.
  - intros H f (e & -> & He)%list_elem_of_fmap. specialize (H e He). destruct e. by apply unless_nil, bool_decide_eq_true in H.
  - intros H [f l] He. apply unless_nil, bool_decide_eq_true, H, list_elem_of_fmap. by exists (f, l).
Qed.

Lemma active_submits_iff d pending : active_submits d false pending false = [] <->
  exists n, get d "submit" = IntV n /\ 1 <= n
    /\ (py_eq (IntV n) (get d "success") = true \/ pending = true /\ get d "success" = IntV (n - 1)).
Proof.
  unfold active_submits. cbn [negb]. destruct (get d "submit") as [| |n|] eqn:Hs; simpl; try naive_solver.
  destruct (1 <=? n) eqn:Hn; simpl; bool_to_prop; [|split; [done | intros (? & [= <-] & ? & _); lia]].
  rewrite unless_nil, orb_true_iff, andb_true_iff.
  assert ((match strict_int (get d "success") with Some m => (0 <=? m) && eq_z (IntV n) (m + 1) | None => false end = true)
          <-> get d "success" = IntV (n - 1)) as ->.
  { destruct (get d "success") as [| |m|]; simpl; try naive_solver. unfold eq_z. simpl. rewrite andb_true_iff, Z.leb_le, Z.eqb_eq.
    split; [intros [? ->]; f_equal; lia | intros [= ->]; lia]. }
  naive_solver.
Qed.

Lemma offload_live_iff o pending : _validate_active_offload o "48_4_1" NoRecovery pending false = Ok [] <->
  exists d, o = Some d /\ offload_live pending d.
Proof.
  destruct o as [d|]; [|simpl; naive_solver]. unfold _validate_active_offload. rewrite String.eqb_refl. cbn [given mbind result_bind].
  rewrite Ok_nil, !app_nil, unless_nil, bool_decide_eq_true, active_submits_iff, !bind_nil. unfold offload_live.
  rewrite (all_fields _ (fun x => zero (get d x)) _ (active_field_nil d)), (all_fields _ (fun x => zero (get d x)) _ (fault_field_nil d)).
  split.
  - intros (Hs & Hn & Ha & _ & Hf). exists d. split_and!; [done.. |]. intros f [?|?]%elem_of_app; auto.
  - intros (d' & [= <-] & Hs & Hn & Hf). split_and!; [done.. | | done |]; intros f Hin; apply Hf, elem_of_app; auto.
Qed.

Lemma nonnegative_iff v n : nonnegative v = Some n <-> v = IntV n /\ 0 <= n.
Proof.
  unfold nonnegative. destruct v as [| |z|]; try naive_solver. destruct (Z.leb_spec 0 z).
  - split; [by intros [= ->] | by intros [[= ->] _]].
  - split; [done | intros [[= ->] ?]; lia].
Qed.

Lemma offload_stopped_iff a p : _validate_post_stop_offload (Some a) p "48_4_1" NoRecovery false = Ok [] <->
  exists d, p = Some d /\ offload_stopped a d.
Proof.
  destruct p as [d|]; [|simpl; naive_solver]. unfold _validate_post_stop_offload. cbn [given].
  assert (forall b, (match nonnegative (get d "submit"), nonnegative (get d "success") with
    | Some n, Some m => stopped_submits d "48_4_1" false false n m | _, _ => Ok [] end) = Ok b <->
    b = match nonnegative (get d "submit"), nonnegative (get d "success") with
        | Some n, Some m => unless (n =? m) (Says "post-stop offload submit/success mismatch")
                            ++ unless (1 <=? n) (Says "post-stop offload submit missing or zero")
        | _, _ => [] end) as Hsub.
  { intros b. destruct (nonnegative (get d "submit")), (nonnegative (get d "success")); rewrite ?Ok_nil; try (by split).
    unfold stopped_submits. rewrite String.eqb_refl. cbn [negb mbind result_bind]. rewrite Ok_nil. by split. }
  rewrite bind_Ok. setoid_rewrite Hsub. setoid_rewrite Ok_nil. rewrite String.eqb_refl. clear Hsub.
  split.
  - intros (e4 & -> & H). rewrite !app_nil, !unless_nil, !bool_decide_eq_true, bind_nil in H.
    destruct H as (Hst & [n Hn] & [m Hm] & H4 & H5 & H6 & _). rewrite Hn, Hm in *.
    apply app_nil in H4 as [H4 H4']. apply unless_nil in H4, H4'. bool_to_prop. subst m.
    unfold stopped_progress in H5. apply app_nil in H5 as [H5 H5'].
    destruct (nonnegative (get a "submit")) as [na|] eqn:Hna; [|done]. apply unless_nil, Z.leb_le in H5.
    destruct (nonnegative (get a "success")) as [ns|] eqn:Hns; [|done]. cbn [negb andb] in H5'.
    destruct (n <=? ns) eqn:Hle; [done|]. apply Z.leb_gt in Hle.
    apply nonnegative_iff in Hn as [Hn _], Hm as [Hm _], Hna as [Hna ?], Hns as [Hns ?].
    exists d. split; [done|]. split; [done|]. split; [exists n, na, ns; split_and!; done || lia|].
    intros f Hf. by apply stopped_field_nil, H6.
  - intros (d' & [= <-] & Hst & (n & na & ns & Hn & Hm & H1 & Hna & Hna' & Hns & Hns') & Hf).
    rewrite (proj2 (nonnegative_iff _ n)) by (split; [done | lia]). rewrite (proj2 (nonnegative_iff _ n)) by (split; [done | lia]).
    eexists. split; [reflexivity|]. unfold stopped_progress.
    rewrite (proj2 (nonnegative_iff (get a "submit") na)), (proj2 (nonnegative_iff (get a "success") ns)) by (split; [done | lia]).
    rewrite Hst. cbn [negb andb]. rewrite Z.eqb_refl, (proj2 (Z.leb_le 1 n)), (proj2 (Z.leb_le na n)), (proj2 (Z.leb_gt n ns)) by lia.
    rewrite !app_nil. split_and!; try done. apply bind_nil. intros f Hin. by apply stopped_field_nil, Hf.
Qed.

(** ** What an accepted recovery is *)

(** An integer entry, booleans included, and [get] with a default. *)
Definition int_is (d : dict) (field : string) (z : Z) : Prop := as_int (get d field) = Some z.
Definition int_or (d : dict) (field : string) (z : Z) : Prop := as_int (get_or (-1) d field) = Some z.
Lemma eq_z_iff v z : eq_z v z = true <-> as_int v = Some z.
Proof. unfold eq_z. destruct (as_int v); [rewrite Z.eqb_eq|]; naive_solver. Qed.

(** Relative to the runner's baseline: one more attempt, no failure, relapse or
    exhaustion, probation over and cleared once more, a new epoch, fallback and
    success both advanced, and the runtime restarted once (hang) or not at all
    (stall). *)
Record recovered (o b : dict) (restarts : Z) : Prop := mk_recovered {
  one_attempt : int_is o "recovery_attempts" (base b "recovery_attempts" + 1);
  no_failure : int_is o "recovery_fail" (base b "recovery_fail");
  no_relapse : int_is o "relapses" (base b "relapses");
  no_exhaustion : int_is o "exhaustion" (base b "exhaustion");
  probation_over : int_is o "probation_active" 0;
  probation_done : exists n, int_or o "probation_cleared" n /\ base b "probation_cleared" < n;
  new_epoch : ~ int_is o "epoch" (base b "epoch");
  fell_back : exists n, int_or o "fallback" n /\ base b "fallback" < n;
  resumed : exists n, int_or o "success" n /\ base b "success" < n;
  restarted : int_is o "runtime_restarts" (base b "runtime_restarts" + restarts) }.
Definition baseline_ok (b : dict) : Prop := forall f, f ∈ BASELINE_FIELDS -> exists n, int_is b f n /\ 0 <= n.

Lemma baseline_fields_nil b : (BASELINE_FIELDS ≫= baseline_field b) = [] <-> baseline_ok b.
Proof.
  rewrite bind_nil. apply all_fields. intros f. unfold baseline_field, int_is. rewrite unless_nil.
  destruct (as_int (get b f)); [rewrite Z.leb_le|]; naive_solver.
Qed.

Lemma less_Ok v z b : less v z = Ok b <-> exists n, as_int v = Some n /\ b = (n <? z).
Proof. unfold less. destruct (as_int v); naive_solver. Qed.
Lemma less_equal_Ok v z b : less_equal v z = Ok b <-> exists n, as_int v = Some n /\ b = (n <=? z).
Proof. unfold less_equal. destruct (as_int v); naive_solver. Qed.

Lemma if_unless (h : bool) (p q : bool) (c c' : complaint) : (if h then unless p c else unless q c') = [] <-> (if h then p else q) = true.
Proof. destruct h; apply unless_nil. Qed.

Lemma recovered_iff o r : _validate_recovery o (Recovery r) = Ok [] <->
  exists b, r_baseline r = Some b /\ baseline_ok b
    /\ (r_fault r = StrV "hang" /\ r_ack r = StrV "FAULT_HANG_ACK" /\ recovered o b 1
        \/ r_fault r = StrV "stall" /\ r_ack r = StrV "TIMED_STALL_ACK" /\ recovered o b 0).
Proof.
  unfold _validate_recovery. destruct (bool_decide (r_fault r = StrV "hang" \/ r_fault r = StrV "stall")) eqn:Hf; cbn [negb].
  2: { apply bool_decide_eq_false in Hf. split; [done|]. intros (b & _ & _ & [[? _]|[? _]]); naive_solver. }
  apply bool_decide_eq_true in Hf. destruct (r_baseline r) as [b|]; [|naive_solver].
  pose proof (baseline_fields_nil b) as Hb. destruct (BASELINE_FIELDS ≫= baseline_field b) as [|e es].
  2: { split; [done|]. intros (b' & [= <-] & H%Hb & _). done. }
  assert (baseline_ok b) as Hok by by apply Hb. clear Hb.
  assert (exists hang, bool_decide (r_fault r = StrV "hang") = hang /\ r_fault r = StrV (if hang then "hang" else "stall")) as (hang & -> & Hfault).
  { destruct Hf as [-> | ->]; [exists true | exists false]; done. }
  assert ((exists b0, Some b = Some b0 /\ baseline_ok b0
            /\ (r_fault r = StrV "hang" /\ r_ack r = StrV "FAULT_HANG_ACK" /\ recovered o b0 1
                \/ r_fault r = StrV "stall" /\ r_ack r = StrV "TIMED_STALL_ACK" /\ recovered o b0 0))
          <-> r_ack r = StrV (if hang then "FAULT_HANG_ACK" else "TIMED_STALL_ACK") /\ recovered o b (if hang then 1 else 0)) as ->.
  { rewrite Hfault. destruct hang; naive_solver. }
  rewrite bind_Ok. setoid_rewrite less_Ok. setoid_rewrite bind_Ok. setoid_rewrite less_equal_Ok. setoid_rewrite bind_Ok.
  setoid_rewrite less_equal_Ok. setoid_rewrite Ok_nil.
  split.
  - intros (u & (n1 & Hn1 & ->) & f & (n2 & Hn2 & ->) & g & (n3 & Hn3 & ->) & H).
    rewrite !app_nil, !if_unless, !unless_nil, !negb_true_iff, !eq_z_iff in H.
    destruct H as (He1 & He2 & He3 & He4 & He5 & He6 & He7 & He8 & He9 & He10 & He11). bool_to_prop. split.
    + destruct hang; by apply bool_decide_eq_true in He1.
    + split; try done.
      * exists n1. split; [done | lia].
      * intros H. apply eq_z_iff in H. congruence.
      * exists n2. split; [done | lia].
      * exists n3. split; [done | lia].
      * destruct hang; apply eq_z_iff in He11; unfold int_is; rewrite ?Z.add_0_r; done.
  - intros [Hack [H2 H3 H4 H5 H6 (n1 & Hn1 & Hl1) H8 (n2 & Hn2 & Hl2) (n3 & Hn3 & Hl3) H11]].
    exists (n1 <? base b "probation_cleared" + 1). split; [by exists n1|]. exists (n2 <=? base b "fallback"). split; [by exists n2|].
    exists (n3 <=? base b "success"). split; [by exists n3|].
    rewrite !app_nil, !if_unless, !unless_nil, !negb_true_iff, !eq_z_iff. split_and!; try done.
    + by destruct hang; apply bool_decide_eq_true.
    + apply Z.ltb_ge. lia.
    + apply not_true_iff_false. by rewrite eq_z_iff.
    + apply Z.leb_gt. lia.
    + apply Z.leb_gt. lia.
    + destruct hang; apply eq_z_iff; [done|]. unfold int_is in H11. by rewrite Z.add_0_r in H11.
Qed.

(** ** ISO link quality: what is accepted *)

Definition int_from (d : dict) (least : Z) (field : string) : Prop := exists n, get d field = IntV n /\ least <= n.
Definition iso_record_ok (d : dict) : Prop :=
  (forall f, f ∈ ISO_FIELDS -> int_from d 0 f) /\ (forall f, f ∈ ISO_SELECTED_FIELDS -> int_from d 1 f).

Lemma iso_fields_nil least d l : (l ≫= iso_field_check least d) = [] <-> forall f, f ∈ l -> int_from d least f.
Proof.
  rewrite bind_nil. apply all_fields. intros f. unfold iso_field_check, int_from. rewrite unless_nil.
  destruct (get d f); simpl; rewrite ?Z.leb_le; naive_solver.
Qed.

Lemma iso_slot_nil n seen v seen' : iso_slot_check n seen v = ([], seen') <->
  exists s, v = IntV s /\ 0 <= s < n /\ (s ∉ seen) /\ seen' = seen ++ [s].
Proof.
  unfold iso_slot_check. destruct (nonnegative v) as [s|] eqn:Hv.
  - apply nonnegative_iff in Hv as [-> Hs]. destruct (n <=? s) eqn:Hn; bool_to_prop.
    + split; [done|]. intros (s' & [= <-] & ? & _). lia.
    + case_bool_decide.
      * split; [done | naive_solver].
      * split; [intros [= <-]; exists s; split_and!; done || lia | by intros (s' & [= <-] & _ & _ & ->)].
  - split; [done|]. intros (s & -> & ? & _). by rewrite (proj2 (nonnegative_iff (IntV s) s)) in Hv by (split; [done | lia]).
Qed.

Lemma iso_records_nil n rs seen seen' : iso_records n seen rs = ([], seen') <->
  exists ds ss, rs = Some <$> ds /\ (fun d => get d "slot") <$> ds = IntV <$> ss /\ Forall iso_record_ok ds
    /\ seen' = seen ++ ss /\ Forall (fun s => 0 <= s < n) ss /\ NoDup ss /\ forall s, s ∈ ss -> s ∉ seen.
Proof.
  revert seen seen'. induction rs as [|[d|] rs IH]; intros seen seen'; cbn [iso_records].
  - split.
    + intros [= <-]. exists [], []. rewrite app_nil_r. split_and!; try done; constructor || (intros s Hs; by apply elem_of_nil in Hs).
    + intros (ds & ss & Hds & Hss & _ & -> & _). destruct ds; [|done]. destruct ss; [|done]. by rewrite app_nil_r.
  - destruct (iso_slot_check n seen (get d "slot")) as [e1 seen1] eqn:Hslot.
    destruct (iso_records n seen1 rs) as [es seen2] eqn:Hrs. split.
    + intros H%pair_equal_spec. destruct H as [H ->]. rewrite !app_nil, !iso_fields_nil in H. destruct H as (-> & Hf & Hs & ->).
      apply iso_slot_nil in Hslot as (s & Hv & Hr & Hni & ->). apply IH in Hrs as (ds & ss & -> & Hss & Hok & -> & Hrange & Hnd & Hfresh).
      exists (d :: ds), (s :: ss). rewrite !fmap_cons, Hv, Hss. split_and!; try done.
      * by constructor.
      * by rewrite <- app_assoc.
      * by constructor.
      * constructor; [|done]. intros Hin. apply (Hfresh s Hin). apply elem_of_app. right. left.
      * intros s' [->|Hin]%elem_of_cons; [done|]. intros Hin'. apply (Hfresh s' Hin), elem_of_app. by left.
    + intros (ds & ss & Hds & Hss & Hok & -> & Hrange & Hnd & Hfresh). destruct ds as [|d' ds]; [done|].
      destruct ss as [|s ss]; [done|]. rewrite fmap_cons in Hds. injection Hds as <- Hds. rewrite !fmap_cons in Hss.
      injection Hss as Hv Hss. apply Forall_cons in Hok as [[Hf Hs] Hok]. apply Forall_cons in Hrange as [Hr Hrange].
      apply NoDup_cons in Hnd as [Hni Hnd].
      assert (iso_slot_check n seen (get d "slot") = ([], seen ++ [s])) as Hslot'.
      { apply iso_slot_nil. exists s. split_and!; try done; [lia | lia | apply Hfresh; left]. }
      rewrite Hslot' in Hslot. injection Hslot as <- <-.
      assert (iso_records n (seen ++ [s]) rs = ([], (seen ++ [s]) ++ ss)) as Hrs'.
      { apply IH. exists ds, ss. split_and!; try done. intros s' Hin. rewrite not_elem_of_app, list_elem_of_singleton.
        split; [apply Hfresh; by right | by intros ->]. }
      rewrite Hrs' in Hrs. injection Hrs as <- <-. rewrite <- app_assoc.
      rewrite (proj2 (iso_fields_nil 0 d _) Hf), (proj2 (iso_fields_nil 1 d _) Hs). done.
  - destruct (iso_records n seen rs) as [es seen2]. split; [done|]. intros (ds & ss & Hds & _). by destruct ds.
Qed.

(** ** From a parse result to the dictionary *)

Lemma get_fmap {V} (f : V -> value) (d : list (string * V)) k : dict_get k ((fun '(k, v) => (k, f v)) <$> d) = f <$> dict_get k d.
Proof. induction d as [|[k' v] d IH]; [done|]. rewrite fmap_cons. simpl. by case_decide. Qed.

Lemma status_zero d k : zero (get (of_status d) k) -> dict_get k d = Some (VInt 0).
Proof.
  unfold get, of_status. rewrite get_fmap. destruct (dict_get k d) as [[|w|n]|]; simpl; intros [H|H]; try done. by injection H as ->.
Qed.

Lemma hs_present (h : handshake) k : k <> "header_seen"%string ->
  get (of_handshake h) k <> NoneV -> dict_get k (hs_fields h) <> Some HsNone /\ dict_get k (hs_fields h) <> None.
Proof.
  intros Hk. unfold get, of_handshake. simpl. rewrite decide_False by done. rewrite get_fmap.
  destruct (dict_get k (hs_fields h)) as [[]|]; simpl; naive_solver.
Qed.

Lemma app_nil4 {A} (a b c d : list A) : a ++ b ++ c ++ d = [] <-> a = [] /\ b = [] /\ c = [] /\ d = [].
Proof. by rewrite !app_nil. Qed.

(** ** Theorems *)

Module VerdictTheorems.

(** A live snapshot of a healthy 10 ms row is accepted, without a complaint,
    exactly when all audio fault counters are zero, the offload is live
    (active, something submitted and all of it successful, no fallback, fault
    or recovery) and the coprocessor plane is healthy. *)
Theorem healthy_snapshot_exact (audio offload plane : option dict) (pending : bool) :
  validate_receiver_blocks audio offload plane "48_4_1" NoRecovery pending = Ok [] <->
  exists a o h, audio = Some a /\ offload = Some o /\ plane = Some h
    /\ audio_clean a /\ offload_live pending o /\ plane_healthy h.
Proof.
  unfold validate_receiver_blocks. change (supported "48_4_1") with true. cbn [ensure mbind result_bind]. rewrite bind_Ok.
  setoid_rewrite Ok_nil. setoid_rewrite app_nil. setoid_rewrite app_nil. setoid_rewrite audio_clean_iff.
  setoid_rewrite plane_healthy_iff. split.
  - intros (e2 & H2 & Ha & -> & Hh). apply offload_live_iff in H2. naive_solver.
  - intros (a & o & h & -> & -> & -> & ? & ? & ?). exists []. split; [apply offload_live_iff; eauto|]. split_and!; eauto.
Qed.


(** A recovery is accepted exactly when it is the named one: its own
    acknowledgement, one more attempt that neither failed, relapsed nor
    exhausted, probation over, a new epoch, fallback and success advanced, and
    one runtime restart for a hang, none for a stall. *)
Theorem recovery_exact (o : dict) (r : recovery) :
  _validate_recovery o (Recovery r) = Ok [] <->
  exists b, r_baseline r = Some b /\ baseline_ok b
    /\ (r_fault r = StrV "hang" /\ r_ack r = StrV "FAULT_HANG_ACK" /\ recovered o b 1
        \/ r_fault r = StrV "stall" /\ r_ack r = StrV "TIMED_STALL_ACK" /\ recovered o b 0).
Proof. apply recovered_iff. Qed.

(** C32. The floating-point limits are the documented fractions: up to 2^50, one
    stream passes exactly when at least 90% of the submitted SDUs arrived
    valid, no error, unknown or empty SDU was counted, and concealment stayed
    within 5% of the decoded frames.  No rounding moves a limit. *)
Theorem transport_limits_exact (s : stream_summary) (expected : Z) :
  0 < expected < 2 ^ 50 -> 0 <= decoded s < 2 ^ 50 ->
  validate_stream_transport s expected = [] <->
  (exists v, rx_valid s = Some v /\ 9 * expected <= 10 * v) /\ rx_error s = Some 0 /\ rx_unknown s = Some 0 /\ empty_sdu s = 0
  /\ (0 < decoded s -> 20 * plc s <= decoded s).
Proof.
  intros He Hd. unfold validate_stream_transport. rewrite !app_nil. unfold required_zero.
  assert (forall b c, unless (negb b) c = [] <-> b = false) as Hu by (intros b c; rewrite unless_nil; apply negb_true_iff).
  rewrite Hu, andb_false_iff, Z.ltb_ge.
  assert ((decoded s <= 0 \/ above_float (plc s) (times PLC_RATIO_CEILING (decoded s)) = false) <-> (0 < decoded s -> 20 * plc s <= decoded s)) as ->.
  { destruct (decide (0 < decoded s)) as [H|H]; [|split; [lia | left; lia]].
    rewrite ceiling_limit, Z.ltb_ge by lia. split; [intros [?|?] _; lia | intros Hp; right; by apply Hp]. }
  destruct (rx_valid s) as [v|]; [|naive_solver].
  rewrite Hu, floor_limit, Z.ltb_ge by done.
  destruct (rx_error s) as [e|], (rx_unknown s) as [u|]; rewrite ?unless_nil, ?Z.eqb_eq; naive_solver.
Qed.

(** A link-quality snapshot is accepted exactly when its header was seen, its
    grammar was not malformed, and its records are one per stream: the slots
    are 0, 1, ..., n-1 in some order, every counter is a non-negative integer
    and every selected parameter a positive one. *)
Theorem iso_quality_exact (q : iso_snapshot) (n : Z) :
  validate_iso_link_quality (Some q) n = [] <->
  q_header q = BoolV true /\ q_malformed q <> BoolV true /\
  exists ds ss, q_streams q = Some (Some <$> ds) /\ (fun d => get d "slot") <$> ds = IntV <$> ss
    /\ ss ≡ₚ seqZ 0 n /\ Z.of_nat (length ds) = n /\ Forall iso_record_ok ds.
Proof.
  unfold validate_iso_link_quality. destruct (q_streams q) as [rs|].
  2: { rewrite !app_nil. split; [by intros (_ & _ & ?) | by intros (_ & _ & ? & ? & ? & _)]. }
  destruct (iso_records n [] rs) as [e4 seen] eqn:Hrs. rewrite !app_nil, !unless_nil, !bool_decide_eq_true, negb_true_iff, bool_decide_eq_false, Z.eqb_eq.
  assert (forall l : list Z, List.filter (fun s => negb (bool_decide (s ∈ seen))) l = [] <-> forall s, s ∈ l -> s ∈ seen) as Hm.
  { induction l as [|x l IH]; simpl; [split; [intros _ s Hs; by apply elem_of_nil in Hs | done]|].
    setoid_rewrite elem_of_cons. case_bool_decide; simpl; [rewrite IH; naive_solver | split; [done | naive_solver]]. }
  rewrite Hm. split.
  - intros (Hh & Hmal & Hlen & -> & Hmiss). apply iso_records_nil in Hrs as (ds & ss & -> & Hss & Hok & -> & Hr & Hnd & _).
    split_and!; [done..|]. exists ds, ss. split_and!; [done | done | | by rewrite length_fmap in Hlen | done].
    apply NoDup_Permutation; [done | apply NoDup_seqZ|]. intros s. rewrite elem_of_seqZ. split.
    + intros Hs. rewrite Forall_forall in Hr. specialize (Hr s Hs). lia.
    + intros Hs. specialize (Hmiss s). rewrite elem_of_seqZ in Hmiss. by apply Hmiss.
  - intros (Hh & Hmal & ds & ss & [= ->] & Hss & Hperm & Hlen & Hok).
    assert (iso_records n [] (Some <$> ds) = ([], [] ++ ss)) as Hrs'.
    { apply iso_records_nil. exists ds, ss. split_and!; try done.
      - apply Forall_forall. intros s. rewrite Hperm, elem_of_seqZ. lia.
      - rewrite Hperm. apply NoDup_seqZ.
      - intros s _. apply not_elem_of_nil. }
    rewrite Hrs' in Hrs. injection Hrs as <- <-. rewrite length_fmap. split_and!; try done. intros s. by rewrite <- Hperm.
Qed.

(** Missing evidence never passes: when the parsed transcripts of one snapshot
    are accepted as healthy, the console did print every line the verdict
    rests on - the last value of each audio counter is a printed zero, the
    offload's state, counter, recovery, probation and fault lines are present,
    and each handshake field was set by a line of its own grammar. *)
Theorem healthy_needs_evidence (ta to th : list ascii) a o h (pending : bool) :
  receiver_audio_faults ta = Some a -> receiver_offload_status to = Some o -> parse_flpr_handshake th = Some h ->
  validate_receiver_blocks (Some (of_audio a)) (Some (of_status o)) (Some (of_handshake h)) "48_4_1" NoRecovery pending = Ok [] ->
  (forall label field, (label, field) ∈ _AUDIO_FIELD_LABELS ->
     last_value label (finditer RE_AUDIO_FAULT_FIELD (strip_vt100 ta)) None = Some 0)
  /\ (forall r, r ∈ [RE_STATE_LINE; RE_COUNTERS; RE_RECOVERY; RE_PROBATION; RE_FAULTS] -> occurs r (strip_vt100 to))
  /\ (forall key, key ∈ HS_FIELDS -> exists line, line ∈ splitlines (strip_vt100 th) /\ hs_source key line).
Proof.
  intros Hta Hto Hth Hok. unfold validate_receiver_blocks in Hok. change (supported "48_4_1") with true in Hok.
  cbn [ensure mbind result_bind] in Hok. apply bind_Ok in Hok as (e2 & H2 & Hok). apply Ok_nil in Hok.
  apply app_nil in Hok as [Ha Hok]. apply app_nil in Hok as [-> Hh].
  apply audio_clean_iff in Ha as (da & [= <-] & Ha). apply plane_healthy_iff in Hh as (dh & [= <-] & Hf & Hc).
  apply offload_live_iff in H2 as (dd & [= <-] & Hstate & (n & Hsub & Hn & _) & Hz). split_and!.
  - intros label field Hin. unfold receiver_audio_faults in Hta. destruct (audio_faults_last _ _ label field Hta Hin) as [Hl _].
    assert (field ∈ AUDIO_LABELS.*1 /\ field <> "status_seen"%string) as [Hin' Hne].
    { revert Hin. unfold _AUDIO_FIELD_LABELS. rewrite !elem_of_cons, elem_of_nil.
      intros [[= _ ->]|[[= _ ->]|[[= _ ->]|[[= _ ->]|[]]]]]; (split; [apply (bool_decide_eq_true_1 _); reflexivity | done]). }
    specialize (Ha field Hin'). unfold get, of_audio in Ha. simpl in Ha. rewrite decide_False in Ha by done. rewrite get_fmap, Hl in Ha.
    destruct (last_value _ _ _) as [v|]; simpl in Ha; destruct Ha as [Ha|Ha]; try done. by injection Ha as ->.
  - destruct (sentinels _ _ Hto) as [Hs Hlines]. rewrite Forall_forall in Hlines.
    assert (forall i line key, numeric_lines !! i = Some line -> key ∈ line.2 -> (exists z, get (of_status o) key = IntV z /\ 0 <= z) -> occurs line.1 (strip_vt100 to)) as Hocc.
    { intros i line key Hl%list_elem_of_lookup_2 Hk (z & Hgz & Hz0). destruct (Hlines line Hl) as [[? _]|[_ Hm]]; [done|]. exfalso.
      unfold get, of_status in Hgz. rewrite get_fmap, (Hm key Hk) in Hgz. injection Hgz as <-. lia. }
    assert (forall f, f ∈ ACTIVE_FIELDS ++ _OFFLOAD_FAULT_FIELDS -> exists z, get (of_status o) f = IntV z /\ 0 <= z) as Hz'.
    { intros f Hfin. pose proof (status_zero o f (Hz f Hfin)) as Hd. exists 0. split; [|lia]. unfold get, of_status. by rewrite get_fmap, Hd. }
    intros r. rewrite !elem_of_cons, elem_of_nil. intros [->|[->|[->|[->|[->|[]]]]]].
    + destruct Hs as [[? _]|(_ & Hst & _)]; [done|]. unfold get, of_status in Hstate. by rewrite get_fmap, Hst in Hstate.
    + refine (Hocc 0%nat _ "submit"%string eq_refl _ _); [apply (bool_decide_eq_true_1 _); reflexivity | exists n; split; [done | lia]].
    + refine (Hocc 1%nat _ "relapses"%string eq_refl _ _); [apply (bool_decide_eq_true_1 _); reflexivity |].
      apply Hz', (bool_decide_eq_true_1 _); reflexivity.
    + refine (Hocc 2%nat _ "probation_active"%string eq_refl _ _); [apply (bool_decide_eq_true_1 _); reflexivity |].
      apply Hz', (bool_decide_eq_true_1 _); reflexivity.
    + refine (Hocc 3%nat _ "fault_full"%string eq_refl _ _); [apply (bool_decide_eq_true_1 _); reflexivity |].
      apply Hz', (bool_decide_eq_true_1 _); reflexivity.
  - unfold parse_flpr_handshake in Hth. apply hs_loop_source in Hth as [_ Hsrc]. intros key Hk.
    destruct (Hsrc key) as [Heq|Hl]; [exfalso | done].
    assert (dict_get key (hs_fields empty_handshake) = Some HsNone /\ key <> "header_seen"%string) as [Hempty Hne].
    { revert Hk. unfold HS_FIELDS. rewrite !elem_of_cons, elem_of_nil.
      intros Hk. repeat (destruct Hk as [->|Hk]; [by vm_compute|]). done. }
    rewrite Hempty in Heq.
    assert (get (of_handshake h) key <> NoneV) as Hp.
    { assert (key ∈ HS_FLAGS.*1 \/ key ∈ HS_COUNTERS.*1) as [Hin|Hin].
      { rewrite <- elem_of_app. exact Hk. }
      - by rewrite (Hf key Hin).
      - by destruct (Hc key Hin) as [-> | ->]. }
    by apply (hs_present h key Hne) in Hp as [? _].
Qed.
End VerdictTheorems.

Module VerdictWitnesses.
Import VerdictTheorems.

Definition demo_stream : stream_summary := mk_summary 0 1000 980 49 0 0 0 0 (Some 900) (Some 0) (Some 20) (Some 0) (Some 0).
Lemma transport_limits_exact_witness : validate_stream_transport demo_stream 1000 = [].
Proof.
  apply (transport_limits_exact demo_stream 1000); [by split | by split|].
  split_and!; [exists 900; split; [reflexivity | lia] | reflexivity | reflexivity | reflexivity | by intros _].
Defined.

Definition lines_of (l : list string) : list ascii := l ≫= fun s => chars s ++ [CR; newline].
Definition demo_faults : list ascii :=
  lines_of ["--- Audio status ---"; "  Decode errors : 0"; "  I2S underruns : 0"; "  Stream resets : 0"; "  Push failures : 0"]%string.
Definition demo_offload : list ascii :=
  lines_of ["  State      : ACTIVE / epoch=2 gen=1"; "  Counters   : submit=812 success=812 fallback=0 busy=0";
            "  Recovery   : attempts=0 fail=0 relapses=0 exhaustion=0"; "  Probation  : active=0 success=0 cleared=0";
            "  Faults     : timeout=0 full=0 stale=0 seq=0 frame=0 crc=0 payload=0"]%string.
Definition demo_plane : list ascii :=
  lines_of ["--- FLPR handshake ---"; "  Ready   : yes"; "  ACKed   : yes"; "  Healthy : yes"; "  Errors  : len=0 ver=0 unk=0 send=0";
            "  RX lost : 0"; "  RX dup  : 0"; "  RX ooo  : 0"; "  RX missed : 0"]%string.

Lemma healthy_needs_evidence_witness :
  exists a o h, receiver_audio_faults demo_faults = Some a /\ receiver_offload_status demo_offload = Some o
    /\ parse_flpr_handshake demo_plane = Some h
    /\ validate_receiver_blocks (Some (of_audio a)) (Some (of_status o)) (Some (of_handshake h)) "48_4_1" NoRecovery false = Ok []
    /\ occurs RE_COUNTERS (strip_vt100 demo_offload).
Proof.
  assert (exists a o h, receiver_audio_faults demo_faults = Some a /\ receiver_offload_status demo_offload = Some o
    /\ parse_flpr_handshake demo_plane = Some h
    /\ validate_receiver_blocks (Some (of_audio a)) (Some (of_status o)) (Some (of_handshake h)) "48_4_1" NoRecovery false = Ok [])
    as (a & o & h & Ha & Ho & Hh & Hv)
    by (do 3 eexists; split; [vm_compute; reflexivity|]; split; [vm_compute; reflexivity|]; split; vm_compute; reflexivity).
  exists a, o, h. repeat (split; [assumption|]).
  destruct (healthy_needs_evidence _ _ _ _ _ _ _ Ha Ho Hh Hv) as (_ & Hl & _). apply Hl. right. left.
Defined.
End VerdictWitnesses.
