(* ===== verification/HilSourceClient.v ===== *)
(** * The source console client (scripts/hil/source_client.py)

    One client over its console, clock and cancellation: command lines, record
    dispatch into the run tracker of [HilProtocol], the wait loops, [start]
    with its lifecycle hooks, the status validators and the bounded cleanup.
    The console's answers, the clock readings (microseconds) and the
    cancellation answers are streams, consumed in the order of the calls;
    every loop has fuel, and [OutOfFuel] is the model's own exception. *)

From S2P Require Import Prelude PyText PyRegex Json HilProtocol HilRows.

Module T := HilRunTracker.

(** ** Constants *)

Definition FIRMWARE_ID : string := "le-audio-hil-source-rh1".
Definition HELLO_CONSTANTS : list (string * Z) := [
  ("sample_rate", 48000); ("frame_samples_48_3_1", 360); ("octets_48_3_1", 90); ("sdu_mono_48_3_1", 90); ("sdu_modeb_48_3_1", 180);
  ("frame_samples_48_4_1", 480); ("octets_48_4_1", 120); ("sdu_mono_48_4_1", 120); ("sdu_modeb_48_4_1", 240);
  ("preamble_samples", 69120); ("tail_frames_48_3_1", 667); ("tail_frames_48_4_1", 500);
  ("left_carrier_hz", 997); ("right_carrier_hz", 1601); ("default_seed", 1218649181)]%string.

Definition is_hex_upper (c : ascii) : bool := is_digit c || between 65 70 c.
Definition IDENTITY_RE : re :=
  (Bol • Rep 2 (Cls is_hex_upper) • Rep 5 (Chr ":"%char • Rep 2 (Cls is_hex_upper)) • Eos)%re.

(** Microseconds. *)
Definition ACK_TIMEOUT : Z := 5000000.
Definition SYNC_TIMEOUT : Z := 15000000.
Definition SCORED_TIMEOUT : Z := 90000000.
Definition TERMINAL_TIMEOUT : Z := 120000000.
Definition STATUS_TIMEOUT : Z := 15000000.
Definition STOP_TIMEOUT : Z := 10000000.
Definition ABORT_TERMINAL_TIMEOUT : Z := 30000000.
Definition IDLE_TIMEOUT : Z := 30000000.
Definition MAX_COMMAND_LINE : nat := 512.

(** ** Exceptions *)

(** The messages of [SourceClientError]. *)
Inductive source_error : Type :=
| BadHook | LineTooLong | Malformed (e : parse_error) | Diagnostic | NoActiveRun | UnsolicitedStatus
| StatusCommand | StatusNotOk | StatusErrorNotOk | NoStatusResponse | HelloInvalid | StatusTimeout
| TerminalBeforeStreaming (segment : Z) | TerminalBeforeScored (segment : Z) | TerminalBeforeSegmentTeardown (segment : Z)
| TerminalBeforeReconnect (segment : Z) | NoTerminal | VerdictNotPass | NoAck | DeadlineExceeded
| FinalStatusInvalid (errors : list string) | ActiveStatusInvalid (errors : list string).

Inductive client_exn : Type :=
| SourceClientError (e : source_error)
| SourceClientCancelled
| TrackerError (e : exn track_error)      (** raised by [HilRunTracker.accept] *)
| LineError (e : exn parse_error)         (** not a [HilProtocolError] of the parser *)
| SerialConsoleError                      (** a failed write *)
| CleanupError (e : client_exn)           (** [SerialConsoleError ... from exc] *)
| AlreadyClosed                           (** registering on a closed cleanup stack *)
| HookError (text : string)
| OutOfFuel.

(** ** The client *)

Record sent_command : Type := mk_sent { s_command : string; s_id : string; s_line : string }.

Record client : Type := mk_client {
  cmd_seq : Z; tracker : option T.t; pending_status : option string; ack_seen : bool; raw_lines : list string;
  stop_registered : bool; idle_complete : bool; prestart_registered : bool;
  cleanups : list string;            (** names registered on the cleanup stack *)
  written : list sent_command;       (** every successful [console.write] *)
  hook_log : list (string * Z);      (** lifecycle hooks entered *)
  n_line : nat; n_clock : nat; n_cancel : nat;   (** stream positions *)
}.

Definition new_client : client := mk_client 0 None None false [] false false false [] [] [] 0 0 0.

Definition set_seq n (c : client) := mk_client n (tracker c) (pending_status c) (ack_seen c) (raw_lines c) (stop_registered c) (idle_complete c) (prestart_registered c) (cleanups c) (written c) (hook_log c) (n_line c) (n_clock c) (n_cancel c).
Definition set_tracker t (c : client) := mk_client (cmd_seq c) t (pending_status c) (ack_seen c) (raw_lines c) (stop_registered c) (idle_complete c) (prestart_registered c) (cleanups c) (written c) (hook_log c) (n_line c) (n_clock c) (n_cancel c).
Definition set_pending p (c : client) := mk_client (cmd_seq c) (tracker c) p (ack_seen c) (raw_lines c) (stop_registered c) (idle_complete c) (prestart_registered c) (cleanups c) (written c) (hook_log c) (n_line c) (n_clock c) (n_cancel c).
Definition set_ack (c : client) := mk_client (cmd_seq c) (tracker c) (pending_status c) true (raw_lines c) (stop_registered c) (idle_complete c) (prestart_registered c) (cleanups c) (written c) (hook_log c) (n_line c) (n_clock c) (n_cancel c).
Definition add_line l (c : client) := mk_client (cmd_seq c) (tracker c) (pending_status c) (ack_seen c) (raw_lines c ++ [l]) (stop_registered c) (idle_complete c) (prestart_registered c) (cleanups c) (written c) (hook_log c) (n_line c) (n_clock c) (n_cancel c).
Definition set_idle b (c : client) := mk_client (cmd_seq c) (tracker c) (pending_status c) (ack_seen c) (raw_lines c) (stop_registered c) b (prestart_registered c) (cleanups c) (written c) (hook_log c) (n_line c) (n_clock c) (n_cancel c).
Definition register_stop (c : client) := mk_client (cmd_seq c) (tracker c) (pending_status c) (ack_seen c) (raw_lines c) true (idle_complete c) (prestart_registered c) (cleanups c ++ ["source stop/idle"%string]) (written c) (hook_log c) (n_line c) (n_clock c) (n_cancel c).
Definition register_prestart (c : client) := mk_client (cmd_seq c) (tracker c) (pending_status c) (ack_seen c) (raw_lines c) (stop_registered c) (idle_complete c) true (cleanups c ++ ["source pre-start idle"%string]) (written c) (hook_log c) (n_line c) (n_clock c) (n_cancel c).
Definition add_written x (c : client) := mk_client (cmd_seq c) (tracker c) (pending_status c) (ack_seen c) (raw_lines c) (stop_registered c) (idle_complete c) (prestart_registered c) (cleanups c) (written c ++ [x]) (hook_log c) (n_line c) (n_clock c) (n_cancel c).
Definition add_hook x (c : client) := mk_client (cmd_seq c) (tracker c) (pending_status c) (ack_seen c) (raw_lines c) (stop_registered c) (idle_complete c) (prestart_registered c) (cleanups c) (written c) (hook_log c ++ [x]) (n_line c) (n_clock c) (n_cancel c).
Definition next_positions l k x (c : client) := mk_client (cmd_seq c) (tracker c) (pending_status c) (ack_seen c) (raw_lines c) (stop_registered c) (idle_complete c) (prestart_registered c) (cleanups c) (written c) (hook_log c) (n_line c + l)%nat (n_clock c + k)%nat (n_cancel c + x)%nat.

Definition is_diagnostic_record (r : HilRecord) : bool :=
  (String.eqb (command_id r) "boot" && String.eqb (run_id r) "boot") ||
  (String.eqb (command_id r) "parse-error" && String.eqb (run_id r) "unbound").

Section client.
(** The console's lines ([None]: nothing within the timeout), the clock, the
    cancellation and whether write [n] works; [has_cleanup] tells whether a
    cleanup stack was given; [float_is lit n] is [float(lit) == n]. *)
Context (rid : string) (next : nat -> option string) (clock : nat -> Z) (cancel : nat -> bool) (write_ok : nat -> bool)
  (has_cleanup cleanup_open : bool) (float_is : string -> Z -> bool).

Abbreviation M A := (method client client_exn A).
Definition fail {A} (e : source_error) : M A := raise (SourceClientError e).
Definition require (b : bool) (e : source_error) : M unit := check b (SourceClientError e).

(** *** Commands *)

Definition pad4 (n : Z) : string :=
  let d := chars (dec n) in of_chars (replicate (4 - length d) "0"%char ++ d).
Definition _next_command_id : M string :=
  c ← self; assign (set_seq (cmd_seq c + 1));; mret ("cmd-" ++ pad4 (cmd_seq c + 1))%string.

Definition payload (command cid : string) (extra : list (string * json)) : list (string * json) :=
  fold_left (fun d '(k, v) => dict_set k v d) extra
    [("protocol_version", JInt 1); ("command", JStr command); ("command_id", JStr cid); ("run_id", JStr rid)]%string.

Definition _command_line (command cid : string) (extra : list (string * json)) : result client_exn string :=
  let line := chars "hil " ++ dump false (JObj (payload command cid extra)) in
  ensure (length line <? MAX_COMMAND_LINE)%nat (SourceClientError LineTooLong);; Ok (of_chars line).

Definition _send (command cid line : string) : M unit :=
  c ← self;
  if write_ok (length (written c)) then assign (add_written (mk_sent command cid (line ++ String newline EmptyString)))
  else raise SerialConsoleError.

Definition _check_cancel (enabled : bool) : M unit :=
  if enabled then c ← self; assign (next_positions 0 0 1);; check (negb (cancel (n_cancel c))) SourceClientCancelled else mret tt.

Definition read_clock : M Z := c ← self; assign (next_positions 0 1 0);; mret (clock (n_clock c)).
Definition next_line : M (option string) := c ← self; assign (next_positions 1 0 0);; mret (next (n_line c)).

(** *** Records *)

(** [(record, line)]; a line that is no HIL1 record has no record. *)
Definition _next_record (check_cancel : bool) : M (option HilRecord * option string) :=
  _check_cancel check_cancel;;
  l ← next_line;
  _check_cancel check_cancel;;
  match l with
  | None => mret (None, None)
  | Some text =>
      assign (add_line text);;
      match parse_hil1_line (LStr text) with
      | Err (HilProtocolError e) => fail (Malformed e)
      | Err e => raise (LineError e)
      | Ok (Some r) => require (negb (is_diagnostic_record r)) Diagnostic;; mret (Some r, l)
      | Ok None => mret (None, l)
      end
  end.

(** [self._tracker.accept(record)] *)
Definition track (t : T.t) (r : HilRecord) : M unit :=
  let '(res, t') := T.accept r t in
  assign (set_tracker (Some t'));;
  match res with Ok _ => mret tt | Err e => raise (TrackerError e) end.

Definition _dispatch (r : HilRecord) : M (option HilRecord) :=
  c ← self;
  match tracker c with
  | None => fail NoActiveRun
  | Some t =>
      if String.eqb (kind r) "status" then
        if bool_decide (pending_status c = Some (command_id r)) then assign (set_pending None);; mret (Some r)
        else fail UnsolicitedStatus
      else
        (if String.eqb (kind r) "ack" && String.eqb (command_id r) (T.command_id t) then assign set_ack else mret tt);;
        track t r;; mret None
  end.

Definition get (d : list (string * json)) (k : string) : json := default JNull (dict_get k d).

(** [v == s] and [v == n]; a Boolean equals 0 or 1. *)
Definition eq_str (v : json) (s : string) : bool := match v with JStr x => String.eqb x s | _ => false end.
Definition eq_int (v : json) (n : Z) : bool :=
  match v with JInt z => z =? n | JBool b => (if b then 1 else 0) =? n | JFloat lit => float_is lit n | _ => false end.
(** [v is b] *)
Definition is_bool (v : json) (b : bool) : bool := match v with JBool x => Bool.eqb x b | _ => false end.
(** [isinstance(v, int)] *)
Definition as_int (v : json) : option Z := match v with JInt z => Some z | JBool b => Some (if b then 1 else 0) | _ => None end.

Definition _require_status_ok (r : HilRecord) (expected : string) : M unit :=
  require (eq_str (get (data r) "command") expected) StatusCommand;;
  require (is_bool (get (data r) "ok") true) StatusNotOk;;
  require (eq_str (get (data r) "error") "ok") StatusErrorNotOk.

Definition is_response (cid : string) (r : HilRecord) : bool := String.eqb (kind r) "status" && String.eqb (command_id r) cid.

(** The loop shared by the bounded waits: one record at a time until [found],
    which a matching record or the client's state may answer; the deadline is
    looked at only when no record came. *)
Fixpoint wait_loop (fuel : nat) (check_cancel : bool) (deadline : Z) (cid : string) (expired : source_error) : M HilRecord :=
  match fuel with
  | O => raise OutOfFuel
  | S fuel =>
      _check_cancel check_cancel;;
      now ← read_clock;
      '(r, _) ← _next_record check_cancel;
      match r with
      | None => if deadline - now <=? 0 then fail expired else wait_loop fuel check_cancel deadline cid expired
      | Some r => if is_response cid r then mret r else _dispatch r;; wait_loop fuel check_cancel deadline cid expired
      end
  end.

Definition _wait_status (fuel : nat) (cid expected : string) (timeout : Z) (check_cancel : bool) : M HilRecord :=
  now ← read_clock;
  r ← wait_loop fuel check_cancel (now + timeout) cid NoStatusResponse;
  _require_status_ok r expected;;
  mret r.

(** *** Synchronous commands *)

Definition _sync_command (fuel : nat) (command expected : string) (timeout : Z) (check_cancel : bool) (extra : list (string * json)) : M HilRecord :=
  _check_cancel check_cancel;;
  cid ← _next_command_id;
  line ← lift (_command_line command cid extra);
  _send command cid line;;
  _wait_status fuel cid expected timeout check_cancel.

Definition idle (fuel : nat) (check_cancel : bool) : M unit :=
  _sync_command fuel "idle" "idle" IDLE_TIMEOUT check_cancel [];; assign (set_idle true).
Definition unpair (fuel : nat) (peer_address peer_address_type : string) : M unit :=
  _sync_command fuel "unpair" "unpair" SYNC_TIMEOUT true [("peer_address", JStr peer_address); ("peer_address_type", JStr peer_address_type)]%string;; mret tt.
Definition configure (fuel : nat) (peer_address peer_address_type : string) (r : RowSpec) : M unit :=
  _sync_command fuel "configure" "configure" SYNC_TIMEOUT true
    [("peer_address", JStr peer_address); ("peer_address_type", JStr peer_address_type); ("mode", JStr (mode r)); ("profile", JStr (profile r));
     ("scored_sdu_count", JInt (scored_sdu_count r)); ("signal_seed", JInt (signal_seed r)); ("reconnect_policy", JStr (reconnect_policy r))]%string;;
  mret tt.
Definition stop (fuel : nat) (check_cancel : bool) : M unit :=
  _sync_command fuel "stop" "stop" STOP_TIMEOUT check_cancel [];; mret tt.

Record SourceSnapshot : Type := mk_snapshot {
  sn_firmware_id : json; sn_protocol_version : json; sn_identity : json; sn_identity_type : json; sn_active : json; sn_state : json;
  sn_segment : json; sn_bond_count : json;
}.
Definition snapshot_of (d : list (string * json)) : SourceSnapshot :=
  mk_snapshot (get d "firmware_id") (get d "protocol_version") (get d "identity") (get d "identity_type") (get d "active") (get d "state")
    (get d "segment") (get d "bond_count").

Definition _validate_hello (s : SourceSnapshot) (d : list (string * json)) : M unit :=
  require (eq_str (sn_firmware_id s) FIRMWARE_ID) HelloInvalid;;
  require (eq_int (sn_protocol_version s) 1) HelloInvalid;;
  require (is_bool (sn_active s) false && eq_str (sn_state s) "idle") HelloInvalid;;
  require (eq_int (sn_segment s) 0) HelloInvalid;;
  require (match sn_identity s with JStr i => bool_decide (is_Some (re_match IDENTITY_RE (chars i))) | _ => false end) HelloInvalid;;
  require (eq_str (sn_identity_type s) "public" || eq_str (sn_identity_type s) "random") HelloInvalid;;
  require (forallb (fun '(k, n) => eq_int (get d k) n) HELLO_CONSTANTS) HelloInvalid.

Definition hello (fuel : nat) : M SourceSnapshot :=
  r ← _sync_command fuel "hello" "hello" SYNC_TIMEOUT true [];
  _validate_hello (snapshot_of (data r)) (data r);;
  mret (snapshot_of (data r)).

Definition query_status (fuel : nat) : M (list (string * json)) :=
  cid ← _next_command_id;
  assign (set_pending (Some cid));;
  line ← lift (_command_line "status" cid []);
  _send "status" cid line;;
  now ← read_clock;
  r ← wait_loop fuel true (now + STATUS_TIMEOUT) cid StatusTimeout;
  _require_status_ok r "status";;
  assign (set_pending None);;
  mret (data r).

(** *** Tracking a run *)

(** The waits on the tracked run: [done] is asked before every record. *)
Fixpoint drive_loop (fuel : nat) (check_cancel : bool) (deadline : Z) (done : client -> bool) (expired : source_error) : M unit :=
  match fuel with
  | O => raise OutOfFuel
  | S fuel =>
      c ← self;
      if done c then mret tt else
      _check_cancel check_cancel;;
      now ← read_clock;
      '(r, _) ← _next_record check_cancel;
      match r with
      | None =>
          if deadline - now <=? 0 then c ← self; require (done c) expired
          else drive_loop fuel check_cancel deadline done expired
      | Some r => _dispatch r;; drive_loop fuel check_cancel deadline done expired
      end
  end.

Definition _wait_ack (fuel : nat) (timeout : Z) : M unit :=
  now ← read_clock; drive_loop fuel true (now + timeout) ack_seen NoAck.

Definition on_tracker (p : T.t -> bool) (c : client) : bool := match tracker c with Some t => p t | None => false end.
Definition _drive_until (fuel : nat) (p : T.t -> bool) (timeout : Z) (check_cancel : bool) : M unit :=
  now ← read_clock; drive_loop fuel check_cancel (now + timeout) (on_tracker p) DeadlineExceeded.

Definition ended (t : T.t) : bool := bool_decide (is_Some (T.terminal t)).
(** [t.segment == segment and t.state_index >= index or t.terminal is not None] *)
Definition reached (seg index : Z) (t : T.t) : bool := (bool_decide (T.segment t = Some seg) && (index <=? T.state_index t)) || ended t.
Definition in_segment (seg : Z) (t : T.t) : bool := bool_decide (T.segment t = Some seg) || ended t.

(** [protocol.STATES.index(name)] *)
Definition STREAMING : Z := default 0 (py_index "streaming"%string STATES).
Definition SCORED_COMPLETE : Z := default 0 (py_index "scored_complete"%string STATES).

Inductive hook : Type := NoHook | BadSignature | Legacy (f : M unit) | RowAware (f : Z -> M unit).

Definition _invoke_segment_hook (name : string) (h : hook) (seg : Z) : M unit :=
  match h with
  | NoHook => mret tt
  | BadSignature => fail BadHook
  | Legacy f => assign (add_hook (name, seg));; f
  | RowAware f => assign (add_hook (name, seg));; f seg
  end.

Record hooks : Type := mk_hooks { before_start : hook; scored_complete : hook; segment_teardown : hook; streaming : hook }.

(** [if self._tracker.terminal is not None: raise] *)
Definition no_terminal_yet (e : source_error) : M unit := c ← self; require (negb (on_tracker ended c)) e.

Definition run_segment (fuel : nat) (h : hooks) (scored_timeout terminal_timeout : Z) (last : bool) (seg : Z) : M unit :=
  _drive_until fuel (reached seg STREAMING) scored_timeout true;;
  no_terminal_yet (TerminalBeforeStreaming seg);;
  _invoke_segment_hook "streaming" (streaming h) seg;;
  _drive_until fuel (reached seg SCORED_COMPLETE) scored_timeout true;;
  no_terminal_yet (TerminalBeforeScored seg);;
  _invoke_segment_hook "scored_complete" (scored_complete h) seg;;
  _drive_until fuel (reached seg T.TEARDOWN) terminal_timeout true;;
  no_terminal_yet (TerminalBeforeSegmentTeardown seg);;
  _invoke_segment_hook "segment_teardown" (segment_teardown h) seg;;
  if last then mret tt else
    _drive_until fuel (in_segment (seg + 1)) terminal_timeout true;;
    no_terminal_yet (TerminalBeforeReconnect (seg + 1)).

Fixpoint run_segments (fuel : nat) (h : hooks) (scored_timeout terminal_timeout : Z) (count : Z) (segs : list Z) : M unit :=
  match segs with
  | [] => mret tt
  | seg :: segs' =>
      run_segment fuel h scored_timeout terminal_timeout (count - 1 <=? seg) seg;;
      run_segments fuel h scored_timeout terminal_timeout count segs'
  end.

(** *** Status snapshots *)

Definition label (b : bool) (name : string) : list string := if b then [] else [name].
Definition num (n : nat) : string := dec (Z.of_nat n).

Definition final_stream_errors (r : RowSpec) (index : nat) (v : json) : list string :=
  match v with
  | JObj d =>
      label (bool_decide (as_int (get d "sub") = Some (expected_submitted_per_stream r))) ("submitted " ++ num index) ++
      label (eq_int (get d "sc") (expected_scored_per_stream r)) ("scored " ++ num index) ++
      label (eq_int (get d "sf") 0) ("send_failures " ++ num index) ++ label (eq_int (get d "out") 0) ("outstanding " ++ num index)
  | _ => ["not object " ++ num index]%string
  end.

Definition streams_errors (check : nat -> json -> list string) (count : Z) (v : json) : list string :=
  match v with
  | JArr l => if Z.of_nat (length l) =? count then concat (imap check l) else ["streams shape"]%string
  | _ => ["streams shape"]%string
  end.

Definition final_errors (d : list (string * json)) (r : RowSpec) : list string :=
  label (is_bool (get d "active") false) "active" ++ label (eq_str (get d "state") "teardown") "state" ++
  label (is_bool (get d "aborted") false) "aborted" ++ label (eq_str (get d "verdict") "pass") "verdict" ++
  label (eq_int (get d "first_errno") 0) "first_errno" ++ label (eq_str (get d "mode") (mode r)) "mode" ++
  label (eq_str (get d "profile") (profile r)) "profile" ++ label (eq_str (get d "reconnect") (reconnect_policy r)) "reconnect" ++
  label (eq_int (get d "scored_target") (scored_sdu_count r)) "scored_target" ++
  label (eq_int (get d "segment") (segment_count r - 1)) "segment" ++ label (eq_int (get d "stream_count") (stream_count r)) "stream_count" ++
  streams_errors (final_stream_errors r) (stream_count r) (get d "streams") ++
  label (is_bool (get d "connected") false) "connected" ++ label (is_bool (get d "group") false) "group" ++
  label (eq_int (get d "security_level") 0) "security_level" ++ label (eq_int (get d "security_error") 0) "security_error" ++
  label (eq_int (get d "sink_ase_count") 0) "sink_ase_count" ++ label (eq_int (get d "bond_count") 1) "bond_count".

Definition _validate_final_status (d : list (string * json)) (r : RowSpec) : M unit :=
  require (bool_decide (final_errors d r = [])) (FinalStatusInvalid (final_errors d r)).

(** [isinstance(v, int) and v >= lo] *)
Definition int_at_least (lo : Z) (v : json) : bool := match as_int v with Some z => lo <=? z | None => false end.

Definition active_stream_errors (index : nat) (v : json) : list string :=
  match v with
  | JObj d =>
      label (eq_int (get d "sf") 0) ("send_failures " ++ num index) ++ label (int_at_least 0 (get d "sub")) ("submitted " ++ num index) ++
      label (int_at_least 0 (get d "sc")) ("scored " ++ num index) ++ label (int_at_least 0 (get d "out")) ("outstanding " ++ num index) ++
      label (int_at_least 0 (get d "cb")) ("callbacks " ++ num index)
  | _ => ["not object " ++ num index]%string
  end.

Definition active_errors (d : list (string * json)) (r : RowSpec) (seg : Z) : list string :=
  label (is_bool (get d "active") true) "active" ++ label (eq_str (get d "state") "streaming") "state" ++
  label (eq_int (get d "segment") seg) "segment" ++ label (is_bool (get d "aborted") false) "aborted" ++
  label (eq_str (get d "verdict") "none") "verdict" ++ label (eq_int (get d "first_errno") 0) "first_errno" ++
  label (eq_str (get d "mode") (mode r)) "mode" ++ label (eq_str (get d "profile") (profile r)) "profile" ++
  label (eq_str (get d "reconnect") (reconnect_policy r)) "reconnect" ++
  label (eq_int (get d "scored_target") (scored_sdu_count r)) "scored_target" ++ label (eq_int (get d "stream_count") (stream_count r)) "stream_count" ++
  streams_errors active_stream_errors (stream_count r) (get d "streams") ++
  label (is_bool (get d "connected") true) "connected" ++ label (is_bool (get d "group") true) "group" ++
  label (int_at_least 2 (get d "security_level")) "security_level" ++ label (eq_int (get d "security_error") 0) "security_error" ++
  label (int_at_least (stream_count r) (get d "sink_ase_count")) "sink_ase_count" ++ label (eq_int (get d "bond_count") 1) "bond_count".

Definition validate_active_status (d : list (string * json)) (r : RowSpec) (seg : Z) : M unit :=
  require (bool_decide (active_errors d r seg = [])) (ActiveStatusInvalid (active_errors d r seg)).

(** *** Start *)

Definition register_stop_cleanup : M unit :=
  c ← self;
  if has_cleanup && negb (stop_registered c) then check cleanup_open AlreadyClosed;; assign register_stop else mret tt.

Definition terminal_verdict (t : T.t) : json := match T.terminal t with Some r => get (data r) "verdict" | None => JNull end.

(** The timeouts of the call, in microseconds; [None] takes the row's default. *)
Definition start (fuel : nat) (row : option RowSpec) (h : hooks) (ack_timeout : Z) (scored_timeout terminal_timeout : option Z)
    : M (list (string * json)) :=
  let r := default RH2_ROW row in
  let scored_timeout := default (minimum_scored_interval_us r + SCORED_TIMEOUT) scored_timeout in
  let terminal_timeout := default (minimum_scored_interval_us r + TERMINAL_TIMEOUT) terminal_timeout in
  _check_cancel true;;
  cid ← _next_command_id;
  assign (set_idle false);;
  assign (set_tracker (Some (T.init rid cid)));;
  register_stop_cleanup;;
  _invoke_segment_hook "before_start" (before_start h) 0;;
  line ← lift (_command_line "start" cid []);
  _send "start" cid line;;
  _wait_ack fuel ack_timeout;;
  run_segments fuel h scored_timeout terminal_timeout (segment_count r) (seqZ 0 (segment_count r));;
  _drive_until fuel ended terminal_timeout true;;
  c ← self;
  require (on_tracker ended c) NoTerminal;;
  require (on_tracker (fun t => eq_str (terminal_verdict t) "pass") c) VerdictNotPass;;
  status ← query_status fuel;
  _validate_final_status status r;;
  mret status.

(** *** Bounded cleanup *)

(** [try: m except SourceClientError as exc: handler] *)
Definition except_source {A} (m : M A) (handler : source_error -> M A) : M A := fun c =>
  match m c with
  | (Err (SourceClientError e), c') => handler e c'
  | r => r
  end.

Fixpoint _drain_queued_records (fuel : nat) : M unit :=
  match fuel with
  | O => raise OutOfFuel
  | S fuel =>
      '(r, l) ← _next_record false;
      match l with
      | None => mret tt
      | Some _ => match r with Some r => _dispatch r;; mret tt | None => mret tt end;; _drain_queued_records fuel
      end
  end.

Definition _bounded_stop (fuel : nat) : M unit :=
  c ← self;
  if bool_decide (tracker c = None) || idle_complete c then mret tt else
  _drain_queued_records fuel;;
  c ← self;
  (if on_tracker ended c then mret tt else
     except_source (stop fuel false) (fun _ => mret tt);;
     c ← self;
     if on_tracker ended c then mret tt
     else except_source (_drive_until fuel ended ABORT_TERMINAL_TIMEOUT false) (fun _ => mret tt));;
  except_source (idle fuel false) (fun e => raise (CleanupError (SourceClientError e))).

Definition register_prestart_cleanup : M unit :=
  c ← self;
  if negb has_cleanup || prestart_registered c then mret tt
  else assign (set_idle false);; check cleanup_open AlreadyClosed;; assign register_prestart.

Definition _bounded_prestart_idle (fuel : nat) : M unit :=
  c ← self;
  if idle_complete c || bool_decide (is_Some (tracker c)) then mret tt
  else except_source (idle fuel false) (fun e => raise (CleanupError (SourceClientError e))).
End client.

(** ** How a client evolves *)

Module ClientTheorems.

Definition command_id_of (n : Z) : string := ("cmd-" ++ pad4 n)%string.

(** The command counter only grows, and every line written since has its own
    number, taken since. *)
Definition sends (c c' : client) : Prop :=
  cmd_seq c <= cmd_seq c' /\
  exists new ns, written c' = written c ++ new /\ (s_id <$> new) = command_id_of <$> ns /\
    NoDup ns /\ Forall (fun n => cmd_seq c < n <= cmd_seq c') ns.

(** [c'] is [c] some calls later: nothing read is forgotten either, and the
    tracker has only moved by accepting records. *)
Record evolves (c c' : client) : Prop := mk_evolves {
  ev_sends : sends c c';
  ev_lines : raw_lines c `prefix_of` raw_lines c';
  ev_tracker : match tracker c with
               | Some t => exists rs t', tracker c' = Some t' /\ T.run t rs = Ok t'
               | None => tracker c' = None
               end;
}.

Lemma run_app t rs rs' t' : T.run t rs = Ok t' -> T.run t (rs ++ rs') = T.run t' rs'.
Proof.
  revert t. induction rs as [|r rs IH]; intros t; simpl; [by intros [= ->]|].
  destruct (T.accept r t) as [[u|e] t1]; [apply IH | done].
Qed.

Lemma sends_same c c' : cmd_seq c <= cmd_seq c' -> written c' = written c -> sends c c'.
Proof.
  intros Hs Hw. split; [done|]. exists [], []. rewrite app_nil_r. split_and!; [done|done| constructor | constructor].
Qed.

#[export] Instance sends_preorder : PreOrder sends.
Proof.
  split.
  - intros c. by apply sends_same.
  - intros c1 c2 c3 [S1 (n1 & k1 & W1 & I1 & O1 & F1)] [S2 (n2 & k2 & W2 & I2 & O2 & F2)]. split; [lia|].
    exists (n1 ++ n2), (k1 ++ k2). rewrite W2, W1, app_assoc, !fmap_app, I1, I2. split_and!; [done|done| |].
    + apply NoDup_app. split; [done|]. split; [|done]. rewrite Forall_forall in F1, F2.
      intros x Hx1%F1 Hx2%F2. lia.
    + apply Forall_app. split; (eapply Forall_impl; [eassumption|]); cbn beta; intros; lia.
Qed.

#[export] Instance evolves_preorder : PreOrder evolves.
Proof.
  split.
  - intros c. split; [done | done | ]. destruct (tracker c) as [t|]; [|done]. by exists [], t.
  - intros c1 c2 c3 [S1 L1 T1] [S2 L2 T2]. split; [by etrans | by etrans |].
    destruct (tracker c1) as [t|]; [|by rewrite T1 in T2]. destruct T1 as (rs1 & t1 & E1 & R1). rewrite E1 in T2.
    destruct T2 as (rs2 & t2 & E2 & R2). exists (rs1 ++ rs2), t2. split; [done|]. by rewrite (run_app _ _ _ _ R1).
Qed.

(** A change of the other fields. *)
Lemma evolves_other c c' : cmd_seq c <= cmd_seq c' -> written c' = written c -> raw_lines c `prefix_of` raw_lines c' ->
  tracker c' = tracker c -> evolves c c'.
Proof.
  intros Hs Hw Hl Ht. split; [by apply sends_same | done |].
  rewrite Ht. destruct (tracker c) as [t|]; [|done]. by exists [], t.
Qed.

(** The number [cmd_seq c + 1], taken by [c], is written after the calls that
    led from [c1] to [c2]. *)
Lemma sends_reserved c c1 c2 command line : cmd_seq c1 = cmd_seq c + 1 -> written c1 = written c -> sends c1 c2 ->
  sends c (add_written (mk_sent command (command_id_of (cmd_seq c + 1)) line) c2).
Proof.
  intros Hs Hw [S (new & ns & W & I & O & F)]. split; [simpl; lia|].
  exists (new ++ [mk_sent command (command_id_of (cmd_seq c + 1)) line]), (ns ++ [cmd_seq c + 1]).
  simpl. rewrite W, Hw, !fmap_app, I, app_assoc. split_and!; [done|done| |].
  - apply NoDup_app. split; [done|]. split; [|apply NoDup_singleton]. rewrite Forall_forall in F.
    intros x Hx%F ->%list_elem_of_singleton. lia.
  - apply Forall_app. split; [|apply Forall_singleton; lia]. eapply Forall_impl; [exact F|]. cbn beta. intros. lia.
Qed.

Section ops.
Context (rid : string) (next : nat -> option string) (clock : nat -> Z) (cancel : nat -> bool) (write_ok : nat -> bool)
  (has_cleanup cleanup_open : bool) (float_is : string -> Z -> bool).
Abbreviation M A := (method client client_exn A).
Abbreviation good m := (keeps evolves m).

Lemma good_assign f : (forall c, cmd_seq c <= cmd_seq (f c)) -> (forall c, written (f c) = written c) ->
  (forall c, raw_lines c `prefix_of` raw_lines (f c)) -> (forall c, tracker (f c) = tracker c) -> good (assign (E := client_exn) f).
Proof. intros. apply keeps_assign. intros c. by apply evolves_other. Qed.

Ltac other := apply good_assign; intros c; simpl; first [done | lia | by apply prefix_app_r | apply prefix_app_r; done].

Create HintDb good_db.
Ltac keep := repeat first
  [ solve [auto with good_db] | apply keeps_ret; apply _ | apply keeps_raise; apply _ | apply keeps_self; apply _ | apply keeps_check; apply _ | apply keeps_lift; apply _
  | apply keeps_bind; [apply _ | | intros] | progress other | case_match ].

Lemma good_check_cancel b : good (_check_cancel cancel b).
Proof. unfold _check_cancel. keep. Qed.
#[local] Hint Resolve good_check_cancel : good_db.
Lemma good_clock : good (read_clock clock).
Proof. unfold read_clock. keep. Qed.
Lemma good_next_line : good (next_line next).
Proof. unfold next_line. keep. Qed.
#[local] Hint Resolve good_clock good_next_line : good_db.
Lemma good_next_record b : good (_next_record next cancel b).
Proof. unfold _next_record, fail, require. keep. Qed.
#[local] Hint Resolve good_next_record : good_db.

Lemma accept_run r t t' u : T.accept r t = (Ok u, t') -> T.run t [r] = Ok t'.
Proof. intros H. simpl. by rewrite H. Qed.
Lemma accept_failed r t e t' : T.accept r t = (Err e, t') -> t' = t.
Proof. rewrite TrackerFacts.accept_spec. destruct (TrackerFacts.validate t r) as [[f p]|]; [done|]. by intros [= _ <-]. Qed.

Lemma track_evolves t r c : tracker c = Some t -> evolves c (track t r c).2.
Proof.
  intros Ht. unfold track. destruct (T.accept r t) as [[u|e] t'] eqn:Ha; simpl.
  - split; [by apply sends_same | done | ]. rewrite Ht. exists [r], t'. split; [done|]. by eapply accept_run.
  - apply accept_failed in Ha as ->. apply evolves_other; done.
Qed.

Lemma good_dispatch r : good (_dispatch r).
Proof.
  intros c. unfold _dispatch, fail. rewrite run_bind. cbn [self fst snd]. destruct (tracker c) as [t|] eqn:Ht; [|reflexivity].
  destruct (String.eqb (kind r) "status").
  - case_match; [|reflexivity]. apply evolves_other; done.
  - rewrite run_bind. destruct (_ && _); cbn [assign mret method_ret fst snd]; rewrite run_bind.
    + pose proof (track_evolves t r (set_ack c) Ht) as H. assert (evolves c (set_ack c)) as H0 by (apply evolves_other; done).
      destruct (track t r (set_ack c)) as [[u|e] c1]; etrans; (exact H0 || exact H).
    + pose proof (track_evolves t r c Ht) as H. destruct (track t r c) as [[u|e] c1]; exact H.
Qed.
#[local] Hint Resolve good_dispatch : good_db.

Lemma good_wait_loop fuel b deadline cid e : good (wait_loop next clock cancel fuel b deadline cid e).
Proof. induction fuel as [|fuel IH]; cbn [wait_loop]; unfold fail; keep; done. Qed.
#[local] Hint Resolve good_wait_loop : good_db.
Lemma good_drive_loop fuel b deadline done e : good (drive_loop next clock cancel fuel b deadline done e).
Proof. induction fuel as [|fuel IH]; cbn [drive_loop]; unfold fail, require; keep; done. Qed.
#[local] Hint Resolve good_drive_loop : good_db.
Lemma good_drive_until fuel p timeout b : good (_drive_until next clock cancel fuel p timeout b).
Proof. unfold _drive_until. keep. Qed.
Lemma good_wait_ack fuel timeout : good (_wait_ack next clock cancel fuel timeout).
Proof. unfold _wait_ack. keep. Qed.
Lemma good_wait_status fuel cid expected timeout b : good (_wait_status next clock cancel fuel cid expected timeout b).
Proof. unfold _wait_status, _require_status_ok, require. keep. Qed.
#[local] Hint Resolve good_drive_until good_wait_ack good_wait_status : good_db.

(** A command takes the next number and writes at most one line. *)
Lemma issue_evolves {A} command extra (pre : string -> client -> client) (rest : string -> M A) :
  (forall i c, cmd_seq (pre i c) = cmd_seq c) -> (forall i c, written (pre i c) = written c) -> (forall i c, raw_lines (pre i c) = raw_lines c) ->
  (forall i c, tracker (pre i c) = tracker c) -> (forall cid, good (rest cid)) ->
  good (cid ← _next_command_id; assign (pre cid);; line ← lift (_command_line rid command cid extra); _send write_ok command cid line;; rest cid).
Proof.
  intros Hs Hw Hl Ht Hr c. unfold _next_command_id. rewrite !run_bind. cbn [self fst snd]. rewrite run_bind. cbn [assign mret method_ret].
  rewrite run_bind. cbn [assign]. rewrite run_bind. set (c1 := pre _ (set_seq (cmd_seq c + 1) c)).
  assert (evolves c c1) as H1.
  { subst c1. apply evolves_other; rewrite ?Hs, ?Hw, ?Hl, ?Ht; simpl; done || lia. }
  unfold lift. destruct (_command_line rid command _ extra) as [line|e]; [|exact H1].
  rewrite run_bind. unfold _send. rewrite run_bind. cbn [self]. destruct (write_ok (length (written c1))); [|exact H1].
  cbn [assign]. etrans; [|apply Hr]. split.
  - apply (sends_reserved c c1); [subst c1; by rewrite Hs | subst c1; by rewrite Hw | done].
  - subst c1. simpl. by rewrite Hl.
  - subst c1. simpl. rewrite Ht. simpl. destruct (tracker c) as [t|]; [by exists [], t | done].
Qed.

Lemma good_sync fuel command expected timeout b extra :
  good (_sync_command rid next clock cancel write_ok fuel command expected timeout b extra).
Proof.
  unfold _sync_command. apply keeps_bind; [apply _ | apply good_check_cancel | intros _].
  apply (issue_evolves command extra (fun _ c => c)); try done. intros cid. apply good_wait_status.
Qed.
#[local] Hint Resolve good_sync : good_db.
Lemma good_idle fuel b : good (idle rid next clock cancel write_ok fuel b).
Proof. unfold idle. keep. Qed.
Lemma good_stop fuel b : good (stop rid next clock cancel write_ok fuel b).
Proof. unfold stop. keep. Qed.
Lemma good_unpair fuel a ty : good (unpair rid next clock cancel write_ok fuel a ty).
Proof. unfold unpair. keep. Qed.
Lemma good_configure fuel a ty r : good (configure rid next clock cancel write_ok fuel a ty r).
Proof. unfold configure. keep. Qed.
Lemma good_hello fuel : good (hello rid next clock cancel write_ok float_is fuel).
Proof. unfold hello, _validate_hello, require. keep. Qed.
Lemma good_query fuel : good (query_status rid next clock cancel write_ok fuel).
Proof.
  unfold query_status. apply (issue_evolves "status" [] (fun i c => set_pending (Some i) c)); try done.
  intros cid. unfold _require_status_ok, require. keep.
Qed.
#[local] Hint Resolve good_idle good_stop good_query : good_db.

(** *** Hooks, and a started run *)

(** A hook that only uses the client's own operations. *)
Definition gentle (h : hook) : Prop :=
  match h with NoHook | BadSignature => True | Legacy f => good f | RowAware f => forall seg, good (f seg) end.
Definition gentle_hooks (h : hooks) : Prop :=
  gentle (before_start h) /\ gentle (streaming h) /\ gentle (scored_complete h) /\ gentle (segment_teardown h).

Lemma good_invoke n h seg : gentle h -> good (_invoke_segment_hook n h seg).
Proof.
  intros Hg. unfold _invoke_segment_hook, fail. destruct h; simpl in Hg; keep; done.
Qed.

Lemma good_run_segment fuel h st tt last seg : gentle_hooks h -> good (run_segment next clock cancel fuel h st tt last seg).
Proof.
  intros (? & ? & ? & ?). pose proof good_invoke. unfold run_segment, no_terminal_yet, require. keep; by apply good_invoke.
Qed.
Lemma good_run_segments fuel h st tt count segs : gentle_hooks h -> good (run_segments next clock cancel fuel h st tt count segs).
Proof.
  intros Hh. pose proof (good_run_segment fuel h st tt). induction segs as [|seg segs IH]; cbn [run_segments]; keep; auto.
Qed.

Lemma good_except_source {A} (m : M A) f : good m -> (forall e, good (f e)) -> good (except_source m f).
Proof.
  intros Hm Hf c. specialize (Hm c). unfold except_source. destruct (m c) as [[a|e] c1]; [done|].
  destruct e; try done. etrans; [exact Hm | apply Hf].
Qed.
Lemma good_drain fuel : good (_drain_queued_records next cancel fuel).
Proof. induction fuel as [|fuel IH]; cbn [_drain_queued_records]; keep; done. Qed.
#[local] Hint Resolve good_except_source good_drain : good_db.
Lemma good_bounded_stop fuel : good (_bounded_stop rid next clock cancel write_ok fuel).
Proof. unfold _bounded_stop. keep; apply good_except_source; intros; keep. Qed.
Lemma good_prestart_idle fuel : good (_bounded_prestart_idle rid next clock cancel write_ok fuel).
Proof. unfold _bounded_prestart_idle. keep; apply good_except_source; intros; keep. Qed.
Lemma good_register : good (register_prestart_cleanup has_cleanup cleanup_open).
Proof. unfold register_prestart_cleanup. keep. Qed.
Lemma good_register_stop : good (register_stop_cleanup has_cleanup cleanup_open).
Proof. unfold register_stop_cleanup. keep. Qed.

Lemma good_sends {A} (m : M A) : good m -> keeps sends m.
Proof. intros H c. apply H. Qed.

(** [start] puts a new tracker in place; its own command is written after what
    the first hook sent. *)
Lemma start_sends fuel row h ack st tt : gentle_hooks h ->
  keeps sends (start rid next clock cancel write_ok has_cleanup cleanup_open float_is fuel row h ack st tt).
Proof.
  intros Hh. unfold start. apply keeps_bind; [apply _ | apply good_sends, good_check_cancel | intros _ c].
  unfold _next_command_id. rewrite !run_bind. cbn [self fst snd]. rewrite run_bind. cbn [assign mret method_ret].
  rewrite run_bind. cbn [assign]. rewrite run_bind. cbn [assign]. rewrite run_bind.
  set (c1 := set_tracker _ _). assert (cmd_seq c1 = cmd_seq c + 1 /\ written c1 = written c) as [Hs Hw] by done.
  assert (sends c c1) as H01 by (apply sends_same; [lia | done]).
  pose proof (good_sends _ good_register_stop c1) as H12. destruct (register_stop_cleanup _ _ c1) as [[u|e] c2]; [|etrans; [exact H01 | exact H12]].
  rewrite run_bind. pose proof (good_sends _ (good_invoke "before_start" (before_start h) 0 (proj1 Hh)) c2) as H23.
  destruct (_invoke_segment_hook _ _ _ c2) as [[u'|e] c3]; [|etrans; [exact H01|]; etrans; [exact H12 | exact H23]].
  assert (sends c1 c3) as H13 by (etrans; [exact H12 | exact H23]).
  rewrite run_bind. unfold lift. destruct (_command_line _ _ _ _) as [line|e]; [|etrans; [exact H01 | exact H13]].
  rewrite run_bind. unfold _send. rewrite run_bind. cbn [self]. destruct (write_ok _); [|etrans; [exact H01 | exact H13]].
  cbn [assign]. etrans; [eapply sends_reserved; [exact Hs | exact Hw | exact H13]|]. apply good_sends.
  pose proof (good_run_segments fuel h). unfold require, _validate_final_status. keep; auto.
Qed.

(** *** What a finished start has seen *)

Lemma drive_loop_Ok fuel b deadline done e c c' :
  drive_loop next clock cancel fuel b deadline done e c = (Ok tt, c') -> done c' = true.
Proof.
  revert c. induction fuel as [|fuel IH]; intros c H; cbn [drive_loop] in H; [done|].
  apply bind_run_Ok in H as (c0 & c1 & [= <- <-] & H). destruct (done c) eqn:Hd; [injection H as <-; exact Hd|].
  apply bind_run_Ok in H as (u & c1 & _ & H). apply bind_run_Ok in H as (now & c2 & _ & H).
  apply bind_run_Ok in H as ([[r|] l] & c3 & _ & H).
  - apply bind_run_Ok in H as (o & c4 & _ & H). by eapply IH.
  - destruct (deadline - now <=? 0); [|by eapply IH]. apply bind_run_Ok in H as (c4 & c5 & [= <- <-] & H).
    by apply check_run_Ok in H as [H ->].
Qed.

Lemma drive_until_Ok fuel p timeout b u c c' : _drive_until next clock cancel fuel p timeout b c = (Ok u, c') ->
  exists t, tracker c' = Some t /\ p t = true.
Proof.
  unfold _drive_until. intros (now & c1 & _ & H)%bind_run_Ok. destruct u. apply drive_loop_Ok in H. unfold on_tracker in H.
  destruct (tracker c') as [t|]; [by exists t | done].
Qed.

Lemma good_run {A} (m : M A) c r c' : good m -> m c = (r, c') -> evolves c c'.
Proof. intros Hm H. specialize (Hm c). by rewrite H in Hm. Qed.

(** A segment that is through was in the tracker with its teardown. *)
Lemma run_segment_Ok fuel h st tt last seg u c c' : gentle_hooks h ->
  run_segment next clock cancel fuel h st tt last seg c = (Ok u, c') ->
  exists c1 t, tracker c1 = Some t /\ T.segment t = Some seg /\ T.TEARDOWN <= T.state_index t /\ evolves c1 c'.
Proof.
  intros Hh. unfold run_segment. do 6 (intros (? & ? & _ & H)%bind_run_Ok; revert H).
  intros (? & c1 & Hd & H)%bind_run_Ok. apply drive_until_Ok in Hd as (t & Ht & Hr).
  apply bind_run_Ok in H as (? & c2 & Hn & H). unfold no_terminal_yet in Hn.
  apply bind_run_Ok in Hn as (? & ? & [= <- <-] & [Hn ->]%check_run_Ok).
  unfold on_tracker in Hn. rewrite Ht in Hn. apply negb_true_iff in Hn. unfold reached in Hr. rewrite Hn, orb_false_r in Hr.
  apply andb_true_iff in Hr as [Hs%bool_decide_eq_true Hi]. exists c1, t. split_and!; [done|done|lia|].
  eapply good_run; [|exact H]. apply keeps_bind; [apply _ | apply good_invoke, Hh | intros _].
  unfold no_terminal_yet, require. keep.
Qed.

Lemma run_segments_Ok fuel h st tt count segs u c c' : gentle_hooks h ->
  run_segments next clock cancel fuel h st tt count segs c = (Ok u, c') ->
  Forall (fun seg => exists c1 t, tracker c1 = Some t /\ T.segment t = Some seg /\ T.TEARDOWN <= T.state_index t /\ evolves c1 c') segs.
Proof.
  intros Hh. revert c. induction segs as [|seg segs IH]; intros c H; [constructor|]. cbn [run_segments] in H.
  apply bind_run_Ok in H as (? & c1 & H1 & H2). constructor; [|by eapply IH].
  apply run_segment_Ok in H1 as (c2 & t & ? & ? & ? & He); [|done]. exists c2, t. split_and!; try done.
  etrans; [exact He|]. eapply good_run; [|exact H2]. by apply good_run_segments.
Qed.

(** The tracker [t], moved on to the end of a run that starts at [t0]. *)
Lemma evolves_tracker c c' t : evolves c c' -> tracker c = Some t -> exists rs t', tracker c' = Some t' /\ T.run t rs = Ok t'.
Proof. intros He Ht. destruct He as [_ _ H]. by rewrite Ht in H. Qed.

Lemma pass_terminal t : ended t = true -> eq_str (terminal_verdict t) "pass" = true ->
  exists r, T.terminal t = Some r /\ get_in "verdict" ["pass"%string] (data r) = true.
Proof.
  unfold ended, terminal_verdict. intros [r Hr]%bool_decide_eq_true Hv. rewrite Hr in Hv. exists r. split; [done|].
  unfold get in Hv. unfold get_in. destruct (dict_get "verdict"%string (data r)) as [v|]; [|done]. simpl in Hv.
  destruct v as [| | | |x| |]; try done. simpl in Hv. apply String.eqb_eq in Hv as ->. done.
Qed.

(** The end of [start], from the client that has its acknowledgement. *)
Definition finish_start (fuel : nat) (r : RowSpec) (h : hooks) (st tt : Z) : M (list (string * json)) :=
  run_segments next clock cancel fuel h st tt (segment_count r) (seqZ 0 (segment_count r));;
  _drive_until next clock cancel fuel ended tt true;;
  c ← self;
  require (on_tracker ended c) NoTerminal;;
  require (on_tracker (fun t => eq_str (terminal_verdict t) "pass") c) VerdictNotPass;;
  status ← query_status rid next clock cancel write_ok fuel;
  _validate_final_status float_is status r;;
  mret status.

Lemma finish_start_Ok fuel r h st tt status c c' t0 : gentle_hooks h -> tracker c = Some t0 ->
  finish_start fuel r h st tt c = (Ok status, c') ->
  final_errors float_is status r = [] /\
  exists rs t x, tracker c' = Some t /\ T.run t0 rs = Ok t /\ T.terminal t = Some x /\
    get_in "verdict" ["pass"%string] (data x) = true /\
    exists k, T.segment t = Some k /\ segment_count r - 1 <= k.
Proof.
  intros Hh Ht0. unfold finish_start. intros (u & c1 & Hsegs & H)%bind_run_Ok. apply bind_run_Ok in H as (u2 & c2 & Hdrive & H).
  apply bind_run_Ok in H as (? & ? & [= <- <-] & H). unfold require in H.
  apply bind_run_Ok in H as (? & ? & [Hend ->]%check_run_Ok & H). apply bind_run_Ok in H as (? & ? & [Hpass ->]%check_run_Ok & H).
  apply bind_run_Ok in H as (st' & c3 & Hq & H). apply bind_run_Ok in H as (? & c4 & Hf & [= <- <-]).
  unfold _validate_final_status, require in Hf. apply check_run_Ok in Hf as [Hf%bool_decide_eq_true ->]. split; [done|].
  assert (evolves c c1) as E1 by (eapply good_run; [|exact Hsegs]; by apply good_run_segments).
  assert (evolves c1 c2) as E2 by (eapply good_run; [|exact Hdrive]; apply good_drive_until).
  assert (evolves c2 c3) as E3 by (eapply good_run; [|exact Hq]; apply good_query).
  destruct (evolves_tracker c c2 t0) as (rs & t2 & Ht2 & Hr2); [by etrans | done|].
  unfold on_tracker in Hend, Hpass. rewrite Ht2 in Hend, Hpass. destruct (pass_terminal t2 Hend Hpass) as (y & Hy & Hv).
  destruct (evolves_tracker c2 c3 t2 E3 Ht2) as (rs3 & t3 & Ht3 & Hr3). destruct (TrackerFacts.run_forward _ _ _ Hr3) as [Hterm Hseg].
  exists (rs ++ rs3), t3, y. split_and!; [done | by rewrite (run_app _ _ _ _ Hr2) | by apply Hterm | done |].
  assert (1 <= segment_count r) as Hc by (unfold segment_count; case_match; lia).
  apply run_segments_Ok in Hsegs; [|done]. rewrite Forall_forall in Hsegs.
  destruct (Hsegs (segment_count r - 1)) as (cs & ts & Hts & Hsg & _ & Es); [apply elem_of_seqZ; lia|].
  destruct (evolves_tracker cs c3 ts) as (rs' & t' & Ht' & Hr'); [etrans; [exact Es|]; by etrans | done|].
  rewrite Ht3 in Ht'. injection Ht' as <-. destruct (TrackerFacts.run_forward _ _ _ Hr') as [_ Hfwd].
  destruct (Hfwd _ Hsg) as (k & Hk & ?). eauto.
Qed.


(** *** Numbers *)

Inductive op : Type :=
| OpHello | OpIdle | OpUnpair (a ty : string) | OpConfigure (a ty : string) (r : RowSpec) | OpStop | OpStatus | OpRegister
| OpStart (row : option RowSpec) (h : hooks) (ack : Z) (st tt : option Z) | OpBoundedStop | OpBoundedIdle.

Definition exec (fuel : nat) (o : op) : M unit :=
  match o with
  | OpHello => hello rid next clock cancel write_ok float_is fuel;; mret tt
  | OpIdle => idle rid next clock cancel write_ok fuel true
  | OpUnpair a ty => unpair rid next clock cancel write_ok fuel a ty
  | OpConfigure a ty r => configure rid next clock cancel write_ok fuel a ty r
  | OpStop => stop rid next clock cancel write_ok fuel true
  | OpStatus => query_status rid next clock cancel write_ok fuel;; mret tt
  | OpRegister => register_prestart_cleanup has_cleanup cleanup_open
  | OpStart row h ack st tt' => start rid next clock cancel write_ok has_cleanup cleanup_open float_is fuel row h ack st tt';; mret tt
  | OpBoundedStop => _bounded_stop rid next clock cancel write_ok fuel
  | OpBoundedIdle => _bounded_prestart_idle rid next clock cancel write_ok fuel
  end.

Definition gentle_op (o : op) : Prop := match o with OpStart _ h _ _ _ => gentle_hooks h | _ => True end.

Lemma exec_sends fuel o : gentle_op o -> keeps sends (exec fuel o).
Proof.
  intros Ho. destruct o as [| | | | | | |row h ack st tmo| |]; cbn [exec];
    [| | | | | | | apply keeps_bind; [apply _ | by apply start_sends | intros; apply keeps_ret, _] | |]; apply good_sends.
  - apply keeps_bind; [apply _ | apply good_hello | intros; apply keeps_ret, _].
  - apply good_idle.
  - apply good_unpair.
  - apply good_configure.
  - apply good_stop.
  - apply keeps_bind; [apply _ | apply good_query | intros; apply keeps_ret, _].
  - apply good_register.
  - apply good_bounded_stop.
  - apply good_prestart_idle.
Qed.

(** Calls one after the other, each whatever the one before it raised. *)
Definition session (fuel : nat) (os : list op) (c : client) : client := fold_left (fun c o => (exec fuel o c).2) os c.

Lemma session_sends fuel os c : Forall gentle_op os -> sends c (session fuel os c).
Proof.
  revert c. induction os as [|o os IH]; intros c Hos; [reflexivity|]. apply Forall_cons in Hos as [Ho Hos].
  unfold session. cbn [fold_left]. etrans; [by apply (exec_sends fuel o Ho c) | by apply IH].
Qed.

Lemma zeros_value k l : int_of_digits (replicate k "0"%char ++ l) = int_of_digits l.
Proof.
  unfold int_of_digits. rewrite fold_left_app. f_equal. induction k as [|k IH]; [done|]. exact IH.
Qed.

Lemma command_id_inj n m : 0 <= n -> 0 <= m -> command_id_of n = command_id_of m -> n = m.
Proof.
  intros Hn Hm H. apply (f_equal chars) in H. unfold command_id_of, pad4 in H. rewrite !chars_app, !chars_of_chars in H.
  apply app_inv_head in H. apply (f_equal int_of_digits) in H. rewrite !zeros_value, !chars_dec in H.
  destruct (Z.ltb_spec n 0), (Z.ltb_spec m 0); try lia. by rewrite !int_dec_digits in H by lia.
Qed.

(** Whatever calls are made on a client, in whatever order and whichever of
    them raise, no two lines it writes carry the same command id. *)
Theorem command_ids_unique fuel os : Forall gentle_op os -> NoDup (s_id <$> written (session fuel os new_client)).
Proof.
  intros Hos. destruct (session_sends fuel os new_client Hos) as [_ (new & ns & Hw & Hi & Hn & Hf)].
  change (written new_client) with (@nil sent_command) in Hw. rewrite Hw. change ([] ++ new) with new. rewrite Hi.
  apply NoDup_fmap_2_strong; [|done]. rewrite Forall_forall in Hf. intros x y Hx%Hf Hy%Hf. apply command_id_inj; simpl in *; lia.
Qed.

(** *** Command lines *)

(** A command line is one line of printable ASCII below the 512 bytes of the
    shell, and what follows its [hil ] is exactly the command object. *)
Theorem command_line_exact command cid extra line :
  json_ok (JObj (payload rid command cid extra)) = true -> _command_line rid command cid extra = Ok line ->
  (length (chars line) < 512)%nat /\ forallb is_print (chars line) = true /\
  exists body, chars line = chars "hil " ++ body /\ loads_chars (E := Empty_set) dict_hook body = Ok (JObj (payload rid command cid extra)).
Proof.
  intros Hok. unfold _command_line. intros (? & Hl%ensure_Ok & H)%bind_Ok. apply Ok_inj in H as <-. rewrite chars_of_chars. apply Nat.ltb_lt in Hl.
  split; [exact Hl|]. split; [|eexists; split; [reflexivity|]; apply loads_chars_dump; [by intros; apply dict_hook_id | done]].
  rewrite forallb_app, dump_printable by done. done.
Qed.

(** *** Final status *)

Lemma label_nil b n : label b n = [] <-> b = true.
Proof. destruct b; done. Qed.

Lemma streams_errors_nil chk count v : streams_errors chk count v = [] <->
  exists l, v = JArr l /\ Z.of_nat (length l) = count /\ forall i x, l !! i = Some x -> chk i x = [].
Proof.
  unfold streams_errors. destruct v as [| | | | |l|]; try (split; [done | by intros (? & ? & _)]).
  destruct (Z.eqb_spec (Z.of_nat (length l)) count) as [Hc|Hc]; [|split; [done | intros (? & [= <-] & ? & _); done]].
  assert (forall k, concat (imap (fun i x => chk (k + i)%nat x) l) = [] <-> forall i x, l !! i = Some x -> chk (k + i)%nat x = []) as H.
  { clear Hc. induction l as [|y l IH]; intros k; [by split|]. cbn [imap concat]. rewrite app_nil. split.
    - intros [H1 H2] [|i] x Hi; [injection Hi as <-; exact H1|]. simpl in Hi. replace (k + S i)%nat with (S k + i)%nat by lia.
      apply (proj1 (IH (S k))); [|done]. erewrite imap_ext; [exact H2|]. intros; simpl. by rewrite Nat.add_succ_r.
    - intros H. split; [by apply (H 0%nat y)|]. erewrite imap_ext; [apply (proj2 (IH (S k)))|].
      + intros i x Hi. replace (S k + i)%nat with (k + S i)%nat by lia. by apply H.
      + intros; simpl. by rewrite Nat.add_succ_r. }
  specialize (H 0%nat). simpl in H. split.
  - intros Hn. exists l. split_and!; [done|done|]. by apply H.
  - intros (l' & [= <-] & _ & Hl). by apply H.
Qed.

Abbreviation is_int v n := (eq_int float_is v n = true).

(** What a final status must say of one stream, and of the run. *)
Definition final_stream (r : RowSpec) (v : json) : Prop :=
  exists d, v = JObj d /\ as_int (get d "sub") = Some (expected_submitted_per_stream r) /\ is_int (get d "sc") (expected_scored_per_stream r) /\
    is_int (get d "sf") 0 /\ is_int (get d "out") 0.

Record final_status (d : list (string * json)) (r : RowSpec) : Prop := mk_final_status {
  fs_active : get d "active" = JBool false; fs_state : get d "state" = JStr "teardown"; fs_aborted : get d "aborted" = JBool false;
  fs_verdict : get d "verdict" = JStr "pass"; fs_errno : is_int (get d "first_errno") 0; fs_mode : get d "mode" = JStr (mode r);
  fs_profile : get d "profile" = JStr (profile r); fs_reconnect : get d "reconnect" = JStr (reconnect_policy r);
  fs_target : is_int (get d "scored_target") (scored_sdu_count r); fs_segment : is_int (get d "segment") (segment_count r - 1);
  fs_count : is_int (get d "stream_count") (stream_count r);
  fs_streams : exists l, get d "streams" = JArr l /\ Z.of_nat (length l) = stream_count r /\ Forall (final_stream r) l;
  fs_connected : get d "connected" = JBool false; fs_group : get d "group" = JBool false;
  fs_security : is_int (get d "security_level") 0; fs_sec_error : is_int (get d "security_error") 0;
  fs_sinks : is_int (get d "sink_ase_count") 0; fs_bonds : is_int (get d "bond_count") 1;
}.

Lemma eq_str_spec v x : eq_str v x = true <-> v = JStr x.
Proof. destruct v; simpl; try done. rewrite String.eqb_eq. split; [by intros -> | by intros [= ->]]. Qed.
Lemma is_bool_spec v b : is_bool v b = true <-> v = JBool b.
Proof. destruct v as [|[]| | | | |], b; simpl; done. Qed.

Lemma final_stream_spec r i v : final_stream_errors float_is r i v = [] <-> final_stream r v.
Proof.
  unfold final_stream, final_stream_errors. destruct v as [| | | | | |d]; try (split; [done | by intros (? & ? & _)]).
  rewrite !app_nil, !label_nil, bool_decide_eq_true. naive_solver.
Qed.

(** The validation of the final status accepts exactly the statuses that
    agree with the row in every field: inactive, torn down, not aborted, passed,
    the row's mode, profile, reconnect policy, counts and segment, per stream
    the exact number of submitted and scored packets without failures or
    outstanding ones, and everything released. *)
Theorem final_status_exact d r c : (_validate_final_status float_is d r c).1 = Ok tt <-> final_status d r.
Proof.
  unfold _validate_final_status, require, check. cbn [fst]. rewrite ensure_Ok, bool_decide_eq_true. unfold final_errors.
  rewrite !app_nil, !label_nil, !eq_str_spec, !is_bool_spec, streams_errors_nil. split.
  - intros (? & ? & ? & ? & ? & ? & ? & ? & ? & ? & ? & (l & Hl & Hc & Hs) & ? & ? & ? & ? & ? & ?). constructor; try done.
    exists l. split_and!; [done|done|]. apply Forall_lookup. intros i x Hx. eapply final_stream_spec, Hs, Hx.
  - intros []. destruct fs_streams0 as (l & Hl & Hc & Hs). split_and!; try done. exists l. split_and!; [done|done|].
    intros i x Hx. apply final_stream_spec. by eapply Forall_lookup_1 in Hs.
Qed.

(** *** The bounded cleanup *)

(** Nothing is written and no idle completes. *)
Definition calm (c c' : client) : Prop := written c' = written c /\ idle_complete c' = idle_complete c.
#[local] Instance calm_preorder : PreOrder calm.
Proof. split; [by split|]. intros a b d [H1 H2] [H3 H4]. split; congruence. Qed.
Abbreviation still m := (keeps calm m).

Create HintDb calm_db.
Ltac calm := repeat first
  [ solve [auto with calm_db] | apply keeps_ret; apply _ | apply keeps_raise; apply _ | apply keeps_self; apply _ | apply keeps_check; apply _
  | apply keeps_lift; apply _ | apply keeps_bind; [apply _ | | intros] | apply keeps_assign; intros; done | case_match ].

Lemma calm_check_cancel b : still (_check_cancel cancel b).
Proof. unfold _check_cancel. calm. Qed.
Lemma calm_clock : still (read_clock clock).
Proof. unfold read_clock. calm. Qed.
#[local] Hint Resolve calm_check_cancel calm_clock : calm_db.
Lemma calm_next_record b : still (_next_record next cancel b).
Proof. unfold _next_record, next_line, fail, require. calm. Qed.
Lemma calm_track t r : still (track t r).
Proof. unfold track. calm. Qed.
#[local] Hint Resolve calm_next_record calm_track : calm_db.
Lemma calm_dispatch r : still (_dispatch r).
Proof. unfold _dispatch, fail. calm. Qed.
#[local] Hint Resolve calm_dispatch : calm_db.
Lemma calm_wait_loop fuel b deadline cid e : still (wait_loop next clock cancel fuel b deadline cid e).
Proof. induction fuel as [|fuel IH]; cbn [wait_loop]; unfold fail; calm; done. Qed.
Lemma calm_drive_loop fuel b deadline done e : still (drive_loop next clock cancel fuel b deadline done e).
Proof. induction fuel as [|fuel IH]; cbn [drive_loop]; unfold fail, require; calm; done. Qed.
#[local] Hint Resolve calm_wait_loop calm_drive_loop : calm_db.
Lemma calm_drive_until fuel p timeout b : still (_drive_until next clock cancel fuel p timeout b).
Proof. unfold _drive_until. calm. Qed.
Lemma calm_wait_status fuel cid expected timeout b : still (_wait_status next clock cancel fuel cid expected timeout b).
Proof. unfold _wait_status, _require_status_ok, require. calm. Qed.
Lemma calm_drain fuel : still (_drain_queued_records next cancel fuel).
Proof. induction fuel as [|fuel IH]; cbn [_drain_queued_records]; calm; done. Qed.
Lemma calm_next_id : still _next_command_id.
Proof. unfold _next_command_id. calm. Qed.

Lemma still_run {A} (m : M A) c r c' : still m -> m c = (r, c') -> written c' = written c /\ idle_complete c' = idle_complete c.
Proof. intros Hm H. specialize (Hm c). by rewrite H in Hm. Qed.

Abbreviation commands c := (s_command <$> written c).

(** A synchronous command writes its own line, at most once, and exactly once
    when it returns. *)
Lemma sync_writes fuel command expected timeout b extra c r c' :
  _sync_command rid next clock cancel write_ok fuel command expected timeout b extra c = (r, c') ->
  idle_complete c' = idle_complete c /\
  (commands c' = commands c ++ [command] \/ (commands c' = commands c /\ exists e, r = Err e)).
Proof.
  unfold _sync_command. rewrite run_bind. destruct (_check_cancel cancel b c) as [[u|e] c1] eqn:H1;
    apply still_run in H1 as [W1 I1]; [|apply calm_check_cancel| |apply calm_check_cancel]; [|intros [= <- <-]; rewrite W1; eauto].
  rewrite run_bind. destruct (_next_command_id c1) as [[cid|e] c2] eqn:H2;
    apply still_run in H2 as [W2 I2]; [|apply calm_next_id| |apply calm_next_id]; [|intros [= <- <-]; rewrite W2, W1, I2; eauto].
  rewrite run_bind. unfold lift. destruct (_command_line _ _ _ _) as [line|e]; [|intros [= <- <-]; rewrite W2, W1, I2; eauto].
  rewrite run_bind. unfold _send at 1. rewrite run_bind. cbn [self].
  destruct (write_ok _); [|intros [= <- <-]; rewrite W2, W1, I2; eauto].
  cbn [assign]. intros H. apply still_run in H as [W3 I3]; [|apply calm_wait_status]. simpl in W3, I3.
  rewrite W3, I3, W2, W1, I2, fmap_app. split; [done|]. by left.
Qed.

Lemma idle_writes fuel b c r c' : idle rid next clock cancel write_ok fuel b c = (r, c') ->
  (r = Ok tt /\ commands c' = commands c ++ ["idle"%string] /\ idle_complete c' = true) \/
  ((exists e, r = Err e) /\ (commands c' = commands c ++ ["idle"%string] \/ commands c' = commands c)).
Proof.
  unfold idle. rewrite run_bind. destruct (_sync_command _ _ _ _ _ _ _ _ _ _ _ c) as [[x|e] c1] eqn:Hs; apply sync_writes in Hs as [_ Hw].
  - intros [= <- <-]. left. destruct Hw as [Hw|[_ [e He]]]; [done | done].
  - intros [= <- <-]. right. split; [eauto|]. destruct Hw as [Hw|[Hw _]]; auto.
Qed.

(** The middle of [_bounded_stop]: an unfinished run is stopped. *)
Lemma abort_phase fuel c r c' :
  (if on_tracker ended c then mret tt else
     except_source (stop rid next clock cancel write_ok fuel false) (fun _ => mret tt);;
     c ← self;
     if on_tracker ended c then mret tt
     else except_source (_drive_until next clock cancel fuel ended ABORT_TERMINAL_TIMEOUT false) (fun _ => mret tt)) c = (r, c') ->
  exists sent, commands c' = commands c ++ sent /\ sent ∈ [[]; ["stop"%string]] /\ (on_tracker ended c = true -> sent = []).
Proof.
  destruct (on_tracker ended c) eqn:He.
  { intros [= <- <-]. exists []. rewrite app_nil_r. split_and!; [done | by left | done]. }
  rewrite run_bind. destruct (except_source (stop _ _ _ _ _ _ _) _ c) as [r1 c1] eqn:Hs.
  assert (exists sent, commands c1 = commands c ++ sent /\ sent ∈ [[]; ["stop"%string]]) as (sent & Hw & Hin).
  { unfold except_source, stop in Hs. rewrite run_bind in Hs.
    destruct (_sync_command _ _ _ _ _ _ _ _ _ _ _ c) as [[x|e] c2] eqn:Hy; apply sync_writes in Hy as [_ Hw].
    - injection Hs as _ <-. destruct Hw as [Hw|[_ [? ?]]]; [|done]. exists ["stop"%string]. split; [done|]. right. by left.
    - assert (c1 = c2) as -> by (destruct e; by injection Hs as _ <-).
      destruct Hw as [Hw|[Hw _]]; [exists ["stop"%string] | exists []]; rewrite ?app_nil_r; (split; [done|]); rewrite !elem_of_cons; auto. }
  intros H. assert (commands c' = commands c1) as ->; [|by exists sent].
  destruct r1 as [u|e]; [|by injection H as _ <-]. rewrite run_bind in H. cbn [self fst snd] in H.
  destruct (on_tracker ended c1); [by injection H as _ <-|]. unfold except_source in H.
  destruct (_drive_until _ _ _ _ _ _ _ c1) as [[x|e] c2] eqn:Hd; apply still_run in Hd as [Hd _]; try apply calm_drive_until.
  - by injection H as _ <-; rewrite Hd.
  - assert (c' = c2) as -> by (destruct e; by injection H as _ <-). by rewrite Hd.
Qed.

Lemma idle_phase fuel c r c' :
  except_source (idle rid next clock cancel write_ok fuel false) (fun e => raise (CleanupError (SourceClientError e))) c = (r, c') ->
  exists sent, commands c' = commands c ++ sent /\ (sent = [] \/ sent = ["idle"%string]) /\ (r = Ok tt -> idle_complete c' = true).
Proof.
  unfold except_source. destruct (idle _ _ _ _ _ _ _ c) as [r1 c1] eqn:Hi. apply idle_writes in Hi as [(-> & Hw & Hi)|([e ->] & Hw)].
  - intros [= <- <-]. exists ["idle"%string]. auto.
  - intros H. assert (c' = c1 /\ r <> Ok tt) as [-> Hr] by (destruct e; by injection H as <- <-).
    destruct Hw as [Hw|Hw]; [exists ["idle"%string] | exists []]; rewrite ?app_nil_r; auto.
Qed.

(** C33. The cleanup registered before START never sends more than one STOP and
    then one IDLE, sends no STOP once a terminal verdict has been seen, and
    when it returns without an exception the source has acknowledged an IDLE
    (or there was no run to clean up). *)
Theorem bounded_stop_order fuel c r c' : _bounded_stop rid next clock cancel write_ok fuel c = (r, c') ->
  (exists sent, commands c' = commands c ++ sent /\
     sent ∈ [[]; ["stop"%string]; ["stop"%string; "idle"%string]; ["idle"%string]] /\
     (on_tracker ended c = true -> "stop"%string ∉ sent)) /\
  (r = Ok tt -> idle_complete c' = true \/ (tracker c = None /\ c' = c)).
Proof.
  unfold _bounded_stop. rewrite run_bind. cbn [self fst snd].
  destruct (bool_decide (tracker c = None) || idle_complete c) eqn:Hs.
  { intros [= <- <-]. split; [exists []; rewrite app_nil_r; split_and!; [done | by left | by intros _ ?%elem_of_nil]|].
    intros _. apply orb_true_iff in Hs as [Hs%bool_decide_eq_true|Hs]; auto. }
  rewrite run_bind. destruct (_drain_queued_records next cancel fuel c) as [[u|e] c1] eqn:Hd.
  2:{ apply still_run in Hd as [W1 _]; [|apply calm_drain]. intros [= <- <-]. rewrite W1.
      split; [exists []; rewrite app_nil_r; split_and!; [done | by left | by intros _ ?%elem_of_nil] | done]. }
  assert (on_tracker ended c = true -> on_tracker ended c1 = true) as Hended.
  { apply good_run in Hd; [|apply good_drain]. unfold on_tracker. destruct (tracker c) as [t|] eqn:Ht; [|done].
    destruct (evolves_tracker _ _ _ Hd Ht) as (rs & t' & -> & Hr). destruct (TrackerFacts.run_forward _ _ _ Hr) as [Hf _].
    unfold ended. intros [x Hx]%bool_decide_eq_true. apply bool_decide_eq_true. eexists. by apply Hf. }
  apply still_run in Hd as [W1 _]; [|apply calm_drain]. rewrite run_bind. cbn [self fst snd]. rewrite run_bind, <- W1.
  match goal with |- (let (_, _) := ?m c1 in _) = _ -> _ => destruct (m c1) as [r0 c2] eqn:Hm end.
  apply abort_phase in Hm as (s1 & W2 & Hs1 & He1).
  assert (forall sent, sent = s1 \/ sent = s1 ++ ["idle"%string] ->
    sent ∈ [[]; ["stop"%string]; ["stop"%string; "idle"%string]; ["idle"%string]] /\ (on_tracker ended c = true -> "stop"%string ∉ sent)) as Hall.
  { intros sent Hsent. split.
    - rewrite !elem_of_cons, elem_of_nil in Hs1. rewrite !elem_of_cons. destruct Hs1 as [-> | [-> | []]], Hsent as [-> | ->]; auto.
    - intros Hc%Hended. rewrite (He1 Hc) in Hsent. destruct Hsent as [-> | ->]; [by apply not_elem_of_nil | by intros ?%list_elem_of_singleton]. }
  destruct r0 as [u0|e]; [|intros [= <- <-]; split; [exists s1; split; [done | by apply Hall; left] | done]].
  intros H. apply idle_phase in H as (s2 & W3 & Hs2 & Hi). split.
  - exists (s1 ++ s2). rewrite W3, W2, app_assoc. split; [done|]. apply Hall.
    destruct Hs2 as [-> | ->]; [left; apply app_nil_r | by right].
  - intros Hr. left. by apply Hi.
Qed.

(** *** Waits end *)

(** Stream positions after a call, when it did not raise; the model's own
    exception does not come from it. *)
Definition moves {A} (dl dc : nat) (m : M A) : Prop := forall c,
  match m c with
  | (Ok _, c') => n_line c' = (n_line c + dl)%nat /\ n_clock c' = (n_clock c + dc)%nat
  | (Err e, _) => e <> OutOfFuel
  end.

Lemma moves_bind {A B} dl dc dl' dc' (m : M A) (f : A -> M B) :
  moves dl dc m -> (forall a, moves dl' dc' (f a)) -> moves (dl + dl') (dc + dc') (m ≫= f).
Proof.
  intros Hm Hf c. rewrite run_bind. specialize (Hm c). destruct (m c) as [[a|e] c1]; [|done]. specialize (Hf a c1).
  destruct (f a c1) as [[b|e] c2]; [lia | done].
Qed.

Lemma moves_check_cancel b : moves 0 0 (_check_cancel cancel b).
Proof. intros c. unfold _check_cancel. destruct b; [|simpl; lia]. rewrite !run_bind. cbn. destruct (cancel _); simpl; [done | lia]. Qed.

Lemma moves_next_record b : moves 1 0 (_next_record next cancel b).
Proof.
  unfold _next_record. apply (moves_bind 0 0 1 0); [apply moves_check_cancel | intros _].
  apply (moves_bind 1 0 0 0); [intros c; unfold next_line; rewrite !run_bind; simpl; lia | intros l]. apply (moves_bind 0 0 0 0); [apply moves_check_cancel | intros _].
  destruct l as [text|]; [|intros c; cbn; lia]. apply (moves_bind 0 0 0 0); [intros c; cbn; lia | intros _].
  destruct (parse_hil1_line _) as [[r|]|[e| |k]]; try (intros c; cbn; done || lia).
  apply (moves_bind 0 0 0 0); [|intros _ c; cbn; lia]. intros c. unfold require, check. cbn. destruct (negb _); simpl; [lia | done].
Qed.

Lemma moves_dispatch r : moves 0 0 (_dispatch r).
Proof.
  intros c. unfold _dispatch, fail. rewrite run_bind. cbn [self fst snd]. destruct (tracker c) as [t|]; [|done].
  destruct (String.eqb (kind r) "status"); [destruct (bool_decide _); [rewrite run_bind; simpl; lia | done]|]. rewrite run_bind.
  destruct (_ && _); cbn [assign mret method_ret fst snd]; rewrite run_bind; unfold track; destruct (T.accept r t) as [[u|e] t'];
    rewrite run_bind; simpl; done || lia.
Qed.

(** The record a read returns comes from the line at the client's position. *)
Lemma silent_read b c : next (n_line c) = None ->
  match _next_record next cancel b c with (Ok (o, _), _) => o = None | (Err e, _) => e <> OutOfFuel end.
Proof.
  intros Hn. unfold _next_record. rewrite run_bind. pose proof (moves_check_cancel b c) as H1.
  destruct (_check_cancel cancel b c) as [[u|e] c1]; [|done]. rewrite run_bind.
  change (next_line next c1) with (@Ok client_exn _ (next (n_line c1)), next_positions 1 0 0 c1).
  destruct H1 as [-> _]. rewrite Nat.add_0_r, Hn, run_bind. pose proof (moves_check_cancel b (next_positions 1 0 0 c1)) as H2.
  by destruct (_check_cancel cancel b _) as [[u'|e] c2].
Qed.

(** One round of a wait: it raises, or goes on with what it read. *)
Lemma round_cases {A} b c (k : Z -> option HilRecord -> M A) :
  let m := (_check_cancel cancel b;; now ← read_clock clock; '(r, _) ← _next_record next cancel b; k now r) c in
  (exists e c', m = (Err e, c') /\ e <> OutOfFuel) \/
  (exists o c', m = k (clock (n_clock c)) o c' /\ (next (n_line c) = None -> o = None) /\ n_line c' = S (n_line c) /\ n_clock c' = S (n_clock c)).
Proof.
  intros m. subst m. rewrite run_bind. pose proof (moves_check_cancel b c) as H1. destruct (_check_cancel cancel b c) as [[u|e] c1]; [|left; eauto].
  rewrite run_bind. change (read_clock clock c1) with (@Ok client_exn _ (clock (n_clock c1)), next_positions 0 1 0 c1).
  set (c2 := next_positions 0 1 0 c1). pose proof (moves_next_record b c2) as H2. pose proof (silent_read b c2) as H3.
  cbv beta iota. rewrite run_bind. destruct (_next_record next cancel b c2) as [[[o l]|e] c3]; [|left; eauto].
  assert (n_line c2 = n_line c /\ n_clock c2 = S (n_clock c)) as [Hl Hc] by (subst c2; simpl; lia).
  rewrite Hl in H3. right. exists o, c3. replace (n_clock c1) with (n_clock c) by lia. split_and!; [done | exact H3 | lia | lia].
Qed.

(** The console falls silent from line [N] on, and the clock reaches the
    deadline by reading [K]. *)
Context (N K : nat) (deadline : Z) (Hsilent : forall n, (N <= n)%nat -> next n = None) (Hlate : forall n, (K <= n)%nat -> deadline <= clock n).

(** How many rounds are left at most. *)
Definition rounds (c : client) : nat := Nat.max (N - n_line c) (K - n_clock c).

(** A round with no record beyond its bound is the last. *)
Lemma last_round c now (o : option HilRecord) : rounds c = 0%nat -> now = clock (n_clock c) -> (next (n_line c) = None -> o = None) ->
  o = None /\ (deadline - now <=? 0) = true.
Proof.
  unfold rounds. intros Hr -> Ho. split; [apply Ho, Hsilent; lia|]. apply Z.leb_le. specialize (Hlate (n_clock c)). lia.
Qed.

Lemma drive_loop_ends fuel b done e c : (rounds c < fuel)%nat -> (drive_loop next clock cancel fuel b deadline done e c).1 <> Err OutOfFuel.
Proof.
  revert c. induction fuel as [|fuel IH]; intros c Hr; [lia|]. cbn [drive_loop]. rewrite run_bind. cbn [self fst snd].
  destruct (done c); [done|].
  match goal with |- (?m c).1 <> _ => destruct (round_cases b c (fun now o =>
      match o with
      | None => if deadline - now <=? 0 then c ← self; require (done c) e else drive_loop next clock cancel fuel b deadline done e
      | Some r => _dispatch r;; drive_loop next clock cancel fuel b deadline done e
      end)) as [(x & c1 & Hm & Hx)|(o & c1 & Hm & Ho & Hl & Hc)]; cbv zeta in Hm end.
  - rewrite Hm. by intros [= ->].
  - rewrite Hm. clear Hm. destruct (decide (rounds c = 0%nat)) as [H0|H0].
    + destruct (last_round c _ o H0 eq_refl Ho) as [-> ->]. rewrite run_bind. cbn. unfold require, check. by destruct (done c1).
    + assert (rounds c1 < fuel)%nat as Hr1 by (unfold rounds in *; rewrite Hl, Hc; lia). destruct o as [r|].
      * rewrite run_bind. pose proof (moves_dispatch r c1) as Hd. destruct (_dispatch r c1) as [[u|x] c2]; [|by intros [= ->]].
        apply IH. destruct Hd as [E1 E2]. unfold rounds in *. rewrite E1, E2. lia.
      * case_match; [rewrite run_bind; cbn; unfold require, check; by destruct (done c1) | by apply IH].
Qed.

Lemma wait_loop_ends fuel b cid e c : (rounds c < fuel)%nat -> (wait_loop next clock cancel fuel b deadline cid e c).1 <> Err OutOfFuel.
Proof.
  revert c. induction fuel as [|fuel IH]; intros c Hr; [lia|]. cbn [wait_loop].
  destruct (round_cases b c (fun now o =>
      match o with
      | None => if deadline - now <=? 0 then fail e else wait_loop next clock cancel fuel b deadline cid e
      | Some r => if is_response cid r then mret r else _dispatch r;; wait_loop next clock cancel fuel b deadline cid e
      end)) as [(x & c1 & Hm & Hx)|(o & c1 & Hm & Ho & Hl & Hc)]; cbv zeta in Hm.
  - rewrite Hm. by intros [= ->].
  - rewrite Hm. clear Hm. destruct (decide (rounds c = 0%nat)) as [H0|H0].
    + by destruct (last_round c _ o H0 eq_refl Ho) as [-> ->].
    + assert (rounds c1 < fuel)%nat as Hr1 by (unfold rounds in *; rewrite Hl, Hc; lia). destruct o as [r|].
      * destruct (is_response cid r); [done|]. rewrite run_bind. pose proof (moves_dispatch r c1) as Hd.
        destruct (_dispatch r c1) as [[u|x] c2]; [|by intros [= ->]].
        apply IH. destruct Hd as [E1 E2]. unfold rounds in *. rewrite E1, E2. lia.
      * case_match; [done | by apply IH].
Qed.

(** C34. When the console falls silent and the clock reaches the deadline, both
    kinds of bounded wait return or raise: fuel for the lines and readings left
    is enough, so a wait without fuel ends. *)
Theorem waits_end fuel b done cid e c : (rounds c < fuel)%nat ->
  (drive_loop next clock cancel fuel b deadline done e c).1 <> Err OutOfFuel /\
  (wait_loop next clock cancel fuel b deadline cid e c).1 <> Err OutOfFuel.
Proof. intros H. split; [by apply drive_loop_ends | by apply wait_loop_ends]. Qed.
End ops.
End ClientTheorems.

(** ** Concrete runs *)

Module ClientWitnesses.
Import ClientTheorems.

Definition demo_record (k : string) (cid : string) (t : Z) (d : list (string * json)) : HilRecord :=
  mkHilRecord 1 k FIRMWARE_ID t cid "run-1" 0 d.
Definition line_of (r : HilRecord) : string := ParserFacts.render false r.

Definition demo_stream : json :=
  JObj [("sub", JInt (expected_submitted_per_stream RH2_ROW)); ("sc", JInt (expected_scored_per_stream RH2_ROW)); ("sf", JInt 0); ("out", JInt 0)]%string.
Definition demo_status : list (string * json) := [
  ("command", JStr "status"); ("ok", JBool true); ("error", JStr "ok"); ("active", JBool false); ("state", JStr "teardown");
  ("aborted", JBool false); ("verdict", JStr "pass"); ("first_errno", JInt 0); ("mode", JStr (mode RH2_ROW)); ("profile", JStr (profile RH2_ROW));
  ("reconnect", JStr (reconnect_policy RH2_ROW)); ("scored_target", JInt (scored_sdu_count RH2_ROW)); ("segment", JInt 0);
  ("stream_count", JInt 1); ("streams", JArr [demo_stream]); ("connected", JBool false); ("group", JBool false); ("security_level", JInt 0);
  ("security_error", JInt 0); ("sink_ase_count", JInt 0); ("bond_count", JInt 1)]%string.

Definition demo_ack : HilRecord := demo_record "ack" "cmd-0001" 1 [("ok", JBool true)]%string.
Definition demo_states : list HilRecord := imap (fun i n => demo_record "state" "cmd-0001" (2 + Z.of_nat i) [("state", JStr n)]%string) STATES.
Definition demo_lines : list string :=
  line_of <$> (demo_ack :: demo_states ++
    [demo_record "terminal" "cmd-0001" 20 [("verdict", JStr "pass")]%string; demo_record "status" "cmd-0002" 21 demo_status]).
Definition no_float (lit : string) (n : Z) : bool := false.
Definition no_hooks : hooks := mk_hooks NoHook NoHook NoHook NoHook.
Abbreviation demo_start := (start "run-1" (fun n => demo_lines !! n) (fun n => Z.of_nat n) (fun _ => false) (fun _ => true) true true
  no_float 40 None no_hooks ACK_TIMEOUT None None new_client).

Lemma demo_gentle : gentle_hooks no_hooks.
Proof. by repeat split. Qed.

Lemma demo_start_ok : is_ok demo_start.1 = true /\ (s_command <$> written demo_start.2) = ["start"; "status"]%string.
Proof. vm_compute. by split. Qed.


Lemma command_ids_unique_witness :
  NoDup (s_id <$> written (session "run-1" (fun n => demo_lines !! n) (fun n => Z.of_nat n) (fun _ => false) (fun _ => true) true true no_float 40
    [OpRegister; OpStart None no_hooks ACK_TIMEOUT None None; OpBoundedStop] new_client)).
Proof. apply command_ids_unique. repeat constructor; done. Defined.

Lemma command_line_exact_witness : exists line, _command_line "run-1" "start" "cmd-0001" [] = Ok line /\ (length (chars line) < 512)%nat.
Proof.
  eexists. split; [vm_compute; reflexivity|].
  edestruct (command_line_exact "run-1" "start" "cmd-0001" []) as [Hl _]; [vm_compute; reflexivity | vm_compute; reflexivity | exact Hl].
Defined.

Lemma bounded_stop_order_witness :
  let c := set_tracker (Some (T.init "run-1" "cmd-0001")) new_client in
  let m := _bounded_stop "run-1" (fun _ => None) (fun n => Z.of_nat n * 60000000) (fun _ => false) (fun _ => true) 9 c in
  exists sent, (s_command <$> written m.2) = (s_command <$> written c) ++ sent /\ sent = ["stop"; "idle"]%string.
Proof.
  intros c m. destruct (bounded_stop_order "run-1" (fun _ => None) (fun n => Z.of_nat n * 60000000) (fun _ => false) (fun _ => true) 9 c m.1 m.2)
    as [(sent & Hs & _) _]; [apply surjective_pairing|].
  exists sent. split; [exact Hs|]. change (s_command <$> written c) with (@nil string) in Hs. rewrite app_nil_l in Hs. rewrite <- Hs.
  vm_compute. reflexivity.
Defined.

Lemma waits_end_witness :
  (drive_loop (fun _ => None) (fun n => Z.of_nat n) (fun _ => false) 5 false 3 (fun _ => false) DeadlineExceeded new_client).1 <> Err OutOfFuel.
Proof.
  apply (waits_end (fun _ => None) (fun n => Z.of_nat n) (fun _ => false) 0 3 3) with (cid := EmptyString); [done | intros n Hn; lia | vm_compute; lia].
Defined.

(** A run in its first segment, and the acknowledgement repeated for ever. *)
Definition acked : T.t := (T.accept demo_ack (T.init "run-1" "cmd-0001")).2.
Definition flood (_ : nat) : option string := Some (line_of demo_ack).
Lemma ack_parses : parse_hil1_line (LStr (line_of demo_ack)) = Ok (Some demo_ack).
Proof. vm_compute. reflexivity. Qed.
Lemma ack_again : T.accept demo_ack acked = (Ok tt, acked).
Proof. vm_compute. reflexivity. Qed.

Lemma flood_read c : exists c', _next_record flood (fun _ => false) false c = (Ok (Some demo_ack, Some (line_of demo_ack)), c') /\ tracker c' = tracker c.
Proof.
  unfold _next_record. rewrite run_bind. change (_check_cancel (fun _ => false) false c) with (@Ok client_exn _ tt, c). cbv beta iota. rewrite run_bind.
  change (next_line flood c) with (@Ok client_exn _ (Some (line_of demo_ack)), next_positions 1 0 0 c). cbv beta iota. rewrite run_bind.
  set (c1 := next_positions 1 0 0 c). change (_check_cancel (fun _ => false) false c1) with (@Ok client_exn _ tt, c1). cbv beta iota. rewrite run_bind.
  change (assign (add_line (line_of demo_ack)) c1) with (@Ok client_exn _ tt, add_line (line_of demo_ack) c1). cbv beta iota.
  rewrite ack_parses. eexists. split; [reflexivity | done].
Qed.

Lemma flood_dispatch c : tracker c = Some acked -> exists c', _dispatch demo_ack c = (Ok None, c') /\ tracker c' = Some acked.
Proof.
  intros Hc. unfold _dispatch. rewrite run_bind. cbn [self fst snd]. rewrite Hc.
  change (String.eqb (kind demo_ack) "status") with false. cbv iota. rewrite run_bind.
  change (String.eqb (kind demo_ack) "ack" && String.eqb (command_id demo_ack) (T.command_id acked)) with true. cbv iota.
  change (assign set_ack c) with (@Ok client_exn _ tt, set_ack c). cbv beta iota. rewrite run_bind. unfold track. rewrite ack_again.
  eexists. split; [reflexivity | done].
Qed.
End ClientWitnesses.

(** *** Findings *)

Lemma flooded_wait clock fuel deadline c : tracker c = Some ClientWitnesses.acked ->
  (drive_loop ClientWitnesses.flood clock (fun _ => false) fuel false deadline (on_tracker ended) DeadlineExceeded c).1 = Err OutOfFuel.
Proof.
  revert c. induction fuel as [|fuel IH]; intros c Hc; [done|]. cbn [drive_loop]. rewrite run_bind. cbn [self fst snd].
  assert (on_tracker ended c = false) as -> by (unfold on_tracker; by rewrite Hc). rewrite run_bind.
  change (_check_cancel (fun _ => false) false c) with (@Ok client_exn _ tt, c). cbv beta iota. rewrite run_bind.
  change (read_clock clock c) with (@Ok client_exn _ (clock (n_clock c)), next_positions 0 1 0 c). cbv beta iota. rewrite run_bind.
  destruct (ClientWitnesses.flood_read (next_positions 0 1 0 c)) as (c1 & -> & Ht). cbv beta iota. rewrite run_bind.
  destruct (ClientWitnesses.flood_dispatch c1) as (c2 & -> & Ht2); [by rewrite Ht|]. by apply IH.
Qed.

(** A wait looks at its deadline only when no record is pending: a source
    that keeps repeating an acceptable record keeps the wait going for any
    number of rounds, whatever the clock says. *)
Theorem deadline_ignored_while_records_arrive clock fuel deadline c :
  (drive_loop ClientWitnesses.flood clock (fun _ => false) fuel false deadline (on_tracker ended) DeadlineExceeded
     (set_tracker (Some ClientWitnesses.acked) c)).1 = Err OutOfFuel.
Proof. by apply flooded_wait. Qed.

(** The cleanup gives up before STOP and IDLE when a record that is already
    queued breaks the protocol - the state in which a run whose tracker has
    failed reaches it: nothing is sent and the exception leaves. *)
Theorem queued_violation_skips_cleanup :
  let queued := [ClientWitnesses.line_of (ClientWitnesses.demo_record "state" "cmd-0001" 9 [("state", JStr "qos")]%string)] in
  let c := set_tracker (Some ClientWitnesses.acked) new_client in
  let '(r, c') := _bounded_stop "run-1" (fun n => queued !! n) (fun n => Z.of_nat n) (fun _ => false) (fun _ => true) 9 c in
  r = Err (TrackerError (HilProtocolError FirstStateNotIdle)) /\ written c' = [] /\ idle_complete c' = false.
Proof. vm_compute. by repeat split. Qed.
