(* ===== verification/CaptureSignal.v ===== *)
(** * The public test signal (scripts/hil/source_contract.py, capture_signal.py)

    The loader of the source header's constants; the signal the capture
    analyzer rebuilds from them, as exact integer phases and amplitudes; and
    the generator of the source firmware (hil/source/core/hil_source_signal.c)
    it has to agree with.  The sine and the floating-point products are numpy's:
    they are the arguments [sample] and [mean]. *)

From S2P Require Import Prelude PyText PyRegex Json HilRows.

(** ** Constants (source_contract.py) *)

Module Contract.

Inductive contract_error : Type :=
| CannotRead | InvalidConstant (name : string) | OutOfRange (name : string) | DuplicateConstant (name : string)
| MissingConstant (name : string) | InconsistentPreamble | Drift (fragment : string).

Definition REQUIRED_CONSTANTS : list string := [
  "HIL_SOURCE_SAMPLE_RATE_HZ"; "HIL_SOURCE_LEFT_CARRIER_HZ"; "HIL_SOURCE_LEFT_PHASE_STEP";
  "HIL_SOURCE_RIGHT_CARRIER_HZ"; "HIL_SOURCE_RIGHT_PHASE_STEP"; "HIL_SOURCE_AMPLITUDE_FULL";
  "HIL_SOURCE_AMPLITUDE_LOW"; "HIL_SOURCE_ENVELOPE_BLOCK_SAMPLES"; "HIL_SOURCE_TRANSITION_RAMP_SAMPLES";
  "HIL_SOURCE_PREAMBLE_SEGMENT_SAMPLES"; "HIL_SOURCE_PREAMBLE_SEGMENTS"; "HIL_SOURCE_PREAMBLE_TOTAL_SAMPLES";
  "HIL_SOURCE_TAIL_MIN_US"; "HIL_SOURCE_DEFAULT_SIGNAL_SEED"; "HIL_SOURCE_LEFT_PRNG_MASK";
  "HIL_SOURCE_RIGHT_PRNG_MASK"; "HIL_SOURCE_PRNG_ZERO_REPLACEMENT"]%string.

Definition is_name_char (c : ascii) : bool := is_upper c || is_digit c || (code c =? 95).
Definition is_value_char (c : ascii) : bool := negb (is_space c) && negb (code c =? 47).

Definition DEFINE_RE : re :=
  (Bol • Star is_space • Lit "#define" • Plus is_space • Group 1 (Lit "HIL_SOURCE_" • Plus is_name_char) •
   Plus is_space • Group 2 (Plus is_value_char))%re.

(** Digits of [int(text, 0)] with single underscores between them; [sep] says
    that a digit must follow. *)
Fixpoint scan_digits (base : Z) (l : list ascii) (acc : Z) (n : nat) (sep : bool) : option (Z * nat) :=
  match l with
  | [] => if sep then None else Some (acc, n)
  | c :: l' =>
      if code c =? 95 then if sep then None else scan_digits base l' acc n true
      else d ← hex_val c; if d <? base then scan_digits base l' (acc * base + d) (S n) false else None
  end.

Definition prefixed (base : Z) (l : list ascii) : option Z :=
  fst <$> scan_digits base (match l with c :: l' => if code c =? 95 then l' else l | [] => [] end) 0 0 true.

(** Without a prefix: decimal, with the digit limit, and a leading zero only
    in zero. *)
Definition decimal (l : list ascii) : option Z :=
  '(v, n) ← scan_digits 10 l 0 0 true;
  if (int_max_str_digits <? n)%nat then None
  else match l with
  | c :: _ => if (code c =? 48) && negb (v =? 0) then None else Some v
  | [] => None
  end.

Definition unsigned_literal (l : list ascii) : option Z :=
  match l with
  | z :: x :: l' =>
      if code z =? 48 then
        if (code x =? 120) || (code x =? 88) then prefixed 16 l'
        else if (code x =? 111) || (code x =? 79) then prefixed 8 l'
        else if (code x =? 98) || (code x =? 66) then prefixed 2 l'
        else decimal l
      else decimal l
  | _ => decimal l
  end.

(** [int(text, 0)] on text without white space; [None] is [ValueError]. *)
Definition int_literal (l : list ascii) : option Z :=
  match l with
  | c :: l' =>
      if code c =? 45 then Z.opp <$> unsigned_literal l'
      else if code c =? 43 then unsigned_literal l'
      else unsigned_literal l
  | [] => None
  end.

Definition _parse_uint (text : list ascii) (name : string) : result contract_error Z :=
  parsed ← result_of_option (InvalidConstant name) (int_literal (rstrip (fun c => py_in c ["U"; "L"; "u"; "l"]%char) text));
  ensure ((0 <=? parsed) && (parsed <=? 4294967295)) (OutOfRange name);;
  Ok parsed.

Definition read_line (values : list (string * Z)) (line : list ascii) : result contract_error (list (string * Z)) :=
  match re_match DEFINE_RE line with
  | None => Ok values
  | Some m =>
      let name := of_chars (default [] (group 1 m)) in
      if py_in name REQUIRED_CONSTANTS then
        ensure (negb (dict_has name values)) (DuplicateConstant name);;
        v ← _parse_uint (default [] (group 2 m)) name;
        Ok (dict_set name v values)
      else Ok values
  end.

Definition value (d : list (string * Z)) (name : string) : Z := match dict_get name d with Some v => v | None => 0 end.

(** [lines]: what [readlines] returns, [None] for an [OSError]. *)
Definition load_public_constants (lines : option (list (list ascii))) : result contract_error (list (string * Z)) :=
  lines ← result_of_option CannotRead lines;
  values ← fold_left (fun r l => v ← r; read_line v l) lines (Ok []);
  match List.find (fun n => negb (dict_has n values)) REQUIRED_CONSTANTS with
  | Some n => Err (MissingConstant n)
  | None =>
      ensure (value values "HIL_SOURCE_PREAMBLE_SEGMENT_SAMPLES" * value values "HIL_SOURCE_PREAMBLE_SEGMENTS" =?
              value values "HIL_SOURCE_PREAMBLE_TOTAL_SAMPLES") InconsistentPreamble;;
      Ok values
  end.

Definition required_fragments : list string := [
  "(segment == 1U || segment == 5U)"; "(segment == 3U || segment == 5U)";
  "ch->prng = hil_xorshift32(ch->prng); /* first update */"; "HIL_SOURCE_ENVELOPE_BLOCK_SAMPLES";
  "HIL_SOURCE_TRANSITION_RAMP_SAMPLES"; "amp = 0; /* tail: exact PCM zero */"]%string.

Definition verify_public_signal_contract (source : option string) : result contract_error unit :=
  source ← result_of_option CannotRead source;
  match List.find (fun f => negb (contains f source)) required_fragments with
  | Some f => Err (Drift f)
  | None => Ok tt
  end.

(** The constants' lines of hil_source_types.h. *)
Definition header_lines : list (list ascii) := [
  chars "#define HIL_SOURCE_PROTOCOL_VERSION 1U" ++ [newline];
  chars "#define HIL_SOURCE_FIRMWARE_ID      " ++ [chr 34] ++ chars "le-audio-hil-source-rh1" ++ [chr 34] ++ [newline];
  chars "#define HIL_SOURCE_SAMPLE_RATE_HZ   48000U" ++ [newline];
  chars "" ++ [newline];
  chars "#define HIL_SOURCE_LEFT_CARRIER_HZ  997U" ++ [newline];
  chars "#define HIL_SOURCE_LEFT_PHASE_STEP  0x05513CC2UL" ++ [newline];
  chars "#define HIL_SOURCE_RIGHT_CARRIER_HZ 1601U" ++ [newline];
  chars "#define HIL_SOURCE_RIGHT_PHASE_STEP 0x0889E60FUL" ++ [newline];
  chars "" ++ [newline];
  chars "#define HIL_SOURCE_AMPLITUDE_FULL 8192" ++ [newline];
  chars "#define HIL_SOURCE_AMPLITUDE_LOW  4096" ++ [newline];
  chars "" ++ [newline];
  chars "#define HIL_SOURCE_ENVELOPE_BLOCK_SAMPLES   5760U  /* 120 ms at 48 kHz */" ++ [newline];
  chars "#define HIL_SOURCE_TRANSITION_RAMP_SAMPLES  240U   /* 5 ms at 48 kHz */" ++ [newline];
  chars "#define HIL_SOURCE_PREAMBLE_SEGMENT_SAMPLES 11520U /* 240 ms at 48 kHz */" ++ [newline];
  chars "#define HIL_SOURCE_PREAMBLE_SEGMENTS        6U" ++ [newline];
  chars "#define HIL_SOURCE_PREAMBLE_TOTAL_SAMPLES   69120U /* 1.44 s at 48 kHz */" ++ [newline];
  chars "" ++ [newline];
  chars "#define HIL_SOURCE_TAIL_MIN_US         5000000U" ++ [newline];
  chars "#define HIL_SOURCE_DEFAULT_SIGNAL_SEED 0x48A31C5DUL" ++ [newline];
  chars "#define HIL_SOURCE_MAX_SCORED_SDUS     20000U" ++ [newline];
  chars "" ++ [newline];
  chars "#define HIL_SOURCE_MAX_COMMAND_LINE_BYTES 511U" ++ [newline];
  chars "#define HIL_SOURCE_MAX_COMMAND_ID_LEN     63U" ++ [newline];
  chars "#define HIL_SOURCE_MAX_RUN_ID_LEN         64U" ++ [newline];
  chars "" ++ [newline];
  chars "/* xorshift32 state derived from the configured signal seed; a derived" ++ [newline];
  chars " * zero (seed ^ mask == 0) is replaced with this constant. */" ++ [newline];
  chars "#define HIL_SOURCE_LEFT_PRNG_MASK        0x4C454654UL" ++ [newline];
  chars "#define HIL_SOURCE_RIGHT_PRNG_MASK       0x52494748UL" ++ [newline];
  chars "#define HIL_SOURCE_PRNG_ZERO_REPLACEMENT 0x6D2B79F5UL" ++ [newline]].

(** What the module computes when it is imported. *)
Definition PUBLIC_CONSTANTS : list (string * Z) :=
  Eval vm_compute in match load_public_constants (Some header_lines) with Ok d => d | Err _ => [] end.
Definition C (name : string) : Z := value PUBLIC_CONSTANTS name.

End Contract.

(** ** The rebuilt signal (capture_signal.py) *)

Module Signal.
Import Contract.

Inductive signal_error : Type :=
| UnsupportedProfile | UnknownChannel | PreambleRange | BadSeed | NegativeSamples | UnsupportedMode | BadCapability.

Definition frame_samples (profile : string) : result signal_error Z :=
  if String.eqb profile "48_3_1" then Ok 360
  else if String.eqb profile "48_4_1" then Ok 480
  else Err UnsupportedProfile.

Definition frame_duration_us (profile : string) : result signal_error Z :=
  if String.eqb profile "48_3_1" then Ok 7500
  else if String.eqb profile "48_4_1" then Ok 10000
  else Err UnsupportedProfile.

Definition tail_samples (profile : string) : result signal_error Z :=
  duration_us ← frame_duration_us profile;
  let frames := (C "HIL_SOURCE_TAIL_MIN_US" + duration_us - 1) / duration_us in
  n ← frame_samples profile; Ok (frames * n).

Definition scored_samples (row : RowSpec) : result signal_error Z :=
  n ← frame_samples (profile row); Ok (scored_sdu_count row * n).

Definition total_samples (row : RowSpec) : result signal_error Z :=
  s ← scored_samples row; t ← tail_samples (profile row);
  Ok (C "HIL_SOURCE_PREAMBLE_TOTAL_SAMPLES" + s + t).

Definition xorshift32 (value : Z) : Z :=
  let value := Z.land value 0xFFFFFFFF in
  let value := Z.lxor value (Z.land (Z.shiftl value 13) 0xFFFFFFFF) in
  let value := Z.lxor value (Z.shiftr value 17) in
  let value := Z.lxor value (Z.land (Z.shiftl value 5) 0xFFFFFFFF) in
  Z.land value 0xFFFFFFFF.

Definition _c_trunc_div (numerator denominator : Z) : Z :=
  if numerator <? 0 then - ((- numerator) / denominator) else numerator / denominator.

Definition by_channel (channel : string) (left right : Z) : result signal_error Z :=
  if String.eqb channel "left" then Ok left
  else if String.eqb channel "right" then Ok right
  else Err UnknownChannel.

Definition carrier_frequency (channel : string) : result signal_error Z :=
  by_channel channel (C "HIL_SOURCE_LEFT_CARRIER_HZ") (C "HIL_SOURCE_RIGHT_CARRIER_HZ").
Definition carrier_phase_step (channel : string) : result signal_error Z :=
  by_channel channel (C "HIL_SOURCE_LEFT_PHASE_STEP") (C "HIL_SOURCE_RIGHT_PHASE_STEP").
Definition _prng_mask (channel : string) : result signal_error Z :=
  by_channel channel (C "HIL_SOURCE_LEFT_PRNG_MASK") (C "HIL_SOURCE_RIGHT_PRNG_MASK").

(** Every channel but "left" gets the right-hand pattern, as in the code. *)
Definition preamble_on (channel : string) (index : Z) : bool :=
  if String.eqb channel "left" then (index =? 1) || (index =? 5) else (index =? 3) || (index =? 5).

Definition preamble_amplitude (channel : string) (samples : option Z) : result signal_error (list Z) :=
  let count := default (C "HIL_SOURCE_PREAMBLE_TOTAL_SAMPLES") samples in
  ensure (negb ((count <? 0) || (C "HIL_SOURCE_PREAMBLE_TOTAL_SAMPLES" <? count))) PreambleRange;;
  Ok ((fun i => if preamble_on channel (i / C "HIL_SOURCE_PREAMBLE_SEGMENT_SAMPLES") then C "HIL_SOURCE_AMPLITUDE_FULL" else 0)
        <$> seqZ 0 count).

Definition block_size : Z := C "HIL_SOURCE_ENVELOPE_BLOCK_SAMPLES".
Definition ramp_size : Z := C "HIL_SOURCE_TRANSITION_RAMP_SAMPLES".
Definition next_target (state : Z) : Z :=
  if Z.land state 1 =? 0 then C "HIL_SOURCE_AMPLITUDE_LOW" else C "HIL_SOURCE_AMPLITUDE_FULL".

(** The envelope of one block: [old + trunc(diff * index / ramp_size)], then
    [target]. *)
Definition block_values (old target block_count : Z) : list Z :=
  let ramp_count := Z.min ramp_size block_count in
  ((fun index => old + _c_trunc_div ((target - old) * index) ramp_size) <$> seqZ 1 ramp_count) ++
  replicate (Z.to_nat (block_count - ramp_count)) target.

(** The [while] loop; [fuel] bounds its blocks and [None] is running out. *)
Fixpoint amplitude_loop (fuel : nat) (samples written state old target : Z) : option (list Z) :=
  if written <? samples then
    match fuel with
    | O => None
    | S fuel' =>
        let block_count := Z.min block_size (samples - written) in
        let written := written + block_count in
        rest ← (if block_count =? block_size
                then let state := xorshift32 state in amplitude_loop fuel' samples written state target (next_target state)
                else amplitude_loop fuel' samples written state old target);
        Some (block_values old target block_count ++ rest)
    end
  else Some [].

Definition scored_amplitude (channel : string) (seed samples : Z) : result signal_error (option (list Z)) :=
  ensure (negb ((seed <=? 0) || (4294967295 <? seed))) BadSeed;;
  ensure (negb (samples <? 0)) NegativeSamples;;
  mask ← _prng_mask channel;
  let state := Z.lxor seed mask in
  let state := if state =? 0 then C "HIL_SOURCE_PRNG_ZERO_REPLACEMENT" else state in
  let state := xorshift32 state in
  Ok (amplitude_loop (S (Z.to_nat (samples / block_size))) samples 0 state (C "HIL_SOURCE_AMPLITUDE_FULL") (next_target state)).

Definition semantic_amplitude (channel : string) (row : RowSpec) : result signal_error (option (list Z)) :=
  scored ← scored_samples row;
  tail ← tail_samples (profile row);
  pre ← preamble_amplitude channel None;
  amp ← scored_amplitude channel (signal_seed row) scored;
  Ok (a ← amp; Some (pre ++ a ++ replicate (Z.to_nat tail) 0)).

Definition uint64 (z : Z) : Z := z mod 18446744073709551616.

(** [np.arange(start, start + count, dtype=uint64) * step] *)
Definition phases (start count step : Z) : list Z := (fun i => uint64 (i * step)) <$> seqZ start count.

Section pcm.
(** A sample from its exact phase and amplitude, and the mean of two. *)
Context {S : Type} (sample : Z -> Z -> S) (mean : S -> S -> S).

Definition scored_semantic_pcm (channel : string) (row : RowSpec) : result signal_error (option (list S)) :=
  count ← scored_samples row;
  step ← carrier_phase_step channel;
  amp ← scored_amplitude channel (signal_seed row) count;
  Ok (a ← amp; Some (zip_with sample (phases (C "HIL_SOURCE_PREAMBLE_TOTAL_SAMPLES") count step) a)).

Definition semantic_pcm (channel : string) (row : RowSpec) : result signal_error (option (list S)) :=
  count ← total_samples row;
  step ← carrier_phase_step channel;
  amp ← semantic_amplitude channel row;
  Ok (a ← amp; Some (zip_with sample (phases 0 count step) a)).

(** The columns of [np.column_stack] and what the capability keeps of them. *)
Definition channels_of (pcm : string -> RowSpec -> result signal_error (option (list S))) (row : RowSpec) (capability : string)
    : result signal_error (option (list (list S))) :=
  l ← pcm "left"%string row; r ← pcm "right"%string row;
  right ← (if String.eqb (mode row) "mono" then Ok l
           else if py_in (mode row) ["mode_a"; "mode_b"]%string then Ok r
           else Err UnsupportedMode);
  let physical (f : S -> S -> list S) := (x ← l; y ← right; Some (zip_with f x y)) in
  if String.eqb capability "stereo" then Ok (physical (fun x y => [x; y]))
  else if String.eqb capability "mono" then Ok (physical (fun x y => [mean x y]))
  else Err BadCapability.

Definition output_channels : RowSpec -> string -> result signal_error (option (list (list S))) := channels_of semantic_pcm.
Definition scored_output_channels : RowSpec -> string -> result signal_error (option (list (list S))) :=
  channels_of scored_semantic_pcm.
End pcm.

Definition expected_semantics (row : RowSpec) (capability : string) : result signal_error (list (list string)) :=
  let mono := String.eqb (mode row) "mono" in
  if String.eqb capability "mono" then Ok [if mono then ["left"] else ["left"; "right"]]%string
  else if String.eqb capability "stereo" then Ok (if mono then [["left"]; ["left"]] else [["left"]; ["right"]])%string
  else Err BadCapability.

End Signal.

(** ** The source firmware's generator (hil_source_signal.c) *)

Module Firmware.
Import Contract.

Definition u32 (z : Z) : Z := z mod 4294967296.
(** Conversion to [int16_t]. *)
Definition i16 (z : Z) : Z := (z + 32768) mod 65536 - 32768.

Inductive semantic : Type := HIL_SOURCE_CHANNEL_LEFT | HIL_SOURCE_CHANNEL_RIGHT.
Inductive stage : Type := PREAMBLE | SCORED | TAIL.

(** [struct hil_source_signal_channel], less [block_index], which nothing
    reads. *)
Record channel : Type := mk_channel {
  c_semantic : semantic; phase : Z; prng : Z; block_pos : Z; ramp_index : Z;
  ramp_old : Z; ramp_next : Z; preamble_rendered : Z; scored_entered : bool;
}.
Definition init (s : semantic) : channel := mk_channel s 0 0 0 0 0 0 0 false.

Definition hil_channel_phase_step (s : semantic) : Z :=
  match s with HIL_SOURCE_CHANNEL_LEFT => C "HIL_SOURCE_LEFT_PHASE_STEP" | _ => C "HIL_SOURCE_RIGHT_PHASE_STEP" end.
Definition hil_channel_prng_mask (s : semantic) : Z :=
  match s with HIL_SOURCE_CHANNEL_LEFT => C "HIL_SOURCE_LEFT_PRNG_MASK" | _ => C "HIL_SOURCE_RIGHT_PRNG_MASK" end.

Definition hil_derive_prng (seed mask : Z) : Z :=
  let x := Z.lxor seed mask in if x =? 0 then C "HIL_SOURCE_PRNG_ZERO_REPLACEMENT" else x.

Definition hil_xorshift32 (x : Z) : Z :=
  let x := Z.lxor x (u32 (Z.shiftl x 13)) in
  let x := Z.lxor x (Z.shiftr x 17) in
  Z.lxor x (u32 (Z.shiftl x 5)).

Definition hil_preamble_amplitude (s : semantic) (segment : Z) : Z :=
  let on := match s with
            | HIL_SOURCE_CHANNEL_LEFT => (segment =? 1) || (segment =? 5)
            | HIL_SOURCE_CHANNEL_RIGHT => (segment =? 3) || (segment =? 5)
            end in
  if on then C "HIL_SOURCE_AMPLITUDE_FULL" else 0.

Definition pick (prng : Z) : Z :=
  if Z.land prng 1 =? 0 then C "HIL_SOURCE_AMPLITUDE_LOW" else C "HIL_SOURCE_AMPLITUDE_FULL".

(** The initialisation at scored entry. *)
Definition enter (seed : Z) (ch : channel) : channel :=
  if scored_entered ch then ch
  else
    let p := hil_xorshift32 (hil_derive_prng seed (hil_channel_prng_mask (c_semantic ch))) in
    mk_channel (c_semantic ch) (phase ch) p 0 0 (C "HIL_SOURCE_AMPLITUDE_FULL") (pick p) (preamble_rendered ch) true.

(** [hil_scored_amplitude]: the amplitude and the channel after it. *)
Definition hil_scored_amplitude (seed : Z) (ch : channel) : Z * channel :=
  let ch := enter seed ch in
  let ramping := ramp_index ch <? C "HIL_SOURCE_TRANSITION_RAMP_SAMPLES" in
  let amp :=
    if ramping then ramp_old ch + Z.quot ((ramp_next ch - ramp_old ch) * (ramp_index ch + 1)) (C "HIL_SOURCE_TRANSITION_RAMP_SAMPLES")
    else ramp_next ch in
  let ri := if ramping then ramp_index ch + 1 else ramp_index ch in
  let bp := block_pos ch + 1 in
  (i16 amp,
   if C "HIL_SOURCE_ENVELOPE_BLOCK_SAMPLES" <=? bp then
     let p := hil_xorshift32 (prng ch) in
     mk_channel (c_semantic ch) (phase ch) p 0 0 (ramp_next ch) (pick p) (preamble_rendered ch) true
   else mk_channel (c_semantic ch) (phase ch) (prng ch) bp ri (ramp_old ch) (ramp_next ch) (preamble_rendered ch) true).

Definition advance_phase (st : stage) (ch : channel) : channel :=
  mk_channel (c_semantic ch) (u32 (phase ch + hil_channel_phase_step (c_semantic ch))) (prng ch) (block_pos ch) (ramp_index ch)
    (ramp_old ch) (ramp_next ch) (match st with PREAMBLE => preamble_rendered ch + 1 | _ => preamble_rendered ch end) (scored_entered ch).

(** The loop of [hil_source_signal_render]: phase and amplitude of every
    sample ([wave] is the sine of the phase and [pcm = wave * amp / 32767]). *)
Fixpoint render (st : stage) (seed : Z) (samples : nat) (ch : channel) : list (Z * Z) * channel :=
  match samples with
  | O => ([], ch)
  | S n =>
      let '(amp, ch1) :=
        match st with
        | PREAMBLE => (hil_preamble_amplitude (c_semantic ch) (preamble_rendered ch / C "HIL_SOURCE_PREAMBLE_SEGMENT_SAMPLES"), ch)
        | SCORED => hil_scored_amplitude seed ch
        | TAIL => (0, ch)
        end in
      let '(rest, ch2) := render st seed n (advance_phase st ch1) in
      ((phase ch, amp) :: rest, ch2)
  end.

(** A run: the full preamble (which scored entry requires), [n] scored and
    [t] tail samples. *)
Definition run (s : semantic) (seed : Z) (n t : nat) : list (Z * Z) :=
  let '(a, ch) := render PREAMBLE seed (Z.to_nat (C "HIL_SOURCE_PREAMBLE_TOTAL_SAMPLES")) (init s) in
  let '(b, ch) := render SCORED seed n ch in
  let '(c, _) := render TAIL seed t ch in
  a ++ b ++ c.

End Firmware.

(** ** Arithmetic of the generator *)

Module SignalLemmas.
Import Contract Signal Firmware.

Lemma C_full : C "HIL_SOURCE_AMPLITUDE_FULL" = 8192. Proof. reflexivity. Qed.
Lemma C_low : C "HIL_SOURCE_AMPLITUDE_LOW" = 4096. Proof. reflexivity. Qed.
Lemma C_block : C "HIL_SOURCE_ENVELOPE_BLOCK_SAMPLES" = 5760. Proof. reflexivity. Qed.
Lemma C_ramp : C "HIL_SOURCE_TRANSITION_RAMP_SAMPLES" = 240. Proof. reflexivity. Qed.
Lemma C_segment : C "HIL_SOURCE_PREAMBLE_SEGMENT_SAMPLES" = 11520. Proof. reflexivity. Qed.
Lemma C_preamble : C "HIL_SOURCE_PREAMBLE_TOTAL_SAMPLES" = 69120. Proof. reflexivity. Qed.

(** Python's rendering of C division. *)
Lemma c_trunc_div_quot n d : 0 < d -> _c_trunc_div n d = Z.quot n d.
Proof.
  intros Hd. unfold _c_trunc_div. destruct (Z.ltb_spec n 0).
  - rewrite <- Z.quot_div_nonneg by lia. rewrite Z.quot_opp_l by lia. lia.
  - by rewrite Z.quot_div_nonneg by lia.
Qed.

Definition u32_ok (x : Z) : Prop := 0 <= x < 4294967296.

Lemma land_u32 x : Z.land x 0xFFFFFFFF = u32 x.
Proof. unfold u32. change 0xFFFFFFFF with (Z.ones 32). by rewrite Z.land_ones. Qed.

Lemma u32_range x : u32_ok (u32 x).
Proof. by apply Z.mod_pos_bound. Qed.

Lemma u32_id x : u32_ok x -> u32 x = x.
Proof. apply Z.mod_small. Qed.

Lemma u32_bits x : u32_ok x <-> 0 <= x /\ forall i, 32 <= i -> Z.testbit x i = false.
Proof.
  split.
  - intros [H1 H2]. split; [done|]. intros i Hi. destruct (decide (x = 0)) as [->|Hx]; [apply Z.testbit_0_l|].
    apply Z.bits_above_log2; [done|]. apply Z.log2_lt_pow2; [lia|].
    apply Z.lt_le_trans with (2 ^ 32); [done|]. apply Z.pow_le_mono_r; lia.
  - intros [H1 H2]. split; [done|]. rewrite <- (u32_id 0) in H1 by done.
    assert (x = u32 x) as ->; [|apply u32_range]. apply Z.bits_inj'. intros i Hi.
    unfold u32. change 4294967296 with (2 ^ 32). destruct (Z.lt_ge_cases i 32).
    + by rewrite Z.mod_pow2_bits_low.
    + rewrite Z.mod_pow2_bits_high by lia. by apply H2.
Qed.

Lemma u32_lxor x y : u32_ok x -> u32_ok y -> u32_ok (Z.lxor x y).
Proof.
  rewrite !u32_bits. intros [H1 H2] [H3 H4]. split; [by apply Z.lxor_nonneg|].
  intros i Hi. by rewrite Z.lxor_spec, H2, H4.
Qed.

Lemma u32_shiftr x k : 0 <= k -> u32_ok x -> u32_ok (Z.shiftr x k).
Proof.
  rewrite !u32_bits. intros Hk [H1 H2]. split; [by apply Z.shiftr_nonneg|].
  intros i Hi. rewrite Z.shiftr_spec by lia. apply H2. lia.
Qed.

Lemma xorshift_stages x :
  u32_ok x ->
  u32_ok (Z.lxor x (u32 (Z.shiftl x 13))) /\
  u32_ok (Z.lxor x (Z.shiftr x 17)) /\
  u32_ok (Z.lxor x (u32 (Z.shiftl x 5))).
Proof.
  intros Hx. split; [|split]; apply u32_lxor; try done; try apply u32_range. by apply u32_shiftr.
Qed.

Lemma hil_xorshift32_ok x : u32_ok x -> u32_ok (hil_xorshift32 x).
Proof. intros Hx. unfold hil_xorshift32. by apply xorshift_stages, xorshift_stages, xorshift_stages. Qed.

Lemma xorshift32_firmware x : u32_ok x -> xorshift32 x = hil_xorshift32 x.
Proof.
  intros Hx. unfold xorshift32. rewrite !land_u32, (u32_id x) by done.
  rewrite u32_id; [done|]. by apply hil_xorshift32_ok.
Qed.

(** Each stage of the generator can be undone. *)
Lemma shiftl_stage_inj k x y :
  0 < k -> u32_ok x -> u32_ok y ->
  Z.lxor x (u32 (Z.shiftl x k)) = Z.lxor y (u32 (Z.shiftl y k)) -> x = y.
Proof.
  intros Hk [Hx Hx']%u32_bits [Hy Hy']%u32_bits Heq. apply Z.bits_inj'. intros i Hi. revert i Hi.
  apply (Zlt_0_ind (fun i => Z.testbit x i = Z.testbit y i)). intros i IH Hi.
  destruct (Z.lt_ge_cases i 32) as [Hlt|Hge]; [|by rewrite Hx', Hy'].
  assert (Z.testbit (Z.lxor x (u32 (Z.shiftl x k))) i = Z.testbit (Z.lxor y (u32 (Z.shiftl y k))) i) as Hb by by rewrite Heq.
  rewrite !Z.lxor_spec in Hb. unfold u32 in Hb. change 4294967296 with (2 ^ 32) in Hb.
  rewrite !Z.mod_pow2_bits_low, !Z.shiftl_spec in Hb by lia.
  assert (Z.testbit x (i - k) = Z.testbit y (i - k)) as Hs.
  { destruct (Z.lt_ge_cases (i - k) 0); [by rewrite !Z.testbit_neg_r | apply IH; lia]. }
  rewrite Hs in Hb. by destruct (Z.testbit x i), (Z.testbit y i), (Z.testbit y (i - k)).
Qed.

Lemma shiftr_stage_inj k x y :
  0 < k -> u32_ok x -> u32_ok y -> Z.lxor x (Z.shiftr x k) = Z.lxor y (Z.shiftr y k) -> x = y.
Proof.
  intros Hk [Hx Hx']%u32_bits [Hy Hy']%u32_bits Heq. apply Z.bits_inj'.
  assert (forall j, 0 <= j -> forall i, 0 <= i -> 32 - j <= i -> Z.testbit x i = Z.testbit y i) as Hall.
  { apply (natlike_ind (fun j => forall i, 0 <= i -> 32 - j <= i -> Z.testbit x i = Z.testbit y i)).
    - intros i Hi Hge. by rewrite Hx', Hy' by lia.
    - intros j Hj IH i Hi Hge. destruct (Z.lt_ge_cases i (32 - j)) as [Hlt|]; [|by apply IH].
      assert (Z.testbit (Z.lxor x (Z.shiftr x k)) i = Z.testbit (Z.lxor y (Z.shiftr y k)) i) as Hb by by rewrite Heq.
      rewrite !Z.lxor_spec, !Z.shiftr_spec, (IH (i + k)) in Hb by lia.
      by destruct (Z.testbit x i), (Z.testbit y i), (Z.testbit y (i + k)). }
  intros i Hi. apply (Hall (Z.max 0 (32 - i))); lia.
Qed.

Lemma xorshift32_inj x y : u32_ok x -> u32_ok y -> xorshift32 x = xorshift32 y -> x = y.
Proof.
  intros Hx Hy. rewrite !xorshift32_firmware by done. unfold hil_xorshift32. intros H.
  pose proof (proj1 (xorshift_stages x Hx)) as Hx1. pose proof (proj1 (xorshift_stages y Hy)) as Hy1.
  apply shiftl_stage_inj in H; [|lia|by apply xorshift_stages|by apply xorshift_stages].
  apply shiftr_stage_inj in H; [|lia|done|done]. apply shiftl_stage_inj in H; [done|lia|done|done].
Qed.

(** ** The envelope, sample by sample and block by block *)

Definition level (a : Z) : Prop := a = 4096 \/ a = 8192.

(** The amplitude at offset [i] of a block. *)
Definition value_at (old target i : Z) : Z := if i <? 240 then old + Z.quot ((target - old) * (i + 1)) 240 else target.

Lemma level_pick p : level (pick p).
Proof. unfold level, pick. rewrite C_low, C_full. destruct (_ =? _); tauto. Qed.

Lemma i16_value old target i : 0 <= i -> level old -> level target -> i16 (value_at old target i) = value_at old target i.
Proof.
  intros Hi Ho Ht. unfold value_at, i16, level in *. destruct (Z.ltb_spec i 240).
  - rewrite (Z.mod_small _ 65536); [lia|].
    destruct Ho as [->| ->], Ht as [->| ->]; rewrite ?Z.sub_diag, ?Z.mul_0_l, ?Z.quot_0_l by lia; try lia.
    + rewrite Z.quot_div_nonneg by lia.
      assert (0 <= (8192 - 4096) * (i + 1) / 240 <= 4096); [|lia].
      split; [apply Z.div_pos; lia | apply Z.div_le_upper_bound; lia].
    + replace ((4096 - 8192) * (i + 1)) with (- (4096 * (i + 1))) by lia. rewrite Z.quot_opp_l by lia.
      rewrite Z.quot_div_nonneg by lia. assert (0 <= 4096 * (i + 1) / 240 <= 4096); [|lia].
      split; [apply Z.div_pos; lia | apply Z.div_le_upper_bound; lia].
  - rewrite Z.mod_small by lia. lia.
Qed.

(** A channel inside a block. *)
Definition inside (s : semantic) (ph p bp old target pr : Z) : channel :=
  mk_channel s ph p bp (Z.min bp 240) old target pr true.

Lemma scored_step seed s ph p bp old target pr :
  0 <= bp < 5760 -> level old -> level target ->
  hil_scored_amplitude seed (inside s ph p bp old target pr) =
    (value_at old target bp,
     if bp =? 5759 then inside s ph (hil_xorshift32 p) 0 target (pick (hil_xorshift32 p)) pr
     else inside s ph p (bp + 1) old target pr).
Proof.
  intros Hb Ho Ht. unfold hil_scored_amplitude, enter, inside. cbn [scored_entered ramp_index ramp_old ramp_next block_pos prng c_semantic phase preamble_rendered].
  rewrite C_ramp, C_block. rewrite <- (i16_value old target bp) by (done || lia). unfold value_at.
  destruct (Z.ltb_spec (Z.min bp 240) 240), (Z.ltb_spec bp 240); try lia;
    destruct (Z.leb_spec 5760 (bp + 1)), (Z.eqb_spec bp 5759); try lia; rewrite ?Z.min_l, ?Z.min_r by lia; try done;
    f_equal; f_equal; lia.
Qed.

Definition step_of (s : semantic) : Z := hil_channel_phase_step s.

(** Rendering up to the end of a block without crossing it. *)
Lemma render_inside seed s p old target pr n ph bp :
  level old -> level target -> 0 <= bp -> bp + Z.of_nat n < 5760 ->
  exists ph', (render SCORED seed n (inside s ph p bp old target pr)).2 = inside s ph' p (bp + Z.of_nat n) old target pr /\
  (render SCORED seed n (inside s ph p bp old target pr)).1.*2 = value_at old target <$> seqZ bp (Z.of_nat n).
Proof.
  intros Ho Ht. revert ph bp. induction n as [|n IH]; intros ph bp Hb Hn.
  - exists ph. simpl. by rewrite Z.add_0_r.
  - cbn [render]. rewrite scored_step by (done || lia).
    destruct (Z.eqb_spec bp 5759); [lia|].
    change (advance_phase SCORED (inside s ph p (bp + 1) old target pr)) with
      (inside s (u32 (ph + step_of s)) p (bp + 1) old target pr).
    destruct (IH (u32 (ph + step_of s)) (bp + 1)) as (ph' & H1 & H2); [lia|lia|].
    destruct (render SCORED seed n _) as [l ch'] eqn:Hr. cbn [fst snd] in *. exists ph'. split.
    + rewrite H1. f_equal. lia.
    + rewrite fmap_cons, H2, (seqZ_cons bp), fmap_cons by lia. cbn [snd]. do 3 f_equal; lia.
Qed.

Lemma render_app st seed n m ch :
  render st seed (n + m) ch =
    let '(a, ch1) := render st seed n ch in let '(b, ch2) := render st seed m ch1 in (a ++ b, ch2).
Proof.
  revert ch. induction n as [|n IH]; intros ch; simpl; [by destruct (render st seed m ch)|].
  destruct (match st with PREAMBLE => _ | SCORED => _ | TAIL => _ end) as [amp ch1]. rewrite IH.
  destruct (render st seed n _) as [a ch2]. by destruct (render st seed m ch2).
Qed.

(** A whole block. *)
Lemma render_block seed s p old target pr ph :
  level old -> level target ->
  exists ph', (render SCORED seed (Z.to_nat 5760) (inside s ph p 0 old target pr)).2 =
                inside s ph' (hil_xorshift32 p) 0 target (pick (hil_xorshift32 p)) pr /\
  (render SCORED seed (Z.to_nat 5760) (inside s ph p 0 old target pr)).1.*2 = value_at old target <$> seqZ 0 5760.
Proof.
  intros Ho Ht. replace (Z.to_nat 5760) with (Z.to_nat 5759 + 1)%nat by lia. rewrite render_app.
  destruct (render_inside seed s p old target pr (Z.to_nat 5759) ph 0 Ho Ht) as (ph' & H1 & H2); [lia|lia|].
  rewrite !Z2Nat.id in * by lia. rewrite Z.add_0_l in H1.
  destruct (render SCORED seed (Z.to_nat 5759) _) as [a ch1]. cbn [fst snd] in H1, H2. subst ch1.
  cbn [render]. rewrite scored_step by (done || lia). rewrite Z.eqb_refl.
  exists (u32 (ph' + step_of s)). split; [done|]. cbn [fst]. rewrite fmap_app, H2.
  replace 5760 with (5759 + 1) by lia. rewrite (seqZ_app 0 5759 1) by lia. by rewrite fmap_app.
Qed.

Lemma seqZ_shift_fmap {A} (f g : Z -> A) m m' n :
  (forall i, 0 <= i < n -> f (m + i) = g (m' + i)) -> f <$> seqZ m n = g <$> seqZ m' n.
Proof.
  intros H. apply list_eq. intros i. rewrite !list_lookup_fmap.
  destruct (Z.lt_ge_cases (Z.of_nat i) n) as [Hlt|Hge].
  - rewrite !lookup_seqZ_lt by lia. simpl. f_equal. apply H. lia.
  - by rewrite !lookup_seqZ_ge by lia.
Qed.

(** The code's block is the firmware's. *)
Lemma block_values_spec old target n : 0 <= n -> block_values old target n = value_at old target <$> seqZ 0 n.
Proof.
  intros Hn. unfold block_values, ramp_size. rewrite C_ramp.
  assert (seqZ 0 n = seqZ 0 (Z.min 240 n) ++ seqZ (0 + Z.min 240 n) (n - Z.min 240 n)) as ->
    by (rewrite <- seqZ_app by lia; f_equal; lia).
  rewrite fmap_app. f_equal.
  - apply seqZ_shift_fmap. intros i Hi. unfold value_at. destruct (Z.ltb_spec (0 + i) 240); [|lia].
    rewrite c_trunc_div_quot by lia. do 3 f_equal. lia.
  - apply list_eq. intros i. rewrite list_lookup_fmap. destruct (Z.lt_ge_cases (Z.of_nat i) (n - Z.min 240 n)).
    + rewrite lookup_replicate_2 by lia. rewrite lookup_seqZ_lt by lia. simpl. f_equal. unfold value_at.
      destruct (Z.ltb_spec (0 + Z.min 240 n + Z.of_nat i) 240); [lia|done].
    + rewrite lookup_seqZ_ge by lia. simpl. apply lookup_ge_None_2. rewrite length_replicate. lia.
Qed.

(** The analyzer's loop from any block boundary, with enough fuel. *)
Lemma amplitude_loop_render seed s pr fuel : forall samples written state ph old target,
  u32_ok state -> level old -> level target -> written <= samples -> samples - written < Z.of_nat fuel * 5760 ->
  amplitude_loop fuel samples written state old target =
    Some ((render SCORED seed (Z.to_nat (samples - written)) (inside s ph state 0 old target pr)).1.*2).
Proof.
  induction fuel as [|fuel IH]; intros samples written state ph old target Hs Ho Ht Hw Hf; [lia|].
  cbn [amplitude_loop]. destruct (Z.ltb_spec written samples) as [Hlt|Hge];
    [|replace (Z.to_nat (samples - written)) with 0%nat by lia; done].
  unfold block_size. rewrite C_block. destruct (Z.eqb_spec (Z.min 5760 (samples - written)) 5760) as [Hfull|Hpart].
  - rewrite Hfull. replace (Z.to_nat (samples - written)) with (Z.to_nat 5760 + Z.to_nat (samples - (written + 5760)))%nat by lia.
    rewrite render_app. destruct (render_block seed s state old target pr ph Ho Ht) as (ph' & H1 & H2).
    destruct (render SCORED seed (Z.to_nat 5760) _) as [a ch1]. cbn [fst snd] in H1, H2. subst ch1.
    rewrite xorshift32_firmware by done. change (next_target (hil_xorshift32 state)) with (pick (hil_xorshift32 state)).
    rewrite (IH samples (written + 5760) (hil_xorshift32 state) ph') by
      (first [lia | apply level_pick | by apply hil_xorshift32_ok | done]).
    cbn [mbind option_bind].
    destruct (render SCORED seed (Z.to_nat (samples - (written + 5760))) _) as [b ch2]. cbn [fst snd].
    rewrite fmap_app, H2, block_values_spec by lia. done.
  - rewrite Z.min_r by lia. replace (written + (samples - written)) with samples by lia.
    destruct (render_inside seed s state old target pr (Z.to_nat (samples - written)) ph 0 Ho Ht) as (ph' & H1 & H2); [lia|lia|].
    rewrite Z2Nat.id in H2 by lia. rewrite H2, block_values_spec by lia.
    assert (amplitude_loop fuel samples samples state old target = Some []) as ->.
    { destruct fuel; simpl; by rewrite Z.ltb_irrefl. }
    cbn [mbind option_bind]. by rewrite app_nil_r.
Qed.

Definition channel_name (s : semantic) : string :=
  match s with HIL_SOURCE_CHANNEL_LEFT => "left" | HIL_SOURCE_CHANNEL_RIGHT => "right" end.

Lemma scored_amplitude_render s ch seed samples :
  1 <= seed <= 4294967295 -> 0 <= samples -> scored_entered ch = false -> c_semantic ch = s ->
  scored_amplitude (channel_name s) seed samples =
    Ok (Some ((render SCORED seed (Z.to_nat samples) ch).1.*2)).
Proof.
  intros Hseed Hn He Hs. unfold scored_amplitude.
  destruct (Z.leb_spec seed 0), (Z.ltb_spec 4294967295 seed), (Z.ltb_spec samples 0); try lia. cbn [negb orb ensure mbind result_bind].
  assert (_prng_mask (channel_name s) = Ok (hil_channel_prng_mask s)) as -> by by destruct s. cbn [mbind result_bind].
  change (if Z.lxor seed (hil_channel_prng_mask s) =? 0 then C "HIL_SOURCE_PRNG_ZERO_REPLACEMENT" else Z.lxor seed (hil_channel_prng_mask s))
    with (hil_derive_prng seed (hil_channel_prng_mask s)).
  assert (u32_ok (hil_derive_prng seed (hil_channel_prng_mask s))) as Hd.
  { unfold hil_derive_prng. destruct (_ =? 0); [by vm_compute|]. apply u32_lxor; [unfold u32_ok; lia|]. by destruct s; vm_compute. }
  rewrite xorshift32_firmware by done. set (p := hil_xorshift32 _). assert (u32_ok p) as Hp by by apply hil_xorshift32_ok.
  change (next_target p) with (pick p). unfold block_size. rewrite C_block.
  rewrite (amplitude_loop_render seed s (preamble_rendered ch) _ samples 0 p (phase ch)); try done.
  - rewrite Z.sub_0_r. do 2 f_equal. destruct (Z.to_nat samples) as [|n]; [done|].
    cbn [render]. unfold hil_scored_amplitude. assert (enter seed ch = enter seed (inside s (phase ch) p 0 8192 (pick p) (preamble_rendered ch))) as ->.
    { unfold enter at 1. rewrite He, Hs. done. }
    done.
  - by right.
  - apply level_pick.
  - rewrite Z.sub_0_r, Nat2Z.inj_succ, Z2Nat.id by (apply Z.div_pos; lia). 
    pose proof (Z.mod_pos_bound samples 5760 eq_refl). pose proof (Z.div_mod samples 5760). lia.
Qed.

(** ** Preamble, tail and phases *)

Lemma render_preamble seed s n ch :
  c_semantic ch = s ->
  (render PREAMBLE seed n ch).1.*2 =
    (fun i => hil_preamble_amplitude s (i / C "HIL_SOURCE_PREAMBLE_SEGMENT_SAMPLES")) <$> seqZ (preamble_rendered ch) (Z.of_nat n) /\
  c_semantic (render PREAMBLE seed n ch).2 = s /\ scored_entered (render PREAMBLE seed n ch).2 = scored_entered ch.
Proof.
  revert ch. induction n as [|n IH]; intros ch Hs; [done|]. cbn [render].
  destruct (IH (advance_phase PREAMBLE ch) Hs) as (H1 & H2 & H3).
  destruct (render PREAMBLE seed n _) as [l ch2]. cbn [fst snd] in *. split; [|done].
  rewrite fmap_cons, H1, (seqZ_cons (preamble_rendered ch)), fmap_cons by lia. rewrite Hs. cbn [snd]. do 3 f_equal. simpl. lia.
Qed.

Lemma render_tail seed n ch : (render TAIL seed n ch).1.*2 = replicate n 0.
Proof.
  revert ch. induction n as [|n IH]; intros ch; [done|]. cbn [render]. specialize (IH (advance_phase TAIL ch)).
  destruct (render TAIL seed n _) as [l ch2]. cbn [fst] in *. by rewrite fmap_cons, IH.
Qed.

Lemma scored_keeps seed ch : c_semantic (hil_scored_amplitude seed ch).2 = c_semantic ch /\ phase (hil_scored_amplitude seed ch).2 = phase ch.
Proof.
  unfold hil_scored_amplitude, enter. cbn [snd]. destruct (scored_entered ch); cbn [block_pos]; destruct (_ <=? _); done.
Qed.

(** In every stage the phase advances once per sample. *)
Lemma render_phases st seed s n : forall ch k,
  c_semantic ch = s -> phase ch = u32 (k * step_of s) ->
  (render st seed n ch).1.*1 = (fun i => u32 (i * step_of s)) <$> seqZ k (Z.of_nat n) /\
  c_semantic (render st seed n ch).2 = s /\ phase (render st seed n ch).2 = u32 ((k + Z.of_nat n) * step_of s).
Proof.
  induction n as [|n IH]; intros ch k Hs Hp.
  - simpl. by rewrite Z.add_0_r.
  - cbn [render].
    set (x := match st with PREAMBLE => _ | SCORED => _ | TAIL => _ end).
    assert (c_semantic x.2 = s /\ phase x.2 = phase ch) as [Hxs Hxp].
    { subst x. destruct st; try done. destruct (scored_keeps seed ch) as [-> ->]. done. }
    destruct x as [amp ch1]. cbn [snd] in *.
    destruct (IH (advance_phase st ch1) (k + 1)) as (H1 & H2 & H3); [done| |].
    { simpl. rewrite Hxp, Hp, Hxs. fold (step_of s). unfold u32. rewrite Zplus_mod_idemp_l. f_equal. lia. }
    destruct (render st seed n _) as [l ch2]. cbn [fst snd] in *. split; [|split; [done|]].
    + rewrite fmap_cons, H1, (seqZ_cons k), fmap_cons by lia. cbn [fst]. rewrite Hp. do 3 f_equal; lia.
    + rewrite H3. f_equal. lia.
Qed.

End SignalLemmas.

(** ** What the analyzer compares against *)

Module SignalTheorems.
Import Contract Signal Firmware SignalLemmas.

(** The envelope generator permutes the nonzero 32-bit words, so its state
    never reaches the fixed point 0 whatever the seed, and the analyzer's
    masked arithmetic computes the firmware's 32-bit function. *)
Theorem xorshift32_permutes :
  (forall x, 1 <= x < 4294967296 -> 1 <= xorshift32 x < 4294967296) /\
  (forall x y, 0 <= x < 4294967296 -> 0 <= y < 4294967296 -> xorshift32 x = xorshift32 y -> x = y) /\
  (forall x, 0 <= x < 4294967296 -> xorshift32 x = hil_xorshift32 x).
Proof.
  split; [|split; [apply xorshift32_inj | apply xorshift32_firmware]].
  intros x Hx. assert (u32_ok x) as Hok by (unfold u32_ok; lia).
  pose proof (hil_xorshift32_ok x Hok) as Hb. rewrite <- xorshift32_firmware in Hb by done.
  assert (xorshift32 x <> 0); [|unfold u32_ok in Hb; lia].
  intros H0. assert (x = 0); [|lia]. by apply (xorshift32_inj x 0).
Qed.

Lemma row_frames r : valid_row r ->
  exists fs us, frame_samples (profile r) = Ok fs /\ frame_duration_us (profile r) = Ok us /\
  ((fs = 480 /\ us = 10000 /\ profile r = "48_4_1"%string) \/ (fs = 360 /\ us = 7500 /\ profile r = "48_3_1"%string)).
Proof.
  intros Hv. destruct (profile_cases _ (v_profile _ Hv)) as [Hp|Hp]; rewrite Hp.
  - exists 480, 10000. split; [done|]. split; [done|]. by left.
  - exists 360, 7500. split; [done|]. split; [done|]. by right.
Qed.

Lemma row_samples r : valid_row r ->
  exists fs, frame_samples (profile r) = Ok fs /\ 0 < fs <= 480 /\ scored_samples r = Ok (scored_sdu_count r * fs) /\
  tail_samples (profile r) = Ok (table PROFILE_TAIL_SDUS (profile r) * fs) /\
  C "HIL_SOURCE_PREAMBLE_TOTAL_SAMPLES" = table PROFILE_PREAMBLE_SDUS (profile r) * fs /\
  fs * 1000000 = C "HIL_SOURCE_SAMPLE_RATE_HZ" * table PROFILE_FRAME_US (profile r) /\
  0 < table PROFILE_TAIL_SDUS (profile r) <= 667.
Proof.
  intros Hv. destruct (row_frames r Hv) as (fs & us & Hf & Hd & Hc). exists fs. split; [done|].
  unfold scored_samples, tail_samples. rewrite Hf, Hd. cbn [mbind result_bind].
  destruct Hc as [(-> & -> & Hp)|(-> & -> & Hp)]; rewrite Hp; repeat split; try done; lia.
Qed.

(** C28. The analyzer rebuilds the firmware's signal: for every valid row and
    either semantic channel, [semantic_amplitude] is the sequence of amplitudes
    the firmware's generator renders over preamble, scored and tail samples, and
    the analyzer's phases are the firmware's 32-bit phases modulo a full
    turn. *)
Theorem analyzer_rebuilds_firmware_signal s r :
  valid_row r ->
  exists n t step amps, scored_samples r = Ok n /\ tail_samples (profile r) = Ok t /\
    carrier_phase_step (channel_name s) = Ok step /\
    semantic_amplitude (channel_name s) r = Ok (Some amps) /\
    let signal := run s (signal_seed r) (Z.to_nat n) (Z.to_nat t) in
    signal.*2 = amps /\ total_samples r = Ok (Z.of_nat (length signal)) /\
    signal.*1 = (fun p => p mod 4294967296) <$> phases 0 (Z.of_nat (length signal)) step.
Proof.
  intros Hv. destruct (row_samples r Hv) as (fs & Hf & Hfs & Hn & Ht & Hp & _ & Htail).
  set (n := scored_sdu_count r * fs) in *. set (t := table PROFILE_TAIL_SDUS (profile r) * fs) in *.
  pose proof (v_scored _ Hv) as Hsc. assert (0 <= n /\ 0 <= t) as [Hn0 Ht0] by (unfold n, t; nia).
  assert (exists P, Z.to_nat (C "HIL_SOURCE_PREAMBLE_TOTAL_SAMPLES") = P /\ Z.of_nat P = 69120) as (P & HPd & HP).
  { eexists. split; [reflexivity|]. rewrite C_preamble. lia. }
  exists n, t, (step_of s).
  destruct (render_preamble (signal_seed r) s P (init s) eq_refl) as (Ha1 & Ha2 & Ha3).
  destruct (render_phases PREAMBLE (signal_seed r) s P (init s) 0 eq_refl eq_refl) as (Ha4 & _ & Ha5).
  unfold semantic_amplitude, run. rewrite Hn, Ht. cbn [mbind result_bind]. rewrite HPd.
  destruct (render PREAMBLE _ P (init s)) as [a ch1] eqn:Ra. cbn [fst snd] in Ha1, Ha2, Ha3, Ha4, Ha5.
  rewrite (scored_amplitude_render s ch1) by (first [done | pose proof (v_seed _ Hv); lia]).
  destruct (render_phases SCORED (signal_seed r) s (Z.to_nat n) ch1 (0 + Z.of_nat P) Ha2 Ha5) as (Hb4 & Hb2 & Hb5).
  destruct (render SCORED _ (Z.to_nat n) ch1) as [b ch2] eqn:Rb. cbn [fst snd] in Hb4, Hb2, Hb5.
  destruct (render_phases TAIL (signal_seed r) s (Z.to_nat t) ch2 (0 + Z.of_nat P + Z.of_nat (Z.to_nat n)) Hb2 Hb5) as (Hc4 & _ & _).
  pose proof (render_tail (signal_seed r) (Z.to_nat t) ch2) as Hc1.
  destruct (render TAIL _ (Z.to_nat t) ch2) as [c ch3] eqn:Rc. cbn [fst snd] in Hc4, Hc1.
  unfold preamble_amplitude. cbn [default]. rewrite C_preamble. cbn [Z.ltb Z.compare Pos.compare Pos.compare_cont negb orb ensure mbind result_bind option_bind fst].
  eexists. split; [done|]. split; [done|]. split; [by destruct s|]. split; [done|].
  assert (length (a ++ b ++ c) = (P + Z.to_nat n + Z.to_nat t)%nat) as Hlen.
  { rewrite !length_app, <- !(length_fmap fst), Ha4, Hb4, Hc4, !length_fmap, !length_seqZ. lia. }
  rewrite Hlen. split; [|split].
  - rewrite !fmap_app, Ha1, Hc1. f_equal. rewrite HP.
    apply list_fmap_ext. intros i x _. by destruct s.
  - unfold total_samples. rewrite Hn, Ht. cbn [mbind result_bind]. f_equal. rewrite C_preamble. lia.
  - rewrite !fmap_app, Ha4, Hb4, Hc4. unfold phases. rewrite !Nat2Z.inj_add, (seqZ_app 0), (seqZ_app 0) by lia.
    rewrite <- app_assoc, !fmap_app. rewrite <- !list_fmap_compose.
    assert (forall m k, (fun i => u32 (i * step_of s)) <$> seqZ m k =
      ((fun p => p mod 4294967296) ∘ (fun i => uint64 (i * step_of s))) <$> seqZ m k) as Hext.
    { intros m k. apply list_fmap_ext. intros i x _. unfold compose, u32, uint64.
      rewrite Z.mod_mod_divide; [done|]. by exists 4294967296. }
    rewrite !Hext, Z.add_0_l. done.
Qed.

(** The analyzer's sample counts are the row's frame counts: a row's total
    is exactly one frame per SDU the row expects a segment to submit, and no
    phase of the row overflows numpy's [uint64] or the 53 bits a [float64]
    holds exactly. *)
Theorem capture_counts r :
  valid_row r ->
  exists fs n, frame_samples (profile r) = Ok fs /\ total_samples r = Ok n /\
    n = expected_submitted_per_segment r * fs /\
    fs * 1000000 = C "HIL_SOURCE_SAMPLE_RATE_HZ" * table PROFILE_FRAME_US (profile r) /\
    forall ch step i, carrier_phase_step ch = Ok step -> 0 <= i < n -> uint64 (i * step) = i * step /\ i * step < 2 ^ 53.
Proof.
  intros Hv. destruct (row_samples r Hv) as (fs & Hf & Hfs & Hn & Ht & Hp & Hr & Htail).
  exists fs. eexists. split; [done|]. unfold total_samples. rewrite Hn, Ht. cbn [mbind result_bind].
  split; [done|]. split; [unfold expected_submitted_per_segment; lia|]. split; [done|].
  intros ch step i Hs Hi. pose proof (v_scored _ Hv) as Hsc.
  assert (0 <= step <= 143255055) as Hst.
  { unfold carrier_phase_step, by_channel in Hs. destruct (String.eqb ch "left"); [injection Hs as <-; by vm_compute|].
    destruct (String.eqb ch "right"); [injection Hs as <-; by vm_compute | done]. }
  rewrite C_preamble in Hi. assert (i < 69120 + 20000 * 480 + 667 * 480) as Hi' by nia.
  assert (0 <= i * step <= 9989280 * 143255055) as Hb by nia.
  change (2 ^ 53) with 9007199254740992. split; [apply Z.mod_small; lia | lia].
Qed.

(** The constants a load has collected so far. *)
Definition collected (d : list (string * Z)) : Prop :=
  NoDup d.*1 /\ Forall (fun x => x.1 ∈ REQUIRED_CONSTANTS /\ 0 <= x.2 <= 4294967295) d.

Lemma read_line_collected d l d' : collected d -> read_line d l = Ok d' -> collected d'.
Proof.
  intros [Hnd Hall] H. unfold read_line in H. destruct (re_match DEFINE_RE l) as [m|]; [|by injection H as <-].
  destruct (py_in _ _) eqn:Hin; [|by injection H as <-].
  apply bind_Ok in H as ([] & Hdup%ensure_Ok & H). apply bind_Ok in H as (v & Hv & H). apply Ok_inj in H as <-.
  unfold py_in in Hin. bool_to_prop. rewrite dict_set_fresh by done.
  assert (0 <= v <= 4294967295) as Hvb.
  { unfold _parse_uint in Hv. result_inv Hv. subst. bool_to_prop. lia. }
  split.
  - rewrite fmap_app. apply NoDup_app. split; [done|]. split; [|apply NoDup_singleton].
    intros x Hx Hx'%list_elem_of_singleton. simpl in Hx'. subst x. by apply dict_has_false in Hdup.
  - apply Forall_app. split; [done|]. by apply Forall_singleton.
Qed.

(** The loader of the signal constants fails closed: what it returns has
    exactly the required constants, each once and each a [uint32], and a
    consistent preamble; on the checked-in header it returns
    [PUBLIC_CONSTANTS]. *)
Theorem constants_complete :
  load_public_constants (Some header_lines) = Ok PUBLIC_CONSTANTS /\
  forall lines d, load_public_constants lines = Ok d ->
    d.*1 ≡ₚ REQUIRED_CONSTANTS /\ (forall n, n ∈ REQUIRED_CONSTANTS -> exists v, dict_get n d = Some v /\ 0 <= v <= 4294967295) /\
    value d "HIL_SOURCE_PREAMBLE_SEGMENT_SAMPLES" * value d "HIL_SOURCE_PREAMBLE_SEGMENTS" =
      value d "HIL_SOURCE_PREAMBLE_TOTAL_SAMPLES".
Proof.
  split; [vm_compute; reflexivity|]. intros lines d H. unfold load_public_constants in H.
  apply bind_Ok in H as (ls & _ & H). apply bind_Ok in H as (values & Hfold & H).
  assert (collected values) as [Hnd Hall].
  { assert (forall ls (r : result contract_error _), (forall d0, r = Ok d0 -> collected d0) ->
      forall d1, fold_left (fun r l => v ← r; read_line v l) ls r = Ok d1 -> collected d1) as Hgen.
    { clear. induction ls as [|l ls IH]; intros r Hr d1; [apply Hr|]. apply IH. intros d0 Hd.
      apply bind_Ok in Hd as (v & Hv & Hd). by apply (read_line_collected v l); [apply Hr|]. }
    eapply Hgen; [|exact Hfold]. intros d0 [= <-]. split; [apply NoDup_nil_2 | apply Forall_nil_2]. }
  destruct (List.find _ _) as [|] eqn:Hmiss; [done|].
  apply bind_Ok in H as (u & Hpre%ensure_Ok & H). apply Ok_inj in H as <-. bool_to_prop.
  assert (forall n, n ∈ REQUIRED_CONSTANTS -> dict_has n values = true) as Hhas.
  { intros n Hn%list_elem_of_In. pose proof (List.find_none _ _ Hmiss n Hn) as Hf. by apply negb_false_iff in Hf. }
  split; [|split; [|done]].
  - apply NoDup_Permutation; [done| |].
    + apply (bool_decide_unpack (NoDup REQUIRED_CONSTANTS)). vm_compute. exact I.
    + intros n. split.
      * intros ([k v] & -> & Hin)%list_elem_of_fmap. rewrite Forall_forall in Hall. by apply Hall in Hin as [? _].
      * intros Hn. by apply dict_has_spec, Hhas.
  - intros n Hn. pose proof (Hhas n Hn) as Hh. unfold dict_has in Hh. destruct (dict_get n values) as [v|] eqn:Hg; [|done].
    exists v. split; [done|]. apply dict_get_elem in Hg. rewrite Forall_forall in Hall. by apply Hall in Hg as [_ ?].
Qed.
End SignalTheorems.

(** ** Concrete signals *)

Module SignalWitnesses.
Import Signal.

Lemma short_row_valid : valid_row (mk_row "r" "fresh" "mode_b" "48_3_1" 20 1218649181 "none" None).
Proof.
  constructor; simpl; try done; try lia; apply list_elem_of_In; simpl; tauto.
Defined.

Lemma capture_counts_witness :
  total_samples (mk_row "r" "fresh" "mode_b" "48_3_1" 20 1218649181 "none" None) = Ok 316440 /\
  exists fs n, frame_samples "48_3_1" = Ok fs /\ n = 879 * fs.
Proof.
  split; [reflexivity|].
  destruct (SignalTheorems.capture_counts _ short_row_valid) as (fs & n & H1 & _ & H2 & _). exists fs, n. by split.
Defined.

Lemma analyzer_rebuilds_firmware_signal_witness :
  scored_amplitude "left" 1218649181 480 = Ok (Some ((Firmware.render Firmware.SCORED 1218649181 480 (Firmware.init Firmware.HIL_SOURCE_CHANNEL_LEFT)).1.*2)) /\
  exists amps, semantic_amplitude "right" (mk_row "r" "fresh" "mode_b" "48_3_1" 20 1218649181 "none" None) = Ok (Some amps).
Proof.
  split; [vm_compute; reflexivity|].
  destruct (SignalTheorems.analyzer_rebuilds_firmware_signal Firmware.HIL_SOURCE_CHANNEL_RIGHT _ short_row_valid)
    as (n & t & step & amps & _ & _ & _ & H & _). by exists amps.
Defined.
End SignalWitnesses.
