(* ===== verification/HilModel.v ===== *)
(** * Fixture and binding schemas (scripts/hil/model.py)

    The strict parsers of logical fixtures and physical bindings, from the
    bytes of the document to the typed value.  What the code asks the file
    system is the record [host]; SHA-256 is an argument. *)

From S2P Require Import Prelude PyText PyPath PyRegex Json HilProtocol.

Definition SCHEMA_VERSION : Z := 1.
Definition FIXTURE_ROOT_KEYS : list string := ["schema_version"; "fixture_id"; "capture_capability"; "roles"]%string.
Definition ZEPHYR_ROLE_KEYS : list string := ["kind"; "board"; "images"]%string.
Definition CAPTURE_ROLE_KEYS : list string := ["kind"; "channels"]%string.
Definition ZEPHYR_KIND : string := "zephyr_dut".
Definition CAPTURE_KIND : string := "alsa_capture".
Definition BINDING_ROOT_KEYS : list string := ["schema_version"; "fixture_id"; "roles"]%string.
Definition BINDING_ROLE_KEYS : list string := ["probe"; "serial"]%string.
Definition CAPTURE_BINDING_ROLE_KEYS : list string :=
  ["backend"; "device"; "channels"; "sample_rate"; "sample_format"; "udev"; "mixer"; "fixture_metadata"]%string.
Definition PROBE_KEYS : list string := ["backend"; "family"; "udev"]%string.
Definition SERIAL_KEYS : list string := ["baud"; "dtr"; "rts"; "udev"]%string.
Definition CAPTURE_MIXER_KEYS : list string := ["control"; "volume"; "capture_switch"; "agc_control"; "agc"]%string.
Definition METADATA_FIELDS : list string :=
  ["capture_hardware"; "dac"; "cable_network_schematic_id"; "measured_attenuation"; "measured_channel_mismatch";
   "electrical_review_id"; "electrical_review_date"; "usb_path"; "kernel_version"; "alsa_version"; "notes"]%string.
Definition CAPTURE_METADATA_KEYS : list string := "fixture_id"%string :: METADATA_FIELDS.
Definition CAPTURE_BACKEND : string := "alsa".
Definition CAPTURE_SAMPLE_RATE : Z := 48000.
Definition CAPTURE_SAMPLE_FORMAT : string := "S16_LE".
Definition NRF54L15_CPUAPP_BOARD : string := "nrf54l15dk/nrf54l15/cpuapp".
Definition UDEV_REQUIRED : list string := ["ID_VENDOR_ID"; "ID_MODEL_ID"]%string.
Definition UDEV_OR : list string := ["ID_SERIAL_SHORT"; "ID_PATH"]%string.
Definition UDEV_FORBIDDEN : list string := ["DEVNAME"]%string.

Definition is_card_char (c : ascii) : bool := is_alpha c || is_digit c || py_in c ["_"; "."; "-"]%char.
Definition CAPTURE_DEVICE_RE : re := (Bol • Lit "hw:" • Plus is_card_char • Lit "," • Plus is_digit • Eos)%re.

(** [HilSchemaError] by message; [OsError] and [PlainValueError] are what
    [open] and the integer limit of [json.loads] raise instead. *)
Inductive schema_error : Type :=
| NotUtf8 | InvalidJson | NotAnObject | DuplicateKey (key : string) | UnknownKey (key : string) | MissingKey (key : string)
| NotNonemptyStr (key : string) | BadSchemaVersion
| RoleNotObject (role : string) | CaptureKindRequired | ZephyrKindRequired (role : string) | BadKind (role : string)
| ImagesNotList (role : string) | ImageNotString (role : string) | ImagesNotUnique (role : string)
| ChannelsNotInt | ChannelsRange | ChannelsMono | ChannelsStereo
| BadCapability | RolesEmpty | RolesMissing | CaptureForbidden | CaptureRequired | ExtraRole
| UdevForbidden (key : string) | UdevUnknown (key : string) | UdevValue (key : string) | UdevSndPath | UdevTtyPath
| UdevMissing | UdevNoSerialOrPath | UdevNotObject
| PathNotAbsolute | PathIsSymlink | PathNotCanonical | PathInRepo | CannotInspect | NotRegular
| MetadataIdMismatch | MetadataChanged
| BadBackend | BadDevice | BadChannels | BadSampleRate | BadSampleFormat | MixerNotObject | CaptureSwitchOff | AgcOn
| NotZephyr (role : string) | UnsupportedBoard (role : string) | NeedsProbeAndSerial (role : string) | ProbeSerial
| BackendMismatch (role : string) | FamilyMismatch (role : string) | ProbeUdevRequired | BadBaud | BadDtr | BadRts
| FixtureIdNotString | FixtureIdMismatch | RoleSetMismatch
| OsError | PlainValueError.
Abbreviation sresult A := (result schema_error A).

(** ** Data *)

Inductive CaptureCapability : Type := NONE | MONO | STEREO.
#[export] Instance CaptureCapability_eq_dec : EqDecision CaptureCapability.
Proof. solve_decision. Defined.

Record LogicalRole : Type := mk_role { r_kind : string; board : option string; images : list string; r_channels : option Z }.
Record ProbeContract : Type := mk_contract { p_backend : string; p_family : string; probe_udev_required : bool }.
Record LogicalFixture : Type := mk_fixture {
  schema_version : Z; fixture_id : string; capture_capability : CaptureCapability; roles : list (string * LogicalRole);
}.
Abbreviation UdevIdentity := (list (string * string)).
Record ProbeBinding : Type := mk_probe { pb_backend : string; pb_family : string; pb_udev : option UdevIdentity }.
Record SerialBinding : Type := mk_serial { baud : Z; dtr : bool; rts : bool; sb_udev : UdevIdentity }.
Record PhysicalRoleBinding : Type := mk_role_binding { probe : ProbeBinding; serial : SerialBinding }.
Record CaptureMixerBinding : Type := mk_mixer {
  control : string; volume : string; capture_switch : string; agc_control : string; agc : string;
}.
Record CaptureFixtureMetadata : Type := mk_metadata { m_path : string; m_sha256 : string; m_values : list (string * json) }.
Record CaptureBinding : Type := mk_capture {
  cb_backend : string; cb_device : string; cb_channels : Z; cb_sample_rate : Z; cb_sample_format : string;
  cb_udev : UdevIdentity; cb_mixer : CaptureMixerBinding; cb_metadata : CaptureFixtureMetadata;
}.
Record PhysicalBinding : Type := mk_binding {
  b_schema_version : Z; b_fixture_id : string; b_roles : list (string * (PhysicalRoleBinding + CaptureBinding));
}.

Definition PROBE_CONTRACTS : list (string * string * ProbeContract) :=
  [("receiver", NRF54L15_CPUAPP_BOARD, mk_contract "nrf-probes" "nrf54l" false);
   ("source", NRF54L15_CPUAPP_BOARD, mk_contract "nrf-probes" "nrf54l" false)]%string.

(** ** Documents *)

Definition _reject_duplicate_keys : list (string * json) -> result string (list (string * json)) :=
  HilProtocol._reject_duplicate_keys.

(** [_parse_object] after [_decode_utf8]. *)
Definition _parse_object (raw : list ascii) : sresult (list (string * json)) :=
  ensure (utf8_valid raw) NotUtf8;;
  match loads_chars _reject_duplicate_keys raw with
  | Ok (JObj d) => Ok d
  | Ok _ => Err NotAnObject
  | Err (JHook key) => Err (DuplicateKey key)
  | Err JIntLimit => Err PlainValueError
  | Err _ => Err InvalidJson
  end.

Definition _is_int (v : json) : option Z := HilProtocol._is_int v.

Definition _reject_unknown (obj : list (string * json)) (allowed : list string) : sresult unit :=
  match find (fun k => negb (py_in k allowed)) obj.*1 with Some k => Err (UnknownKey k) | None => Ok tt end.

Definition _require_member (obj : list (string * json)) (key : string) : sresult json :=
  result_of_option (MissingKey key) (dict_get key obj).

Definition _require_nonempty_str (obj : list (string * json)) (key : string) : sresult string :=
  value ← _require_member obj key; result_of_option (NotNonemptyStr key) (nonempty_str value).

(** [obj.get(key)] *)
Definition get (obj : list (string * json)) (key : string) : json := default JNull (dict_get key obj).

(** [not _is_int(value) or value != n] *)
Definition int_is (n : Z) (v : json) (e : schema_error) : sresult unit :=
  ensure (match _is_int v with Some z => z =? n | None => false end) e.

(** ** Logical fixtures *)

Fixpoint parse_images (role : string) (seen : list string) (images : list json) : sresult (list string) :=
  match images with
  | [] => Ok []
  | image :: rest =>
      s ← result_of_option (ImageNotString role) (nonempty_str image);
      ensure (negb (py_in s seen)) (ImagesNotUnique role);;
      l ← parse_images role (s :: seen) rest; Ok (s :: l)
  end.

Definition _parse_role (name : string) (spec : json) (capability : CaptureCapability) : sresult LogicalRole :=
  spec ← result_of_option (RoleNotObject name) (is_dict spec);
  let kind := match get spec "kind" with JStr s => s | _ => EmptyString end in
  if String.eqb kind ZEPHYR_KIND then
    ensure (negb (String.eqb name "capture")) CaptureKindRequired;;
    _reject_unknown spec ZEPHYR_ROLE_KEYS;;
    board ← _require_nonempty_str spec "board";
    match get spec "images" with
    | JArr (x :: l) => images ← parse_images name [] (x :: l); Ok (mk_role kind (Some board) images None)
    | _ => Err (ImagesNotList name)
    end
  else if String.eqb kind CAPTURE_KIND then
    ensure (String.eqb name "capture") (ZephyrKindRequired name);;
    _reject_unknown spec CAPTURE_ROLE_KEYS;;
    channels ← result_of_option ChannelsNotInt (_is_int (get spec "channels"));
    ensure ((channels =? 1) || (channels =? 2)) ChannelsRange;;
    ensure (negb (bool_decide (capability = MONO) && negb (channels =? 1))) ChannelsMono;;
    ensure (negb (bool_decide (capability = STEREO) && negb (channels =? 2))) ChannelsStereo;;
    Ok (mk_role kind None [] (Some channels))
  else Err (BadKind name).

Definition parse_capability (v : json) : sresult CaptureCapability :=
  match v with
  | JStr s =>
      if String.eqb s "none" then Ok NONE
      else if String.eqb s "mono" then Ok MONO
      else if String.eqb s "stereo" then Ok STEREO
      else Err BadCapability
  | _ => Err BadCapability
  end.

Fixpoint parse_roles (rs : list (string * json)) (capability : CaptureCapability) (parsed : list (string * LogicalRole))
    : sresult (list (string * LogicalRole)) :=
  match rs with
  | [] => Ok parsed
  | (name, spec) :: rs' => r ← _parse_role name spec capability; parse_roles rs' capability (dict_set name r parsed)
  end.

Definition parse_logical_fixture_bytes (raw : list ascii) : sresult LogicalFixture :=
  obj ← _parse_object raw;
  _reject_unknown obj FIXTURE_ROOT_KEYS;;
  int_is SCHEMA_VERSION (get obj "schema_version") BadSchemaVersion;;
  fixture_id ← _require_nonempty_str obj "fixture_id";
  capability_raw ← _require_member obj "capture_capability";
  capability ← parse_capability capability_raw;
  roles ← _require_member obj "roles";
  roles ← match roles with JObj (x :: d) => Ok (x :: d) | _ => Err RolesEmpty end;
  ensure (dict_has "receiver"%string roles && dict_has "source"%string roles) RolesMissing;;
  let has_capture := dict_has "capture"%string roles in
  ensure (negb (bool_decide (capability = NONE) && has_capture)) CaptureForbidden;;
  ensure (negb (negb (bool_decide (capability = NONE)) && negb has_capture)) CaptureRequired;;
  ensure (forallb (fun n => py_in n ["receiver"; "source"; "capture"]%string) roles.*1) ExtraRole;;
  parsed ← parse_roles roles capability [];
  Ok (mk_fixture SCHEMA_VERSION fixture_id capability parsed).

(** ** Physical bindings *)

(** One [(key, value)] of a udev map. *)
Definition udev_entry (reject_tty_paths : bool) (key : string) (value : json) : sresult string :=
  ensure (negb (py_in key UDEV_FORBIDDEN)) (UdevForbidden key);;
  ensure (startswith "ID_" key) (UdevUnknown key);;
  s ← result_of_option (UdevValue key) (nonempty_str value);
  ensure (negb (startswith "/dev/snd/" s)) UdevSndPath;;
  ensure (negb (reject_tty_paths && startswith "/dev/tty" s)) UdevTtyPath;;
  Ok s.

Fixpoint udev_entries (reject_tty_paths : bool) (udev : list (string * json)) (parsed : UdevIdentity) : sresult UdevIdentity :=
  match udev with
  | [] => Ok parsed
  | (k, v) :: rest => s ← udev_entry reject_tty_paths k v; udev_entries reject_tty_paths rest (dict_set k s parsed)
  end.

Definition _parse_udev_map (udev : list (string * json)) (reject_tty_paths : bool) : sresult UdevIdentity :=
  parsed ← udev_entries reject_tty_paths udev [];
  ensure (forallb (fun k => dict_has k parsed) UDEV_REQUIRED) UdevMissing;;
  ensure (existsb (fun k => dict_has k parsed) UDEV_OR) UdevNoSerialOrPath;;
  Ok parsed.

(** What the file system answers.  [stat p]: whether [p] is a regular file,
    [None] when [os.stat] fails; [repo_root] is already canonical. *)
Record host : Type := mk_host {
  islink : string -> bool; realpath : string -> string; stat : string -> option bool; repo_root : string;
}.

Definition _require_external_regular_file (h : host) (path : string) : sresult string :=
  ensure (startswith "/" path) PathNotAbsolute;;
  ensure (negb (islink h path)) PathIsSymlink;;
  let canonical := realpath h path in
  ensure (String.eqb canonical (normpath path)) PathNotCanonical;;
  ensure (negb (String.eqb canonical (repo_root h) || startswith (repo_root h ++ "/")%string canonical)) PathInRepo;;
  regular ← result_of_option CannotInspect (stat h canonical);
  ensure regular NotRegular;;
  Ok canonical.

Section metadata.
Variable sha256 : list ascii -> string.

(** The content of the file at the first read, which is parsed, and at the
    second, which is hashed. *)
Record reads : Type := mk_reads { text_of : string -> option (list ascii); hashed_of : string -> option (list ascii) }.

Definition _parse_fixture_metadata (h : host) (rd : reads) (path fixture_id : string) : sresult CaptureFixtureMetadata :=
  canonical ← _require_external_regular_file h path;
  raw ← result_of_option OsError (text_of rd canonical);
  obj ← _parse_object raw;
  _reject_unknown obj CAPTURE_METADATA_KEYS;;
  fid ← _require_nonempty_str obj "fixture_id";
  ensure (String.eqb fid fixture_id) MetadataIdMismatch;;
  result_mapM (_require_nonempty_str obj) METADATA_FIELDS;;
  content ← result_of_option OsError (hashed_of rd canonical);
  Ok (mk_metadata canonical (sha256 content) obj).

Definition str_of (v : json) : string := match v with JStr s => s | _ => EmptyString end.

Definition verify_capture_fixture_metadata (h : host) (rd : reads) (b : CaptureBinding) : sresult CaptureFixtureMetadata :=
  metadata ← _parse_fixture_metadata h rd (m_path (cb_metadata b)) (str_of (get (m_values (cb_metadata b)) "fixture_id"));
  ensure (String.eqb (m_sha256 metadata) (m_sha256 (cb_metadata b))) MetadataChanged;;
  Ok metadata.

(** [not isinstance(value, dict) or not value] *)
Definition nonempty_dict (v : json) (e : schema_error) : sresult (list (string * json)) :=
  match v with JObj (x :: d) => Ok (x :: d) | _ => Err e end.

Definition parse_mixer (mixer : list (string * json)) : sresult CaptureMixerBinding :=
  _reject_unknown mixer CAPTURE_MIXER_KEYS;;
  control ← _require_nonempty_str mixer "control";
  volume ← _require_nonempty_str mixer "volume";
  capture_switch ← _require_nonempty_str mixer "capture_switch";
  agc_control ← _require_nonempty_str mixer "agc_control";
  agc ← _require_nonempty_str mixer "agc";
  ensure (String.eqb capture_switch "on") CaptureSwitchOff;;
  ensure (String.eqb agc "off") AgcOn;;
  Ok (mk_mixer control volume capture_switch agc_control agc).

Definition _parse_capture_binding_role (h : host) (rd : reads) (spec : json) (fixture_id : string)
    (capability : CaptureCapability) : sresult CaptureBinding :=
  spec ← result_of_option (RoleNotObject "capture") (is_dict spec);
  _reject_unknown spec CAPTURE_BINDING_ROLE_KEYS;;
  backend ← _require_nonempty_str spec "backend";
  ensure (String.eqb backend CAPTURE_BACKEND) BadBackend;;
  device ← _require_nonempty_str spec "device";
  ensure (match fullmatch CAPTURE_DEVICE_RE (chars device) with Some _ => true | None => false end) BadDevice;;
  channels ← _require_member spec "channels";
  let expected_channels := if decide (capability = MONO) then 1 else 2 in
  int_is expected_channels channels BadChannels;;
  sample_rate ← _require_member spec "sample_rate";
  int_is CAPTURE_SAMPLE_RATE sample_rate BadSampleRate;;
  sample_format ← _require_nonempty_str spec "sample_format";
  ensure (String.eqb sample_format CAPTURE_SAMPLE_FORMAT) BadSampleFormat;;
  udev ← _require_member spec "udev";
  udev ← nonempty_dict udev UdevNotObject;
  capture_udev ← _parse_udev_map udev false;
  mixer ← _require_member spec "mixer";
  mixer ← result_of_option MixerNotObject (is_dict mixer);
  values ← parse_mixer mixer;
  metadata_path ← _require_nonempty_str spec "fixture_metadata";
  metadata ← _parse_fixture_metadata h rd metadata_path fixture_id;
  Ok (mk_capture backend device expected_channels CAPTURE_SAMPLE_RATE sample_format capture_udev values metadata).

Definition _probe_contract (name : string) (logical_role : LogicalRole) : sresult ProbeContract :=
  ensure (String.eqb (r_kind logical_role) ZEPHYR_KIND) (NotZephyr name);;
  result_of_option (UnsupportedBoard name) (b ← board logical_role; dict_get (name, b) PROBE_CONTRACTS).

Definition str_is (s : string) (v : json) (e : schema_error) : sresult unit :=
  ensure (match v with JStr t => String.eqb t s | _ => false end) e.

Definition bool_of (v : json) (e : schema_error) : sresult bool := match v with JBool b => Ok b | _ => Err e end.

Definition parse_serial (serial : list (string * json)) : sresult SerialBinding :=
  _reject_unknown serial SERIAL_KEYS;;
  baud ← result_of_option BadBaud (_is_int (get serial "baud"));
  ensure (negb (baud <=? 0)) BadBaud;;
  dtr ← bool_of (get serial "dtr") BadDtr;
  rts ← bool_of (get serial "rts") BadRts;
  udev ← result_of_option UdevNotObject (is_dict (get serial "udev"));
  serial_udev ← (match udev with [] => Ok [] | _ => _parse_udev_map udev true end);
  Ok (mk_serial baud dtr rts serial_udev).

Definition _parse_binding_role (name : string) (spec : json) (logical_role : LogicalRole) : sresult PhysicalRoleBinding :=
  spec ← result_of_option (RoleNotObject name) (is_dict spec);
  _reject_unknown spec BINDING_ROLE_KEYS;;
  probe ← result_of_option (NeedsProbeAndSerial name) (is_dict (get spec "probe"));
  serial ← result_of_option (NeedsProbeAndSerial name) (is_dict (get spec "serial"));
  ensure (negb (dict_has "serial"%string probe)) ProbeSerial;;
  _reject_unknown probe PROBE_KEYS;;
  contract ← _probe_contract name logical_role;
  str_is (p_backend contract) (get probe "backend") (BackendMismatch name);;
  str_is (p_family contract) (get probe "family") (FamilyMismatch name);;
  probe_udev ← (match dict_get "udev"%string probe with
                | Some raw => d ← nonempty_dict raw UdevNotObject; Some <$> _parse_udev_map d false
                | None => ensure (negb (probe_udev_required contract)) ProbeUdevRequired;; Ok None
                end);
  serial ← parse_serial serial;
  Ok (mk_role_binding (mk_probe (p_backend contract) (p_family contract) probe_udev) serial).

(** [sorted(roles)] *)
Definition sorted (l : list string) : list string := sorted_strings l.

Definition parse_binding (h : host) (rd : reads) (fx : LogicalFixture) (fid name : string) (spec : json)
    : sresult (PhysicalRoleBinding + CaptureBinding) :=
  if String.eqb name "capture" then inr <$> _parse_capture_binding_role h rd spec fid (capture_capability fx)
  else
    (** [logical_fixture.roles[name]]: present, the role sets are equal. *)
    match dict_get name (roles fx) with
    | Some lr => inl <$> _parse_binding_role name spec lr
    | None => Err RoleSetMismatch
    end.

Fixpoint parse_bindings (h : host) (rd : reads) (fx : LogicalFixture) (fid : string) (rs : list (string * json)) (names : list string)
    : sresult (list (string * (PhysicalRoleBinding + CaptureBinding))) :=
  match names with
  | [] => Ok []
  | name :: rest =>
      b ← parse_binding h rd fx fid name (get rs name);
      l ← parse_bindings h rd fx fid rs rest; Ok ((name, b) :: l)
  end.

Definition parse_physical_binding_bytes (h : host) (rd : reads) (raw : list ascii) (fx : LogicalFixture) : sresult PhysicalBinding :=
  obj ← _parse_object raw;
  _reject_unknown obj BINDING_ROOT_KEYS;;
  int_is SCHEMA_VERSION (get obj "schema_version") BadSchemaVersion;;
  fid ← result_of_option FixtureIdNotString (nonempty_str (get obj "fixture_id"));
  ensure (String.eqb fid (fixture_id fx)) FixtureIdMismatch;;
  rs ← nonempty_dict (get obj "roles") RolesEmpty;
  ensure (forallb (fun n => dict_has n (roles fx)) rs.*1 && forallb (fun n => dict_has n rs) (roles fx).*1) RoleSetMismatch;;
  parsed ← parse_bindings h rd fx fid rs (sorted rs.*1);
  Ok (mk_binding SCHEMA_VERSION fid parsed).
End metadata.

(** [load_logical_fixture] and [load_physical_binding]: [open] may fail. *)
Definition load_logical_fixture (read : option (list ascii)) : sresult LogicalFixture :=
  raw ← result_of_option OsError read; parse_logical_fixture_bytes raw.
Definition load_physical_binding (sha256 : list ascii -> string) (h : host) (rd : reads) (read : option (list ascii)) (fx : LogicalFixture)
    : sresult PhysicalBinding :=
  raw ← result_of_option OsError read; parse_physical_binding_bytes sha256 h rd raw fx.

(** ** What an accepted fixture is *)

Module FixtureTheorems.

Definition capability_channels (c : CaptureCapability) : Z := if decide (c = MONO) then 1 else 2.

Record role_wf (cap : CaptureCapability) (name : string) (r : LogicalRole) : Prop := mk_role_wf {
  wf_capture : name = "capture"%string ->
    cap <> NONE -> r = mk_role CAPTURE_KIND None [] (Some (capability_channels cap));
  wf_zephyr : name <> "capture"%string ->
    exists b, b <> EmptyString /\ r = mk_role ZEPHYR_KIND (Some b) (images r) None /\
    images r <> [] /\ NoDup (images r) /\ (EmptyString ∉ images r);
}.

(** One Zephyr receiver, one Zephyr source, a capture role exactly when there
    is a capture capability, and nothing else. *)
Record fixture_wf (fx : LogicalFixture) : Prop := mk_fixture_wf {
  wf_version : schema_version fx = SCHEMA_VERSION;
  wf_id : fixture_id fx <> EmptyString;
  wf_names : NoDup (roles fx).*1;
  wf_required : "receiver"%string ∈ (roles fx).*1 /\ "source"%string ∈ (roles fx).*1;
  wf_capture_iff : "capture"%string ∈ (roles fx).*1 <-> capture_capability fx <> NONE;
  wf_only : forall n, n ∈ (roles fx).*1 -> n ∈ ["receiver"; "source"; "capture"]%string;
  wf_roles : forall n r, (n, r) ∈ roles fx -> role_wf (capture_capability fx) n r;
}.

Lemma nonempty_str_Some v s : nonempty_str v = Some s <-> v = JStr s /\ s <> EmptyString.
Proof.
  unfold nonempty_str. destruct v; simpl; try (split; [done | by intros [? _]]).
  case_decide; split; naive_solver.
Qed.

Lemma require_str_Ok obj key s :
  _require_nonempty_str obj key = Ok s <-> dict_get key obj = Some (JStr s) /\ s <> EmptyString.
Proof.
  unfold _require_nonempty_str, _require_member. split.
  - intros H. result_inv H. apply nonempty_str_Some in H as [-> ?]. done.
  - intros [Hg Hs]. rewrite Hg. simpl. by rewrite (proj2 (nonempty_str_Some (JStr s) s)).
Qed.

Lemma parse_images_Ok role images : forall seen l,
  parse_images role seen images = Ok l <->
  images = (JStr <$> l) /\ NoDup l /\ (EmptyString ∉ l) /\ (forall x, x ∈ l -> x ∉ seen).
Proof.
  induction images as [|v images IH]; intros seen l; simpl.
  - split; [|intros (H & _); by destruct l].
    intros [= <-]. split; [done|]. split; [apply NoDup_nil_2|]. split; [apply not_elem_of_nil | by intros x ?%elem_of_nil].
  - split.
    + intros H. result_inv H. subst l. apply nonempty_str_Some in Ha as [-> Hne]. apply IH in Ha1 as (-> & Hnd & He & Hs).
      unfold py_in in Ha0. bool_to_prop. split; [done|]. split; [|split].
      * apply NoDup_cons. split; [|done]. intros Hin. apply (Hs _ Hin), list_elem_of_here.
      * apply not_elem_of_cons. by split.
      * intros x [->|Hx]%elem_of_cons; [done|]. intros Hs'. apply (Hs _ Hx). by apply list_elem_of_further.
    + intros (Heq & Hnd & He & Hs). destruct l as [|s l]; [done|]. rewrite fmap_cons in Heq. injection Heq as -> ->.
      apply NoDup_cons in Hnd as [Hns Hnd]. apply not_elem_of_cons in He as [Hse He].
      rewrite (proj2 (nonempty_str_Some (JStr s) s)) by done. simpl.
      assert (py_in s seen = false) as Hseen by (apply bool_decide_eq_false, Hs, list_elem_of_here). rewrite Hseen.
      simpl. rewrite (proj2 (IH (s :: seen) l)); [done|]. split; [done|]. split; [done|]. split; [done|].
      intros x Hx [->|Hx']%elem_of_cons; [done|]. apply (Hs x); [by apply list_elem_of_further | done].
Qed.

Lemma parse_role_wf name spec cap r : _parse_role name spec cap = Ok r -> role_wf cap name r.
Proof.
  unfold _parse_role. intros H. apply bind_Ok in H as (d & Hd & H).
  set (k := match get d "kind" with JStr s => s | _ => EmptyString end) in *.
  destruct (String.eqb_spec k ZEPHYR_KIND) as [Hk|_]; [|destruct (String.eqb_spec k CAPTURE_KIND) as [Hk|_]; [|done]].
  - apply bind_Ok in H as ([] & Hn%ensure_Ok & H). apply bind_Ok in H as ([] & _ & H). apply bind_Ok in H as (b & Hb & H).
    apply require_str_Ok in Hb as [_ Hb]. destruct (get d "images") as [| | | | |[|x l]|]; try done.
    result_inv H. subst r. apply parse_images_Ok in Ha as (Heq & Hnd & He & _).
    constructor; intros Hname; [by subst name|]. exists b. simpl. rewrite Hk. split; [done|]. split; [done|].
    split; [by intros ->|]. done.
  - result_inv H. subst r. bool_to_prop. destruct (String.eqb_spec name "capture") as [->|]; [|done].
    constructor; [|done]. intros _ Hcap. rewrite Hk. f_equal. f_equal. unfold capability_channels.
    destruct cap; [done|apply (Z.eqb_eq a1 1)|apply (Z.eqb_eq a1 2)]; [destruct (a1 =? 1)|destruct (a1 =? 2)]; naive_solver.
Qed.

Lemma parse_roles_wf cap rs : forall acc parsed,
  parse_roles rs cap acc = Ok parsed -> NoDup acc.*1 -> Forall (fun x => role_wf cap x.1 x.2) acc ->
  NoDup parsed.*1 /\ Forall (fun x => role_wf cap x.1 x.2) parsed /\ (forall n, n ∈ parsed.*1 <-> n ∈ acc.*1 \/ n ∈ rs.*1).
Proof.
  induction rs as [|[name spec] rs IH]; intros acc parsed H Hnd Hall; simpl in H.
  - injection H as <-. split; [done|]. split; [done|]. intros n. simpl. rewrite elem_of_nil. tauto.
  - apply bind_Ok in H as (r & Hr & H). apply IH in H as (H1 & H2 & H3).
    + split; [done|]. split; [done|]. intros n. rewrite H3, dict_set_keys. simpl. rewrite elem_of_cons.
      destruct (dict_has name acc) eqn:Hh; [apply dict_has_spec in Hh; naive_solver|].
      rewrite elem_of_app, list_elem_of_singleton. tauto.
    + by apply dict_set_NoDup.
    + apply dict_set_Forall; [|done]. simpl. by eapply parse_role_wf.
Qed.

Lemma fixture_parsed_wf raw fx : parse_logical_fixture_bytes raw = Ok fx -> fixture_wf fx.
Proof.
  unfold parse_logical_fixture_bytes. intros H. apply bind_Ok in H as (obj & _ & H).
  apply bind_Ok in H as ([] & _ & H). apply bind_Ok in H as ([] & _ & H). apply bind_Ok in H as (fid & Hfid & H).
  apply bind_Ok in H as (craw & _ & H). apply bind_Ok in H as (cap & Hcap & H). apply bind_Ok in H as (rv & _ & H).
  apply bind_Ok in H as (rs & Hrs & H). apply bind_Ok in H as ([] & Hreq%ensure_Ok & H).
  apply bind_Ok in H as ([] & Hforb%ensure_Ok & H). apply bind_Ok in H as ([] & Hneed%ensure_Ok & H).
  apply bind_Ok in H as ([] & Hextra%ensure_Ok & H). apply bind_Ok in H as (parsed & Hp & H). apply Ok_inj in H as <-.
  apply require_str_Ok in Hfid as [_ Hfid]. apply andb_true_iff in Hreq as [Hrec%dict_has_spec Hsrc%dict_has_spec].
  apply parse_roles_wf in Hp as (H1 & H2 & H3); [|apply NoDup_nil_2|apply Forall_nil_2].
  assert (forall n, n ∈ parsed.*1 <-> n ∈ rs.*1) as Hn by (intros n; rewrite H3; simpl; rewrite elem_of_nil; tauto).
  constructor; simpl; try done.
  - by rewrite !Hn.
  - rewrite Hn, <- dict_has_spec. destruct (dict_has "capture" rs), cap; simpl in *; try done.
  - intros n Hin. rewrite Hn in Hin. rewrite forallb_forall in Hextra. apply list_elem_of_In, Hextra in Hin.
    by apply bool_decide_eq_true in Hin.
  - intros n r Hin. rewrite Forall_forall in H2. by apply (H2 (n, r)).
Qed.

(** ** Writing a fixture down *)

Definition role_json (r : LogicalRole) : json :=
  match r_channels r with
  | Some c => JObj [("kind", JStr (r_kind r)); ("channels", JInt c)]
  | None => JObj [("kind", JStr (r_kind r)); ("board", JStr (default EmptyString (board r))); ("images", JArr (JStr <$> images r))]
  end%string.
Definition capability_name (c : CaptureCapability) : string :=
  match c with NONE => "none" | MONO => "mono" | STEREO => "stereo" end.
Definition fixture_json (fx : LogicalFixture) : json :=
  JObj [("schema_version", JInt (schema_version fx)); ("fixture_id", JStr (fixture_id fx));
        ("capture_capability", JStr (capability_name (capture_capability fx)));
        ("roles", JObj (prod_map id role_json <$> roles fx))]%string.

Lemma parse_role_json cap name r :
  role_wf cap name r -> (name = "capture"%string -> cap <> NONE) -> _parse_role name (role_json r) cap = Ok r.
Proof.
  intros [Hc Hz] Hcap. destruct (decide (name = "capture"%string)) as [->|Hn].
  - rewrite Hc by auto. unfold capability_channels. specialize (Hcap eq_refl). by destruct cap.
  - destruct (Hz Hn) as (b & Hb & Hr & Hne & Hnd & He). rewrite Hr. unfold role_json, _parse_role. cbn [r_channels r_kind board].
    cbn [is_dict result_of_option mbind result_bind]. change (get _ "kind") with (JStr ZEPHYR_KIND).
    rewrite String.eqb_refl. destruct (String.eqb_spec name "capture"); [done|]. cbn [negb ensure mbind result_bind].
    change (_reject_unknown _ ZEPHYR_ROLE_KEYS) with (@Ok schema_error unit tt). cbn [mbind result_bind].
    rewrite (proj2 (require_str_Ok _ "board" b)) by done. cbn [mbind result_bind]. set (imgs := images r) in *.
    change (get _ "images") with (JArr (JStr <$> imgs)).
    pose proof (proj2 (parse_images_Ok name (JStr <$> imgs) [] imgs)) as Hi. destruct imgs as [|x l]; [done|].
    rewrite fmap_cons in *. rewrite Hi; [done|]. split; [done|]. split; [done|]. split; [done|]. intros y _. apply not_elem_of_nil.
Qed.

Lemma parse_roles_json cap rs : forall acc,
  NoDup (acc ++ rs).*1 -> (forall n r, (n, r) ∈ rs -> role_wf cap n r /\ (n = "capture"%string -> cap <> NONE)) ->
  parse_roles (prod_map id role_json <$> rs) cap acc = Ok (acc ++ rs).
Proof.
  induction rs as [|[n r] rs IH]; intros acc Hnd Hwf; simpl; [by rewrite app_nil_r|].
  destruct (Hwf n r) as [Hr Hc]; [apply list_elem_of_here|]. unfold id. rewrite parse_role_json by done. simpl.
  rewrite dict_set_fresh.
  - rewrite IH; [by rewrite <- app_assoc | by rewrite <- app_assoc |].
    intros n' r' Hin. apply Hwf. by apply list_elem_of_further.
  - apply dict_has_false. intros Hin. rewrite fmap_app in Hnd. apply NoDup_app in Hnd as (_ & Hnd & _).
    apply (Hnd n Hin), list_elem_of_here.
Qed.

Lemma parse_object_dump spaced d : json_ok (JObj d) = true -> _parse_object (dump spaced (JObj d)) = Ok d.
Proof.
  intros Hok. unfold _parse_object, _reject_duplicate_keys. rewrite utf8_valid_ascii by by apply dump_is_ascii. cbn [ensure mbind result_bind].
  by rewrite (loads_chars_dump _ HilProtocol.ParserFacts.reject_duplicate_keys_id spaced _ Hok).
Qed.

Lemma elem_of_dict_has {V} (k : string) (d : list (string * V)) : k ∈ d.*1 -> dict_has k d = true.
Proof. apply dict_has_spec. Qed.

Lemma role_names_json (l : list (string * LogicalRole)) : (prod_map id role_json <$> l).*1 = l.*1.
Proof. induction l as [|[n r] l IH]; [done|]. rewrite !fmap_cons. f_equal. exact IH. Qed.

(** C30. What the fixture parser accepts is exactly a well-formed fixture: a
    parsed fixture has one Zephyr receiver and source with unique non-empty
    images, a capture role with the right channel count exactly when there is a
    capture capability, and no other role; and writing any such fixture as JSON
    and parsing it gives the fixture back. *)
Theorem fixture_parse_exact :
  (forall raw fx, parse_logical_fixture_bytes raw = Ok fx -> fixture_wf fx) /\
  (forall spaced fx, fixture_wf fx -> json_ok (fixture_json fx) = true ->
     parse_logical_fixture_bytes (dump spaced (fixture_json fx)) = Ok fx).
Proof.
  split; [apply fixture_parsed_wf|]. intros spaced fx [W1 W2 W3 [W4 W4'] W5 W6 W7] Hok.
  unfold parse_logical_fixture_bytes, fixture_json. rewrite parse_object_dump by done. cbn [mbind result_bind].
  change (_reject_unknown _ FIXTURE_ROOT_KEYS) with (@Ok schema_error unit tt). cbn [mbind result_bind].
  change (get _ "schema_version") with (JInt (schema_version fx)). rewrite W1.
  change (int_is SCHEMA_VERSION (JInt SCHEMA_VERSION) BadSchemaVersion) with (@Ok schema_error unit tt). cbn [mbind result_bind].
  rewrite (proj2 (require_str_Ok _ "fixture_id" (fixture_id fx))) by done. cbn [mbind result_bind].
  change (_require_member _ "capture_capability") with (@Ok schema_error json (JStr (capability_name (capture_capability fx)))).
  cbn [mbind result_bind]. assert (parse_capability (JStr (capability_name (capture_capability fx))) = Ok (capture_capability fx)) as ->
    by by destruct (capture_capability fx).
  cbn [mbind result_bind]. change (_require_member _ "roles") with (@Ok schema_error json (JObj (prod_map id role_json <$> roles fx))).
  cbn [mbind result_bind]. remember (prod_map id role_json <$> roles fx) as rs eqn:Hrs.
  assert (rs.*1 = (roles fx).*1) as Hk by (rewrite Hrs; apply role_names_json).
  assert (match rs with [] => Err RolesEmpty | x :: d => Ok (x :: d) end = @Ok schema_error _ rs) as ->.
  { destruct rs; [|done]. rewrite <- Hk in W4. by apply elem_of_nil in W4. }
  cbn [mbind result_bind]. rewrite (elem_of_dict_has "receiver"), (elem_of_dict_has "source") by (by rewrite Hk). cbn [andb ensure mbind result_bind].
  assert (dict_has "capture" rs = negb (bool_decide (capture_capability fx = NONE))) as ->.
  { destruct (dict_has "capture" rs) eqn:Hh.
    - apply dict_has_spec in Hh. rewrite Hk in Hh. apply W5 in Hh. by rewrite bool_decide_eq_false_2.
    - apply dict_has_false in Hh. rewrite Hk, W5 in Hh. destruct (decide (capture_capability fx = NONE)) as [->|]; [done | tauto]. }
  replace (bool_decide _ && negb _) with false by by destruct (bool_decide _).
  replace (negb (bool_decide _) && negb _) with false by by destruct (bool_decide _). cbn [negb ensure mbind result_bind].
  assert (forallb (fun n => py_in n ["receiver"; "source"; "capture"]%string) rs.*1 = true) as ->.
  { rewrite Hk. apply forallb_forall. intros n Hn%list_elem_of_In. apply bool_decide_eq_true. by apply W6. }
  cbn [ensure mbind result_bind]. rewrite Hrs, (parse_roles_json _ (roles fx) []).
  - cbn [mbind result_bind app]. rewrite <- W1. by destruct fx.
  - done.
  - intros n r Hin. split; [by apply W7|]. intros ->. apply W5, list_elem_of_fmap. by eexists (_, r).
Qed.
End FixtureTheorems.

(** ** What an accepted binding is *)

Module BindingTheorems.
Import FixtureTheorems.

Record udev_wf (tty_rejected : bool) (u : UdevIdentity) : Prop := mk_udev_wf {
  u_entries : forall k v, (k, v) ∈ u ->
    startswith "ID_" k = true /\ v <> EmptyString /\ startswith "/dev/snd/" v = false /\
    (tty_rejected = true -> startswith "/dev/tty" v = false);
  u_required : forall k, k ∈ UDEV_REQUIRED -> dict_has k u = true;
  u_locator : dict_has "ID_SERIAL_SHORT"%string u = true \/ dict_has "ID_PATH"%string u = true;
}.

Lemma udev_entries_wf t udev : forall acc u,
  udev_entries t udev acc = Ok u ->
  Forall (fun x => exists v, udev_entry t x.1 v = Ok x.2) acc -> Forall (fun x => exists v, udev_entry t x.1 v = Ok x.2) u.
Proof.
  induction udev as [|[k v] udev IH]; intros acc u H Hacc; simpl in H; [by injection H as <-|].
  apply bind_Ok in H as (s & Hs & H). apply IH in H; [done|]. apply dict_set_Forall; [by exists v | done].
Qed.

Lemma parse_udev_wf udev t u : _parse_udev_map udev t = Ok u -> udev_wf t u.
Proof.
  unfold _parse_udev_map. intros H. result_inv H. subst u. apply udev_entries_wf in Ha; [|apply Forall_nil_2].
  constructor.
  - intros k v Hin. rewrite Forall_forall in Ha. destruct (Ha _ Hin) as (w & Hw). unfold udev_entry in Hw. simpl in Hw.
    result_inv Hw. subst v. apply nonempty_str_Some in Ha4 as [_ Hne]. bool_to_prop.
    split; [done|]. split; [done|]. split; [done|]. intros ->. simpl in *. by destruct Ha6.
  - intros k Hk. rewrite forallb_forall in Ha0. by apply Ha0, list_elem_of_In.
  - simpl in Ha1. rewrite orb_false_r in Ha1. by apply orb_true_iff in Ha1.
Qed.

(** [hw:CARD,DEV] *)
Definition direct_device (s : string) : Prop := exists card dev,
  chars s = chars "hw:" ++ card ++ [","%char] ++ dev /\
  card <> [] /\ forallb is_card_char card = true /\ dev <> [] /\ forallb is_digit dev = true.

Lemma device_shape s st : fullmatch CAPTURE_DEVICE_RE (chars s) = Some st -> direct_device s.
Proof.
  intros H. apply run_sound in H as (st' & Hd & Hend). destruct (rest st') as [|] eqn:Hr; [|done].
  destruct Hd as (m0 & [_ ->] & m1 & H1%den_Lit_chars & m2 & (card & Hc & Hc1 & Hc2)%den_Plus_text & m3 & H3%den_Lit_chars &
    m4 & (dev & Hv & Hv1 & Hv2)%den_Plus_text & [_ ->]).
  exists card, dev. simpl in H1. rewrite H1, Hc, H3, Hv, Hr, app_nil_r. done.
Qed.

Section binding.
Context (sha256 : list ascii -> string) (h : host) (rd : reads).

(** A canonical regular file outside the repository whose text is a metadata
    object of this fixture. *)
Record metadata_wf (fid : string) (m : CaptureFixtureMetadata) : Prop := mk_metadata_wf {
  md_canonical : exists p, startswith "/" p = true /\ islink h p = false /\ realpath h p = m_path m /\ normpath p = m_path m;
  md_outside : m_path m <> repo_root h /\ startswith (repo_root h ++ "/")%string (m_path m) = false;
  md_regular : stat h (m_path m) = Some true;
  md_text : exists raw content, text_of rd (m_path m) = Some raw /\ _parse_object raw = Ok (m_values m) /\
    hashed_of rd (m_path m) = Some content /\ m_sha256 m = sha256 content;
  md_fixture : dict_get "fixture_id"%string (m_values m) = Some (JStr fid);
  md_fields : forall k, k ∈ METADATA_FIELDS -> exists s, dict_get k (m_values m) = Some (JStr s) /\ s <> EmptyString;
}.

Lemma metadata_parsed p fid m : _parse_fixture_metadata sha256 h rd p fid = Ok m -> metadata_wf fid m.
Proof.
  unfold _parse_fixture_metadata. intros H. apply bind_Ok in H as (can & Hcan & H). apply bind_Ok in H as (raw & Hraw & H).
  apply bind_Ok in H as (obj & Hobj & H). apply bind_Ok in H as ([] & _ & H). apply bind_Ok in H as (f & Hf & H).
  apply bind_Ok in H as ([] & Hid%ensure_Ok & H). apply bind_Ok in H as (fs & Hfs & H). apply bind_Ok in H as (content & Hc & H).
  apply Ok_inj in H as <-. apply result_of_option_Ok in Hraw. apply result_of_option_Ok in Hc. apply String.eqb_eq in Hid as ->.
  apply require_str_Ok in Hf as [Hf _]. unfold _require_external_regular_file in Hcan. result_inv Hcan. subst can. bool_to_prop.
  constructor; simpl; try done.
  - exists p. match goal with G : String.eqb _ (normpath p) = true |- _ => apply String.eqb_eq in G end. done.
  - split; [|done]. by apply String.eqb_neq.
  - destruct a3; [done|]. by subst.
  - by exists raw, content.
  - intros k Hk. apply result_mapM_Ok in Hfs. apply list_elem_of_lookup in Hk as (i & Hi).
    destruct (Forall2_lookup_l _ _ _ _ _ Hfs Hi) as (s & _ & Hs). apply require_str_Ok in Hs. by exists s.
Qed.
Definition zephyr_binding_wf (fx : LogicalFixture) (name : string) (b : PhysicalRoleBinding) : Prop :=
  exists lr, dict_get name (roles fx) = Some lr /\ r_kind lr = ZEPHYR_KIND /\ board lr = Some NRF54L15_CPUAPP_BOARD /\
  name ∈ ["receiver"; "source"]%string /\
  pb_backend (probe b) = "nrf-probes"%string /\ pb_family (probe b) = "nrf54l"%string /\
  (forall u, pb_udev (probe b) = Some u -> udev_wf false u) /\
  0 < baud (serial b) /\ (sb_udev (serial b) = [] \/ udev_wf true (sb_udev (serial b))).

Definition capture_binding_wf (fx : LogicalFixture) (b : CaptureBinding) : Prop :=
  cb_backend b = CAPTURE_BACKEND /\ direct_device (cb_device b) /\
  cb_channels b = capability_channels (capture_capability fx) /\ cb_sample_rate b = CAPTURE_SAMPLE_RATE /\
  cb_sample_format b = CAPTURE_SAMPLE_FORMAT /\ udev_wf false (cb_udev b) /\
  capture_switch (cb_mixer b) = "on"%string /\ agc (cb_mixer b) = "off"%string /\ metadata_wf (fixture_id fx) (cb_metadata b).

Lemma parse_serial_wf d b : parse_serial d = Ok b -> 0 < baud b /\ (sb_udev b = [] \/ udev_wf true (sb_udev b)).
Proof.
  unfold parse_serial. intros H. apply bind_Ok in H as ([] & _ & H). apply bind_Ok in H as (bd & _ & H).
  apply bind_Ok in H as ([] & Hbd%ensure_Ok & H). apply bind_Ok in H as (dt & _ & H). apply bind_Ok in H as (rt & _ & H).
  apply bind_Ok in H as (u & _ & H). apply bind_Ok in H as (su & Hsu & H). apply Ok_inj in H as <-. simpl. bool_to_prop.
  split; [done|]. destruct u as [|x u]; [left; by injection Hsu as <- | right; by apply parse_udev_wf in Hsu].
Qed.

Lemma probe_contract_Ok name lr c : _probe_contract name lr = Ok c ->
  r_kind lr = ZEPHYR_KIND /\ board lr = Some NRF54L15_CPUAPP_BOARD /\ name ∈ ["receiver"; "source"]%string /\
  c = mk_contract "nrf-probes" "nrf54l" false.
Proof.
  unfold _probe_contract. intros H. result_inv H. apply String.eqb_eq in Ha. apply bind_Some in H as (b & Hb & H).
  apply dict_get_elem in H. unfold PROBE_CONTRACTS in H. rewrite !elem_of_cons, elem_of_nil in H.
  destruct H as [[= -> -> ->]|[[= -> -> ->]|[]]]; (split; [done|]; split; [done|]; split; [|done]).
  - apply list_elem_of_here.
  - apply list_elem_of_further, list_elem_of_here.
Qed.

Lemma parse_binding_role_wf fx name spec lr b :
  dict_get name (roles fx) = Some lr -> _parse_binding_role name spec lr = Ok b -> zephyr_binding_wf fx name b.
Proof.
  intros Hlr H. unfold _parse_binding_role in H. do 6 (apply bind_Ok in H as (? & _ & H)).
  apply bind_Ok in H as (c & Hc & H). do 2 (apply bind_Ok in H as ([] & _ & H)). apply bind_Ok in H as (pu & Hpu & H).
  apply bind_Ok in H as (sb & Hsb & H). apply Ok_inj in H as <-. apply probe_contract_Ok in Hc as (Hk & Hb & Hn & ->).
  apply parse_serial_wf in Hsb as [Hbaud Hudev]. exists lr. simpl. do 6 (split; [done|]). split; [|done]. intros u ->.
  destruct (dict_get "udev"%string _) as [raw|].
  - apply bind_Ok in Hpu as (d & _ & Hpu). destruct (_parse_udev_map d false) eqn:Hu; [|done].
    injection Hpu as ->. by apply parse_udev_wf in Hu.
  - simpl in Hpu. done.
Qed.

Lemma parse_mixer_wf d m : parse_mixer d = Ok m -> capture_switch m = "on"%string /\ agc m = "off"%string.
Proof. unfold parse_mixer. intros H. result_inv H. subst m. simpl. by split; apply String.eqb_eq. Qed.

Lemma parse_capture_binding_wf fx spec b :
  _parse_capture_binding_role sha256 h rd spec (fixture_id fx) (capture_capability fx) = Ok b -> capture_binding_wf fx b.
Proof.
  unfold _parse_capture_binding_role. intros H. do 2 (apply bind_Ok in H as (? & _ & H)).
  apply bind_Ok in H as (be & _ & H). apply bind_Ok in H as ([] & Hbe%ensure_Ok%String.eqb_eq & H).
  apply bind_Ok in H as (dev & _ & H). apply bind_Ok in H as ([] & Hdev%ensure_Ok & H).
  apply bind_Ok in H as (ch & _ & H). apply bind_Ok in H as ([] & _ & H). apply bind_Ok in H as (sr & _ & H).
  apply bind_Ok in H as ([] & _ & H). apply bind_Ok in H as (sf & _ & H). apply bind_Ok in H as ([] & Hsf%ensure_Ok%String.eqb_eq & H).
  do 2 (apply bind_Ok in H as (? & _ & H)). apply bind_Ok in H as (u & Hu & H). do 2 (apply bind_Ok in H as (? & _ & H)).
  apply bind_Ok in H as (mx & Hmx & H). apply bind_Ok in H as (mp & _ & H). apply bind_Ok in H as (md & Hmd & H).
  apply Ok_inj in H as <-. destruct (fullmatch CAPTURE_DEVICE_RE (chars dev)) as [st|] eqn:Hst; [|done].
  apply parse_mixer_wf in Hmx as [Hm1 Hm2]. apply parse_udev_wf in Hu. apply metadata_parsed in Hmd.
  unfold capture_binding_wf. simpl. do 2 (split; [first [done | by eapply device_shape]|]). done.
Qed.

Lemma sorted_elem l x : x ∈ sorted l <-> x ∈ l.
Proof. apply sorted_strings_elem. Qed.

Lemma parse_bindings_Ok fx fid rs : forall names l,
  parse_bindings sha256 h rd fx fid rs names = Ok l ->
  l.*1 = names /\ forall n b, (n, b) ∈ l -> parse_binding sha256 h rd fx fid n (get rs n) = Ok b.
Proof.
  induction names as [|name names IH]; intros l H; simpl in H.
  - injection H as <-. split; [done|]. by intros n b ?%elem_of_nil.
  - result_inv H. subst l. destruct (IH _ Ha0) as [H1 H2]. rewrite fmap_cons, H1. split; [done|].
    intros n b [[= -> ->]|Hin]%elem_of_cons; [done | by apply H2].
Qed.

(** C29. A parsed binding is cross-validated against its fixture: the same
    fixture id and the same roles; every Zephyr role is one of the supported
    board's roles with that board's probe contract, well-formed udev identities
    and a positive baud rate; the capture role is a direct device of the
    fixture's channel count at 48 kHz S16_LE with the gain control off, and its
    metadata is a canonical regular file outside the repository that names this
    fixture. *)
Theorem binding_cross_validated fx raw b :
  fixture_wf fx -> parse_physical_binding_bytes sha256 h rd raw fx = Ok b ->
  b_fixture_id b = fixture_id fx /\
  (forall n, n ∈ (b_roles b).*1 <-> n ∈ (roles fx).*1) /\
  (forall n rb, (n, inl rb) ∈ b_roles b -> zephyr_binding_wf fx n rb) /\
  (forall n cb, (n, inr cb) ∈ b_roles b -> n = "capture"%string /\ capture_binding_wf fx cb /\
     exists lr, (n, lr) ∈ roles fx /\ r_channels lr = Some (cb_channels cb)).
Proof.
  intros Hwf H. unfold parse_physical_binding_bytes in H. apply bind_Ok in H as (obj & _ & H).
  apply bind_Ok in H as ([] & _ & H). apply bind_Ok in H as ([] & _ & H). apply bind_Ok in H as (fid & _ & H).
  apply bind_Ok in H as ([] & Hfid%ensure_Ok%String.eqb_eq & H). apply bind_Ok in H as (rs & _ & H).
  apply bind_Ok in H as ([] & Hset%ensure_Ok & H). apply bind_Ok in H as (l & Hl & H). apply Ok_inj in H as <-. simpl.
  apply parse_bindings_Ok in Hl as [Hn Hb]. apply andb_true_iff in Hset as [Hs1 Hs2]. rewrite forallb_forall in Hs1, Hs2.
  assert (forall n, n ∈ l.*1 <-> n ∈ (roles fx).*1) as Hroles.
  { intros n. rewrite Hn, sorted_elem. split; intros Hin%list_elem_of_In.
    - by apply Hs1, dict_has_spec in Hin.
    - by apply Hs2, dict_has_spec in Hin. }
  split; [done|]. split; [done|]. subst fid. split; intros n x Hin; pose proof (Hb _ _ Hin) as Hp; unfold parse_binding in Hp;
    destruct (String.eqb_spec n "capture") as [->|Hne].
  - by destruct (_parse_capture_binding_role _ _ _ _ _ _).
  - destruct (dict_get n (roles fx)) as [lr|] eqn:Hlr; [|done].
    destruct (_parse_binding_role n _ lr) as [rb|] eqn:Hrb; [|done]. injection Hp as ->. by eapply parse_binding_role_wf.
  - destruct (_parse_capture_binding_role _ _ _ _ _ _) as [cb|] eqn:Hcb; [|done]. injection Hp as ->.
    apply parse_capture_binding_wf in Hcb. split; [done|]. split; [done|].
    assert ("capture"%string ∈ (roles fx).*1) as Hc by (apply Hroles, list_elem_of_fmap; by exists ("capture"%string, inr x)).
    pose proof Hc as ([n lr] & Hlr & Hlr')%list_elem_of_fmap. simpl in Hlr. subst n. exists lr. split; [done|].
    destruct (wf_roles _ Hwf _ _ Hlr') as [Hcap _]. rewrite Hcap; [|done|by apply (wf_capture_iff _ Hwf)]. simpl. f_equal.
    by destruct Hcb as (_ & _ & -> & _).
  - destruct (dict_get n (roles fx)); [|done]. by destruct (_parse_binding_role _ _ _).
Qed.

(** [verify_capture_fixture_metadata] pins the metadata: if the file did
    not change between its two reads, at binding time and at verification time,
    and SHA-256 does not collide on these two contents, then a successful
    verification returns exactly the values the binding was made from. *)
Theorem metadata_pinned rd' h' p fid b m' :
  (forall q, text_of rd q = hashed_of rd q) -> (forall q, text_of rd' q = hashed_of rd' q) ->
  (forall q c c', text_of rd q = Some c -> text_of rd' q = Some c' -> sha256 c = sha256 c' -> c = c') ->
  _parse_fixture_metadata sha256 h rd p fid = Ok (cb_metadata b) ->
  verify_capture_fixture_metadata sha256 h' rd' b = Ok m' ->
  m_path m' = m_path (cb_metadata b) -> m_values m' = m_values (cb_metadata b).
Proof.
  intros Hq Hq' Hcol Hp Hv Hpath. unfold verify_capture_fixture_metadata in Hv. apply bind_Ok in Hv as (m & Hm & Hv).
  apply bind_Ok in Hv as ([] & Hsha%ensure_Ok%String.eqb_eq & Hv). apply Ok_inj in Hv as ->.
  apply metadata_parsed in Hp. destruct (md_text _ _ Hp) as (raw & c & Hraw & Hobj & Hc & Hs).
  assert (exists raw' c', text_of rd' (m_path m') = Some raw' /\ _parse_object raw' = Ok (m_values m') /\
    hashed_of rd' (m_path m') = Some c' /\ m_sha256 m' = sha256 c') as (raw' & c' & Hraw' & Hobj' & Hc' & Hs').
  { unfold _parse_fixture_metadata in Hm. result_inv Hm. subst m'. simpl. eauto 8. }
  rewrite <- Hq in Hc. rewrite <- Hq' in Hc'. rewrite Hpath in *.
  assert (raw = c) as <- by congruence. assert (raw' = c') as <- by congruence.
  assert (raw = raw') as <- by (eapply Hcol; [done | done | congruence]). congruence.
Qed.
End binding.
End BindingTheorems.

(** ** Concrete documents *)

Module ModelWitnesses.
Import FixtureTheorems BindingTheorems.

Definition demo_fixture : LogicalFixture := mk_fixture 1 "lab-1" MONO [
  ("receiver", mk_role ZEPHYR_KIND (Some NRF54L15_CPUAPP_BOARD) ["receiver"] None);
  ("source", mk_role ZEPHYR_KIND (Some NRF54L15_CPUAPP_BOARD) ["source"] None);
  ("capture", mk_role CAPTURE_KIND None [] (Some 1))]%string.

Lemma fixture_parse_exact_witness :
  parse_logical_fixture_bytes (dump true (fixture_json demo_fixture)) = Ok demo_fixture /\ fixture_wf demo_fixture.
Proof.
  split; [vm_compute; reflexivity|].
  apply (proj1 FixtureTheorems.fixture_parse_exact (dump true (fixture_json demo_fixture))). vm_compute. reflexivity.
Defined.

Definition udev_json : json :=
  JObj [("ID_VENDOR_ID", JStr "1366"); ("ID_MODEL_ID", JStr "1055"); ("ID_SERIAL_SHORT", JStr "42")]%string.
Definition zephyr_json : json := JObj [
  ("probe", JObj [("backend", JStr "nrf-probes"); ("family", JStr "nrf54l")]);
  ("serial", JObj [("baud", JInt 115200); ("dtr", JBool true); ("rts", JBool false); ("udev", udev_json)])]%string.
Definition capture_json : json := JObj [
  ("backend", JStr "alsa"); ("device", JStr "hw:CODEC,0"); ("channels", JInt 1); ("sample_rate", JInt 48000);
  ("sample_format", JStr "S16_LE"); ("udev", udev_json);
  ("mixer", JObj [("control", JStr "Mic"); ("volume", JStr "50%"); ("capture_switch", JStr "on");
                  ("agc_control", JStr "AGC"); ("agc", JStr "off")]);
  ("fixture_metadata", JStr "/lab/meta.json")]%string.
Definition binding_json : json := JObj [
  ("schema_version", JInt 1); ("fixture_id", JStr "lab-1");
  ("roles", JObj [("receiver", zephyr_json); ("source", zephyr_json); ("capture", capture_json)])]%string.

Definition metadata_json (v : string) : list ascii :=
  dump true (JObj (("fixture_id"%string, JStr "lab-1") :: ((fun k => (k, JStr v)) <$> METADATA_FIELDS))).
Definition demo_host : host := mk_host (fun _ => false) id (fun _ => Some true) "/repo".
Definition still (v : string) : reads := mk_reads (fun _ => Some (metadata_json v)) (fun _ => Some (metadata_json v)).
(** A stand-in for SHA-256 that separates the contents used here. *)
Definition demo_sha (l : list ascii) : string := of_chars l.

Definition demo_binding : PhysicalBinding :=
  Eval vm_compute in match parse_physical_binding_bytes demo_sha demo_host (still "a") (dump true binding_json) demo_fixture with
  | Ok b => b | Err _ => mk_binding 0 EmptyString [] end.

Lemma binding_cross_validated_witness :
  parse_physical_binding_bytes demo_sha demo_host (still "a") (dump true binding_json) demo_fixture = Ok demo_binding /\
  (b_roles demo_binding).*1 = ["capture"; "receiver"; "source"]%string /\ b_fixture_id demo_binding = fixture_id demo_fixture.
Proof.
  split; [vm_compute; reflexivity|]. split; [vm_compute; reflexivity|].
  apply (BindingTheorems.binding_cross_validated demo_sha demo_host (still "a") demo_fixture (dump true binding_json) demo_binding).
  - apply fixture_parse_exact_witness.
  - vm_compute. reflexivity.
Defined.

Definition demo_metadata (v : string) : CaptureFixtureMetadata :=
  mk_metadata "/lab/meta.json" (demo_sha (metadata_json v))
    (("fixture_id"%string, JStr "lab-1") :: ((fun k => (k, JStr v)) <$> METADATA_FIELDS)).
Definition demo_capture (m : CaptureFixtureMetadata) : CaptureBinding :=
  mk_capture CAPTURE_BACKEND "hw:CODEC,0" 1 48000 "S16_LE" [] (mk_mixer "Mic" "50%" "on" "AGC" "off") m.

Lemma metadata_pinned_witness :
  verify_capture_fixture_metadata demo_sha demo_host (still "a") (demo_capture (demo_metadata "a")) = Ok (demo_metadata "a") /\
  m_values (demo_metadata "a") = m_values (cb_metadata (demo_capture (demo_metadata "a"))).
Proof.
  split; [vm_compute; reflexivity|].
  apply (BindingTheorems.metadata_pinned demo_sha demo_host (still "a") (still "a") demo_host "/lab/meta.json" "lab-1");
    first [reflexivity | intros q c c' [= <-] [= <-] _; reflexivity | vm_compute; reflexivity].
Defined.

End ModelWitnesses.

(** An edit between the two reads of one parse is not noticed: the values come
    from the first read and the hash from the second, so the later verification
    passes although the file never again has the values of the binding. *)
Lemma edit_between_reads_is_hidden :
  exists (m : CaptureFixtureMetadata) (m' : CaptureFixtureMetadata),
    _parse_fixture_metadata ModelWitnesses.demo_sha ModelWitnesses.demo_host
      (mk_reads (fun _ => Some (ModelWitnesses.metadata_json "old")) (fun _ => Some (ModelWitnesses.metadata_json "new")))
      "/lab/meta.json" "lab-1" = Ok m /\
    verify_capture_fixture_metadata ModelWitnesses.demo_sha ModelWitnesses.demo_host (ModelWitnesses.still "new")
      (ModelWitnesses.demo_capture m) = Ok m' /\
    m_values m' <> m_values m.
Proof.
  eexists. eexists. split; [vm_compute; reflexivity|]. split; [vm_compute; reflexivity|]. vm_compute. discriminate.
Qed.
