(* ===== verification/HciTrace.v ===== *)
(** * The two HCI traces of the receiver console (scripts/hil/receiver.py)

    [parse_hci_remove_iso_path_trace] and [parse_sdc_hci_remove_iso_path_trace]:
    the markers a line may carry, the scan that files them by kind with their
    byte ranges, and the validation of what was filed.  A payload keeps its
    lists by kind.  A message is its format with the arguments; messages of
    different formats are different texts.  [int] of more digits than CPython
    converts raises [ValueError], and formatting [None] with %d [TypeError]. *)

From S2P Require Import Prelude PyText PyRegex SerialIo HilReceiver.

#[local] Open Scope re_scope.

(** ** Values, records, messages *)

Inductive exn : Type := ValueError | TypeError.
Inductive value : Type := VInt (z : Z) | VText (t : list ascii) | VBool (b : bool) | VNone.
Inductive classification : Type := BeforeArm | AfterArm.
Abbreviation fields := (list (string * value)).
(** The first trace gives its arm markers no classification. *)
Record rec : Type := mk_rec { r_start : Z; r_end : Z; r_line : list ascii; r_class : option classification; r_fields : fields }.

(** A record's number, text or flag; every record of a kind has its keys. *)
Definition int (key : string) (r : rec) : Z := match dict_get key (r_fields r) with Some (VInt z) => z | _ => 0 end.
Definition opt_int (key : string) (r : rec) : option Z := match dict_get key (r_fields r) with Some (VInt z) => Some z | _ => None end.
Definition flag (key : string) (r : rec) : bool := match dict_get key (r_fields r) with Some (VBool b) => b | _ => false end.
Definition text (key : string) (r : rec) : list ascii := match dict_get key (r_fields r) with Some (VText t) => t | _ => [] end.

Inductive argument : Type := I (z : Z) | T (t : list ascii).
Inductive message : Type := Msg (format : string) (args : list argument).
#[export] Instance argument_eq_dec : EqDecision argument.
Proof. solve_decision. Defined.
#[export] Instance message_eq_dec : EqDecision message.
Proof. solve_decision. Defined.
#[export] Instance classification_eq_dec : EqDecision classification.
Proof. solve_decision. Defined.
Definition say (format : string) : message := Msg format [].
(** The messages of a condition. *)
Definition when {A} (b : bool) (l : list A) : list A := if b then l else [].

Definition len {A} (l : list A) : Z := Z.of_nat (length l).

Definition after_arm (r : rec) : bool := bool_decide (r_class r = Some AfterArm).
Definition before_arm (r : rec) : bool := bool_decide (r_class r = Some BeforeArm).

(** ** Numbers and text *)

Definition is_sign (c : ascii) : bool := Ascii.eqb c "+" || Ascii.eqb c "-".
(** [int(s, 10)] of a signed number. *)
Definition int10 (l : list ascii) : result exn Z :=
  match l with
  | "-"%char :: l => z ← result_of_option ValueError (py_int l); Ok (- z)
  | "+"%char :: l => result_of_option ValueError (py_int l)
  | l => result_of_option ValueError (py_int l)
  end.
Definition hex_digit (c : ascii) : Z := if is_digit c then code c - 48 else code (lower c) - 87.
(** [int(s, 16)]: no limit. *)
Definition int16 (l : list ascii) : Z := fold_left (fun acc c => acc * 16 + hex_digit c) l 0.

(** [l.count(w)] of a word that is not empty. *)
Fixpoint count_from (fuel : nat) (w l : list ascii) : nat :=
  match fuel, l with
  | O, _ | _, [] => 0
  | S fuel, _ :: l' => match strip_prefix w l with Some r => 1 + count_from fuel w r | None => count_from fuel w l' end
  end%nat.
Definition count (w l : list ascii) : nat := count_from (length l) w l.

Definition signed (n : nat) : re := Group n (Opt (Cls is_sign) • Plus is_digit)%re.
Definition unsigned (n : nat) : re := Group n (Plus is_digit).
Definition grp (n : nat) (st : pos) : list ascii := default [] (group n st).
Definition num (key : string) (n : nat) (st : pos) : result exn fields := z ← int10 (grp n st); Ok [(key, VInt z)].
Definition hex (key : string) (n : nat) (st : pos) : result exn fields := Ok [(key, VInt (int16 (grp n st)))].
Definition txt (key : string) (n : nat) (st : pos) : result exn fields := Ok [(key, VText (grp n st))].
(** [bool(int(...))] *)
Definition bit (key : string) (n : nat) (st : pos) : result exn fields := z ← int10 (grp n st); Ok [(key, VBool (negb (z =? 0)))].
(** A dictionary display, evaluated in order. *)
Fixpoint all (readers : list (pos -> result exn fields)) (st : pos) : result exn fields :=
  match readers with [] => Ok [] | f :: readers => x ← f st; y ← all readers st; Ok (x ++ y) end.

(** ** A payload *)

Section payload.
Context {K : Type} `{EqDecision K}.
Record payload : Type := mk_payload { recs : K -> list rec; parser_errors : list message; validation_errors : list message }.
Definition empty_payload : payload := mk_payload (fun _ => []) [] [].
Definition file (k : K) (r : rec) (p : payload) : payload :=
  mk_payload (fun k' => if decide (k' = k) then recs p k' ++ [r] else recs p k') (parser_errors p) (validation_errors p).
Definition unparsed (m : message) (p : payload) : payload := mk_payload (recs p) (parser_errors p ++ [m]) (validation_errors p).
Definition invalid (ms : list message) (p : payload) : payload := mk_payload (recs p) (parser_errors p) (validation_errors p ++ ms).
(** Evidence that is no text at all: the same message in both lists. *)
Definition unreadable (m : message) : payload := mk_payload (fun _ => []) [m] [m].
End payload.
Arguments payload K : clear implicits.

Definition line_of (l : raw_line) : list ascii := strip (strip_vt100 (line_text l)).
Definition prompt : list ascii := chars RECEIVER_PROMPT.
Definition has (w : string) (line : list ascii) : bool := contains_chars (chars w) line.

(** ** The callback-timed trace *)

Definition field (key : string) (n : nat) : re := (Lit key • Lit "=" • signed n)%re.
Definition spaces : re := Plus is_space.
Definition arm_fields (n : nat) : re :=
  (field "core_id" n • spaces • field "driver_id" (n + 1) • spaces • field "core_level" (n + 2) • spaces • field "driver_level" (n + 3))%re.
Definition RE_HCI_REMOVE_ISO_PATH_TRACE_ARM : re := (Lit "HCI remove ISO path trace armed:" • Star is_space • arm_fields 1)%re.
Definition RE_HCI_REMOVE_ISO_PATH_TRACE_ARM_FAILED : re :=
  (Lit "HCI remove ISO path trace arm failed:" • Star is_space • field "err" 1 • spaces • arm_fields 2)%re.
Definition RE_HCI_REMOVE_ISO_PATH_TRACE_DROPPED : re :=
  (Bol • Lit "---" • Star is_space • unsigned 1 • spaces • Lit "messages dropped" • Star is_space • Lit "---" • Eos)%re.
Definition RE_HCI_CORE_TRACE_SEND : re :=
  Alt (Ci "Sending command 0x206f" • Wb)
   (Alt (Ci "opcode 0x206f" • spaces • Ci "param_len" • Wb)
        (Ci "buf" • spaces • Plus (fun c => negb (is_space c)) • spaces • Ci "opcode 0x206f" • spaces • Ci "len" • Wb))%re.
Definition RE_HCI_SDC_TRACE_COMPLETE : re := (Ci "Command Complete" • spaces • Ci "(0x206f" • Wb)%re.
Definition RE_HCI_SDC_TRACE_STATUS : re := (Ci "Command Status" • spaces • Ci "(0x206f" • Wb)%re.
Definition done_word : re := Alt (Ci "complete") (Alt (Ci "completed") (Ci "done")).
Definition RE_HCI_CORE_TRACE_COMPLETE : re :=
  Alt (Ci "opcode" • spaces • Ci "0x206f" • Wb • Star dot • Wb • Ci "status" • Wb)
   (Alt (done_word • Star dot • Ci "0x206f" • Wb) (Ci "0x206f" • Wb • Star dot • done_word))%re.
Definition fatal_word : re := Alt (Ci "timeout") (Alt (Ci "timed out") (Alt (Ci "unresponsive") (Ci "fatal"))).
Definition RE_HCI_TRACE_TIMEOUT_FATAL : re :=
  Alt (fatal_word • Star dot • Ci "0x206f" • Wb) (Ci "0x206f" • Wb • Star dot • fatal_word)%re.

Module Hci.

Inductive kind : Type :=
| arm_markers | arm_failure_markers | dropped_messages | core_sends | driver_command_complete | driver_command_status
| core_completion_done | host_timeout_fatal.
#[export] Instance kind_eq_dec : EqDecision kind.
Proof. solve_decision. Defined.
(** The payload and [first_arm_seen]. *)
Record scan : Type := mk_scan { pay : payload kind; arm_seen : bool }.
Definition on_pay (f : payload kind -> payload kind) (s : scan) : scan := mk_scan (f (pay s)) (arm_seen s).
Definition class (s : scan) : classification := if arm_seen s then AfterArm else BeforeArm.

Section line.
Context (l : raw_line).
Let line := line_of l.

Definition _hci_remove_iso_path_trace_record (c : option classification) (f : fields) : rec := mk_rec (start_offset l) (end_offset l) line c f.

Definition arm_step (s : scan) : result exn scan :=
  if has "HCI remove ISO path trace armed:" line then
    match search RE_HCI_REMOVE_ISO_PATH_TRACE_ARM line with
    | None => Ok (on_pay (unparsed (Msg "malformed arm marker: %s" [T line])) s)
    | Some st =>
        f ← all [num "core_id" 1; num "driver_id" 2; num "core_level" 3; num "driver_level" 4] st;
        Ok (mk_scan (file arm_markers (_hci_remove_iso_path_trace_record None f) (pay s)) true)
    end
  else Ok s.
Definition arm_failed_step (s : scan) : result exn scan :=
  if has "HCI remove ISO path trace arm failed:" line then
    match search RE_HCI_REMOVE_ISO_PATH_TRACE_ARM_FAILED line with
    | None => Ok (on_pay (unparsed (Msg "malformed arm-failure marker: %s" [T line])) s)
    | Some st =>
        f ← all [num "err" 1; num "core_id" 2; num "driver_id" 3; num "core_level" 4; num "driver_level" 5] st;
        Ok (on_pay (file arm_failure_markers (_hci_remove_iso_path_trace_record None f)) s)
    end
  else Ok s.
Definition dropped_step (s : scan) : result exn scan :=
  if has "messages dropped" line then
    match fullmatch RE_HCI_REMOVE_ISO_PATH_TRACE_DROPPED (default line (strip_prefix prompt line)) with
    | None => Ok (on_pay (unparsed (Msg "malformed dropped-message record: %s" [T line])) s)
    | Some st =>
        f ← num "count" 1 st;
        Ok (on_pay (file dropped_messages (_hci_remove_iso_path_trace_record (Some (class s)) f)) s)
    end
  else Ok s.
(** A line of a kind: the module that logged it and a pattern. *)
Definition plain_step (k : kind) (logger : option string) (r : re) (s : scan) : scan :=
  if match logger with Some w => has w line | None => true end && bool_decide (is_Some (search r line))
  then on_pay (file k (_hci_remove_iso_path_trace_record (Some (class s)) [])) s else s.

Definition scan_line (s : scan) : result exn scan :=
  s ← arm_step s;
  s ← arm_failed_step s;
  s ← dropped_step s;
  let s := plain_step core_sends (Some "bt_hci_core"%string) RE_HCI_CORE_TRACE_SEND s in
  let s := plain_step driver_command_complete (Some "bt_sdc_hci_driver"%string) RE_HCI_SDC_TRACE_COMPLETE s in
  let s := plain_step driver_command_status (Some "bt_sdc_hci_driver"%string) RE_HCI_SDC_TRACE_STATUS s in
  let s := plain_step core_completion_done (Some "bt_hci_core"%string) RE_HCI_CORE_TRACE_COMPLETE s in
  Ok (plain_step host_timeout_fatal None RE_HCI_TRACE_TIMEOUT_FATAL s).
End line.

Fixpoint scan_lines (ls : list raw_line) (s : scan) : result exn scan :=
  match ls with [] => Ok s | l :: ls => s ← scan_line l s; scan_lines ls s end.

Definition validate (p : payload kind) : list message :=
  parser_errors p ++
  when (negb (len (recs p arm_markers) =? 1))
    [Msg "expected exactly one successful arm marker, found %d" [I (len (recs p arm_markers))]] ++
  match recs p arm_markers with
  | [] => []
  | arm :: _ =>
      flat_map (fun key => when (int key arm <? 0) [Msg "arm marker %s is negative" [T (chars key)]]) ["core_id"; "driver_id"]%string ++
      flat_map (fun key => when (negb (int key arm =? 4)) [Msg "arm marker %s is %d, expected 4" [T (chars key); I (int key arm)]])
        ["core_level"; "driver_level"]%string
  end ++
  when (match recs p arm_failure_markers with [] => false | _ => true end) [say "arm-failure marker present"] ++
  flat_map (fun r => when (after_arm r) [Msg "dropped messages after arm: %d" [I (int "count" r)]]) (recs p dropped_messages) ++
  when (negb (existsb after_arm (recs p core_sends))) [say "missing post-arm bt_hci_core 0x206f send record"].

(** [None] is an argument that is neither text nor bytes; the decoder's own
    message is left out. *)
Definition parse_hci_remove_iso_path_trace (raw : option (list ascii)) : result exn (payload kind) :=
  match raw with
  | None => Ok (unreadable (say "receiver trace evidence is not bytes"))
  | Some raw =>
      s ← match iter_raw_utf8_lines raw with
          | None => Ok (mk_scan (unreadable (say "receiver trace evidence invalid UTF-8")) false)
          | Some ls => scan_lines ls (mk_scan empty_payload false)
          end;
      Ok (invalid (validate (pay s)) (pay s))
  end.
End Hci.

(** ** The direct trace of the SDC wrapper *)

Definition SDC_HCI_REMOVE_ISO_PATH_TRACE_ARM_TEXT : string :=
  "SDC LE Remove ISO Data Path trace armed".
Definition SDC_HCI_REMOVE_ISO_PATH_TRACE_ENTRY_TEXT : string :=
  "SDC LE Remove ISO Data Path trace entry".
Definition SDC_HCI_REMOVE_ISO_PATH_TRACE_RETURN_PREFIX : string :=
  "SDC LE Remove ISO Data Path trace return: status=".
Definition SDC_HCI_REMOVE_ISO_PATH_TRACE_CMD_PUT_ENTRY_TEXT : string :=
  "SDC LE Remove ISO Data Path hci_internal_cmd_put entry".
Definition SDC_HCI_REMOVE_ISO_PATH_TRACE_CMD_PUT_RETURN_PREFIX : string :=
  "SDC LE Remove ISO Data Path hci_internal_cmd_put return: status=".
Definition SDC_HCI_REMOVE_ISO_PATH_TRACE_LOCK_RELEASE_ENTRY_TEXT : string :=
  "SDC LE Remove ISO Data Path multithreading_lock_release entry".
Definition SDC_HCI_REMOVE_ISO_PATH_TRACE_LOCK_RELEASE_RETURN_TEXT : string :=
  "SDC LE Remove ISO Data Path multithreading_lock_release return".
Definition SDC_HCI_REMOVE_ISO_PATH_TRACE_WORK_SUBMIT_ENTRY_TEXT : string :=
  "SDC LE Remove ISO Data Path k_work_submit_to_queue entry".
Definition SDC_HCI_REMOVE_ISO_PATH_TRACE_WORK_SUBMIT_RETURN_PREFIX : string :=
  "SDC LE Remove ISO Data Path k_work_submit_to_queue return: status=".
Definition SDC_HCI_REMOVE_ISO_PATH_TRACE_SNAPSHOT_SCHEDULED_TEXT : string :=
  "SDC LE Remove ISO Data Path work state snapshot scheduled".
Definition SDC_HCI_REMOVE_ISO_PATH_TRACE_SNAPSHOT_SCHEDULED_PREFIX : string :=
  "SDC LE Remove ISO Data Path work state snapshot scheduled: status=".
Definition SDC_HCI_REMOVE_ISO_PATH_TRACE_SNAPSHOT_TEXT : string :=
  "SDC LE Remove ISO Data Path work state snapshot".
Definition SDC_HCI_REMOVE_ISO_PATH_TRACE_SNAPSHOT_PREFIX : string :=
  "SDC LE Remove ISO Data Path work state snapshot: busy=".
Definition SDC_HCI_REMOVE_ISO_PATH_TRACE_SCHEDULER_UNLOCK_ARM_TEXT : string :=
  "SDC LE Remove ISO Data Path scheduler unlock trace armed".
Definition SDC_HCI_REMOVE_ISO_PATH_TRACE_SCHEDULER_UNLOCK_ARM_EXTENDED_PREFIX : string :=
  "SDC LE Remove ISO Data Path scheduler unlock trace armed: queue_is_mpsl=".
Definition SDC_HCI_REMOVE_ISO_PATH_TRACE_SCHEDULER_UNLOCK_ENTRY_TEXT : string :=
  "SDC LE Remove ISO Data Path k_sched_unlock entry".
Definition SDC_HCI_REMOVE_ISO_PATH_TRACE_SCHEDULER_UNLOCK_RETURN_TEXT : string :=
  "SDC LE Remove ISO Data Path k_sched_unlock return".
Definition SDC_HCI_REMOVE_ISO_PATH_TRACE_SCHEDULER_UNLOCK_STATE_TEXT : string :=
  "SDC LE Remove ISO Data Path k_sched_unlock state".
Definition SDC_HCI_REMOVE_ISO_PATH_TRACE_SCHEDULER_UNLOCK_STATE_PREFIX : string :=
  "SDC LE Remove ISO Data Path k_sched_unlock state: busy=".
Definition SDC_HCI_REMOVE_ISO_PATH_TRACE_SCHEDULER_YIELD_ARM_TEXT : string :=
  "SDC LE Remove ISO Data Path post-unlock yield trace armed".
Definition SDC_HCI_REMOVE_ISO_PATH_TRACE_SCHEDULER_YIELD_ENTRY_TEXT : string :=
  "SDC LE Remove ISO Data Path post-unlock yield entry".
Definition SDC_HCI_REMOVE_ISO_PATH_TRACE_SCHEDULER_YIELD_RETURN_TEXT : string :=
  "SDC LE Remove ISO Data Path post-unlock yield return".
Definition SDC_HCI_REMOVE_ISO_PATH_TRACE_SCHEDULER_YIELD_STATE_TEXT : string :=
  "SDC LE Remove ISO Data Path post-unlock yield state".
Definition SDC_HCI_REMOVE_ISO_PATH_TRACE_SCHEDULER_YIELD_STATE_PREFIX : string :=
  "SDC LE Remove ISO Data Path post-unlock yield state: busy=".
Definition SDC_HCI_REMOVE_ISO_PATH_TRACE_MSG_GET_ENTRY_TEXT : string :=
  "SDC LE Remove ISO Data Path hci_internal_msg_get entry".
Definition SDC_HCI_REMOVE_ISO_PATH_TRACE_MSG_GET_RETURN_PREFIX : string :=
  "SDC LE Remove ISO Data Path hci_internal_msg_get return: status=".
Definition SDC_HCI_REMOVE_ISO_PATH_TRACE_COMPLETION_PREFIX : string :=
  "SDC LE Remove ISO Data Path completion: status=".
Definition SDC_HCI_REMOVE_ISO_PATH_TRACE_RECEIVE_DISPOSITION_ARM_TEXT : string :=
  "SDC LE Remove ISO Data Path receive disposition trace armed".
Definition SDC_HCI_REMOVE_ISO_PATH_TRACE_RECEIVE_DISPOSITION_ARM_PREFIX : string :=
  "SDC LE Remove ISO Data Path receive disposition trace armed: queue_is_mpsl=".
Definition SDC_HCI_REMOVE_ISO_PATH_TRACE_RECEIVE_DISPOSITION_FETCH_ENTRY_TEXT : string :=
  "SDC LE Remove ISO Data Path receive disposition fetch entry".
Definition SDC_HCI_REMOVE_ISO_PATH_TRACE_RECEIVE_DISPOSITION_FETCH_RETURN_PREFIX : string :=
  "SDC LE Remove ISO Data Path receive disposition fetch return: status=".
Definition SDC_HCI_REMOVE_ISO_PATH_TRACE_RECEIVE_DISPOSITION_ALLOCATION_PREFIX : string :=
  "SDC LE Remove ISO Data Path receive disposition allocation: ".
Definition SDC_HCI_REMOVE_ISO_PATH_TRACE_ISO_RX_LIFETIME_ARM_TEXT : string :=
  "SDC LE Remove ISO Data Path ISO RX lifetime trace armed".
Definition SDC_HCI_REMOVE_ISO_PATH_TRACE_ISO_RX_LIFETIME_ARM_PREFIX : string :=
  "SDC LE Remove ISO Data Path ISO RX lifetime trace armed: capacity=".
Definition SDC_HCI_REMOVE_ISO_PATH_TRACE_ISO_RX_LIFETIME_SNAPSHOT_TEXT : string :=
  "SDC LE Remove ISO Data Path ISO RX lifetime snapshot".
Definition SDC_HCI_REMOVE_ISO_PATH_TRACE_ISO_RX_LIFETIME_SNAPSHOT_PREFIX : string :=
  "SDC LE Remove ISO Data Path ISO RX lifetime snapshot: reason=".
Definition SDC_HCI_REMOVE_ISO_PATH_TRACE_ISO_RX_LIFETIME_DISPOSITION_SNAPSHOT_TEXT : string :=
  "SDC LE Remove ISO Data Path ISO RX lifetime disposition snapshot".
Definition SDC_HCI_REMOVE_ISO_PATH_TRACE_ISO_RX_LIFETIME_DISPOSITION_SNAPSHOT_PREFIX : string :=
  "SDC LE Remove ISO Data Path ISO RX lifetime disposition snapshot: reason=".
Definition SDC_HCI_REMOVE_ISO_PATH_TRACE_ISO_RX_LIFETIME_FIRST_FREE_TEXT : string :=
  "SDC LE Remove ISO Data Path ISO RX lifetime first free after unavailable".
Definition SDC_HCI_REMOVE_ISO_PATH_TRACE_ISO_RX_LIFETIME_FIRST_FREE_PREFIX : string :=
  "SDC LE Remove ISO Data Path ISO RX lifetime first free after unavailable: outstanding_before=".

(** What a line says about one marker: nothing, something malformed, or the
    fields of the marker. *)
Inductive state : Type := Unrelated | Malformed | Marker (f : fields).

(** The line without one shell prompt; [None] when there are two. *)
Definition _sdc_hci_marker_candidate (line : list ascii) : option (list ascii) :=
  match strip_prefix prompt line with
  | None => Some line
  | Some l => match strip_prefix prompt l with Some _ => None | None => Some l end
  end.
Definition _sdc_hci_marker_state (marker : string) (line : list ascii) : state :=
  if negb (has marker line) then Unrelated
  else match _sdc_hci_marker_candidate line with
       | None => Malformed
       | Some c => if has marker c && (count (chars marker) c =? 1)%nat && ends_with (chars marker) c then Marker [] else Malformed
       end.

(** A pattern found with its prefix once and up to the end of the line. *)
Definition match_to_end (r : re) (prefix : string) (c : list ascii) : option pos :=
  st ← search r c;
  if (count (chars prefix) c =? 1)%nat && bool_decide (rest st = []) then Some st else None.
Fixpoint alternatives (prefix : string) (alts : list (re * (pos -> result exn fields))) (c : list ascii) : result exn state :=
  match alts with
  | [] => Ok Malformed
  | (r, read) :: alts =>
      match match_to_end r prefix c with Some st => f ← read st; Ok (Marker f) | None => alternatives prefix alts c end
  end.
Definition pattern_state (marker prefix : string) (alts : list (re * (pos -> result exn fields))) (line : list ascii) : result exn state :=
  if negb (has marker line) then Ok Unrelated
  else match _sdc_hci_marker_candidate line with None => Ok Malformed | Some c => alternatives prefix alts c end.

(** *** Patterns *)

Definition hex_char (c : ascii) : bool := is_digit c || between 97 102 c || between 65 70 c.
Definition hex_lower (c : ascii) : bool := is_digit c || between 97 102 c.
Definition hex_digits (n : nat) : re := (Lit "0x" • Group n (Plus hex_char))%re.
Definition binary (n : nat) : re := Group n (Cls (fun c => Ascii.eqb c "0" || Ascii.eqb c "1")).
Definition state_char (c : ascii) : bool := is_alpha c || is_digit c || Ascii.eqb c "_" || Ascii.eqb c "+".
Definition mpsl_state (n : nat) : re := (Lit " mpsl_state=" • Group n (Plus state_char))%re.
Definition mpsl_prio (n : nat) : re := (Lit " mpsl_prio=" • Group n (Alt (Opt (Cls is_sign) • Plus is_digit) (Lit "unavailable")))%re.
Definition after (prefix : string) (r : re) : re := (Lit prefix • r • Eos)%re.

Definition RE_SDC_HCI_REMOVE_ISO_PATH_TRACE_RETURN : re :=
  after SDC_HCI_REMOVE_ISO_PATH_TRACE_RETURN_PREFIX (Lit "0x" • Group 1 (Cls hex_lower • Cls hex_lower)).
Definition RE_SDC_HCI_REMOVE_ISO_PATH_TRACE_CMD_PUT_RETURN : re := after SDC_HCI_REMOVE_ISO_PATH_TRACE_CMD_PUT_RETURN_PREFIX (signed 1).
Definition RE_SDC_HCI_REMOVE_ISO_PATH_TRACE_WORK_SUBMIT_RETURN : re := after SDC_HCI_REMOVE_ISO_PATH_TRACE_WORK_SUBMIT_RETURN_PREFIX (signed 1).
Definition RE_SDC_HCI_REMOVE_ISO_PATH_TRACE_SNAPSHOT_SCHEDULED : re := after SDC_HCI_REMOVE_ISO_PATH_TRACE_SNAPSHOT_SCHEDULED_PREFIX (signed 1).
Definition RE_SDC_HCI_REMOVE_ISO_PATH_TRACE_SNAPSHOT : re := after SDC_HCI_REMOVE_ISO_PATH_TRACE_SNAPSHOT_PREFIX (hex_digits 1 • mpsl_state 2).
Definition RE_SDC_HCI_REMOVE_ISO_PATH_TRACE_SCHEDULER_UNLOCK_ARM_EXTENDED : re :=
  after SDC_HCI_REMOVE_ISO_PATH_TRACE_SCHEDULER_UNLOCK_ARM_EXTENDED_PREFIX (binary 1).
Definition RE_SDC_HCI_REMOVE_ISO_PATH_TRACE_SCHEDULER_UNLOCK_STATE_LEGACY : re :=
  after SDC_HCI_REMOVE_ISO_PATH_TRACE_SCHEDULER_UNLOCK_STATE_PREFIX (hex_digits 1 • mpsl_state 2).
Definition RE_SDC_HCI_REMOVE_ISO_PATH_TRACE_SCHEDULER_UNLOCK_STATE_V9 : re :=
  after SDC_HCI_REMOVE_ISO_PATH_TRACE_SCHEDULER_UNLOCK_STATE_PREFIX
    (hex_digits 1 • mpsl_state 2 • Lit " resumed_current_is_sender=" • binary 3 • Lit " mpsl_switches_during_unlock=" • unsigned 4 •
     Lit " sender_prio=" • signed 5 • Lit " resumed_current_prio=" • signed 6 • mpsl_prio 7).
Definition RE_SDC_HCI_REMOVE_ISO_PATH_TRACE_SCHEDULER_UNLOCK_STATE_EXTENDED : re :=
  after SDC_HCI_REMOVE_ISO_PATH_TRACE_SCHEDULER_UNLOCK_STATE_PREFIX
    (hex_digits 1 • mpsl_state 2 • Lit " current_is_sender=" • binary 3 • Lit " mpsl_is_current=" • binary 4 •
     Lit " sender_prio=" • signed 5 • Lit " current_prio=" • signed 6 • mpsl_prio 7).
Definition RE_SDC_HCI_REMOVE_ISO_PATH_TRACE_SCHEDULER_YIELD_STATE : re :=
  after SDC_HCI_REMOVE_ISO_PATH_TRACE_SCHEDULER_YIELD_STATE_PREFIX
    (hex_digits 1 • mpsl_state 2 • Lit " resumed_current_is_sender=" • binary 3 • Lit " mpsl_switches_during_yield=" • unsigned 4).
Definition RE_SDC_HCI_REMOVE_ISO_PATH_TRACE_MSG_GET_RETURN : re := after SDC_HCI_REMOVE_ISO_PATH_TRACE_MSG_GET_RETURN_PREFIX (signed 1).
Definition RE_SDC_HCI_REMOVE_ISO_PATH_TRACE_COMPLETION : re :=
  after SDC_HCI_REMOVE_ISO_PATH_TRACE_COMPLETION_PREFIX (Lit "0x" • Group 1 (Cls hex_lower • Cls hex_lower)).
Definition RE_SDC_HCI_REMOVE_ISO_PATH_TRACE_RECEIVE_DISPOSITION_ARM : re :=
  after SDC_HCI_REMOVE_ISO_PATH_TRACE_RECEIVE_DISPOSITION_ARM_PREFIX (binary 1).
Definition RE_SDC_HCI_REMOVE_ISO_PATH_TRACE_RECEIVE_DISPOSITION_FETCH_RETURN : re :=
  after SDC_HCI_REMOVE_ISO_PATH_TRACE_RECEIVE_DISPOSITION_FETCH_RETURN_PREFIX
    (signed 1 • Lit " msg_type=" • Group 2 (Alt (Plus is_digit) (Lit "na"))).
Definition RE_SDC_HCI_REMOVE_ISO_PATH_TRACE_RECEIVE_DISPOSITION_EVT_ALLOCATION : re :=
  after SDC_HCI_REMOVE_ISO_PATH_TRACE_RECEIVE_DISPOSITION_ALLOCATION_PREFIX
    (Lit "kind=evt evt=0x" • Group 1 (Cls hex_char • Cls hex_char) • Lit " discardable=" • binary 2 • Lit " buffer_available=" • binary 3 •
     Lit " target_busy=" • hex_digits 4).
Definition RE_SDC_HCI_REMOVE_ISO_PATH_TRACE_RECEIVE_DISPOSITION_RX_ALLOCATION : re :=
  after SDC_HCI_REMOVE_ISO_PATH_TRACE_RECEIVE_DISPOSITION_ALLOCATION_PREFIX
    (Lit "kind=rx type=" • unsigned 1 • Lit " buffer_available=" • binary 2 • Lit " target_busy=" • hex_digits 3).
Definition RE_SDC_HCI_REMOVE_ISO_PATH_TRACE_ISO_RX_LIFETIME_ARM : re := after SDC_HCI_REMOVE_ISO_PATH_TRACE_ISO_RX_LIFETIME_ARM_PREFIX (unsigned 1).
(** [ name=(\d+)] for each name, numbered from [n]. *)
Fixpoint counters (n : nat) (names : list string) : re :=
  match names with [] => Eps | name :: names => (Lit " " • Lit name • Lit "=" • unsigned n • counters (S n) names)%re end.
Definition SNAPSHOT_FIELDS : list string :=
  ["capacity"; "outstanding"; "high_water"; "allocations"; "final_unrefs"; "callbacks_active"; "callbacks_total"]%string.
Definition RE_SDC_HCI_REMOVE_ISO_PATH_TRACE_ISO_RX_LIFETIME_SNAPSHOT : re :=
  after SDC_HCI_REMOVE_ISO_PATH_TRACE_ISO_RX_LIFETIME_SNAPSHOT_PREFIX
    (Group 1 (Alt (Lit "stream_start") (Alt (Lit "disable") (Lit "unavailable"))) • counters 2 SNAPSHOT_FIELDS).
Definition RE_SDC_HCI_REMOVE_ISO_PATH_TRACE_ISO_RX_LIFETIME_FIRST_FREE : re :=
  after SDC_HCI_REMOVE_ISO_PATH_TRACE_ISO_RX_LIFETIME_FIRST_FREE_PREFIX
    (unsigned 1 • counters 2 ["callbacks_active"; "allocations"; "final_unrefs"]%string).

(** The dispositions, and which of them each schema of the firmware prints. *)
Definition DISPOSITION_FIELDS : list string :=
  ["undispatched"; "host_dispatched"; "tx_notify_flush_entered"; "tx_notify_flush_semaphore_entered"; "tx_notify_flush_semaphore_pend_entered";
   "tx_notify_flush_semaphore_pend_thread_marked_pending"; "tx_notify_flush_semaphore_give_entered"; "tx_notify_flush_semaphore_pend_returned";
   "tx_notify_flush_semaphore_returned"; "tx_notify_flush_returned"; "host_returned"; "app_callback_seen"; "unclassified"]%string.
Definition schema18 : list string := List.filter (fun f => negb (py_in f
  ["tx_notify_flush_semaphore_pend_thread_marked_pending"; "tx_notify_flush_semaphore_give_entered"]%string)) DISPOSITION_FIELDS.
Definition schema17 : list string := List.filter (fun f => negb (py_in f
  ["tx_notify_flush_semaphore_pend_entered"; "tx_notify_flush_semaphore_pend_returned"]%string)) schema18.
Definition schema16 : list string := List.filter (fun f => negb (py_in f
  ["tx_notify_flush_semaphore_entered"; "tx_notify_flush_semaphore_returned"]%string)) schema17.
Definition schema15 : list string := ["undispatched"; "host_dispatched"; "host_returned"; "app_callback_seen"; "unclassified"]%string.
Definition schema14 : list string := ["undispatched"; "host_dispatched"; "app_callback_seen"; "unclassified"]%string.
Definition disposition (names : list string) : re :=
  after SDC_HCI_REMOVE_ISO_PATH_TRACE_ISO_RX_LIFETIME_DISPOSITION_SNAPSHOT_PREFIX
    (Group 1 (Alt (Lit "disable") (Lit "unavailable")) • counters 2 names).
Definition RE_SDC_HCI_REMOVE_ISO_PATH_TRACE_ISO_RX_LIFETIME_DISPOSITION_SNAPSHOT_SCHEMA19 : re := disposition DISPOSITION_FIELDS.
Definition RE_SDC_HCI_REMOVE_ISO_PATH_TRACE_ISO_RX_LIFETIME_DISPOSITION_SNAPSHOT_SCHEMA18 : re := disposition schema18.
Definition RE_SDC_HCI_REMOVE_ISO_PATH_TRACE_ISO_RX_LIFETIME_DISPOSITION_SNAPSHOT_SCHEMA17 : re := disposition schema17.
Definition RE_SDC_HCI_REMOVE_ISO_PATH_TRACE_ISO_RX_LIFETIME_DISPOSITION_SNAPSHOT : re := disposition schema16.
Definition RE_SDC_HCI_REMOVE_ISO_PATH_TRACE_ISO_RX_LIFETIME_DISPOSITION_SNAPSHOT_SCHEMA15 : re := disposition schema15.
Definition RE_SDC_HCI_REMOVE_ISO_PATH_TRACE_ISO_RX_LIFETIME_DISPOSITION_SNAPSHOT_SCHEMA14 : re := disposition schema14.
(** The groups of the names printed, [None] for the others. *)
Fixpoint disposition_fields (n : nat) (all_names names : list string) (st : pos) : result exn fields :=
  match all_names with
  | [] => Ok []
  | name :: all_names =>
      if py_in name names then f ← num name n st; r ← disposition_fields (S n) all_names names st; Ok (f ++ r)
      else r ← disposition_fields n all_names names st; Ok ((name, VNone) :: r)
  end.

(** *** The states of a line *)

Definition _sdc_hci_scheduler_unlock_arm_state (line : list ascii) : result exn state :=
  if negb (has SDC_HCI_REMOVE_ISO_PATH_TRACE_SCHEDULER_UNLOCK_ARM_TEXT line) then Ok Unrelated
  else match _sdc_hci_marker_candidate line with
       | None => Ok Malformed
       | Some c =>
           match match_to_end RE_SDC_HCI_REMOVE_ISO_PATH_TRACE_SCHEDULER_UNLOCK_ARM_EXTENDED
                   SDC_HCI_REMOVE_ISO_PATH_TRACE_SCHEDULER_UNLOCK_ARM_EXTENDED_PREFIX c with
           | Some st => f ← num "queue_is_mpsl" 1 st; Ok (Marker f)
           | None =>
               let marker := chars SDC_HCI_REMOVE_ISO_PATH_TRACE_SCHEDULER_UNLOCK_ARM_TEXT in
               Ok (if (count marker c =? 1)%nat && ends_with marker c then Marker [] else Malformed)
           end
       end.
Definition prio (key : string) (n : nat) (st : pos) : result exn fields :=
  if bool_decide (grp n st = chars "unavailable") then Ok [(key, VNone)] else num key n st.
Definition _sdc_hci_scheduler_unlock_state : list ascii -> result exn state :=
  pattern_state SDC_HCI_REMOVE_ISO_PATH_TRACE_SCHEDULER_UNLOCK_STATE_TEXT SDC_HCI_REMOVE_ISO_PATH_TRACE_SCHEDULER_UNLOCK_STATE_PREFIX
    [(RE_SDC_HCI_REMOVE_ISO_PATH_TRACE_SCHEDULER_UNLOCK_STATE_V9,
      all [hex "busy" 1; txt "mpsl_state" 2; bit "resumed_current_is_sender" 3; num "mpsl_switches_during_unlock" 4; num "sender_prio" 5;
           num "resumed_current_prio" 6; prio "mpsl_prio" 7]);
     (RE_SDC_HCI_REMOVE_ISO_PATH_TRACE_SCHEDULER_UNLOCK_STATE_EXTENDED,
      all [hex "busy" 1; txt "mpsl_state" 2; bit "current_is_sender" 3; bit "mpsl_is_current" 4; num "sender_prio" 5; num "current_prio" 6;
           prio "mpsl_prio" 7]);
     (RE_SDC_HCI_REMOVE_ISO_PATH_TRACE_SCHEDULER_UNLOCK_STATE_LEGACY, all [hex "busy" 1; txt "mpsl_state" 2])].
Definition _sdc_hci_scheduler_yield_state : list ascii -> result exn state :=
  pattern_state SDC_HCI_REMOVE_ISO_PATH_TRACE_SCHEDULER_YIELD_STATE_TEXT SDC_HCI_REMOVE_ISO_PATH_TRACE_SCHEDULER_YIELD_STATE_PREFIX
    [(RE_SDC_HCI_REMOVE_ISO_PATH_TRACE_SCHEDULER_YIELD_STATE,
      all [hex "busy" 1; txt "mpsl_state" 2; bit "resumed_current_is_sender" 3; num "mpsl_switches_during_yield" 4])].
Definition _sdc_hci_receive_disposition_arm_state : list ascii -> result exn state :=
  pattern_state SDC_HCI_REMOVE_ISO_PATH_TRACE_RECEIVE_DISPOSITION_ARM_TEXT SDC_HCI_REMOVE_ISO_PATH_TRACE_RECEIVE_DISPOSITION_ARM_PREFIX
    [(RE_SDC_HCI_REMOVE_ISO_PATH_TRACE_RECEIVE_DISPOSITION_ARM, num "queue_is_mpsl" 1)].
Definition _sdc_hci_receive_disposition_allocation_state : list ascii -> result exn state :=
  pattern_state SDC_HCI_REMOVE_ISO_PATH_TRACE_RECEIVE_DISPOSITION_ALLOCATION_PREFIX SDC_HCI_REMOVE_ISO_PATH_TRACE_RECEIVE_DISPOSITION_ALLOCATION_PREFIX
    [(RE_SDC_HCI_REMOVE_ISO_PATH_TRACE_RECEIVE_DISPOSITION_EVT_ALLOCATION,
      all [fun _ => Ok [("kind"%string, VText (chars "evt"))]; hex "evt" 1; bit "discardable" 2; bit "buffer_available" 3; hex "target_busy" 4]);
     (RE_SDC_HCI_REMOVE_ISO_PATH_TRACE_RECEIVE_DISPOSITION_RX_ALLOCATION,
      all [fun _ => Ok [("kind"%string, VText (chars "rx"))]; num "type" 1; bit "buffer_available" 2; hex "target_busy" 3])].
Definition _sdc_hci_iso_rx_lifetime_arm_state : list ascii -> result exn state :=
  pattern_state SDC_HCI_REMOVE_ISO_PATH_TRACE_ISO_RX_LIFETIME_ARM_TEXT SDC_HCI_REMOVE_ISO_PATH_TRACE_ISO_RX_LIFETIME_ARM_PREFIX
    [(RE_SDC_HCI_REMOVE_ISO_PATH_TRACE_ISO_RX_LIFETIME_ARM, num "capacity" 1)].
Definition _sdc_hci_iso_rx_lifetime_snapshot_state : list ascii -> result exn state :=
  pattern_state SDC_HCI_REMOVE_ISO_PATH_TRACE_ISO_RX_LIFETIME_SNAPSHOT_TEXT SDC_HCI_REMOVE_ISO_PATH_TRACE_ISO_RX_LIFETIME_SNAPSHOT_PREFIX
    [(RE_SDC_HCI_REMOVE_ISO_PATH_TRACE_ISO_RX_LIFETIME_SNAPSHOT,
      all [txt "reason" 1; num "capacity" 2; num "outstanding" 3; num "high_water" 4; num "allocations" 5; num "final_unrefs" 6;
           num "callbacks_active" 7; num "callbacks_total" 8])].
Definition _sdc_hci_iso_rx_lifetime_disposition_snapshot_state : list ascii -> result exn state :=
  let schema names := all [txt "reason" 1; disposition_fields 2 DISPOSITION_FIELDS names] in
  pattern_state SDC_HCI_REMOVE_ISO_PATH_TRACE_ISO_RX_LIFETIME_DISPOSITION_SNAPSHOT_TEXT
    SDC_HCI_REMOVE_ISO_PATH_TRACE_ISO_RX_LIFETIME_DISPOSITION_SNAPSHOT_PREFIX
    [(RE_SDC_HCI_REMOVE_ISO_PATH_TRACE_ISO_RX_LIFETIME_DISPOSITION_SNAPSHOT_SCHEMA19, schema DISPOSITION_FIELDS);
     (RE_SDC_HCI_REMOVE_ISO_PATH_TRACE_ISO_RX_LIFETIME_DISPOSITION_SNAPSHOT_SCHEMA18, schema schema18);
     (RE_SDC_HCI_REMOVE_ISO_PATH_TRACE_ISO_RX_LIFETIME_DISPOSITION_SNAPSHOT_SCHEMA17, schema schema17);
     (RE_SDC_HCI_REMOVE_ISO_PATH_TRACE_ISO_RX_LIFETIME_DISPOSITION_SNAPSHOT, schema schema16);
     (RE_SDC_HCI_REMOVE_ISO_PATH_TRACE_ISO_RX_LIFETIME_DISPOSITION_SNAPSHOT_SCHEMA15, schema schema15);
     (RE_SDC_HCI_REMOVE_ISO_PATH_TRACE_ISO_RX_LIFETIME_DISPOSITION_SNAPSHOT_SCHEMA14, schema schema14)].
Definition _sdc_hci_iso_rx_lifetime_first_free_state : list ascii -> result exn state :=
  pattern_state SDC_HCI_REMOVE_ISO_PATH_TRACE_ISO_RX_LIFETIME_FIRST_FREE_TEXT SDC_HCI_REMOVE_ISO_PATH_TRACE_ISO_RX_LIFETIME_FIRST_FREE_PREFIX
    [(RE_SDC_HCI_REMOVE_ISO_PATH_TRACE_ISO_RX_LIFETIME_FIRST_FREE,
      all [num "outstanding_before" 1; num "callbacks_active" 2; num "allocations" 3; num "final_unrefs" 4])].

(** *** The scan *)

Module Sdc.

Inductive kind : Type :=
| arm_markers | dropped_messages | cmd_put_entries | cmd_put_returns | sdc_entries | sdc_returns | lock_release_entries | lock_release_returns
| work_submit_entries | work_submit_returns | snapshot_schedule_markers | snapshot_markers | scheduler_unlock_arm_markers
| scheduler_unlock_entries | scheduler_unlock_returns | scheduler_unlock_state_markers | scheduler_yield_arm_markers | scheduler_yield_entries
| scheduler_yield_returns | scheduler_yield_state_markers | msg_get_entries | msg_get_returns | sdc_completions
| receive_disposition_arm_markers | receive_disposition_fetch_entries | receive_disposition_fetch_returns | receive_disposition_allocations
| iso_rx_lifetime_arm_markers | iso_rx_lifetime_snapshots | iso_rx_lifetime_disposition_snapshots | iso_rx_lifetime_first_free_after_unavailable.
#[export] Instance kind_eq_dec : EqDecision kind.
Proof. solve_decision. Defined.

(** The payload, [arm_seen] and the [post_arm_] counters. *)
Record scan : Type := mk_scan { pay : payload kind; arm_seen : bool; post_arm : kind -> Z }.
Definition on_pay (f : payload kind -> payload kind) (s : scan) : scan := mk_scan (f (pay s)) (arm_seen s) (post_arm s).
Definition class (s : scan) : classification := if arm_seen s then AfterArm else BeforeArm.

(** What a marker does after its record was filed: nothing, or after the arm
    the complaints of its order and status, then its counter. *)
Definition nothing (f : fields) (s : scan) : scan := s.
Definition late (k earlier : kind) (m : string) (s : scan) : list message := when (post_arm s earlier <=? post_arm s k) [say m].
Definition counted (k : kind) (complaints : fields -> scan -> list message) (f : fields) (s : scan) : scan :=
  if arm_seen s then
    mk_scan (invalid (complaints f s) (pay s)) true (fun k' => if decide (k' = k) then post_arm s k + 1 else post_arm s k')
  else s.
Definition status_of (f : fields) : Z := match dict_get "status"%string f with Some (VInt z) => z | _ => 0 end.
Definition nonzero (format : string) (f : fields) : list message := when (negb (status_of f =? 0)) [Msg format [I (status_of f)]].
Definition recorded (k : kind) (s : scan) : bool := match recs (pay s) k with [] => false | _ => true end.

Definition arm_done (f : fields) (s : scan) : scan := mk_scan (pay s) true (post_arm s).
Definition cmd_put_entry_done := counted cmd_put_entries (fun _ _ => []).
Definition entry_done := counted sdc_entries (fun _ => late sdc_entries cmd_put_entries "out-of-order post-arm SDC entry before cmd_put entry").
Definition return_done := counted sdc_returns (fun f s =>
  late sdc_returns sdc_entries "out-of-order post-arm SDC return before entry" s ++ nonzero "nonzero post-arm SDC return status: 0x%02x" f).
Definition cmd_put_return_done := counted cmd_put_returns (fun f s =>
  late cmd_put_returns cmd_put_entries "out-of-order post-arm cmd_put return before entry" s ++
  late cmd_put_returns sdc_returns "out-of-order post-arm cmd_put return before SDC return" s ++
  nonzero "nonzero post-arm cmd_put return status: %d" f).
Definition lock_release_entry_done := counted lock_release_entries (fun _ =>
  late lock_release_entries cmd_put_returns "out-of-order post-arm lock_release entry before cmd_put return").
Definition lock_release_return_done := counted lock_release_returns (fun _ =>
  late lock_release_returns lock_release_entries "out-of-order post-arm lock_release return before entry").
Definition work_submit_entry_done := counted work_submit_entries (fun _ =>
  late work_submit_entries lock_release_returns "out-of-order post-arm work_submit entry before lock_release return").
Definition work_submit_return_done := counted work_submit_returns (fun f s =>
  late work_submit_returns work_submit_entries "out-of-order post-arm work_submit return before entry" s ++
  when (negb (py_in (status_of f) [0; 1; 2])) [Msg "invalid post-arm k_work_submit_to_queue return status: %d" [I (status_of f)]]).
Definition unlock_arm_done (f : fields) (s : scan) : scan :=
  on_pay (invalid (when (arm_seen s && (post_arm s work_submit_returns =? 0)) [say "scheduler unlock arm marker before work_submit return"])) s.
Definition unlock_entry_done (f : fields) (s : scan) : scan :=
  on_pay (invalid (when (negb (recorded scheduler_unlock_arm_markers s)) [say "scheduler unlock entry before scheduler unlock arm"])) s.
Definition unlock_return_done (f : fields) (s : scan) : scan :=
  on_pay (invalid (when (negb (recorded scheduler_unlock_entries s)) [say "scheduler unlock return without scheduler unlock entry"])) s.
Definition msg_get_entry_done := counted msg_get_entries (fun _ =>
  late msg_get_entries work_submit_entries "out-of-order post-arm msg_get entry before work_submit entry").
Definition msg_get_return_done := counted msg_get_returns (fun _ =>
  late msg_get_returns msg_get_entries "out-of-order post-arm msg_get return before entry").
Definition completion_done := counted sdc_completions (fun f s =>
  late sdc_completions cmd_put_returns "out-of-order post-arm SDC completion before cmd_put return" s ++
  late sdc_completions sdc_returns "out-of-order post-arm SDC completion before return" s ++
  late sdc_completions msg_get_returns "out-of-order post-arm SDC completion before msg_get return" s ++
  nonzero "nonzero post-arm SDC completion status: 0x%02x" f).

(** A kind of marker: how a line is read for it, how its malformed line is
    reported, and what it does. *)
Record marker : Type := mk_marker { m_kind : kind; m_state : list ascii -> result exn state; m_malformed : string; m_done : fields -> scan -> scan }.
Definition exact (k : kind) (w malformed : string) (f : fields -> scan -> scan) : marker :=
  mk_marker k (fun line => Ok (_sdc_hci_marker_state w line)) malformed f.
(** A prefix that occurs in the line is its own marker text. *)
Definition pattern (k : kind) (prefix : string) (r : re) (read : pos -> result exn fields) (malformed : string) (f : fields -> scan -> scan) : marker :=
  mk_marker k (pattern_state prefix prefix [(r, read)]) malformed f.

Definition msg_type (st : pos) : result exn fields :=
  if bool_decide (grp 2 st = chars "na") then Ok [("msg_type"%string, VNone)] else num "msg_type" 2 st.
Definition snapshot_state (line : list ascii) : result exn state :=
  if has SDC_HCI_REMOVE_ISO_PATH_TRACE_SNAPSHOT_TEXT line && negb (has SDC_HCI_REMOVE_ISO_PATH_TRACE_SNAPSHOT_SCHEDULED_TEXT line)
  then pattern_state SDC_HCI_REMOVE_ISO_PATH_TRACE_SNAPSHOT_TEXT SDC_HCI_REMOVE_ISO_PATH_TRACE_SNAPSHOT_PREFIX
         [(RE_SDC_HCI_REMOVE_ISO_PATH_TRACE_SNAPSHOT, all [hex "busy" 1; txt "mpsl_state" 2])] line
  else Ok Unrelated.
(** A dropped-message record is read after one prompt, whatever follows. *)
Definition dropped_state (line : list ascii) : result exn state :=
  if has "messages dropped" line then
    match fullmatch RE_HCI_REMOVE_ISO_PATH_TRACE_DROPPED (default line (strip_prefix prompt line)) with
    | None => Ok Malformed
    | Some st => f ← num "count" 1 st; Ok (Marker f)
    end
  else Ok Unrelated.

(** The markers, in the order in which a line is read for them. *)
Definition lifetime_markers : list marker :=
  [ mk_marker iso_rx_lifetime_arm_markers _sdc_hci_iso_rx_lifetime_arm_state "malformed ISO RX lifetime arm marker: %s" nothing;
    mk_marker iso_rx_lifetime_snapshots _sdc_hci_iso_rx_lifetime_snapshot_state "malformed ISO RX lifetime snapshot marker: %s" nothing;
    mk_marker iso_rx_lifetime_disposition_snapshots _sdc_hci_iso_rx_lifetime_disposition_snapshot_state
      "malformed ISO RX lifetime disposition snapshot marker: %s" nothing;
    mk_marker iso_rx_lifetime_first_free_after_unavailable _sdc_hci_iso_rx_lifetime_first_free_state
      "malformed ISO RX lifetime first-free marker: %s" nothing ].
Definition arm_receive_markers : list marker :=
  [ exact arm_markers SDC_HCI_REMOVE_ISO_PATH_TRACE_ARM_TEXT "malformed arm marker: %s" arm_done;
    mk_marker receive_disposition_arm_markers _sdc_hci_receive_disposition_arm_state "malformed receive disposition arm marker: %s" nothing;
    exact receive_disposition_fetch_entries SDC_HCI_REMOVE_ISO_PATH_TRACE_RECEIVE_DISPOSITION_FETCH_ENTRY_TEXT
      "malformed receive disposition fetch entry marker: %s" nothing;
    pattern receive_disposition_fetch_returns SDC_HCI_REMOVE_ISO_PATH_TRACE_RECEIVE_DISPOSITION_FETCH_RETURN_PREFIX
      RE_SDC_HCI_REMOVE_ISO_PATH_TRACE_RECEIVE_DISPOSITION_FETCH_RETURN (all [num "status" 1; msg_type])
      "malformed receive disposition fetch return marker: %s" nothing;
    mk_marker receive_disposition_allocations _sdc_hci_receive_disposition_allocation_state "malformed receive disposition allocation marker: %s" nothing ].
Definition put_markers : list marker :=
  [ exact cmd_put_entries SDC_HCI_REMOVE_ISO_PATH_TRACE_CMD_PUT_ENTRY_TEXT "malformed cmd_put entry marker: %s" cmd_put_entry_done;
    exact sdc_entries SDC_HCI_REMOVE_ISO_PATH_TRACE_ENTRY_TEXT "malformed entry marker: %s" entry_done;
    pattern sdc_returns SDC_HCI_REMOVE_ISO_PATH_TRACE_RETURN_PREFIX RE_SDC_HCI_REMOVE_ISO_PATH_TRACE_RETURN (hex "status" 1)
      "malformed return marker: %s" return_done;
    pattern cmd_put_returns SDC_HCI_REMOVE_ISO_PATH_TRACE_CMD_PUT_RETURN_PREFIX RE_SDC_HCI_REMOVE_ISO_PATH_TRACE_CMD_PUT_RETURN (num "status" 1)
      "malformed cmd_put return marker: %s" cmd_put_return_done ].
Definition release_markers : list marker :=
  [ exact lock_release_entries SDC_HCI_REMOVE_ISO_PATH_TRACE_LOCK_RELEASE_ENTRY_TEXT "malformed lock_release entry marker: %s" lock_release_entry_done;
    exact lock_release_returns SDC_HCI_REMOVE_ISO_PATH_TRACE_LOCK_RELEASE_RETURN_TEXT "malformed lock_release return marker: %s" lock_release_return_done;
    exact work_submit_entries SDC_HCI_REMOVE_ISO_PATH_TRACE_WORK_SUBMIT_ENTRY_TEXT "malformed work_submit entry marker: %s" work_submit_entry_done;
    pattern work_submit_returns SDC_HCI_REMOVE_ISO_PATH_TRACE_WORK_SUBMIT_RETURN_PREFIX RE_SDC_HCI_REMOVE_ISO_PATH_TRACE_WORK_SUBMIT_RETURN
      (num "status" 1) "malformed work_submit return marker: %s" work_submit_return_done ].
Definition unlock_markers : list marker :=
  [ mk_marker snapshot_schedule_markers
      (pattern_state SDC_HCI_REMOVE_ISO_PATH_TRACE_SNAPSHOT_SCHEDULED_TEXT SDC_HCI_REMOVE_ISO_PATH_TRACE_SNAPSHOT_SCHEDULED_PREFIX
         [(RE_SDC_HCI_REMOVE_ISO_PATH_TRACE_SNAPSHOT_SCHEDULED, num "status" 1)]) "malformed work state snapshot schedule marker: %s" nothing;
    mk_marker snapshot_markers snapshot_state "malformed work state snapshot marker: %s" nothing;
    mk_marker scheduler_unlock_arm_markers _sdc_hci_scheduler_unlock_arm_state "malformed scheduler unlock arm marker: %s" unlock_arm_done;
    mk_marker scheduler_unlock_state_markers _sdc_hci_scheduler_unlock_state "malformed scheduler unlock state marker: %s" nothing;
    exact scheduler_unlock_entries SDC_HCI_REMOVE_ISO_PATH_TRACE_SCHEDULER_UNLOCK_ENTRY_TEXT "malformed scheduler unlock entry marker: %s" unlock_entry_done;
    exact scheduler_unlock_returns SDC_HCI_REMOVE_ISO_PATH_TRACE_SCHEDULER_UNLOCK_RETURN_TEXT "malformed scheduler unlock return marker: %s"
      unlock_return_done ].
Definition yield_markers : list marker :=
  [ exact scheduler_yield_arm_markers SDC_HCI_REMOVE_ISO_PATH_TRACE_SCHEDULER_YIELD_ARM_TEXT "malformed scheduler yield arm marker: %s" nothing;
    mk_marker scheduler_yield_state_markers _sdc_hci_scheduler_yield_state "malformed scheduler yield state marker: %s" nothing;
    exact scheduler_yield_entries SDC_HCI_REMOVE_ISO_PATH_TRACE_SCHEDULER_YIELD_ENTRY_TEXT "malformed scheduler yield entry marker: %s" nothing;
    exact scheduler_yield_returns SDC_HCI_REMOVE_ISO_PATH_TRACE_SCHEDULER_YIELD_RETURN_TEXT "malformed scheduler yield return marker: %s" nothing ].
Definition fetch_markers : list marker :=
  [ exact msg_get_entries SDC_HCI_REMOVE_ISO_PATH_TRACE_MSG_GET_ENTRY_TEXT "malformed msg_get entry marker: %s" msg_get_entry_done;
    pattern msg_get_returns SDC_HCI_REMOVE_ISO_PATH_TRACE_MSG_GET_RETURN_PREFIX RE_SDC_HCI_REMOVE_ISO_PATH_TRACE_MSG_GET_RETURN (num "status" 1)
      "malformed msg_get return marker: %s" msg_get_return_done;
    pattern sdc_completions SDC_HCI_REMOVE_ISO_PATH_TRACE_COMPLETION_PREFIX RE_SDC_HCI_REMOVE_ISO_PATH_TRACE_COMPLETION (hex "status" 1)
      "malformed completion marker: %s" completion_done;
    mk_marker dropped_messages dropped_state "malformed dropped-message record: %s" nothing ].
Definition markers : list marker :=
  lifetime_markers ++ arm_receive_markers ++ put_markers ++ release_markers ++ unlock_markers ++ yield_markers ++ fetch_markers.

(** One marker of a line; the classification is that of the line's start. *)
Definition visit (l : raw_line) (c : classification) (m : marker) (s : scan) : result exn scan :=
  st ← m_state m (line_of l);
  match st with
  | Unrelated => Ok s
  | Malformed => Ok (on_pay (unparsed (Msg (m_malformed m) [T (line_of l)])) s)
  | Marker f => Ok (m_done m f (on_pay (file (m_kind m) (mk_rec (start_offset l) (end_offset l) (line_of l) (Some c) f)) s))
  end.
Fixpoint visit_all (l : raw_line) (c : classification) (ms : list marker) (s : scan) : result exn scan :=
  match ms with [] => Ok s | m :: ms => s ← visit l c m s; visit_all l c ms s end.
Fixpoint scan_lines (ls : list raw_line) (s : scan) : result exn scan :=
  match ls with [] => Ok s | l :: ls => s ← visit_all l (class s) markers s; scan_lines ls s end.

(** *** The validation

    What each part appends, in the source's order. *)

Section validation.
Context (p : payload kind).

Definition nonempty (k : kind) : bool := match recs p k with [] => false | _ => true end.
(** The records after the arm, and how many. *)
Definition post (k : kind) : list rec := List.filter after_arm (recs p k).
Definition n (k : kind) : Z := len (post k).
Definition duplicate (k : kind) (m : string) : list message := when (1 <? len (recs p k)) [say m].
Definition each_before (k : kind) (m : message) : list message := flat_map (fun r => when (before_arm r) [m]) (recs p k).

Definition arm_errors : list message :=
  let arm_count := len (recs p arm_markers) in
  if arm_count =? 0 then [say "missing arm marker"]
  else when (1 <? arm_count) [say "duplicate arm marker"; Msg "duplicate arm marker: found %d" [I arm_count]].
Definition dropped_errors : list message :=
  flat_map (fun r => when (after_arm r) [Msg "dropped messages after arm: %d" [I (int "count" r)]]) (recs p dropped_messages).

(** **** The receive disposition *)

Inductive outcome : Type := fetch_error | retained_iso_buffer_unavailable | fetched_buffer_unavailable.
Inductive allocation_kind : Type := RxBuffer (type : Z) | EventBuffer.
Definition _sdc_hci_receive_disposition_expected_allocation (msg_type : option Z) : option allocation_kind :=
  match msg_type with Some 2 => Some (RxBuffer 8) | Some 4 => Some EventBuffer | Some 8 => Some (RxBuffer 32) | _ => None end.
Definition is_kind (kind : string) (r : rec) : bool := bool_decide (text "kind" r = chars kind).
Definition _sdc_hci_receive_disposition_allocation_matches (msg_type : option Z) (allocation : rec) : bool :=
  match _sdc_hci_receive_disposition_expected_allocation msg_type with
  | None => false
  | Some EventBuffer => is_kind "evt" allocation
  | Some (RxBuffer t) => is_kind "rx" allocation && bool_decide (opt_int "type" allocation = Some t)
  end.

Definition receive_arm_offset : option Z := r_start <$> head (post receive_disposition_arm_markers).
Definition scoped (k : kind) : list rec :=
  List.filter (fun r => match receive_arm_offset with Some a => a <? r_start r | None => false end) (post k).
Definition fetch_entries : list rec := scoped receive_disposition_fetch_entries.
Definition fetch_returns : list rec := scoped receive_disposition_fetch_returns.
Definition allocations : list rec := scoped receive_disposition_allocations.
Definition fetch_return : option rec := match fetch_returns with [r] => Some r | _ => None end.
Definition running (r : rec) : bool := negb (Z.land (int "target_busy" r) 1 =? 0).

Definition RECEIVE_KINDS : list (kind * string) :=
  [(receive_disposition_fetch_entries, "receive disposition fetch entry"); (receive_disposition_fetch_returns, "receive disposition fetch return");
   (receive_disposition_allocations, "receive disposition allocation")]%string.

(** Up to the checks of what was fetched. *)
Definition receive_marker_errors : list message :=
  when (1 <? len (recs p receive_disposition_arm_markers)) [say "duplicate receive disposition arm marker"] ++
  flat_map (fun r =>
    when (before_arm r) [say "receive disposition arm marker before trace arm"] ++
    when (negb (int "queue_is_mpsl" r =? 1)) [Msg "receive disposition arm queue_is_mpsl must be 1, found %d" [I (int "queue_is_mpsl" r)]])
    (recs p receive_disposition_arm_markers) ++
  flat_map (fun '(k, label) =>
    when (1 <? len (recs p k)) [Msg "duplicate %s marker" [T (chars label)]] ++
    each_before k (Msg "%s marker before trace arm" [T (chars label)])) RECEIVE_KINDS ++
  match receive_arm_offset with
  | Some a => flat_map (fun '(k, label) =>
      flat_map (fun r => when (r_start r <=? a) [Msg "%s marker before receive disposition arm" [T (chars label)]]) (post k)) RECEIVE_KINDS
  | None => []
  end ++
  when (negb (len fetch_entries =? len fetch_returns))
    [Msg "receive disposition fetch entry/return count mismatch: entries=%d returns=%d" [I (len fetch_entries); I (len fetch_returns)]] ++
  when (negb (len fetch_entries =? 0) && negb (len fetch_entries =? 1))
    [Msg "expected exactly one post-arm receive disposition fetch entry, found %d" [I (len fetch_entries)]] ++
  when (negb (len fetch_returns =? 0) && negb (len fetch_returns =? 1))
    [Msg "expected exactly one post-arm receive disposition fetch return, found %d" [I (len fetch_returns)]] ++
  match fetch_return, fetch_entries with
  | Some r, [e] => when (r_start r <=? r_start e) [say "out-of-order receive disposition fetch return before entry"]
  | _, _ => []
  end.

(** A fetch that failed; a success of no or an unknown type. *)
Definition fetch_failed : bool :=
  match fetch_return with
  | Some r => negb (int "status" r =? 0) && (len allocations =? 0) && (n sdc_completions =? 0)
  | None => false
  end.
Definition fetch_errors : list message :=
  match fetch_return with
  | None => []
  | Some r =>
      if negb (int "status" r =? 0) then
        if negb (len allocations =? 0) then [say "fetch-error receive disposition must not have allocation"]
        else when (negb (n sdc_completions =? 0)) [say "fetch-error receive disposition must not have completion"]
      else match opt_int "msg_type" r with
           | None => [say "successful receive disposition fetch missing msg_type"]
           | Some t =>
               match _sdc_hci_receive_disposition_expected_allocation (Some t) with
               | None => [Msg "unknown successful receive disposition msg_type: %d" [I t]]
               | Some _ => []
               end
           end
  end.
Definition fetched : bool := match fetch_return with Some r => int "status" r =? 0 | None => false end.
Definition allocation_errors : list message :=
  when (match fetch_return with None => true | Some r => int "status" r =? 0 end && negb (len allocations =? 1))
    [Msg "expected exactly one post-arm receive disposition allocation, found %d" [I (len allocations)]] ++
  flat_map (fun r => when (negb (running r)) [say "receive disposition allocation target_busy lacks K_WORK_RUNNING"]) allocations.
(** %d of a fetch without a message type raises. *)
Definition fetched_errors : result exn (list message) :=
  match fetch_return, allocations with
  | Some r, a :: _ =>
      if negb (int "status" r =? 0) then Ok []
      else if r_start a <=? r_start r then Ok [say "out-of-order receive disposition allocation before fetch return"]
      else if _sdc_hci_receive_disposition_allocation_matches (opt_int "msg_type" r) a then Ok []
      else match opt_int "msg_type" r with
           | None => Err TypeError
           | Some t => Ok [Msg "receive disposition fetch/allocation type mismatch: msg_type=%d kind=%s" [I t; T (text "kind" a)]]
           end
  | _, _ => Ok []
  end.

Definition retained_candidate : bool :=
  match fetch_entries, fetch_returns, allocations with
  | [], [], [a] => is_kind "rx" a && (int "type" a =? 32) && negb (flag "buffer_available" a) && running a
  | _, _, _ => false
  end.
Definition retained : bool :=
  retained_candidate && (n msg_get_entries =? 0) && (n msg_get_returns =? 0) && (n sdc_completions =? 0).
Definition retained_errors : list message :=
  when (retained_candidate && negb retained)
    (when (negb (n msg_get_entries =? 0) || negb (n msg_get_returns =? 0)) [say "retained ISO buffer unavailable must not have hci_internal_msg_get"] ++
     when (negb (n sdc_completions =? 0)) [say "retained ISO buffer unavailable must not have completion"]).

Definition fetched_unavailable : bool :=
  match fetch_return, allocations with
  | Some r, [a] =>
      (int "status" r =? 0) && bool_decide (is_Some (_sdc_hci_receive_disposition_expected_allocation (opt_int "msg_type" r))) &&
      negb (flag "buffer_available" a) && running a && _sdc_hci_receive_disposition_allocation_matches (opt_int "msg_type" r) a
  | _, _ => false
  end.
Definition fetched_unavailable_errors : list message :=
  when fetched_unavailable
    (match post sdc_completions, fetch_returns, allocations with
     | [c], r :: _, a :: _ =>
         when (r_start c <=? r_start r) [say "fetched buffer unavailable completion must follow scoped receive fetch return"] ++
         when (r_start a <=? r_start c) [say "fetched buffer unavailable completion must precede scoped allocation"]
     | [], _, _ => []
     | _, _, _ => when (1 <? n sdc_completions) [say "fetched buffer unavailable allows at most one completion marker"]
     end).

Record verdict : Type := mk_verdict { d_errors : list message; d_outcome : option outcome; suppress_msg_get : bool; suppress_completion : bool }.
Definition receive_disposition : result exn verdict :=
  if len (recs p receive_disposition_arm_markers) =? 0 then
    Ok (mk_verdict
      (when (nonempty receive_disposition_fetch_entries || nonempty receive_disposition_fetch_returns || nonempty receive_disposition_allocations)
         [say "receive disposition record without receive disposition arm marker"]) None false false)
  else
    mismatch ← fetched_errors;
    Ok (mk_verdict
      (receive_marker_errors ++ fetch_errors ++ allocation_errors ++ mismatch ++ retained_errors ++ fetched_unavailable_errors)
      (if fetched_unavailable then Some fetched_buffer_unavailable
       else if retained then Some retained_iso_buffer_unavailable else if fetch_failed then Some fetch_error else None)
      retained (fetch_failed || retained || fetched_unavailable)).

(** **** The lifetime of the ISO receive buffers *)

Definition reason_is (reason : string) (r : rec) : bool := bool_decide (text "reason" r = chars reason).
Definition same_reason (r r' : rec) : bool := bool_decide (text "reason" r = text "reason" r').
Definition snapshots : list rec := recs p iso_rx_lifetime_snapshots.
Definition dispositions : list rec := recs p iso_rx_lifetime_disposition_snapshots.
Definition first_frees : list rec := recs p iso_rx_lifetime_first_free_after_unavailable.
Definition LIFETIME_PREFIX : string := "ISO RX lifetime ".

Definition snapshot_errors (arm : rec) : list message :=
  let capacity := int "capacity" arm in
  flat_map (fun r =>
    when (r_start r <=? r_start arm) [say "ISO RX lifetime snapshot marker before lifetime arm"] ++
    when ((int "capacity" r <=? 0) || negb (int "capacity" r =? capacity)) [say "ISO RX lifetime snapshot capacity does not match arm capacity"] ++
    when (capacity <? int "outstanding" r) [say "ISO RX lifetime snapshot outstanding exceeds arm capacity"] ++
    when (capacity <? int "high_water" r) [say "ISO RX lifetime snapshot high_water exceeds arm capacity"]) snapshots.
(** The counts a disposition snapshot gives; the others are [None]. *)
Definition counts (r : rec) : list (string * Z) := omap (fun key => z ← opt_int key r; Some (key, z)) DISPOSITION_FIELDS.
Definition disposition_errors (arm : rec) : list message :=
  let capacity := int "capacity" arm in
  flat_map (fun r =>
    when (r_start r <=? r_start arm) [say "ISO RX lifetime disposition snapshot marker before lifetime arm"] ++
    when (negb (reason_is "disable" r || reason_is "unavailable" r)) [Msg "ISO RX lifetime disposition snapshot has invalid reason=%s" [T (text "reason" r)]] ++
    flat_map (fun '(key, z) => when (capacity <? z) [Msg "ISO RX lifetime disposition %s exceeds arm capacity: %d" [T (chars key); I z]]) (counts r) ++
    when (capacity <? foldr Z.add 0 (counts r).*2) [say "ISO RX lifetime disposition count sum exceeds arm capacity"] ++
    match List.filter (same_reason r) snapshots with
    | [] => [Msg "ISO RX lifetime disposition snapshot reason=%s without matching lifetime snapshot" [T (text "reason" r)]]
    | matching => when (negb (existsb (fun s => r_start s <? r_start r) matching))
        [Msg "ISO RX lifetime disposition snapshot reason=%s must follow matching lifetime snapshot" [T (text "reason" r)]]
    end) dispositions.
Definition reasons (l : list rec) (reason : string) : Z := len (List.filter (reason_is reason) l).
Definition reason_errors : list message :=
  flat_map (fun reason => when (1 <? reasons dispositions reason) [Msg "duplicate ISO RX lifetime disposition snapshot reason=%s" [T (chars reason)]])
    ["disable"; "unavailable"]%string ++
  flat_map (fun reason => when (1 <? reasons snapshots reason) [Msg "duplicate ISO RX lifetime snapshot reason=%s" [T (chars reason)]])
    ["stream_start"; "disable"; "unavailable"]%string.
Definition first_free_errors (arm : rec) : list message :=
  let capacity := int "capacity" arm in
  flat_map (fun r =>
    when (r_start r <=? r_start arm) [say "ISO RX lifetime first-free marker before lifetime arm"] ++
    (if int "outstanding_before" r =? 0 then [say "ISO RX lifetime first-free outstanding_before must be nonzero"]
     else when (capacity <? int "outstanding_before" r) [say "ISO RX lifetime first-free outstanding_before exceeds arm capacity"])) first_frees ++
  duplicate iso_rx_lifetime_first_free_after_unavailable "duplicate ISO RX lifetime first-free marker" ++
  when (1 <? reasons snapshots "unavailable") [say "duplicate ISO RX lifetime unavailable snapshot"] ++
  match first_frees, List.filter (reason_is "unavailable") snapshots with
  | [], _ => []
  | _, [] => [say "ISO RX lifetime first-free marker without unavailable snapshot"]
  | f :: _, u :: _ => when (r_start f <=? r_start u) [say "ISO RX lifetime first-free marker before unavailable snapshot"]
  end ++
  when (1 <? reasons snapshots "disable") [say "duplicate ISO RX lifetime disable snapshot"].
Definition lifetime_errors : list message :=
  match recs p iso_rx_lifetime_arm_markers with
  | [] =>
      when (nonempty iso_rx_lifetime_snapshots || nonempty iso_rx_lifetime_first_free_after_unavailable)
        [say "ISO RX lifetime record without lifetime arm marker"] ++
      when (nonempty iso_rx_lifetime_disposition_snapshots) [say "ISO RX lifetime disposition record without lifetime arm marker"]
  | arm :: others =>
      when (1 <? len (arm :: others))
        [say "duplicate ISO RX lifetime arm marker"; Msg "duplicate ISO RX lifetime arm marker: found %d" [I (len (arm :: others))]] ++
      when (int "capacity" arm <=? 0) [say "ISO RX lifetime arm capacity must be positive"] ++
      snapshot_errors arm ++ disposition_errors arm ++ reason_errors ++ first_free_errors arm
  end.

(** **** Order *)

Definition require_trace_precedes (before : string * list rec) (after : string * list rec) : list message :=
  match before.2, after.2 with
  | b :: bs, a :: as_ =>
      when (foldr Z.min (r_start a) (r_start <$> as_) <=? foldr Z.max (r_start b) (r_start <$> bs))
        [Msg "out-of-order post-arm trace event: expected %s before %s" [T (chars before.1); T (chars after.1)]]
  | _, _ => []
  end.
(** What a kind is called in the messages about order. *)
Definition event_name (k : kind) : string :=
  match k with
  | cmd_put_entries => "cmd_put entry" | sdc_entries => "SDC entry" | sdc_returns => "SDC return" | cmd_put_returns => "cmd_put return"
  | lock_release_entries => "lock_release entry" | lock_release_returns => "lock_release return" | work_submit_entries => "work_submit entry"
  | work_submit_returns => "work_submit return" | snapshot_schedule_markers => "work state snapshot schedule" | snapshot_markers => "work state snapshot"
  | scheduler_unlock_arm_markers => "scheduler unlock arm" | scheduler_unlock_entries => "scheduler unlock entry"
  | scheduler_unlock_state_markers => "scheduler unlock state" | scheduler_unlock_returns => "scheduler unlock return"
  | scheduler_yield_arm_markers => "post-unlock yield arm" | scheduler_yield_entries => "post-unlock yield entry"
  | scheduler_yield_state_markers => "post-unlock yield state" | scheduler_yield_returns => "post-unlock yield return"
  | msg_get_entries => "msg_get entry" | msg_get_returns => "msg_get return" | sdc_completions => "completion" | _ => EmptyString
  end%string.
Definition PRECEDENCE : list (kind * kind) :=
  [(cmd_put_entries, sdc_entries); (sdc_entries, sdc_returns); (sdc_returns, cmd_put_returns); (cmd_put_returns, lock_release_entries);
   (lock_release_entries, lock_release_returns); (lock_release_returns, work_submit_entries); (work_submit_entries, work_submit_returns);
   (work_submit_returns, snapshot_schedule_markers); (work_submit_returns, scheduler_unlock_arm_markers);
   (scheduler_unlock_arm_markers, scheduler_unlock_entries); (scheduler_unlock_entries, scheduler_unlock_returns);
   (scheduler_unlock_entries, scheduler_unlock_state_markers); (scheduler_unlock_state_markers, scheduler_unlock_returns);
   (scheduler_unlock_returns, scheduler_yield_arm_markers); (scheduler_yield_arm_markers, scheduler_yield_entries);
   (scheduler_yield_entries, scheduler_yield_state_markers); (scheduler_yield_state_markers, scheduler_yield_returns);
   (snapshot_schedule_markers, snapshot_markers); (work_submit_entries, msg_get_entries); (msg_get_entries, msg_get_returns);
   (msg_get_returns, sdc_completions)].
Definition order_errors : list message :=
  flat_map (fun '(a, b) => require_trace_precedes (event_name a, post a) (event_name b, post b)) PRECEDENCE.

(** **** Counts *)

(** A count that differs from the one it should equal: the mismatch, and what
    is then missing or unexpected. *)
Definition mismatch (a b : kind) (format : string) : list message := when (negb (n a =? n b)) [Msg format [I (n a); I (n b)]].
Definition gap (entries returns : kind) (name : string) (numbered : bool) : list message :=
  when (negb (n entries =? n returns))
    (if n returns <? n entries then
       [Msg "missing post-arm %s return" [T (chars name)]] ++
       when numbered [Msg "missing post-arm %s return: expected %d, found %d" [T (chars name); I (n entries); I (n returns)]]
     else if numbered then [Msg "unexpected post-arm %s return: expected %d, found %d" [T (chars name); I (n entries); I (n returns)]]
     else [Msg "unexpected post-arm %s return" [T (chars name)]]).
Definition missing (k : kind) (name : string) : list message := when (n k =? 0) [Msg "missing post-arm %s marker" [T (chars name)]].

Definition chain_errors : list message :=
  missing cmd_put_entries "cmd_put entry" ++
  mismatch cmd_put_entries sdc_entries "post-arm cmd_put entry/SDC entry count mismatch: cmd_put_entries=%d SDC_entries=%d" ++
  mismatch cmd_put_entries cmd_put_returns "post-arm cmd_put entry/return count mismatch: entries=%d returns=%d" ++
  gap cmd_put_entries cmd_put_returns "cmd_put" true ++
  missing lock_release_entries "lock_release entry" ++
  mismatch cmd_put_returns lock_release_entries "post-arm cmd_put return/lock_release entry count mismatch: returns=%d entries=%d" ++
  mismatch lock_release_entries lock_release_returns "post-arm lock_release entry/return count mismatch: entries=%d returns=%d" ++
  gap lock_release_entries lock_release_returns "lock_release" false ++
  missing work_submit_entries "work_submit entry" ++
  mismatch lock_release_returns work_submit_entries "post-arm lock_release return/work_submit entry count mismatch: returns=%d entries=%d" ++
  mismatch work_submit_entries work_submit_returns "post-arm work_submit entry/return count mismatch: entries=%d returns=%d" ++
  gap work_submit_entries work_submit_returns "work_submit" false.

Definition schedule_failed (r : rec) : bool := int "status" r <? 0.
Definition work_snapshot_errors : list message :=
  duplicate snapshot_schedule_markers "duplicate work state snapshot schedule marker" ++
  duplicate snapshot_markers "duplicate work state snapshot marker" ++
  each_before snapshot_schedule_markers (say "work state snapshot schedule marker before arm") ++
  each_before snapshot_markers (say "work state snapshot marker before arm") ++
  when (negb (n snapshot_schedule_markers =? 0))
    (when (n work_submit_returns =? 0) [say "work state snapshot schedule marker without post-arm work_submit return"] ++
     flat_map (fun r => when (schedule_failed r)
       [Msg "negative post-arm work state snapshot schedule status: %d" [I (int "status" r)];
        say "work state snapshot unavailable after scheduling failure"]) (post snapshot_schedule_markers) ++
     when (forallb (fun r => negb (schedule_failed r)) (post snapshot_schedule_markers) && (n snapshot_markers =? 0))
       [say "missing post-arm work state snapshot marker after successful scheduling"]) ++
  when (negb (n snapshot_markers =? 0) && (n snapshot_schedule_markers =? 0)) [say "work state snapshot marker without post-arm schedule marker"] ++
  when (negb (n snapshot_markers =? 0) && existsb schedule_failed (post snapshot_schedule_markers))
    [say "unexpected post-arm work state snapshot after scheduling failure"].

(** **** The scheduler *)

(** Only the extended arm marker says which queue it is. *)
Definition extended_arms : list rec :=
  List.filter (fun r => bool_decide (is_Some (dict_get "queue_is_mpsl"%string (r_fields r)))) (recs p scheduler_unlock_arm_markers).
Definition unlock_state_errors : list message :=
  match extended_arms with
  | [] => []
  | extended_arm :: _ =>
      flat_map (fun r => when (r_start r <=? r_start extended_arm) [say "scheduler unlock state marker before scheduler unlock arm"])
        (recs p scheduler_unlock_state_markers) ++
      match post scheduler_unlock_returns, post scheduler_unlock_state_markers with
      | [], _ => []
      | _, [] => [say "missing post-arm scheduler unlock state marker"]
      | r :: _, [st] =>
          match post scheduler_unlock_entries with
          | e :: _ => when (r_start st <=? r_start e) [say "out-of-order scheduler unlock state marker before entry"]
          | [] => []
          end ++
          when (r_start r <=? r_start st) [say "out-of-order scheduler unlock state marker after return"]
      | _, _ => []
      end
  end.
Definition unlock_errors : list message :=
  duplicate scheduler_unlock_arm_markers "duplicate scheduler unlock arm marker" ++
  duplicate scheduler_unlock_entries "duplicate scheduler unlock entry marker" ++
  duplicate scheduler_unlock_returns "duplicate scheduler unlock return marker" ++
  duplicate scheduler_unlock_state_markers "duplicate scheduler unlock state marker" ++
  each_before scheduler_unlock_arm_markers (say "scheduler unlock arm marker before trace arm") ++
  each_before scheduler_unlock_entries (say "scheduler unlock entry marker before trace arm") ++
  each_before scheduler_unlock_returns (say "scheduler unlock return marker before trace arm") ++
  each_before scheduler_unlock_state_markers (say "scheduler unlock state marker before trace arm") ++
  when (nonempty scheduler_unlock_state_markers && match extended_arms with [] => true | _ => false end)
    [say "scheduler unlock state marker without extended scheduler unlock arm"] ++
  flat_map (fun r => when (negb (int "queue_is_mpsl" r =? 1)) [Msg "scheduler unlock arm queue_is_mpsl must be 1, found %d" [I (int "queue_is_mpsl" r)]])
    extended_arms ++
  unlock_state_errors ++
  (if nonempty scheduler_unlock_arm_markers then
     when (n scheduler_unlock_arm_markers =? 0) [say "scheduler unlock arm marker before trace arm"] ++
     missing scheduler_unlock_entries "scheduler unlock entry" ++
     missing scheduler_unlock_returns "scheduler unlock return"
   else
     when (nonempty scheduler_unlock_entries) [say "scheduler unlock entry without arm marker"] ++
     when (nonempty scheduler_unlock_returns) [say "scheduler unlock return without arm marker"]) ++
  when (negb (n scheduler_unlock_returns =? 0) && (n scheduler_unlock_entries =? 0)) [say "scheduler unlock return without post-arm entry"].

Definition YIELD_KINDS : list (string * kind) :=
  [("entry", scheduler_yield_entries); ("state", scheduler_yield_state_markers); ("return", scheduler_yield_returns)]%string.
Definition yield_errors : list message :=
  flat_map (fun '(name, k) => each_before k (Msg "scheduler yield %s marker before trace arm" [T (chars name)]))
    (("arm"%string, scheduler_yield_arm_markers) :: YIELD_KINDS) ++
  duplicate scheduler_yield_arm_markers "duplicate scheduler yield arm marker" ++
  flat_map (fun '(name, k) => when (1 <? len (recs p k)) [Msg "duplicate scheduler yield %s marker" [T (chars name)]]) YIELD_KINDS ++
  (if nonempty scheduler_yield_arm_markers then
     when (negb (n scheduler_yield_arm_markers =? 1))
       [Msg "expected exactly one post-arm scheduler yield arm marker, found %d" [I (n scheduler_yield_arm_markers)]] ++
     flat_map (fun '(name, k) =>
       if n k =? 0 then [Msg "missing post-arm scheduler yield %s marker" [T (chars name)]]
       else when (negb (n k =? 1)) [Msg "expected exactly one post-arm scheduler yield %s marker, found %d" [T (chars name); I (n k)]]) YIELD_KINDS
   else when (nonempty scheduler_yield_entries || nonempty scheduler_yield_state_markers || nonempty scheduler_yield_returns)
     [say "scheduler yield marker without arm marker"]).

(** **** The call and its completion *)

Definition msg_get_errors : list message :=
  missing msg_get_entries "msg_get entry" ++
  mismatch work_submit_entries msg_get_entries "post-arm work_submit entry/msg_get entry count mismatch: work_submit=%d msg_get=%d" ++
  mismatch msg_get_entries msg_get_returns "post-arm msg_get entry/return count mismatch: entries=%d returns=%d" ++
  gap msg_get_entries msg_get_returns "msg_get" true.
Definition call_errors : list message :=
  missing sdc_entries "SDC entry" ++
  mismatch sdc_entries sdc_returns "post-arm SDC entry/return count mismatch: entries=%d returns=%d" ++
  gap sdc_entries sdc_returns "SDC" true.
Definition completion_errors : list message :=
  mismatch sdc_returns sdc_completions "post-arm SDC return/completion count mismatch: returns=%d completions=%d" ++
  when (negb (n sdc_returns =? n sdc_completions))
    (if n sdc_completions <? n sdc_returns then
       [say "missing post-arm SDC completion"; Msg "missing post-arm SDC completion: expected %d, found %d" [I (n sdc_returns); I (n sdc_completions)]]
     else [Msg "unexpected post-arm SDC completion: expected %d, found %d" [I (n sdc_returns); I (n sdc_completions)]]) ++
  mismatch msg_get_returns sdc_completions "post-arm msg_get return/completion count mismatch: returns=%d completions=%d".

(** **** Statuses, unless already reported *)

Definition report (m : message) (errors : list message) : list message := if decide (m ∈ errors) then errors else errors ++ [m].
Definition check_status (bad : rec -> bool) (format : string) (l : list rec) (errors : list message) : list message :=
  fold_left (fun errors r => if bad r then report (Msg format [I (int "status" r)]) errors else errors) l errors.
Definition failed (r : rec) : bool := negb (int "status" r =? 0).
(** The error a fetch may report again. *)
Definition allowed_fetch_error (o : option outcome) (r : rec) : bool :=
  match o, fetch_returns, post msg_get_returns with
  | Some fetch_error, [f], [_] => (int "status" r =? int "status" f) && (r_start r <? r_start f)
  | _, _, _ => false
  end.
Definition status_errors (o : option outcome) (errors : list message) : list message :=
  let errors := check_status failed "nonzero post-arm SDC return status: 0x%02x" (post sdc_returns) errors in
  let errors := check_status failed "nonzero post-arm cmd_put return status: %d" (post cmd_put_returns) errors in
  let errors := check_status (fun r => negb (py_in (int "status" r) [0; 1; 2])) "invalid post-arm k_work_submit_to_queue return status: %d"
                  (post work_submit_returns) errors in
  let errors := check_status (fun r => failed r && negb (allowed_fetch_error o r)) "nonzero post-arm msg_get return status: %d"
                  (post msg_get_returns) errors in
  check_status failed "nonzero post-arm SDC completion status: 0x%02x" (post sdc_completions) errors.

(** All of it, after what the scan reported. *)
Definition validate : result exn (list message * option outcome) :=
  d ← receive_disposition;
  Ok (status_errors (d_outcome d)
        (validation_errors p ++ parser_errors p ++ arm_errors ++ dropped_errors ++ d_errors d ++ lifetime_errors ++ order_errors ++ chain_errors ++
         work_snapshot_errors ++ unlock_errors ++ yield_errors ++ when (negb (suppress_msg_get d)) msg_get_errors ++ call_errors ++
         when (negb (suppress_completion d)) completion_errors),
      d_outcome d).
End validation.

(** The payload as it is returned: what was filed, the outcome, the errors. *)
Record trace : Type := mk_trace { filed : payload kind; receive_disposition_outcome : option outcome; errors : list message }.
Definition trace_of (s : scan) : result exn trace := '(es, o) ← validate (pay s); Ok (mk_trace (pay s) o es).
Definition start : scan := mk_scan empty_payload false (fun _ => 0).
Definition parse_sdc_hci_remove_iso_path_trace (raw : option (list ascii)) : result exn trace :=
  match raw with
  | None => let m := say "receiver SDC trace evidence is not bytes" in Ok (mk_trace (unreadable m) None [m])
  | Some raw =>
      s ← match iter_raw_utf8_lines raw with
          | None => Ok (on_pay (fun _ => unreadable (say "receiver SDC trace evidence invalid UTF-8")) start)
          | Some ls => scan_lines ls start
          end;
      trace_of s
  end.
End Sdc.

(** ** Lemmas *)

Lemma when_nil {A} (b : bool) (x : A) l : when b (x :: l) = [] <-> b = false.
Proof. by destruct b. Qed.
Lemma flat_map_nil {A B} (f : A -> list B) l : flat_map f l = [] <-> forall x, x ∈ l -> f x = [].
Proof.
  induction l as [|x l IH]; simpl; [split; [by intros _ x ?%elem_of_nil | done]|]. rewrite app_nil, IH. split.
  - intros [Hx Hl] y [->|Hy]%elem_of_cons; auto.
  - intros H. split; [|intros y Hy]; apply H; by constructor.
Qed.
Lemma len_zero {A} (l : list A) : len l = 0 -> l = [].
Proof. unfold len. destruct l; [done | simpl; lia]. Qed.
Lemma len_pos {A} (l : list A) : 0 <= len l.
Proof. unfold len. lia. Qed.
Lemma len_one {A} (l : list A) : len l = 1 -> exists x, l = [x].
Proof. unfold len. destruct l as [|x [|]]; simpl; [lia | by exists x | lia]. Qed.

Module SdcFacts.
Import Sdc.

Lemma report_nonempty m es : report m es <> [].
Proof. unfold report. case_decide as H; [by destruct es; [apply not_elem_of_nil in H|] | by destruct es]. Qed.
Lemma check_status_nil bad format l es : check_status bad format l es = [] <-> es = [] /\ forall r, r ∈ l -> bad r = false.
Proof.
  unfold check_status. revert es. induction l as [|r l IH]; intros es; simpl.
  { split; [intros ->; split; [done | by intros r ?%elem_of_nil] | by intros [-> _]]. }
  rewrite IH. destruct (bad r) eqn:Hb.
  - split; [intros [H _]; by apply report_nonempty in H|]. intros [_ H]. specialize (H r ltac:(by left)). congruence.
  - split; intros [-> H]; split; try done; [|intros r' Hr'; apply H; by right]. intros r' [->|Hr']%elem_of_cons; auto.
Qed.

Lemma foldr_min_le a l x : x ∈ a :: l -> foldr Z.min a l <= x.
Proof.
  induction l as [|y l IH]; simpl; [rewrite list_elem_of_singleton; lia|].
  rewrite !elem_of_cons in *. intros [->|[->|H]]; [|lia|]; transitivity (foldr Z.min a l); try lia; apply IH; auto.
Qed.
Lemma foldr_max_le a l x : x ∈ a :: l -> x <= foldr Z.max a l.
Proof.
  induction l as [|y l IH]; simpl; [rewrite list_elem_of_singleton; lia|].
  rewrite !elem_of_cons in *. intros [->|[->|H]]; [|lia|]; transitivity (foldr Z.max a l); try lia; apply IH; auto.
Qed.
(** All of the first kind lie before all of the second. *)
Definition precedes (l l' : list rec) : Prop := forall x y, x ∈ l -> y ∈ l' -> r_start x < r_start y.
Lemma precedes_nil nb l na l' : require_trace_precedes (nb, l) (na, l') = [] -> precedes l l'.
Proof.
  unfold require_trace_precedes, precedes. simpl. intros H x y Hx Hy. destruct l as [|b l]; [by apply elem_of_nil in Hx|].
  destruct l' as [|a l']; [by apply elem_of_nil in Hy|]. apply when_nil, Z.leb_gt in H.
  pose proof (foldr_max_le (r_start b) (r_start <$> l) (r_start x) ltac:(by apply (list_elem_of_fmap_2 r_start) in Hx)).
  pose proof (foldr_min_le (r_start a) (r_start <$> l') (r_start y) ltac:(by apply (list_elem_of_fmap_2 r_start) in Hy)). lia.
Qed.

(** What each marker reads on its own, line by line: the specification of the
    scan's lists. *)
Definition found (m : marker) (l : raw_line) : list fields := match m_state m (line_of l) with Ok (Marker f) => [f] | _ => [] end.
Definition filed_by (ms : list marker) (k : kind) (c : classification) (l : raw_line) : list rec :=
  flat_map (fun m => if decide (m_kind m = k) then mk_rec (start_offset l) (end_offset l) (line_of l) (Some c) <$> found m l else []) ms.
Definition armed_by (l : raw_line) : bool :=
  match _sdc_hci_marker_state SDC_HCI_REMOVE_ISO_PATH_TRACE_ARM_TEXT (line_of l) with Marker _ => true | _ => false end.
Fixpoint files (k : kind) (armed : bool) (ls : list raw_line) : list rec :=
  match ls with
  | [] => []
  | l :: ls => filed_by markers k (if armed then AfterArm else BeforeArm) l ++ files k (armed || armed_by l) ls
  end.

Definition arms (m : marker) (l : raw_line) : bool := bool_decide (m_kind m = arm_markers) && match found m l with [] => false | _ => true end.
(** What a marker does leaves the lists alone; only the arm marker arms. *)
Definition neutral (m : marker) : Prop := forall f s,
  recs (pay (m_done m f s)) = recs (pay s) /\ arm_seen (m_done m f s) = arm_seen s || bool_decide (m_kind m = arm_markers).
Lemma counted_neutral k cs st w : k <> arm_markers -> neutral (mk_marker k st w (counted k cs)).
Proof. intros Hk f s. cbn [m_done m_kind]. unfold counted. rewrite bool_decide_eq_false_2 by done. destruct s as [q [] c]; split; try done. Qed.
Lemma quiet_neutral k st w d : k <> arm_markers ->
  (forall f s, recs (pay (d f s)) = recs (pay s) /\ arm_seen (d f s) = arm_seen s) -> neutral (mk_marker k st w d).
Proof. intros Hk Hd f s. cbn [m_done m_kind]. rewrite bool_decide_eq_false_2, orb_false_r by done. apply Hd. Qed.
Lemma markers_neutral : Forall neutral markers.
Proof.
  unfold markers, lifetime_markers, arm_receive_markers, put_markers, release_markers, unlock_markers, yield_markers, fetch_markers. cbn [app].
  repeat apply Forall_cons_2; try apply Forall_nil_2;
    try (by apply quiet_neutral); try (by apply counted_neutral).
  intros f s. cbn [m_done m_kind exact]. by rewrite bool_decide_eq_true_2, orb_true_r.
Qed.

Lemma visit_all_files l c ms s s' : Forall neutral ms -> visit_all l c ms s = Ok s' ->
  (forall k, recs (pay s') k = recs (pay s) k ++ filed_by ms k c l) /\ arm_seen s' = arm_seen s || existsb (fun m => arms m l) ms.
Proof.
  intros Hm. revert s. induction Hm as [|m ms Hn Hm IH]; intros s H; simpl in H.
  { injection H as <-. split; [intros k; by rewrite app_nil_r | by rewrite orb_false_r]. }
  apply bind_Ok in H as (s1 & H1 & [Hr Ha]%IH).
  assert ((forall k, recs (pay s1) k = recs (pay s) k ++ filed_by [m] k c l) /\ arm_seen s1 = arm_seen s || arms m l) as [Hr1 Ha1].
  { unfold visit in H1. apply bind_Ok in H1 as (st & Hs & H1). unfold filed_by, arms, found. simpl. rewrite Hs.
    destruct st as [| |f]; injection H1 as <-; simpl.
    - split; [intros k; by destruct (decide _); rewrite app_nil_r | by rewrite andb_false_r, orb_false_r].
    - split; [intros k; by destruct (decide _); rewrite app_nil_r | by rewrite andb_false_r, orb_false_r].
    - destruct (Hn f (on_pay (file (m_kind m) (mk_rec (start_offset l) (end_offset l) (line_of l) (Some c) f)) s)) as [-> ->].
      simpl. split; [|by rewrite andb_true_r]. intros k. destruct (decide (k = m_kind m)) as [->|Hk].
      + by rewrite decide_True, app_nil_r by done.
      + by rewrite decide_False, app_nil_r by done. }
  split; [intros k; rewrite Hr, Hr1, <- app_assoc; unfold filed_by; simpl; by rewrite app_nil_r | rewrite Ha, Ha1, <- orb_assoc; done].
Qed.
Lemma armed_by_markers l : existsb (fun m => arms m l) markers = armed_by l.
Proof.
  unfold markers, lifetime_markers, arm_receive_markers, put_markers, release_markers, unlock_markers, yield_markers, fetch_markers, arms, armed_by.
  cbn [app existsb m_kind exact pattern].
  repeat match goal with |- context [bool_decide (?a = arm_markers)] => first
    [ rewrite (bool_decide_eq_false_2 (a = arm_markers)) by done | rewrite (bool_decide_eq_true_2 (a = arm_markers)) by done ] end.
  cbn [andb orb]. unfold found. cbn [m_state exact]. by destruct (_sdc_hci_marker_state _ _).
Qed.
Lemma scan_lines_files ls s s' : scan_lines ls s = Ok s' -> forall k, recs (pay s') k = recs (pay s) k ++ files k (arm_seen s) ls.
Proof.
  revert s. induction ls as [|l ls IH]; intros s H k; cbn [scan_lines] in H; [injection H as <-; by rewrite app_nil_r|].
  apply bind_Ok in H as (s1 & [Hr Ha]%visit_all_files & H); [|apply markers_neutral].
  rewrite (IH _ H k), Hr, Ha, armed_by_markers, <- app_assoc. done.
Qed.
End SdcFacts.

Module TraceTheorems.
Import Sdc SdcFacts.

(** Nothing left to report, part by part. *)
Ltac quiet_parts := repeat match goal with H : _ ++ _ = [] |- _ => apply app_nil in H as [? H] end.
Lemma mismatch_nil p a b format : mismatch p a b format = [] -> n p a = n p b.
Proof. unfold mismatch. intros H%when_nil. by apply negb_false_iff, Z.eqb_eq in H. Qed.
Lemma missing_nil p k name : missing p k name = [] -> 0 < n p k.
Proof. unfold missing, n. intros H%when_nil%Z.eqb_neq. pose proof (len_pos (post p k)). lia. Qed.

(** What an accepted trace holds. *)
Record accepted (p : payload kind) (o : option outcome) : Prop := {
  one_arm : exists arm, recs p arm_markers = [arm];
  all_parsed : parser_errors p = [];
  none_dropped : forall r, r ∈ recs p dropped_messages -> after_arm r = false;
  called : 0 < n p sdc_entries;
  balanced : forall k, k ∈ [cmd_put_entries; sdc_returns; cmd_put_returns; lock_release_entries; lock_release_returns; work_submit_entries; work_submit_returns] ->
    n p k = n p sdc_entries;
  in_order : forall a b, (a, b) ∈ PRECEDENCE -> precedes (post p a) (post p b);
  succeeded : forall k r, k ∈ [sdc_returns; cmd_put_returns; sdc_completions] -> r ∈ post p k -> int "status" r = 0;
  submitted : forall r, r ∈ post p work_submit_returns -> int "status" r ∈ [0; 1; 2];
  completed : match o with
    | None => n p msg_get_entries = n p sdc_entries /\ n p msg_get_returns = n p sdc_entries /\ n p sdc_completions = n p sdc_entries /\
        forall r, r ∈ post p msg_get_returns -> int "status" r = 0
    | Some fetch_error => n p msg_get_entries = n p sdc_entries /\ n p msg_get_returns = n p sdc_entries /\ n p sdc_completions = 0 /\
        exists f, fetch_returns p = [f] /\ int "status" f <> 0 /\ allocations p = [] /\
          forall r, r ∈ post p msg_get_returns -> int "status" r = 0 \/ post p msg_get_returns = [r] /\ int "status" r = int "status" f /\ r_start r < r_start f
    | Some retained_iso_buffer_unavailable => n p msg_get_entries = 0 /\ n p msg_get_returns = 0 /\ n p sdc_completions = 0 /\
        exists a, allocations p = [a] /\ is_kind "rx" a = true /\ int "type" a = 32 /\ flag "buffer_available" a = false /\ running a = true
    | Some fetched_buffer_unavailable => n p msg_get_entries = n p sdc_entries /\ n p msg_get_returns = n p sdc_entries /\
        (exists f a, fetch_returns p = [f] /\ allocations p = [a] /\ int "status" f = 0 /\ flag "buffer_available" a = false /\ running a = true /\
          _sdc_hci_receive_disposition_allocation_matches (opt_int "msg_type" f) a = true /\
          (post p sdc_completions = [] \/ exists c, post p sdc_completions = [c] /\ r_start f < r_start c < r_start a)) /\
        forall r, r ∈ post p msg_get_returns -> int "status" r = 0
    end
}.

(** The four ways a receive disposition may go without complaint. *)
Definition disposed (p : payload kind) (d : verdict) : Prop :=
  match d_outcome d with
  | None => suppress_msg_get d = false /\ suppress_completion d = false
  | Some fetch_error => suppress_msg_get d = false /\ n p sdc_completions = 0 /\
      exists f, fetch_returns p = [f] /\ int "status" f <> 0 /\ allocations p = []
  | Some retained_iso_buffer_unavailable => n p msg_get_entries = 0 /\ n p msg_get_returns = 0 /\ n p sdc_completions = 0 /\
      exists a, allocations p = [a] /\ is_kind "rx" a = true /\ int "type" a = 32 /\ flag "buffer_available" a = false /\ running a = true
  | Some fetched_buffer_unavailable => suppress_msg_get d = false /\
      exists f a, fetch_returns p = [f] /\ allocations p = [a] /\ int "status" f = 0 /\ flag "buffer_available" a = false /\ running a = true /\
        _sdc_hci_receive_disposition_allocation_matches (opt_int "msg_type" f) a = true /\
        (post p sdc_completions = [] \/ exists c, post p sdc_completions = [c] /\ r_start f < r_start c < r_start a)
  end.
Lemma fetch_return_Some p f : fetch_return p = Some f -> fetch_returns p = [f].
Proof. unfold fetch_return. destruct (fetch_returns p) as [|g [|]]; congruence. Qed.
Lemma fetch_failed_true p : fetch_failed p = true -> n p sdc_completions = 0 /\
  exists f, fetch_returns p = [f] /\ int "status" f <> 0 /\ allocations p = [].
Proof.
  unfold fetch_failed. destruct (fetch_return p) as [f|] eqn:Hf; [|done]. intros [[H1%negb_true_iff%Z.eqb_neq H2%Z.eqb_eq]%andb_true_iff H3%Z.eqb_eq]%andb_true_iff.
  split; [done|]. exists f. split_and!; [by apply fetch_return_Some | done | by apply len_zero].
Qed.
Lemma retained_true p : retained p = true -> n p msg_get_entries = 0 /\ n p msg_get_returns = 0 /\ n p sdc_completions = 0 /\ fetch_returns p = [] /\
  exists a, allocations p = [a] /\ is_kind "rx" a = true /\ int "type" a = 32 /\ flag "buffer_available" a = false /\ running a = true.
Proof.
  unfold retained, retained_candidate. destruct (fetch_entries p), (fetch_returns p), (allocations p) as [|a [|]]; try done.
  rewrite !andb_true_iff, !Z.eqb_eq, negb_true_iff. intros ((([[[Hk Ht] Hf] Hr] & Hm) & Hg) & Hc). split_and!; try done. by exists a.
Qed.
Lemma fetched_unavailable_true p : fetched_unavailable p = true -> fetched_unavailable_errors p = [] ->
  exists f a, fetch_returns p = [f] /\ allocations p = [a] /\ int "status" f = 0 /\ flag "buffer_available" a = false /\ running a = true /\
    _sdc_hci_receive_disposition_allocation_matches (opt_int "msg_type" f) a = true /\
    (post p sdc_completions = [] \/ exists c, post p sdc_completions = [c] /\ r_start f < r_start c < r_start a).
Proof.
  unfold fetched_unavailable_errors. intros H. rewrite H. unfold fetched_unavailable in H.
  destruct (fetch_return p) as [f|] eqn:Hf; [|done]. apply fetch_return_Some in Hf. destruct (allocations p) as [|a [|]] eqn:Ha; try done.
  rewrite !andb_true_iff, Z.eqb_eq, negb_true_iff in H. destruct H as [[[[Hs _] Hb] Hr] Hm]. rewrite Hf. intros He. exists f, a. split_and!; try done.
  destruct (post p sdc_completions) as [|c [|c' l]] eqn:Hc; [by left | right; exists c; split; [done|] |].
  - simpl in He. apply app_nil in He as [He1%when_nil%Z.leb_gt He2%when_nil%Z.leb_gt]. lia.
  - exfalso. simpl in He. apply when_nil, Z.ltb_ge in He. unfold n, len in He. rewrite Hc in He. simpl in He. lia.
Qed.
Lemma disposition_disposed p d : receive_disposition p = Ok d -> d_errors d = [] -> disposed p d.
Proof.
  unfold receive_disposition. destruct (_ =? 0); [by intros [= <-]|]. intros H. apply bind_Ok in H as (m & Hm & [= <-]). cbn [d_errors]. intros He.
  quiet_parts. unfold disposed. cbn [d_outcome suppress_msg_get suppress_completion].
  destruct (fetched_unavailable p) eqn:Hu.
  - split; [|by apply fetched_unavailable_true]. destruct (retained p) eqn:Hr; [|done]. apply retained_true in Hr as (_ & _ & _ & Hr & _).
    destruct (fetched_unavailable_true _ Hu He) as (f & a & Hf & _). congruence.
  - destruct (retained p) eqn:Hr; [apply retained_true in Hr as (? & ? & ? & _ & ?); by split_and!|].
    destruct (fetch_failed p) eqn:Hf; [|done]. split; [done | by apply fetch_failed_true].
Qed.

Lemma validate_accepted p o : validate p = Ok ([], o) -> accepted p o.
Proof.
  unfold validate. intros H. apply bind_Ok in H as (d & Hd & H). injection H as H Ho.
  unfold status_errors in H.
  apply check_status_nil in H as [H S5]. apply check_status_nil in H as [H S4]. apply check_status_nil in H as [H S3].
  apply check_status_nil in H as [H S2]. apply check_status_nil in H as [H S1]. quiet_parts.
  pose proof (disposition_disposed _ _ Hd H4) as Hdisp. unfold disposed in Hdisp. rewrite Ho in *.
  unfold chain_errors in H7. quiet_parts.
  repeat match goal with G : mismatch _ _ _ _ = [] |- _ => apply mismatch_nil in G | G : missing _ _ _ = [] |- _ => apply missing_nil in G end.
  apply app_nil in H12 as [Hcall H12]. apply missing_nil in Hcall. apply app_nil in H12 as [Hret%mismatch_nil _].
  assert (suppress_msg_get d = false -> n p msg_get_entries = n p sdc_entries /\ n p msg_get_returns = n p sdc_entries) as Hget.
  { intros E. rewrite E in H11. simpl in H11. apply app_nil in H11 as [_ [G1%mismatch_nil [G2%mismatch_nil _]%app_nil]%app_nil]. lia. }
  assert (forall o', o' <> Some fetch_error -> o = o' -> forall r, r ∈ post p msg_get_returns -> int "status" r = 0) as Hzero.
  { intros o' Ho' -> r Hr. apply S4 in Hr. unfold failed, allowed_fetch_error in Hr.
    destruct o' as [[]|]; try done; rewrite andb_true_r in Hr; by apply negb_false_iff, Z.eqb_eq in Hr. }
  split; try done.
  - unfold arm_errors in H2. apply len_one. destruct (len _ =? 0) eqn:E; [done|]. apply when_nil, Z.ltb_ge in H2. apply Z.eqb_neq in E.
    pose proof (len_pos (recs p arm_markers)). lia.
  - intros r Hr. apply (proj1 (flat_map_nil _ _) H3), when_nil in Hr. done.
  - intros k Hk. repeat (apply elem_of_cons in Hk as [->|Hk]; [lia|]). by apply elem_of_nil in Hk.
  - intros a b Hab. apply (proj1 (flat_map_nil _ _) H6) in Hab. by eapply precedes_nil.
  - intros k r Hk Hr. assert (failed r = false) as Hf; [|by apply negb_false_iff, Z.eqb_eq in Hf].
    repeat (apply elem_of_cons in Hk as [->|Hk]; [auto|]). by apply elem_of_nil in Hk.
  - intros r Hr. apply S3, negb_false_iff in Hr. by apply bool_decide_eq_true in Hr.
  - destruct o as [[]|].
    + destruct Hdisp as (E & E0 & f & Hf & Hs & Ha). destruct (Hget E). split_and!; try done. exists f. split_and!; try done.
      intros r Hr. pose proof (S4 _ Hr) as G. unfold failed, allowed_fetch_error in G. rewrite Hf in G.
      destruct (int "status" r =? 0) eqn:Ez; [left; by apply Z.eqb_eq|]. right. simpl in G.
      destruct (post p msg_get_returns) as [|r' [|]]; try done. apply list_elem_of_singleton in Hr as ->.
      by apply negb_false_iff, andb_true_iff in G as [G1%Z.eqb_eq G2%Z.ltb_lt].
    + done.
    + destruct Hdisp as (E & Hd'). destruct (Hget E). split_and!; try done. by apply (Hzero (Some fetched_buffer_unavailable)).
    + destruct Hdisp as [E Ec]. destruct (Hget E). rewrite Ec in H. simpl in H. apply app_nil in H as [G1%mismatch_nil _].
      split_and!; try done; [lia | by apply (Hzero None)].
Qed.

(** The scan files exactly what the markers read: for text that decodes, each
    list holds, in line order, a record for every line that carries that
    marker well formed, with the line's byte range, and is after the arm when
    an earlier line armed the trace.  Neither order checks nor malformed
    markers change a list. *)
Theorem sdc_trace_filed_exactly (raw : list ascii) (ls : list raw_line) (t : trace)
    (Hls : iter_raw_utf8_lines raw = Some ls) (H : parse_sdc_hci_remove_iso_path_trace (Some raw) = Ok t) (k : kind) :
  recs (filed t) k = files k false ls.
Proof.
  unfold parse_sdc_hci_remove_iso_path_trace in H. rewrite Hls in H. apply bind_Ok in H as (s & Hs & H).
  unfold trace_of in H. apply bind_Ok in H as ([es o] & _ & [= <-]). by apply (scan_lines_files _ _ _ Hs).
Qed.

Lemma sdc_trace_accepted_in raw t : parse_sdc_hci_remove_iso_path_trace (Some raw) = Ok t -> errors t = [] ->
  exists ls, iter_raw_utf8_lines raw = Some ls /\ (forall k, recs (filed t) k = files k false ls) /\ accepted (filed t) (receive_disposition_outcome t).
Proof.
  intros H Hnone. unfold parse_sdc_hci_remove_iso_path_trace in H. apply bind_Ok in H as (s & Hs & H).
  unfold trace_of in H. apply bind_Ok in H as ([es o] & Hv & [= <-]). simpl in Hnone. subst es.
  apply validate_accepted in Hv. destruct (iter_raw_utf8_lines raw) as [ls|].
  - exists ls. split_and!; [done | intros k; by apply (scan_lines_files _ _ _ Hs) | done].
  - injection Hs as <-. by apply all_parsed in Hv.
Qed.


(** *** The callback-timed trace *)

Lemma hci_on_pay (f : payload Hci.kind -> payload Hci.kind) s : (forall p, validation_errors (f p) = validation_errors p) ->
  validation_errors (Hci.pay (Hci.on_pay f s)) = validation_errors (Hci.pay s).
Proof. intros H. apply H. Qed.
Lemma hci_scan_line l s s' : Hci.scan_line l s = Ok s' -> validation_errors (Hci.pay s') = validation_errors (Hci.pay s).
Proof.
  assert (forall k o r s, validation_errors (Hci.pay (Hci.plain_step l k o r s)) = validation_errors (Hci.pay s)) as Hp.
  { intros. unfold Hci.plain_step. by destruct (_ && _). }
  unfold Hci.scan_line. intros H. apply bind_Ok in H as (s1 & H1 & H). apply bind_Ok in H as (s2 & H2 & H). apply bind_Ok in H as (s3 & H3 & H).
  injection H as <-. rewrite !Hp. transitivity (validation_errors (Hci.pay s2)); [|transitivity (validation_errors (Hci.pay s1))].
  - unfold Hci.dropped_step in H3. destruct (has _ _); [|by simplify_eq]. destruct (fullmatch _ _); [|by simplify_eq].
    by apply bind_Ok in H3 as (f & _ & [= <-]).
  - unfold Hci.arm_failed_step in H2. destruct (has _ _); [|by simplify_eq]. destruct (search _ _); [|by simplify_eq].
    by apply bind_Ok in H2 as (f & _ & [= <-]).
  - unfold Hci.arm_step in H1. destruct (has _ _); [|by simplify_eq]. destruct (search _ _); [|by simplify_eq].
    by apply bind_Ok in H1 as (f & _ & [= <-]).
Qed.
Lemma hci_scan_lines ls s s' : Hci.scan_lines ls s = Ok s' -> validation_errors (Hci.pay s') = validation_errors (Hci.pay s).
Proof.
  revert s. induction ls as [|l ls IH]; intros s H; cbn [Hci.scan_lines] in H; [by injection H as <-|].
  apply bind_Ok in H as (s1 & H1%hci_scan_line & H%IH). congruence.
Qed.

(** The callback-timed trace is accepted exactly when everything parsed, it
    was armed once with both log levels at 4 and valid ids, arming never
    failed, nothing was dropped after the arm, and the host sent the command
    after it. *)
Theorem hci_trace_accepted_iff (raw : list ascii) (p : payload Hci.kind) (H : Hci.parse_hci_remove_iso_path_trace (Some raw) = Ok p) :
  validation_errors p = [] <->
  parser_errors p = [] /\
  (exists arm, recs p Hci.arm_markers = [arm] /\ 0 <= int "core_id" arm /\ 0 <= int "driver_id" arm /\ int "core_level" arm = 4 /\ int "driver_level" arm = 4) /\
  recs p Hci.arm_failure_markers = [] /\
  (forall r, r ∈ recs p Hci.dropped_messages -> after_arm r = false) /\
  (exists r, r ∈ recs p Hci.core_sends /\ after_arm r = true).
Proof.
  unfold Hci.parse_hci_remove_iso_path_trace in H. apply bind_Ok in H as (s & Hs & [= <-]). simpl.
  assert (validation_errors (Hci.pay s) = [] \/ parser_errors (Hci.pay s) <> []) as Hq.
  { destruct (iter_raw_utf8_lines raw); [left; by apply hci_scan_lines in Hs|]. injection Hs as <-. by right. }
  unfold Hci.validate. rewrite !app_nil. split.
  - intros (_ & Hp & Hn & Ha & Hf & Hd & Hc). apply when_nil, negb_false_iff, Z.eqb_eq, len_one in Hn as (arm & Harm). rewrite Harm in Ha.
    cbn [flat_map] in Ha. rewrite !app_nil, !when_nil, !negb_false_iff, !Z.ltb_ge, !Z.eqb_eq in Ha. destruct Ha as ((I1 & I2 & _) & L1 & L2 & _).
    apply when_nil, negb_false_iff, existsb_exists in Hc as (r & Hr%list_elem_of_In & Hra). split_and!; [done | by exists arm | | | by exists r].
    + by destruct (recs _ Hci.arm_failure_markers).
    + intros x Hx. by apply (proj1 (flat_map_nil _ _) Hd), when_nil in Hx.
  - intros (Hp & (arm & Harm & I1 & I2 & L1 & L2) & Hf & Hd & (r & Hr%list_elem_of_In & Hra)). destruct Hq as [Hq|Hq]; [|done].
    rewrite Harm, Hf. cbn [flat_map]. rewrite L1, L2, !app_nil, !when_nil, !Z.ltb_ge. split_and!; try done.
    + apply flat_map_nil. intros x Hx. by rewrite Hd.
    + apply negb_false_iff, existsb_exists. by exists r.
Qed.
End TraceTheorems.

(** ** Concrete traces *)

Module TraceWitnesses.
Import Sdc.

Definition log_of (ls : list string) : list ascii := chars (String.concat EmptyString ((fun s => s ++ of_chars ["013"%char; "010"%char])%string <$> ls)).
Definition demo_raw : list ascii := Eval vm_compute in log_of
  ["uart:~$ [00:00:01] <inf> hci: SDC LE Remove ISO Data Path trace armed";
   "<inf> hci: SDC LE Remove ISO Data Path hci_internal_cmd_put entry";
   "<inf> hci: SDC LE Remove ISO Data Path trace entry";
   "<inf> hci: SDC LE Remove ISO Data Path trace return: status=0x00";
   "<inf> hci: SDC LE Remove ISO Data Path hci_internal_cmd_put return: status=0";
   "<inf> hci: SDC LE Remove ISO Data Path multithreading_lock_release entry";
   "<inf> hci: SDC LE Remove ISO Data Path multithreading_lock_release return";
   "<inf> hci: SDC LE Remove ISO Data Path k_work_submit_to_queue entry";
   "<inf> hci: SDC LE Remove ISO Data Path k_work_submit_to_queue return: status=1";
   "<inf> hci: SDC LE Remove ISO Data Path hci_internal_msg_get entry";
   "<inf> hci: SDC LE Remove ISO Data Path hci_internal_msg_get return: status=0";
   "<inf> hci: SDC LE Remove ISO Data Path completion: status=0x00"]%string.
Definition demo_lines : list raw_line := Eval vm_compute in default [] (iter_raw_utf8_lines demo_raw).

Lemma sdc_trace_filed_exactly_witness : exists t, parse_sdc_hci_remove_iso_path_trace (Some demo_raw) = Ok t /\
  recs (filed t) work_submit_returns = SdcFacts.files work_submit_returns false demo_lines /\ len (recs (filed t) work_submit_returns) = 1.
Proof.
  assert (is_ok (parse_sdc_hci_remove_iso_path_trace (Some demo_raw)) = true) as Hok by (vm_compute; reflexivity). destruct (parse_sdc_hci_remove_iso_path_trace (Some demo_raw)) as [t|] eqn:Ht; [|discriminate Hok].
  exists t. split; [reflexivity|].
  pose proof (TraceTheorems.sdc_trace_filed_exactly demo_raw demo_lines t ltac:(vm_compute; reflexivity) Ht work_submit_returns) as H.
  split; [exact H|]. rewrite H. vm_compute. reflexivity.
Defined.


Definition hci_raw : list ascii := Eval vm_compute in log_of
  ["HCI remove ISO path trace armed: core_id=1 driver_id=+2 core_level=4 driver_level=4"; "<dbg> bt_hci_core: buf 0x2000 opcode 0x206f len 6"]%string.
Lemma hci_trace_accepted_iff_witness : exists p, Hci.parse_hci_remove_iso_path_trace (Some hci_raw) = Ok p /\
  exists r, r ∈ recs p Hci.core_sends /\ after_arm r = true.
Proof.
  assert (match Hci.parse_hci_remove_iso_path_trace (Some hci_raw) with Ok p => bool_decide (validation_errors p = []) | Err _ => false end = true) as Hok
    by (vm_compute; reflexivity).
  destruct (Hci.parse_hci_remove_iso_path_trace (Some hci_raw)) as [p|] eqn:Hp; [|discriminate Hok]. apply bool_decide_eq_true in Hok.
  exists p. split; [reflexivity|]. exact (proj2 (proj2 (proj2 (proj2 (proj1 (TraceTheorems.hci_trace_accepted_iff hci_raw p Hp) Hok))))).
Defined.

(** A fetch that reports success without a message type, followed by its
    allocation, makes the parser raise instead of reporting an error. *)
Definition untyped_raw : list ascii := Eval vm_compute in log_of
  ["SDC LE Remove ISO Data Path trace armed";
   "SDC LE Remove ISO Data Path receive disposition trace armed: queue_is_mpsl=1";
   "SDC LE Remove ISO Data Path receive disposition fetch entry";
   "SDC LE Remove ISO Data Path receive disposition fetch return: status=0 msg_type=na";
   "SDC LE Remove ISO Data Path receive disposition allocation: kind=rx type=32 buffer_available=1 target_busy=0x1"]%string.
Example untyped_fetch_escapes : parse_sdc_hci_remove_iso_path_trace (Some untyped_raw) = Err TypeError.
Proof. vm_compute. reflexivity. Qed.
End TraceWitnesses.
