(* ===== verification/HilDiscovery.v ===== *)
(** * Probe, serial and sound-card discovery (scripts/hil/discovery.py)

    [resolve_fixture] and [resolve_capture_binding] over a world of answers:
    the child processes and the sysfs tree they read.  The commands issued and
    the raw evidence are part of the state, so what is left behind by a failed
    boundary is visible.  Texts are ASCII: columns of the probe table are
    counted in characters. *)

From S2P Require Import Prelude PyText PyPath PyRegex HilModel HilReceiver.

(** ** Constants *)

Definition spaces2 : re := (Cls is_space • Plus is_space)%re.
Definition NRF_PROBES_HEADER : list string := ["SERIAL"; "PROBE"; "TARGET"; "DPIDR"; "PART"; "VARIANT"; "NOTE"]%string.
(** The column names are groups 1 to 7; [\s{2,}] is two or more. *)
Definition NRF_PROBES_HEADER_RE : re :=
  (Bol • Star is_space • Group 1 (Lit "SERIAL") • spaces2 • Group 2 (Lit "PROBE") • spaces2 • Group 3 (Lit "TARGET") • spaces2 •
   Group 4 (Lit "DPIDR") • spaces2 • Group 5 (Lit "PART") • spaces2 • Group 6 (Lit "VARIANT") • spaces2 • Group 7 (Lit "NOTE") •
   Star is_space • Eos)%re.
Definition RECEIVER_TARGET : string := "nRF54L15".
Definition RECEIVER_PART : string := "0x00054b15".
Definition RECEIVER_DPIDR : string := "0x6ba02477".
Definition NIX_NRF_PROBES : list string := ["nix-nrf"; "probes"]%string.
Definition serial_char (c : ascii) : bool := is_alpha c || is_digit c || py_in c ["_"; "."; ":"; "-"]%char.
Definition PROBE_SERIAL_RE : re := (Bol • Plus serial_char • Eos)%re.
Definition is_hex (c : ascii) : bool := is_digit c || between 97 102 c.
Definition RAW_HEX_RE : re := (Bol • Lit "0x" • Rep 8 (Cls is_hex) • Eos)%re.
Definition NRF54L15_PART_ADDR : string := "0x00FFC31C".
Definition NRF54L15_VARIANT_ADDR : string := "0x00FFC320".
Definition OPENOCD_FAILURE_RE : re :=
  (Alt (Wb • Group 1 (Alt (Ci "warning") (Ci "error")) • Wb)
       (Alt (Ci "recovery") (Ci "verify" • Plus is_space • Group 2 (Alt (Ci "fail" • Opt (Ci "ure")) (Ci "ed")))))%re.
Definition full (r : re) (s : string) : bool := match fullmatch r (chars s) with Some _ => true | None => false end.

(** The script; a backquote stands for a double quote. *)
Definition quoted (s : string) : string := of_chars ((fun c => if Ascii.eqb c "`"%char then "034"%char else c) <$> chars s).
Definition line_of (s : string) : string := (s ++ of_chars [newline])%string.
Definition CMSIS_DAP_FINGERPRINT_TCL : string :=
  quoted (String.concat EmptyString (line_of <$>
  [EmptyString; "proc fwc_scan {} {";
   "    set dpidr ``";
   "    catch {set dpidr [format 0x%08x [chip.dap dpreg 0]]}";
   "    puts `FWC|dpidr|$dpidr`";
   "    for {set i 0} {$i < 4} {incr i} {";
   "        set idr ``";
   "        catch {set idr [format 0x%08x [chip.dap apreg $i 0xfc]]}";
   "        puts `FWC|ap$i|$idr`";
   "    }";
   "    chip.dap apcsw 0x01000000 0x01000000";
   "    set part ``";
   "    catch {set part [format 0x%08x [chip.cpu read_memory " ++ NRF54L15_PART_ADDR ++ " 32 1]]}";
   "    set variant ``";
   "    catch {set variant [format 0x%08x [chip.cpu read_memory " ++ NRF54L15_VARIANT_ADDR ++ " 32 1]]}";
   "    puts `FWC|part|$part`";
   "    puts `FWC|variant|$variant`";
   "}"]%string)).

(** ** Data *)

Inductive cause : Type :=
| NotACapture | NoSoundClass | CardAmbiguity (found : nat) | CannotReadCardId | EmptyCardId | CardIndexMismatch | CardIdMismatch
| NoOutput | BadHeader | UnknownColumns | TruncatedRow
| ApMalformed (key : string) | VariantMalformed | VariantNotAscii | VariantNotPrintable
| RowSerial (role : string) | ProductMissing (role : string) | TargetDrift (role : string) | DpidrDrift (role : string)
| PartDrift (role : string) | VariantMissing (role : string)
| FingerprintFailed (role : string) | MarkerDisagrees (role key : string) | VariantDisagrees (role : string)
| NoTtyClass | SerialAmbiguity (role : string) (found : nat) | SharedTty | SharedParent
| SerialsRequired | SerialsIncomplete | SerialUnsafe (role : string) | SerialsRoles | SerialsEqual | RolesUnexpected
| ProbesFailed (status : Z) | NotTwoRows | RowMismatch (role : string) | ParentsNotDistinct
| NotABinding | Wrapped (text : string).
(** [HilDiscoveryError]; the exceptions of the calls; [Interrupt] is what
    [except Exception] lets through. *)
Inductive exn : Type := DiscoveryError (c : cause) | OSError (text : string) | OtherError (text : string) | Interrupt.

Record ProbeIdentity : Type := mk_probe_identity {
  pi_role : string; pi_backend : string; pi_family : string; pi_serial : string; pi_product : string; pi_target : string;
  pi_dpidr : string; pi_ap_idrs : list (string * string); pi_part : string; pi_variant : string; pi_variant_raw : string }.
Record SerialIdentity : Type := mk_serial_identity {
  si_role : string; si_path : string; si_baud : Z; si_properties : list (string * string); si_usb_parent : option string;
  si_dtr : bool; si_rts : bool }.
Record RoleIdentity : Type := mk_role_identity { ri_role : string; ri_probe : ProbeIdentity; ri_serial : SerialIdentity }.

Record proc : Type := mk_proc { returncode : Z; stdout : option (list ascii); stderr : option (list ascii) }.
Definition or_empty (o : option (list ascii)) : list ascii := default [] o.

Inductive failure : Type :=
| FailureLine (line : list ascii) | ExitStatus (status : Z) | MalformedMarker (line : list ascii) | MissingMarker (key : string).
Abbreviation row := (list (string * string)).
Abbreviation props := (list (string * string)).
Inductive raw_entry : Type :=
| Output (argv : list string) (out err : list ascii) (status : Z)
| ProbeRow (r : row)
| Fingerprint (argv : list string) (output : list ascii) (status : Z) (markers : list (string * string)) (failures : list failure)
| Udev (seen : list (string * option props)).
Abbreviation raw_map := (list (string * raw_entry)).

Record FixtureResolution : Type := mk_resolution { fr_roles : list (string * RoleIdentity); fr_raw : raw_map }.
Record CaptureResolution : Type := mk_capture_resolution {
  cr_device : string; cr_card_index : Z; cr_card_id : string; cr_sound_path : string; cr_properties : props }.

(** ** Tables and markers *)

(** [line.index(word, pos)] and [line[a:b]] *)
Fixpoint index_from (word l : list ascii) (i : nat) : option nat :=
  match strip_prefix word l with
  | Some _ => Some i
  | None => match l with [] => None | _ :: l => index_from word l (S i) end
  end.
Definition index (word line : list ascii) (pos : nat) : option nat := index_from word (drop pos line) pos.
Definition slice (l : list ascii) (a b : nat) : list ascii := take (b - a) (drop a l).

Fixpoint column_starts (line : list ascii) (words : list string) (pos : nat) : option (list nat) :=
  match words with
  | [] => Some []
  | word :: words =>
      i ← index (chars word) line pos;
      starts ← column_starts line words (i + String.length word)%nat;
      Some (i :: starts)
  end.
Fixpoint cells (line : list ascii) (starts : list nat) : list string :=
  match starts with
  | [] => []
  | a :: rest =>
      of_chars (strip (match rest with [] => drop a line | b :: _ => slice line a b end)) :: cells line rest
  end.

Definition parse_row (starts : list nat) (variant_start : nat) (line : list ascii) : result cause row :=
  ensure (negb (length line <? variant_start)%nat) TruncatedRow;;
  Ok (zip NRF_PROBES_HEADER (cells line starts)).

Definition header_words (st : pos) : list string := (fun n => of_chars (default [] (group n st))) <$> [1; 2; 3; 4; 5; 6; 7]%nat.
Definition parse_nrf_probes_table (out : list ascii) : result cause (list row) :=
  match List.filter (fun l => negb (bool_decide (strip l = []))) (splitlines out) with
  | [] => Err NoOutput
  | header :: lines =>
      st ← result_of_option BadHeader (re_match NRF_PROBES_HEADER_RE header);
      ensure (bool_decide (header_words st = NRF_PROBES_HEADER)) UnknownColumns;;
      (** A word of a match is in its line. *)
      starts ← result_of_option BadHeader (column_starts header NRF_PROBES_HEADER 0);
      result_mapM (parse_row starts (nth 5 starts 0%nat)) lines
  end.

(** [line.partition("=")] *)
Fixpoint partition_eq (l : list ascii) : option (list ascii * list ascii) :=
  match l with
  | [] => None
  | c :: l => if Ascii.eqb c "="%char then Some ([], l) else (fun '(u, v) => (c :: u, v)) <$> partition_eq l
  end.
Fixpoint udev_props (lines : list (list ascii)) (acc : props) : props :=
  match lines with
  | [] => acc
  | line :: lines =>
      udev_props lines (match partition_eq line with
                        | Some ((_ :: _) as key, value) => dict_set (of_chars key) (of_chars value) acc
                        | _ => acc end)
  end.
Definition _match_udev (p : option props) (configured : props) : bool :=
  match p with
  | None => false
  | Some p => forallb (fun '(k, v) => bool_decide (dict_get k p = Some v)) configured
  end.

Definition _openocd_failures (p : proc) : list ascii * list failure :=
  let raw_out := or_empty (stdout p) ++ [newline] ++ or_empty (stderr p) in
  (raw_out,
   (FailureLine <$> List.filter (fun l => match search OPENOCD_FAILURE_RE l with Some _ => true | None => false end) (splitlines raw_out)) ++
   (if returncode p =? 0 then [] else [ExitStatus (returncode p)])).

Definition MARKERS : list string := ["dpidr"; "ap0"; "ap1"; "ap2"; "ap3"; "part"; "variant"]%string.
Fixpoint read_markers (lines : list (list ascii)) (markers : list (string * string)) : list (string * string) * list failure :=
  match lines with
  | [] => (markers, [])
  | line :: lines =>
      match strip_prefix (chars "FWC") line with
      | None => read_markers lines markers
      | Some _ =>
          let bad := let '(m, f) := read_markers lines markers in (m, MalformedMarker line :: f) in
          match of_chars <$> split_on "|"%char line with
          | [fwc; key; value] =>
              if String.eqb fwc "FWC" && py_in key MARKERS then
                if dict_has key markers || negb (full RAW_HEX_RE value) then bad
                else read_markers lines (dict_set key value markers)
              else bad
          | _ => bad
          end
      end
  end.
Definition _parse_cmsis_dap_markers (out : list ascii) : list (string * string) * list failure :=
  let '(markers, failures) := read_markers (splitlines out) [] in
  (markers, failures ++ (MissingMarker <$> List.filter (fun k => negb (dict_has k markers)) MARKERS)).

Definition ap_keys : list string := ["ap0"; "ap1"; "ap2"; "ap3"]%string.
Definition _ap_idr_map (markers : list (string * string)) : result cause (list (string * string)) :=
  result_mapM (fun key => let value := default EmptyString (dict_get key markers) in
                          ensure (full RAW_HEX_RE value) (ApMalformed key);; Ok (key, value)) ap_keys.

(** [int(raw[2:], 16).to_bytes(4, "big")] *)
Definition hex_val (c : ascii) : Z := if is_digit c then code c - 48 else code c - 87.
Fixpoint hex_bytes (l : list ascii) : list ascii :=
  match l with a :: b :: l => chr (16 * hex_val a + hex_val b) :: hex_bytes l | _ => [] end.
Definition is_printable (c : ascii) : bool := between 32 126 c.
Definition _variant_display (raw_variant : string) : result cause string :=
  ensure (full RAW_HEX_RE raw_variant) VariantMalformed;;
  let value := hex_bytes (drop 2 (chars raw_variant)) in
  ensure (forallb is_ascii value) VariantNotAscii;;
  ensure (negb (bool_decide (value = [])) && forallb is_printable value) VariantNotPrintable;;
  Ok (of_chars value).

Definition cell (r : row) (key : string) : string := default EmptyString (dict_get key r).
Definition present (s : string) : bool := negb (String.eqb s EmptyString || String.eqb s "-").
Definition _require_cmsis_table_row (r : row) (role serial : string) : result cause (string * string) :=
  ensure (bool_decide (dict_get "SERIAL"%string r = Some serial)) (RowSerial role);;
  ensure (present (cell r "PROBE")) (ProductMissing role);;
  ensure (String.eqb (cell r "TARGET") RECEIVER_TARGET) (TargetDrift role);;
  ensure (String.eqb (cell r "DPIDR") RECEIVER_DPIDR) (DpidrDrift role);;
  ensure (String.eqb (cell r "PART") RECEIVER_PART) (PartDrift role);;
  ensure (present (cell r "VARIANT")) (VariantMissing role);;
  Ok (cell r "PROBE", cell r "VARIANT").

(** ** The world and the state *)

Record world : Type := mk_world {
  run_cmd : nat -> list string -> Z -> result exn proc;
  isdir : nat -> string -> bool;
  isfile : nat -> string -> bool;
  listdir : nat -> string -> result exn (list string);
  read_text : nat -> string -> result exn (list ascii) }.

Record state : Type := mk_state { turn : nat; commands : list (list string); raw : raw_map }.
Definition fresh : state := mk_state 0 [] [].
Definition tick (s : state) : state := mk_state (S (turn s)) (commands s) (raw s).
Definition issue (argv : list string) (s : state) : state := mk_state (turn s) (commands s ++ [argv]) (raw s).
Definition record (key : string) (e : raw_entry) (s : state) : state := mk_state (turn s) (commands s) (dict_set key e (raw s)).
(** [raw.setdefault(key, {})[name] = seen] *)
Definition record_udev (key name : string) (seen : option props) (s : state) : state :=
  record key (Udev (dict_set name seen (match dict_get key (raw s) with Some (Udev d) => d | _ => [] end))) s.

Abbreviation M := (method state exn).
Definition ask {A} (answer : nat -> A) : M A := s ← self; assign tick;; mret (answer (turn s)).
Definition call {A} (answer : nat -> result exn A) : M A := r ← ask answer; lift r.
Definition refuse {A} (c : cause) : M A := raise (DiscoveryError c).
Definition require (b : bool) (c : cause) : M unit := check b (DiscoveryError c).
Definition of_cause {A} (r : result cause A) : M A := lift (match r with Ok a => Ok a | Err c => Err (DiscoveryError c) end).

Section discovery.
Context (w : world) (sysfs_root : string).

Definition run (argv : list string) (timeout : Z) : M proc := assign (issue argv);; call (fun n => run_cmd w n argv timeout).

Definition udevadm (node : string) : list string := ["udevadm"; "info"; "--query=property"; "--path"; node]%string.
Definition _udev_properties (node : string) : M (option props) :=
  p ← run (udevadm node) 10;
  mret (if returncode p =? 0 then Some (udev_props (splitlines (or_empty (stdout p))) []) else None).

(** Up from a directory; a parent is shorter, or the root. *)
Fixpoint up_to_vendor (fuel : nat) (candidate : string) : M (option string) :=
  match fuel with
  | O => mret None
  | S fuel =>
      there ← ask (fun n => isfile w n (path_join candidate "idVendor"));
      if there : bool then mret (Some candidate)
      else if String.eqb (dirname candidate) candidate then mret None
      else up_to_vendor fuel (dirname candidate)
  end.
Definition _usb_parent (p : props) : M (option string) :=
  match dict_get "DEVPATH"%string p with
  | None | Some EmptyString => mret None
  | Some devpath =>
      let candidate := normpath (path_join sysfs_root (of_chars (lstrip (Ascii.eqb "/"%char) (chars devpath)))) in
      up_to_vendor (S (String.length candidate)) candidate
  end.

(** *** The sound card of a capture binding *)

Definition sound_dir : string := path_join (path_join sysfs_root "class") "sound".
Definition CARD_RE : re := (Lit "card" • Group 1 (Plus is_digit))%re.
(** [int] of the digits; Python refuses more than 4300. *)
Definition int_of (l : list ascii) : M Z := lift (result_of_option (OtherError "int") (py_int l)).

Fixpoint scan_cards (configured : props) (names : list string) : M (list (Z * string * props)) :=
  match names with
  | [] => mret []
  | name :: names =>
      match fullmatch CARD_RE (chars name) with
      | None => scan_cards configured names
      | Some st =>
          let node := path_join sound_dir name in
          dir ← ask (fun n => isdir w n node);
          if negb dir then scan_cards configured names else
            p ← _udev_properties node;
            if _match_udev p configured
            then (i ← int_of (default [] (group 1 st)); rest ← scan_cards configured names; mret ((i, node, default [] p) :: rest))
            else scan_cards configured names
      end
  end.

(** The text of the card between the first three characters and the comma. *)
Definition configured_card (device : string) : list ascii := default [] (head (split_on ","%char (drop 3 (chars device)))).

Definition resolve_capture_binding (binding : option CaptureBinding) : M CaptureResolution :=
  b ← lift (result_of_option (DiscoveryError NotACapture) binding);
  there ← ask (fun n => isdir w n sound_dir);
  require there NoSoundClass;;
  names ← call (fun n => listdir w n sound_dir);
  matches ← scan_cards (cb_udev b) (sorted_strings names);
  match matches with
  | [(card_index, sound_path, p)] =>
      let card := configured_card (cb_device b) in
      r ← tried (call (fun n => read_text w n (path_join sound_path "id")));
      text ← lift (match r with Err (OSError _) => Err (DiscoveryError CannotReadCardId) | r => r end);
      let card_id := strip text in
      require (negb (bool_decide (card_id = []))) EmptyCardId;;
      (if negb (bool_decide (card = [])) && forallb is_digit card
       then (i ← int_of card; require (i =? card_index) CardIndexMismatch)
       else require (bool_decide (card = card_id)) CardIdMismatch);;
      mret (mk_capture_resolution (cb_device b) card_index (of_chars card_id) sound_path p)
  | _ => refuse (CardAmbiguity (length matches))
  end.

(** *** Probes *)

Definition fingerprint_argv (serial : string) : list string :=
  ["openocd"; "-f"; "interface/cmsis-dap.cfg"; "-c"; "adapter serial " ++ serial; "-c"; "transport select swd"; "-c"; "adapter speed 1000";
   "-c"; "gdb port disabled"; "-c"; "tcl port disabled"; "-c"; "telnet port disabled"; "-c"; "swd newdap chip cpu";
   "-c"; "dap create chip.dap -chain-position chip.cpu"; "-c"; "target create chip.cpu cortex_m -dap chip.dap";
   "-c"; CMSIS_DAP_FINGERPRINT_TCL; "-c"; "init"; "-c"; "fwc_scan"; "-c"; "shutdown"]%string.
Record fingerprint : Type := mk_fingerprint {
  fp_argv : list string; fp_output : list ascii; fp_markers : list (string * string); fp_failures : list failure; fp_status : Z }.
Definition fingerprint_of (serial : string) (p : proc) : fingerprint :=
  let '(raw_out, failures) := _openocd_failures p in
  let '(markers, marker_failures) := _parse_cmsis_dap_markers (or_empty (stdout p)) in
  mk_fingerprint (fingerprint_argv serial) raw_out markers (failures ++ marker_failures) (returncode p).
Definition fingerprint_cmsis_dap (serial : string) : M fingerprint :=
  p ← run (fingerprint_argv serial) 60; mret (fingerprint_of serial p).

Definition marker (f : fingerprint) (key : string) : string := default EmptyString (dict_get key (fp_markers f)).
(** The checks after the fingerprint and the identity they give. *)
Definition identity_of (role serial product table_variant : string) (r : row) (f : fingerprint) : result cause ProbeIdentity :=
  ensure (bool_decide (fp_failures f = [])) (FingerprintFailed role);;
  ensure (String.eqb (marker f "dpidr") (cell r "DPIDR")) (MarkerDisagrees role "DPIDR");;
  ensure (String.eqb (marker f "part") (cell r "PART")) (MarkerDisagrees role "PART");;
  variant ← _variant_display (marker f "variant");
  ensure (String.eqb variant table_variant) (VariantDisagrees role);;
  ap_idrs ← _ap_idr_map (fp_markers f);
  Ok (mk_probe_identity role "nrf-probes" "nrf54l" serial product (cell r "TARGET") (marker f "dpidr") ap_idrs (marker f "part")
        variant (marker f "variant")).

Definition _resolve_cmsis_probe (role serial : string) (r : row) : M ProbeIdentity :=
  pv ← of_cause (_require_cmsis_table_row r role serial);
  f ← fingerprint_cmsis_dap serial;
  assign (record (role ++ "-cmsis-dap-fingerprint")%string (Fingerprint (fp_argv f) (fp_output f) (fp_status f) (fp_markers f) (fp_failures f)));;
  of_cause (identity_of role serial pv.1 pv.2 r f).

(** *** Serial ports *)

Definition tty_dir : string := path_join (path_join sysfs_root "class") "tty".
(** [binding.roles[name].probe]: an absent or a capture role raises. *)
Definition zephyr_role (b : PhysicalBinding) (name : string) : result exn PhysicalRoleBinding :=
  match dict_get name (b_roles b) with Some (inl r) => Ok r | _ => Err (OtherError name) end.

Definition is_candidate (probe_serial : string) (configured : props) (p : option props) : bool :=
  _match_udev p configured &&
  (let serial := default EmptyString (p ≫= dict_get "ID_SERIAL_SHORT"%string) in
   negb (String.eqb serial EmptyString) && String.eqb serial probe_serial).

Fixpoint scan_ttys (role probe_serial : string) (configured : props) (names : list string) : M (list (string * props)) :=
  match names with
  | [] => mret []
  | name :: names =>
      dir ← ask (fun n => isdir w n (path_join tty_dir name));
      if negb dir then scan_ttys role probe_serial configured names else
        p ← _udev_properties (path_join tty_dir name);
        assign (record_udev (role ++ "-udev")%string name p);;
        rest ← scan_ttys role probe_serial configured names;
        mret (if is_candidate probe_serial configured p then (name, default [] p) :: rest else rest)
  end.

Definition _resolve_serial (role : string) (b : PhysicalBinding) (probe : ProbeIdentity) : M SerialIdentity :=
  rb ← lift (zephyr_role b role);
  let port := serial rb in
  there ← ask (fun n => isdir w n tty_dir);
  require there NoTtyClass;;
  names ← call (fun n => listdir w n tty_dir);
  matches ← scan_ttys role (pi_serial probe) (sb_udev port) (sorted_strings names);
  match matches with
  | [(name, p)] =>
      parent ← _usb_parent p;
      mret (mk_serial_identity role (path_join "/dev" name) (baud port) p parent (dtr port) (rts port))
  | _ => refuse (SerialAmbiguity role (length matches))
  end.

Definition _resolved_roles (b : PhysicalBinding) (receiver source : ProbeIdentity) : M (RoleIdentity * RoleIdentity) :=
  receiver_serial ← _resolve_serial "receiver" b receiver;
  source_serial ← _resolve_serial "source" b source;
  require (negb (String.eqb (si_path receiver_serial) (si_path source_serial))) SharedTty;;
  require (negb (bool_decide (is_Some (si_usb_parent receiver_serial)) && bool_decide (si_usb_parent receiver_serial = si_usb_parent source_serial)))
    SharedParent;;
  mret (mk_role_identity "receiver" receiver receiver_serial, mk_role_identity "source" source source_serial).

(** *** Resolution *)

(** The serials as a caller may give them; a value that is not a string is
    [None]. *)
Inductive given_serials : Type := NotGiven | NotMapping | Given (serials : list (string * option string)).
Definition same_set (l k : list string) : bool := forallb (fun x => py_in x k) l && forallb (fun x => py_in x l) k.

Definition explicit_serial (b : PhysicalBinding) (given : list (string * option string)) (role : string) : result exn string :=
  serial ← result_of_option (DiscoveryError (SerialUnsafe role)) (default None (dict_get role given));
  ensure (full PROBE_SERIAL_RE serial) (DiscoveryError (SerialUnsafe role));;
  rb ← zephyr_role b role;
  ensure (String.eqb (pb_backend (probe rb)) "nrf-probes" && String.eqb (pb_family (probe rb)) "nrf54l") (DiscoveryError SerialsRoles);;
  Ok serial.

Definition _validate_explicit_probe_serials (b : PhysicalBinding) (given : given_serials) : result exn (string * string) :=
  match given with
  | NotGiven => Err (DiscoveryError SerialsRequired)
  | NotMapping => Err (DiscoveryError SerialsIncomplete)
  | Given serials =>
      ensure (same_set serials.*1 ["receiver"; "source"]%string) (DiscoveryError SerialsIncomplete);;
      receiver ← explicit_serial b serials "receiver";
      source ← explicit_serial b serials "source";
      ensure (negb (String.eqb receiver source)) (DiscoveryError SerialsEqual);;
      ensure (same_set (b_roles b).*1 ["receiver"; "source"]%string || same_set (b_roles b).*1 ["receiver"; "source"; "capture"]%string)
        (DiscoveryError RolesUnexpected);;
      Ok (receiver, source)
  end.

(** The row of one probe, recorded before it is checked. *)
Definition resolve_probe (rows : list row) (role serial : string) : M ProbeIdentity :=
  match List.filter (fun r => bool_decide (dict_get "SERIAL"%string r = Some serial)) rows with
  | [r] => assign (record (role ++ "-probe")%string (ProbeRow r));; _resolve_cmsis_probe role serial r
  | _ => refuse (RowMismatch role)
  end.

Definition probes_argv (receiver source : string) : list string := NIX_NRF_PROBES ++ [receiver; source].
Definition _resolve_explicit_pair (b : PhysicalBinding) (receiver source : string) : M FixtureResolution :=
  let argv := probes_argv receiver source in
  p ← run argv 90;
  assign (record "nrf-probes" (Output argv (or_empty (stdout p)) (or_empty (stderr p)) (returncode p)));;
  require (returncode p =? 0) (ProbesFailed (returncode p));;
  rows ← of_cause (parse_nrf_probes_table (or_empty (stdout p)));
  require (length rows =? 2)%nat NotTwoRows;;
  receiver_probe ← resolve_probe rows "receiver" receiver;
  source_probe ← resolve_probe rows "source" source;
  roles ← _resolved_roles b receiver_probe source_probe;
  let rp := si_usb_parent (ri_serial roles.1) in
  let sp := si_usb_parent (ri_serial roles.2) in
  require (bool_decide (is_Some rp) && bool_decide (is_Some sp) && negb (bool_decide (rp = sp))) ParentsNotDistinct;;
  s ← self;
  mret (mk_resolution [("receiver", roles.1); ("source", roles.2)]%string (raw s)).

Definition _resolve_fixture_impl (b : option PhysicalBinding) (given : given_serials) : M FixtureResolution :=
  b ← lift (result_of_option (DiscoveryError NotABinding) b);
  rs ← lift (_validate_explicit_probe_serials b given);
  _resolve_explicit_pair b rs.1 rs.2.

(** What leaves [resolve_fixture]: a discovery error carries the raw evidence
    gathered so far. *)
Inductive answer : Type := Resolved (r : FixtureResolution) | Refused (c : cause) (evidence : raw_map) | Escaped (e : exn).
Definition resolve_fixture (b : option PhysicalBinding) (given : given_serials) (turn0 : nat) : answer * state :=
  match _resolve_fixture_impl b given (mk_state turn0 [] []) with
  | (Ok r, s) => (Resolved r, s)
  | (Err (DiscoveryError c), s) => (Refused c (raw s), s)
  | (Err Interrupt, s) => (Escaped Interrupt, s)
  | (Err (OSError t), s) | (Err (OtherError t), s) => (Refused (Wrapped t) (raw s), s)
  end.
End discovery.

(** ** Rules for runs *)

Lemma wp_answer {A} (f : nat -> A) Q X s : wp (ask f) Q X s <-> Q (f (turn s)) (tick s).
Proof. done. Qed.
Lemma wp_called {A} (f : nat -> result exn A) Q X s :
  wp (call f) Q X s <-> match f (turn s) with Ok a => Q a (tick s) | Err e => X e (tick s) end.
Proof. unfold call. rewrite wp_bind, wp_answer. apply wp_lift. Qed.
Lemma wp_ran w argv t Q X s :
  wp (run w argv t) Q X s <->
  match run_cmd w (turn s) argv t with Ok p => Q p (tick (issue argv s)) | Err e => X e (tick (issue argv s)) end.
Proof. unfold run. rewrite wp_bind, wp_assign, wp_called. done. Qed.
Lemma wp_required b x Q X s : wp (require b x) Q X s <-> if b then Q tt s else X (DiscoveryError x) s.
Proof. apply wp_check. Qed.
Lemma wp_refused {A} x (Q : A -> state -> Prop) X s : wp (refuse x) Q X s <-> X (DiscoveryError x) s.
Proof. done. Qed.
Lemma wp_of_cause {A} (r : result cause A) Q X s :
  wp (of_cause r) Q X s <-> match r with Ok a => Q a s | Err c => X (DiscoveryError c) s end.
Proof. unfold of_cause. rewrite wp_lift. by destruct r. Qed.

Ltac wp_rule :=
  first [ rewrite wp_bind | rewrite wp_answer | rewrite wp_called | rewrite wp_ran | rewrite wp_refused | rewrite wp_required
        | rewrite wp_of_cause | rewrite wp_tried | rewrite wp_except | rewrite wp_ret | rewrite wp_raise | rewrite wp_assign
        | rewrite wp_self | rewrite wp_check | rewrite wp_lift ].
Ltac wp_auto := repeat (wp_rule; cbv beta).

(** ** Evidence and commands *)

(** The commands whose result an entry keeps. *)
Definition shows (tty_dir : string) (e : raw_entry) (argv : list string) : Prop :=
  match e with
  | Output a _ _ _ => a = argv
  | ProbeRow _ => False
  | Fingerprint a _ _ _ _ => a = argv
  | Udev seen => exists name, name ∈ seen.*1 /\ argv = udevadm (path_join tty_dir name)
  end.
Definition retained (tty_dir : string) (ev : raw_map) (argv : list string) : Prop :=
  exists key e, dict_get key ev = Some e /\ shows tty_dir e argv.

Section evidence.
Context (w : world) (sysfs_root : string).
Abbreviation tty := (tty_dir sysfs_root).
Abbreviation kept := (retained tty).

(** The commands that are read-only. *)
Definition read_only (serials : list string) (argv : list string) : Prop :=
  (exists r s, argv = probes_argv r s /\ r ∈ serials /\ s ∈ serials) \/ (exists s, argv = fingerprint_argv s /\ s ∈ serials) \/
  (exists name, argv = udevadm (path_join tty name)).

(** Every command so far is read-only and its result is kept; the keys of the
    evidence are among [ks]. *)
Definition complete_evidence (serials ks : list string) (s : state) : Prop :=
  (forall argv, argv ∈ commands s -> read_only serials argv /\ kept (raw s) argv) /\ (forall k, dict_has k (raw s) = true -> k ∈ ks).
(** The same, up to a last command that raised. *)
Definition complete_but_last (serials : list string) (s : state) : Prop :=
  exists cs last, commands s = cs ++ last /\ (length last <= 1)%nat /\
    (forall argv, argv ∈ cs -> read_only serials argv /\ kept (raw s) argv) /\ (forall argv, argv ∈ last -> read_only serials argv).

Lemma complete_weaken serials ks s : complete_evidence serials ks s -> complete_but_last serials s.
Proof.
  intros [H _]. exists (commands s), []. rewrite app_nil_r. split_and!; [done | simpl; lia | done | by intros ? ?%elem_of_nil].
Qed.
Lemma complete_keys serials ks ks' s : ks ⊆ ks' -> complete_evidence serials ks s -> complete_evidence serials ks' s.
Proof. intros Hk [H1 H2]. split; [done|]. set_solver. Qed.
Lemma complete_tick serials ks s : complete_evidence serials ks s -> complete_evidence serials ks (tick s).
Proof. done. Qed.

Lemma complete_issued serials ks s argv :
  complete_evidence serials ks s -> read_only serials argv -> complete_but_last serials (tick (issue argv s)).
Proof.
  intros [H _] Hr. exists (commands s), [argv]. split_and!; [done | simpl; lia | done | by intros ? ->%list_elem_of_singleton].
Qed.

Lemma dict_has_set (k k' : string) {V} (v : V) d : dict_has k' (dict_set k v d) = true -> k' = k \/ dict_has k' d = true.
Proof.
  rewrite !dict_has_spec, dict_set_keys. destruct (dict_has k d); [by right|]. intros [?| ->%list_elem_of_singleton]%elem_of_app; auto.
Qed.

(** A new entry keeps what was retained, if its key is new or it extends what
    was there. *)
Lemma record_complete serials ks s k e argv :
  complete_evidence serials ks s ->
  (forall e0 a, dict_get k (raw s) = Some e0 -> shows tty e0 a -> shows tty e a) ->
  (forall a, a ∈ argv -> read_only serials a /\ shows tty e a) ->
  complete_evidence serials (k :: ks) (record k e (foldr issue s argv)).
Proof.
  intros [H1 H2] Hext Hnew. assert (forall l, raw (foldr issue s l) = raw s) as Hraw by (induction l; done).
  assert (forall a, a ∈ commands (foldr issue s argv) -> a ∈ commands s \/ a ∈ argv) as Hcmd.
  { clear Hnew. induction argv as [|x argv IH]; [by left|]. intros a. simpl. rewrite elem_of_app, list_elem_of_singleton, elem_of_cons. naive_solver. }
  split.
  - intros a [Ha|Ha]%Hcmd.
    + destruct (H1 a Ha) as (Hr & k' & e' & Hg & Hs). split; [done|]. simpl. rewrite Hraw. destruct (decide (k' = k)) as [->|Hne].
      * exists k, e. rewrite dict_get_set_eq. split; [done|]. by eapply Hext.
      * exists k', e'. by rewrite dict_get_set_ne by done.
    + destruct (Hnew a Ha). split; [done|]. exists k, e. simpl. by rewrite Hraw, dict_get_set_eq.
  - intros k'. simpl. rewrite Hraw. intros [->|H]%dict_has_set; [by left|]. right. by apply H2.
Qed.
Lemma record_new serials ks s k e argv :
  complete_evidence serials ks s -> k ∉ ks -> (forall a, a ∈ argv -> read_only serials a /\ shows tty e a) ->
  complete_evidence serials (k :: ks) (record k e (foldr issue s argv)).
Proof.
  intros H Hk Hnew. apply record_complete; [done| |done]. intros e0 a Hg. exfalso. apply Hk, (proj2 H).
  unfold dict_has. by rewrite Hg.
Qed.

(** One [udevadm], recorded. *)
Lemma udev_recorded serials ks s role name p :
  complete_evidence serials ks s -> (role ++ "-udev")%string ∈ ks -> (forall e, dict_get (role ++ "-udev")%string (raw s) = Some e -> exists d, e = Udev d) ->
  complete_evidence serials ks (record_udev (role ++ "-udev")%string name p (tick (issue (udevadm (path_join tty name)) s))).
Proof.
  intros Hc Hk Hu. unfold record_udev. simpl. set (d := match dict_get _ (raw s) with Some (Udev d) => d | _ => [] end).
  apply (complete_keys _ ((role ++ "-udev")%string :: ks)); [set_solver|].
  apply (record_complete _ _ (tick s) _ _ [udevadm (path_join tty name)]); [done| |].
  - intros e0 a He. destruct (Hu e0 He) as (d0 & ->). simpl in He. unfold d. rewrite He. intros (n & Hn & ->). exists n. split; [|done].
    rewrite dict_set_keys. destruct (dict_has name d0); set_solver.
  - intros a ->%list_elem_of_singleton. split; [right; right; by eexists|]. exists name. split; [|done].
    rewrite dict_set_keys. destruct (dict_has name d) eqn:Hd; [by apply dict_has_spec | set_solver].
Qed.
End evidence.

Section retention.
Context (w : world) (sysfs_root : string) (serials : list string).
Abbreviation complete := (complete_evidence sysfs_root serials).
Abbreviation but_last := (complete_but_last sysfs_root serials).

(** From complete evidence under [ks], [m] returns with complete evidence
    under [ks'], or raises with at most the last command unrecorded. *)
Definition retains {A} (ks ks' : list string) (m : M A) : Prop :=
  forall s, complete ks s -> wp m (fun _ => complete ks') (fun _ => but_last) s.

Lemma retains_bind {A B} ks ks1 ks2 (m : M A) (f : A -> M B) : retains ks ks1 m -> (forall a, retains ks1 ks2 (f a)) -> retains ks ks2 (m ≫= f).
Proof. intros Hm Hf s Hs. rewrite wp_bind. eapply wp_mono; [by apply Hm | intros a s' H; by apply Hf | done]. Qed.
Lemma retains_ret {A} ks (a : A) : retains ks ks (mret a).
Proof. by intros s Hs. Qed.
Lemma retains_lift {A} ks (r : result exn A) : retains ks ks (lift r).
Proof. intros s Hs. rewrite wp_lift. destruct r; [done|]. by eapply complete_weaken. Qed.
Lemma retains_of_cause {A} ks (r : result cause A) : retains ks ks (of_cause r).
Proof. intros s Hs. rewrite wp_of_cause. destruct r; [done|]. by eapply complete_weaken. Qed.
Lemma retains_require ks b x : retains ks ks (require b x).
Proof. intros s Hs. rewrite wp_required. destruct b; [done|]. by eapply complete_weaken. Qed.
Lemma retains_refuse {A} ks ks' x : retains ks ks' (refuse (A := A) x).
Proof. intros s Hs. rewrite wp_refused. by eapply complete_weaken. Qed.
Lemma retains_ask {A} ks (f : nat -> A) : retains ks ks (ask f).
Proof. by intros s Hs. Qed.
Lemma retains_call {A} ks (f : nat -> result exn A) : retains ks ks (call f).
Proof. intros s Hs. rewrite wp_called. destruct (f (turn s)); [done|]. by apply (complete_weaken _ _ ks). Qed.
Lemma retains_self ks : retains ks ks self.
Proof. by intros s Hs. Qed.
Create HintDb retains.
#[local] Hint Resolve retains_ret retains_lift retains_of_cause retains_require retains_refuse retains_ask retains_call retains_self : retains.

Lemma usb_parent_retains ks p : retains ks ks (_usb_parent w sysfs_root p).
Proof.
  assert (forall fuel c, retains ks ks (up_to_vendor w fuel c)) as Hup.
  { induction fuel as [|fuel IH]; intros c; [apply retains_ret|]. simpl. eapply retains_bind; [apply retains_ask|]. intros [].
    - apply retains_ret. - destruct (String.eqb _ _); [apply retains_ret | apply IH]. }
  unfold _usb_parent. destruct (dict_get _ p) as [[|c l]|]; auto with retains.
Qed.

(** The scan of the ttys, each query recorded under the role. *)
Definition udev_entry (key : string) (s : state) : Prop := forall e, dict_get key (raw s) = Some e -> exists d, e = Udev d.
Lemma scan_retains role serial configured names ks s :
  (role ++ "-udev")%string ∈ ks -> complete ks s -> udev_entry (role ++ "-udev")%string s ->
  wp (scan_ttys w sysfs_root role serial configured names) (fun _ => complete ks) (fun _ => but_last) s.
Proof.
  intros Hk. revert s. induction names as [|name names IH]; intros s Hs Hu; [done|]. simpl. wp_rule. wp_rule.
  destruct (negb _); [by apply IH|]. unfold _udev_properties. rewrite wp_bind, wp_bind, wp_ran.
  change (path_join (tty_dir sysfs_root) name) with (path_join (tty_dir sysfs_root) name).
  destruct (run_cmd w _ _ 10) as [p|e].
  - rewrite wp_ret. rewrite wp_bind, wp_assign. rewrite wp_bind. eapply wp_mono; [apply IH| |done].
    + apply udev_recorded; [done..|]. done.
    + unfold record_udev, udev_entry. simpl. intros e. rewrite dict_get_set_eq. intros [= <-]. by eexists.
    + intros ms s' H. rewrite wp_ret. done.
  - apply (complete_issued _ _ ks); [done|]. right. right. by eexists.
Qed.

Lemma resolve_serial_retains ks role b p :
  (role ++ "-udev")%string ∉ ks -> retains ks ((role ++ "-udev")%string :: ks) (_resolve_serial w sysfs_root role b p).
Proof.
  intros Hk. unfold _resolve_serial. eapply retains_bind; [auto with retains|intros rb].
  eapply retains_bind; [auto with retains|intros there]. eapply retains_bind; [auto with retains|intros _].
  eapply retains_bind; [auto with retains|intros names].
  apply (retains_bind _ ((role ++ "-udev")%string :: ks)).
  - intros s Hs. apply scan_retains; [by left|..].
    + eapply complete_keys; [|exact Hs]. set_solver.
    + intros e He. exfalso. apply Hk. apply (proj2 Hs). unfold dict_has. by rewrite He.
  - intros [|[name q] [|]]; auto with retains. eapply retains_bind; [apply usb_parent_retains | auto with retains].
Qed.

(** A command whose result is recorded at once. *)
Lemma run_recorded {A} ks ks' argv t k (f : proc -> raw_entry) (m : proc -> M A) :
  read_only sysfs_root serials argv -> k ∉ ks -> (forall p, shows (tty_dir sysfs_root) (f p) argv) -> (forall p, retains (k :: ks) ks' (m p)) ->
  retains ks ks' (p ← run w argv t; assign (record k (f p));; m p).
Proof.
  intros Hr Hk Hf Hm s Hs. rewrite wp_bind, wp_ran. destruct (run_cmd w _ _ t) as [p|e].
  - rewrite wp_bind, wp_assign. apply Hm. apply (record_new sysfs_root serials _ (tick s) _ _ [argv]); [done..|].
    by intros a ->%list_elem_of_singleton.
  - by apply (complete_issued _ _ ks).
Qed.

Lemma resolve_probe_retains ks rows role serial :
  serial ∈ serials -> (role ++ "-probe")%string ∉ ks -> (role ++ "-cmsis-dap-fingerprint")%string ∉ (role ++ "-probe")%string :: ks ->
  retains ks ((role ++ "-cmsis-dap-fingerprint")%string :: (role ++ "-probe")%string :: ks) (resolve_probe w rows role serial).
Proof.
  intros Hser Hk1 Hk2. unfold resolve_probe. destruct (List.filter _ rows) as [|r [|]]; auto with retains. eapply retains_bind.
  - intros s Hs. rewrite wp_assign. apply (record_new sysfs_root serials ks s _ _ []); [done..|]. by intros a ?%elem_of_nil.
  - intros _. unfold _resolve_cmsis_probe. eapply retains_bind; [auto with retains|intros pv].
    assert (forall p, fp_argv (fingerprint_of serial p) = fingerprint_argv serial) as Hargv.
    { intros p. unfold fingerprint_of. by destruct (_openocd_failures p), (_parse_cmsis_dap_markers _). }
    intros s Hs. unfold fingerprint_cmsis_dap. rewrite wp_bind, wp_bind.
    pose proof (run_recorded _ _ (fingerprint_argv serial) 60 _ 
      (fun p => let f := fingerprint_of serial p in Fingerprint (fp_argv f) (fp_output f) (fp_status f) (fp_markers f) (fp_failures f))
      (fun p => of_cause (identity_of role serial pv.1 pv.2 r (fingerprint_of serial p)))
      ltac:(right; left; by exists serial) Hk2 ltac:(intros p; apply Hargv) ltac:(intros p; apply retains_of_cause) s Hs) as H.
    rewrite wp_bind in H. exact H.
Qed.

Lemma resolved_roles_retains ks b receiver source :
  "receiver-udev"%string ∉ ks -> "source-udev"%string ∉ "receiver-udev"%string :: ks ->
  retains ks ("source-udev" :: "receiver-udev" :: ks)%string (_resolved_roles w sysfs_root b receiver source).
Proof.
  intros H1 H2. unfold _resolved_roles. eapply retains_bind; [by apply (resolve_serial_retains ks "receiver")|intros rs].
  eapply retains_bind; [by apply (resolve_serial_retains _ "source")|intros ss].
  repeat (eapply retains_bind; [apply retains_require|intros _]). apply retains_ret.
Qed.

Definition EVIDENCE_KEYS : list string :=
  ["source-udev"; "receiver-udev"; "source-cmsis-dap-fingerprint"; "source-probe"; "receiver-cmsis-dap-fingerprint"; "receiver-probe";
   "nrf-probes"]%string.
Lemma explicit_pair_retains b receiver source : receiver ∈ serials -> source ∈ serials ->
  retains [] EVIDENCE_KEYS (_resolve_explicit_pair w sysfs_root b receiver source).
Proof.
  intros Hr Hs. unfold _resolve_explicit_pair.
  apply (run_recorded _ _ _ _ _ (fun p => Output (probes_argv receiver source) (or_empty (stdout p)) (or_empty (stderr p)) (returncode p)));
    [left; by exists receiver, source | by apply not_elem_of_nil | done |].
  intros p. eapply retains_bind; [apply retains_require|intros _]. eapply retains_bind; [apply retains_of_cause|intros rows].
  eapply retains_bind; [apply retains_require|intros _].
  eapply retains_bind; [apply (resolve_probe_retains _ _ "receiver"); [done | vm_compute; set_solver | vm_compute; set_solver]|intros rp].
  eapply retains_bind; [apply (resolve_probe_retains _ _ "source"); [done | vm_compute; set_solver | vm_compute; set_solver]|intros sp].
  eapply retains_bind; [apply resolved_roles_retains; vm_compute; set_solver|intros roles].
  eapply retains_bind; [apply retains_require|intros _]. eapply retains_bind; [apply retains_self|intros st]. apply retains_ret.
Qed.
End retention.

(** ** What a resolution rests on *)

Section earned.
Context (w : world) (sysfs_root : string).

Lemma call_returned {A} (f : nat -> result exn A) a s s' : call f s = (Ok a, s') -> exists n, f n = Ok a.
Proof.
  unfold call. intros H. apply bind_run_Ok in H as (r & s1 & H1 & H). apply lift_run_Ok in H as [-> _].
  unfold ask in H1. method_inv H1. by eexists.
Qed.
Lemma run_returned argv t p s s' : run w argv t s = (Ok p, s') -> exists n, run_cmd w n argv t = Ok p.
Proof.
  unfold run. intros H. apply bind_run_Ok in H as (u & s1 & _ & H). apply call_returned in H as (n & H). eauto.
Qed.
Lemma require_returned b x u s s' : require b x s = (Ok u, s') -> b = true /\ s' = s.
Proof. apply check_run_Ok. Qed.
Lemma of_cause_returned {A} (r : result cause A) a s s' : of_cause r s = (Ok a, s') -> r = Ok a.
Proof. unfold of_cause. intros H. apply lift_run_Ok in H as [H _]. destruct r; [congruence | done]. Qed.

(** The identity of a probe: its one row, and a fingerprint that agrees. *)
Definition probe_earned (rows : list row) (role serial : string) (i : ProbeIdentity) : Prop :=
  exists r n p, let f := fingerprint_of serial p in
    List.filter (fun r => bool_decide (dict_get "SERIAL"%string r = Some serial)) rows = [r] /\
    run_cmd w n (fingerprint_argv serial) 60 = Ok p /\ fp_failures f = [] /\
    pi_role i = role /\ pi_backend i = "nrf-probes"%string /\ pi_family i = "nrf54l"%string /\ pi_serial i = serial /\
    pi_product i = cell r "PROBE" /\ present (pi_product i) = true /\
    pi_target i = RECEIVER_TARGET /\ pi_dpidr i = RECEIVER_DPIDR /\ pi_part i = RECEIVER_PART /\
    marker f "dpidr" = RECEIVER_DPIDR /\ marker f "part" = RECEIVER_PART /\
    pi_variant_raw i = marker f "variant" /\ _variant_display (pi_variant_raw i) = Ok (pi_variant i) /\ cell r "VARIANT" = pi_variant i /\
    _ap_idr_map (fp_markers f) = Ok (pi_ap_idrs i).

Lemma resolve_probe_earned rows role serial i s s' : resolve_probe w rows role serial s = (Ok i, s') -> probe_earned rows role serial i.
Proof.
  unfold resolve_probe. destruct (List.filter _ rows) as [|r [|]] eqn:Hf; try done. intros H.
  apply bind_run_Ok in H as (u & s1 & _ & H). unfold _resolve_cmsis_probe in H. apply bind_run_Ok in H as ([product variant] & s2 & H1 & H).
  apply of_cause_returned in H1. apply bind_run_Ok in H as (f & s3 & H2 & H). unfold fingerprint_cmsis_dap in H2.
  apply bind_run_Ok in H2 as (p & s4 & H2 & H3). apply run_returned in H2 as (n & H2). apply ret_run_Ok in H3 as [-> _].
  apply bind_run_Ok in H as (v & s5 & _ & H). apply of_cause_returned in H. unfold _require_cmsis_table_row in H1. unfold identity_of in H.
  result_inv H1. result_inv H. simplify_eq/=. exists r, n, p.
  repeat match goal with G : String.eqb _ _ = true |- _ => apply String.eqb_eq in G | G : bool_decide _ = true |- _ => apply bool_decide_eq_true in G end.
  split_and!; simpl; try done; congruence.
Qed.

(** Properties that carry every configured one, and the probe's serial. *)
Definition correlated (probe_serial : string) (configured : list (string * string)) (q : option props) : Prop :=
  exists p, q = Some p /\ (forall k v, (k, v) ∈ configured -> dict_get k p = Some v) /\
    dict_get "ID_SERIAL_SHORT"%string p = Some probe_serial /\ probe_serial <> EmptyString.
Lemma is_candidate_iff ps configured q : is_candidate ps configured q = true <-> correlated ps configured q.
Proof.
  unfold is_candidate, correlated. destruct q as [p|]; simpl; [|naive_solver]. rewrite !andb_true_iff, forallb_forall, negb_true_iff, String.eqb_neq, String.eqb_eq.
  split.
  - intros (Hm & Hne & Hs). exists p. split_and!; [done | | |].
    + intros k v Hk%list_elem_of_In. apply (Hm (k, v)) in Hk. by apply bool_decide_eq_true in Hk.
    + destruct (dict_get _ p); simpl in *; by subst.
    + by rewrite <- Hs.
  - intros (? & [= <-] & Hm & Hs & Hne). rewrite Hs. split_and!; try done. intros [k v] Hk%list_elem_of_In. by apply bool_decide_eq_true, Hm.
Qed.

(** The port of a role: of the directories under [class/tty] that were
    looked at, exactly one matched the binding and the probe. *)
Definition port_earned (rb : PhysicalRoleBinding) (role probe_serial : string) (i : SerialIdentity) : Prop :=
  exists n names seen name p,
    listdir w n (tty_dir sysfs_root) = Ok names /\ seen.*1 `sublist_of` sorted_strings names /\
    (forall x q, (x, q) ∈ seen -> (exists k, isdir w k (path_join (tty_dir sysfs_root) x) = true) /\
       exists k o, run_cmd w k (udevadm (path_join (tty_dir sysfs_root) x)) 10 = Ok o /\
         q = if returncode o =? 0 then Some (udev_props (splitlines (or_empty (stdout o))) []) else None) /\
    (forall x, x ∈ names -> x ∉ seen.*1 -> exists k, isdir w k (path_join (tty_dir sysfs_root) x) = false) /\
    (name, Some p) ∈ seen /\ correlated probe_serial (sb_udev (serial rb)) (Some p) /\
    (forall x q, (x, q) ∈ seen -> correlated probe_serial (sb_udev (serial rb)) q -> (x, q) = (name, Some p)) /\
    si_role i = role /\ si_path i = path_join "/dev" name /\ si_properties i = p /\
    si_baud i = baud (serial rb) /\ si_dtr i = dtr (serial rb) /\ si_rts i = rts (serial rb).

Lemma scan_ttys_seen role ps configured names ms s s' : scan_ttys w sysfs_root role ps configured names s = (Ok ms, s') ->
  exists seen, seen.*1 `sublist_of` names /\
    (forall x q, (x, q) ∈ seen -> (exists k, isdir w k (path_join (tty_dir sysfs_root) x) = true) /\
       exists k o, run_cmd w k (udevadm (path_join (tty_dir sysfs_root) x)) 10 = Ok o /\
         q = if returncode o =? 0 then Some (udev_props (splitlines (or_empty (stdout o))) []) else None) /\
    (forall x, x ∈ names -> x ∉ seen.*1 -> exists k, isdir w k (path_join (tty_dir sysfs_root) x) = false) /\
    ms = (fun x : string * option props => (x.1, default [] x.2)) <$> List.filter (fun x => is_candidate ps configured x.2) seen.
Proof.
  revert ms s s'. induction names as [|name names IH]; intros ms s s' H.
  { apply ret_run_Ok in H as [-> _]. exists []. split_and!; [done | by intros ? ? ?%elem_of_nil | by intros ? ?%elem_of_nil | done]. }
  simpl in H. apply bind_run_Ok in H as (dir & s1 & H1 & H). unfold ask in H1. method_inv H1.
  destruct (isdir w _ _) eqn:Hd; simpl in H.
  - unfold _udev_properties in H. apply bind_run_Ok in H as (q & s2 & H2 & H). apply bind_run_Ok in H2 as (o & s3 & H2 & H3).
    apply run_returned in H2 as (k & H2). apply ret_run_Ok in H3 as [-> ->].
    apply bind_run_Ok in H as (u & s4 & _ & H). apply bind_run_Ok in H as (rest & s5 & H4 & H). apply ret_run_Ok in H as [-> _].
    apply IH in H4 as (seen & S1 & S2 & S3 & ->). set (q := if returncode o =? 0 then _ else None).
    exists ((name, q) :: seen). split_and!.
    + simpl. by apply sublist_skip.
    + intros x y [[= -> ->]|Hin]%elem_of_cons; [|by apply S2]. split; [by eexists|]. by exists k, o.
    + intros x [->|Hin]%elem_of_cons Hx; [exfalso; apply Hx; by left|]. apply S3; [done|]. intros ?. apply Hx. by right.
    + simpl. by destruct (is_candidate ps configured q).
  - apply IH in H as (seen & S1 & S2 & S3 & ->). exists seen. split_and!; [by apply sublist_cons | done | | done].
    intros x [->|Hin]%elem_of_cons Hx; [by eexists | by apply S3].
Qed.

Lemma resolve_serial_earned role b probe i s s' : _resolve_serial w sysfs_root role b probe s = (Ok i, s') ->
  exists rb, dict_get role (b_roles b) = Some (inl rb) /\ port_earned rb role (pi_serial probe) i.
Proof.
  unfold _resolve_serial. intros H. apply bind_run_Ok in H as (rb & s1 & H1 & H). apply lift_run_Ok in H1 as [H1 _].
  unfold zephyr_role in H1. destruct (dict_get role (b_roles b)) as [[r|]|] eqn:Hg; simplify_eq. exists rb. split; [done|].
  apply bind_run_Ok in H as (there & s2 & _ & H). apply bind_run_Ok in H as (u & s3 & _ & H).
  apply bind_run_Ok in H as (names & s4 & H2 & H). apply bind_run_Ok in H as (ms & s5 & H3 & H).
  apply call_returned in H2 as (n & H2). apply scan_ttys_seen in H3 as (seen & S1 & S2 & S3 & ->).
  destruct (List.filter _ seen) as [|[name q] [|]] eqn:Hf; try done. simpl in H.
  assert (In (name, q) (List.filter (fun x => is_candidate (pi_serial probe) (sb_udev (serial rb)) x.2) seen)) as Hin by (rewrite Hf; by left).
  apply filter_In in Hin as [Hseen%list_elem_of_In Hc%is_candidate_iff]. pose proof Hc as (p & Hp & _). simpl in Hp. subst q.
  apply bind_run_Ok in H as (parent & s6 & _ & H). apply ret_run_Ok in H as [-> _].
  exists n, names, seen, name, p. split_and!; try done.
  - intros x Hx. apply S3. by apply sorted_strings_elem.
  - intros x q Hx%list_elem_of_In Hq%is_candidate_iff. cut (In (x, q) [(name, Some p)]); [by intros [[= <- <-]|[]]|].
    rewrite <- Hf. by apply filter_In.
Qed.
End earned.

(** ** Properties *)

Module DiscoveryTheorems.

(** The strings among the serials a caller gave. *)
Definition serials_of (given : given_serials) : list string := match given with Given l => omap snd l | _ => [] end.

Lemma explicit_serial_Ok b l role s : explicit_serial b l role = Ok s ->
  dict_get role l = Some (Some s) /\ full PROBE_SERIAL_RE s = true /\
  exists rb, dict_get role (b_roles b) = Some (inl rb) /\ pb_backend (probe rb) = "nrf-probes"%string /\ pb_family (probe rb) = "nrf54l"%string.
Proof.
  unfold explicit_serial. intros H. result_inv H. subst. unfold zephyr_role in *.
  destruct (dict_get role l) as [[x|]|]; simplify_eq/=. destruct (dict_get role (b_roles b)) as [[rb|]|] eqn:Hrb; simplify_eq.
  repeat match goal with G : _ && _ = true |- _ => apply andb_true_iff in G as [?%String.eqb_eq ?%String.eqb_eq] end. eauto 10.
Qed.

Lemma serials_validated b given receiver source : _validate_explicit_probe_serials b given = Ok (receiver, source) ->
  exists l, given = Given l /\ dict_get "receiver"%string l = Some (Some receiver) /\ dict_get "source"%string l = Some (Some source) /\
    full PROBE_SERIAL_RE receiver = true /\ full PROBE_SERIAL_RE source = true /\ receiver <> source.
Proof.
  unfold _validate_explicit_probe_serials. destruct given as [| |l]; try done. intros H. result_inv H. simplify_eq. exists l.
  repeat match goal with G : explicit_serial _ _ _ = Ok _ |- _ => apply explicit_serial_Ok in G as (? & ? & _) end.
  repeat match goal with G : negb (String.eqb _ _) = true |- _ => apply negb_true_iff, String.eqb_neq in G end. done.
Qed.

Lemma serials_in l role x : dict_get role l = Some (Some x) -> x ∈ serials_of (Given l).
Proof. intros H%dict_get_elem. apply list_elem_of_omap. by exists (role, Some x). Qed.

Section theorems.
Context (w : world) (sysfs_root : string).

Lemma explicit_pair_raw b receiver source r st s : _resolve_explicit_pair w sysfs_root b receiver source st = (Ok r, s) -> fr_raw r = raw s.
Proof.
  unfold _resolve_explicit_pair. intros H. do 9 (apply bind_run_Ok in H as (? & ? & _ & H)).
  apply bind_run_Ok in H as (? & ? & H1 & H). apply self_run_Ok in H1 as [-> ->]. by apply ret_run_Ok in H as [-> ->].
Qed.



Definition holds_vendor (t : nat) (dir : string) : bool := isfile w t (path_join dir "idVendor").
Lemma up_to_vendor_spec fuel c s o s' : (String.length c < fuel)%nat -> up_to_vendor w fuel c s = (Ok o, s') ->
  exists k, let top := Nat.iter k dirname c in
    (forall j, (j < k)%nat -> holds_vendor (turn s + j) (Nat.iter j dirname c) = false) /\
    match o with
    | Some x => x = top /\ holds_vendor (turn s + k) top = true
    | None => dirname top = top /\ holds_vendor (turn s + k) top = false
    end.
Proof.
  revert c s. induction fuel as [|fuel IH]; intros c s Hf H; [lia|]. simpl in H. apply bind_run_Ok in H as (there & s1 & H1 & H).
  unfold ask in H1. method_inv H1. destruct (isfile w (turn s) _) eqn:Hv.
  - apply ret_run_Ok in H as [-> _]. exists 0%nat. simpl. split; [lia|]. split; [done|]. by rewrite Nat.add_0_r.
  - destruct (String.eqb_spec (dirname c) c) as [He|He].
    + apply ret_run_Ok in H as [-> _]. exists 0%nat. simpl. split; [lia|]. split; [done|]. by rewrite Nat.add_0_r.
    + apply IH in H as (k & Hlow & Htop); [|destruct (dirname_shorter c); [done | lia]]. exists (S k). simpl in Hlow, Htop.
      assert (forall j, Nat.iter (S j) dirname c = Nat.iter j dirname (dirname c)) as Hit by (intros j; apply Nat.iter_succ_r).
      split.
      * intros [|j] Hj; [by rewrite Nat.add_0_r|]. rewrite Hit. replace (turn s + S j)%nat with (S (turn s + j)) by lia. apply Hlow. lia.
      * rewrite Hit. by replace (turn s + S k)%nat with (S (turn s + k)) by lia.
Qed.
(** The USB parent of a port is the deepest directory above its device path
    that holds an [idVendor]: none of the directories below it does; and there
    is no parent only when the walk reached a directory that is its own parent
    without finding one. *)
Theorem usb_parent_deepest (p : props) (devpath : string) (o : option string) (s s' : state)
    (Hp : dict_get "DEVPATH"%string p = Some devpath) (Hne : devpath <> EmptyString) (H : _usb_parent w sysfs_root p s = (Ok o, s')) :
  let start := normpath (path_join sysfs_root (of_chars (lstrip (Ascii.eqb "/"%char) (chars devpath)))) in
  exists k, let top := Nat.iter k dirname start in
    (forall j, (j < k)%nat -> holds_vendor (turn s + j) (Nat.iter j dirname start) = false) /\
    match o with
    | Some x => x = top /\ holds_vendor (turn s + k) top = true
    | None => dirname top = top /\ holds_vendor (turn s + k) top = false
    end.
Proof.
  intros start. unfold _usb_parent in H. rewrite Hp in H. destruct devpath as [|a l]; [done|].
  apply up_to_vendor_spec in H; [exact H | unfold start; lia].
Qed.

(** The cards looked at: names of the form [cardN] that are directories. *)
Definition card_number (name : string) : option Z := st ← fullmatch CARD_RE (chars name); py_int (default [] (group 1 st)).
Lemma scan_cards_seen configured names ms s s' : scan_cards w sysfs_root configured names s = (Ok ms, s') ->
  exists seen, seen.*1 `sublist_of` names /\
    (forall x q, (x, q) ∈ seen -> exists k o, run_cmd w k (udevadm (path_join (sound_dir sysfs_root) x)) 10 = Ok o /\
       q = if returncode o =? 0 then Some (udev_props (splitlines (or_empty (stdout o))) []) else None) /\
    (forall x, x ∈ names -> x ∉ seen.*1 -> fullmatch CARD_RE (chars x) = None \/ exists k, isdir w k (path_join (sound_dir sysfs_root) x) = false) /\
    Forall2 (fun x m => card_number x.1 = Some m.1.1 /\ m.1.2 = path_join (sound_dir sysfs_root) x.1 /\ x.2 = Some m.2)
      (List.filter (fun x => _match_udev x.2 configured) seen) ms.
Proof.
  revert ms s s'. induction names as [|name names IH]; intros ms s s' H.
  { apply ret_run_Ok in H as [-> _]. exists []. split_and!; [done | by intros ? ? ?%elem_of_nil | by intros ? ?%elem_of_nil | constructor]. }
  simpl in H. destruct (fullmatch CARD_RE (chars name)) as [st|] eqn:Hm.
  2: { apply IH in H as (seen & S1 & S2 & S3 & S4). exists seen. split_and!; [by apply sublist_cons | done | | done].
       intros x [->|Hin]%elem_of_cons Hx; [by left | by apply S3]. }
  apply bind_run_Ok in H as (dir & s1 & H1 & H). unfold ask in H1. method_inv H1. destruct (isdir w _ _) eqn:Hd; simpl in H.
  2: { apply IH in H as (seen & S1 & S2 & S3 & S4). exists seen. split_and!; [by apply sublist_cons | done | | done].
       intros x [->|Hin]%elem_of_cons Hx; [right; by eexists | by apply S3]. }
  unfold _udev_properties in H. apply bind_run_Ok in H as (q & s2 & H2 & H). apply bind_run_Ok in H2 as (o & s3 & H2 & H3).
  apply run_returned in H2 as (k & H2). apply ret_run_Ok in H3 as [-> ->]. set (q := if returncode o =? 0 then _ else None) in *.
  assert (forall x y seen, (forall x0 q0, (x0, q0) ∈ seen -> exists k o, run_cmd w k (udevadm (path_join (sound_dir sysfs_root) x0)) 10 = Ok o /\
       q0 = if returncode o =? 0 then Some (udev_props (splitlines (or_empty (stdout o))) []) else None) -> (x, y) ∈ (name, q) :: seen ->
     exists k o, run_cmd w k (udevadm (path_join (sound_dir sysfs_root) x)) 10 = Ok o /\
       y = if returncode o =? 0 then Some (udev_props (splitlines (or_empty (stdout o))) []) else None) as Hseen.
  { intros x y seen Hs [[= -> ->]|Hin]%elem_of_cons; [by exists k, o | by apply Hs]. }
  destruct (_match_udev q configured) eqn:Hmatch.
  - apply bind_run_Ok in H as (i & s4 & H4 & H). apply bind_run_Ok in H as (rest & s5 & H5 & H). apply ret_run_Ok in H as [-> _].
    apply IH in H5 as (seen & S1 & S2 & S3 & S4). exists ((name, q) :: seen). split_and!.
    + simpl. by apply sublist_skip.
    + intros x y Hin. by apply (Hseen x y seen).
    + intros x [->|Hin]%elem_of_cons Hx; [exfalso; apply Hx; by left|]. apply S3; [done|]. intros ?. apply Hx. by right.
    + simpl. rewrite Hmatch. constructor; [|done]. simpl. split_and!; [| done |].
      * unfold int_of in H4. apply lift_run_Ok in H4 as [H4%result_of_option_Ok _]. unfold card_number. by rewrite Hm.
      * unfold _match_udev in Hmatch. by destruct q.
  - apply IH in H as (seen & S1 & S2 & S3 & S4). exists ((name, q) :: seen). split_and!.
    + simpl. by apply sublist_skip.
    + intros x y Hin. by apply (Hseen x y seen).
    + intros x [->|Hin]%elem_of_cons Hx; [exfalso; apply Hx; by left|]. apply S3; [done|]. intros ?. apply Hx. by right.
    + simpl. by rewrite Hmatch.
Qed.

(** A resolved capture card is the only one whose udev properties match the
    binding, and it is the card the binding names: by its number when the
    binding gives digits, and otherwise by the id the card itself reports. *)
Theorem capture_card_earned (b : CaptureBinding) (r : CaptureResolution) (s s' : state)
    (H : resolve_capture_binding w sysfs_root (Some b) s = (Ok r, s')) :
  exists n names seen name text k,
    listdir w n (sound_dir sysfs_root) = Ok names /\ seen.*1 `sublist_of` sorted_strings names /\
    (forall x, x ∈ names -> x ∉ seen.*1 -> fullmatch CARD_RE (chars x) = None \/ exists k, isdir w k (path_join (sound_dir sysfs_root) x) = false) /\
    List.filter (fun x => _match_udev x.2 (cb_udev b)) seen = [(name, Some (cr_properties r))] /\
    cr_device r = cb_device b /\ card_number name = Some (cr_card_index r) /\ cr_sound_path r = path_join (sound_dir sysfs_root) name /\
    read_text w k (path_join (cr_sound_path r) "id") = Ok text /\ chars (cr_card_id r) = strip text /\ strip text <> [] /\
    let card := configured_card (cb_device b) in
    if negb (bool_decide (card = [])) && forallb is_digit card then py_int card = Some (cr_card_index r) else card = strip text.
Proof.
  unfold resolve_capture_binding in H. apply bind_run_Ok in H as (b0 & s1 & H1 & H). apply lift_run_Ok in H1 as [[= <-] _].
  apply bind_run_Ok in H as (there & s2 & _ & H). apply bind_run_Ok in H as (u & s3 & _ & H).
  apply bind_run_Ok in H as (names & s4 & (n & Hn)%call_returned & H). apply bind_run_Ok in H as (ms & s5 & H2 & H).
  apply scan_cards_seen in H2 as (seen & S1 & _ & S3 & S4). destruct ms as [|[[i path] q] [|]]; try done.
  destruct (List.filter _ seen) as [|[name y] [|]] eqn:Hf; [by inversion S4| |by inversion S4 as [|? ? ? ? ? G]; inversion G].
  inversion S4 as [|? ? ? ? (Hi & Hpath & Hq) _]. simplify_eq/=.
  apply bind_run_Ok in H as (rd & s6 & H3 & H). apply bind_run_Ok in H as (text & s7 & H4 & H). apply lift_run_Ok in H4 as [H4 _].
  apply bind_run_Ok in H as (u1 & s8 & [Hne%negb_true_iff%bool_decide_eq_false _]%require_returned & H).
  apply bind_run_Ok in H as (u2 & s9 & H5 & H). apply ret_run_Ok in H as [-> _].
  unfold tried in H3. destruct (call _ s5) as [rd' s6'] eqn:Hc. simplify_eq/=. assert (rd = Ok text) as -> by (by destruct rd as [|[]]).
  apply call_returned in Hc as (k & Hk).
  exists n, names, seen, name, text, k. split_and!; try done.
  - intros x Hx. apply S3. by apply sorted_strings_elem.
  - simpl. by rewrite chars_of_chars.
  - simpl. destruct (negb _ && _).
    + apply bind_run_Ok in H5 as (j & s10 & Hj & H5). unfold int_of in Hj. apply lift_run_Ok in Hj as [Hj%result_of_option_Ok _].
      apply require_returned in H5 as [H5%Z.eqb_eq _]. by subst.
    + by apply require_returned in H5 as [H5%bool_decide_eq_true _].
Qed.
End theorems.
End DiscoveryTheorems.

Module DiscoveryWitnesses.

Definition text (ls : list string) : list ascii := chars (String.concat EmptyString (line_of <$> ls)).
Definition says (t : list ascii) : result exn proc := Ok (mk_proc 0 (Some t) None).
Definition demo_table : list ascii := text
  ["SERIAL  PROBE     TARGET    DPIDR       PART        VARIANT  NOTE";
   "RX01    XIAO DAP  nRF54L15  0x6ba02477  0x00054b15  QFAA     -";
   "TX02    XIAO DAP  nRF54L15  0x6ba02477  0x00054b15  QFAA     -"]%string.
Definition demo_markers : list ascii := text
  ["FWC|dpidr|0x6ba02477"; "FWC|ap0|0x84770001"; "FWC|ap1|0x84770001"; "FWC|ap2|0x32880000"; "FWC|ap3|0x00000000";
   "FWC|part|0x00054b15"; "FWC|variant|0x51464141"]%string.
Definition demo_udev (serial port : string) : list ascii := text
  [("DEVPATH=/devices/usb1/" ++ port ++ "/" ++ port ++ ":1.2/tty/x"); "ID_BUS=usb"; "ID_VENDOR_ID=2886"; "ID_MODEL_ID=0066";
   ("ID_SERIAL_SHORT=" ++ serial); "ID_USB_INTERFACE_NUM=02"; "ID_USB_DRIVER=cdc_acm"; "ID_PATH=pci-0000:00:14.0-usb-0:1"]%string.
(** Two boards on two USB ports, and one sound card. *)
Definition demo_world : world := mk_world
  (fun _ argv _ => match argv with
   | "nix-nrf" :: _ => says demo_table
   | "openocd" :: _ => says demo_markers
   | [_; _; _; _; "/sys/class/tty/ttyACM0"] => says (demo_udev "RX01" "1-1")
   | [_; _; _; _; "/sys/class/tty/ttyACM1"] => says (demo_udev "TX02" "1-2")
   | [_; _; _; _; "/sys/class/sound/card3"] => says (text ["ID_VENDOR_ID=0d8c"])
   | _ => Ok (mk_proc 1 None None) end%string)
  (fun _ _ => true) (fun _ p => py_in p ["/sys/devices/usb1/1-1/idVendor"; "/sys/devices/usb1/1-2/idVendor"]%string)
  (fun _ p => Ok (if String.eqb p "/sys/class/sound" then ["card3"; "seq"] else ["ttyACM1"; "ttyS0"; "ttyACM0"])%string)
  (fun _ _ => Ok (text ["CODEC"%string])).
Definition demo_role : PhysicalRoleBinding :=
  mk_role_binding (mk_probe "nrf-probes" "nrf54l" None) (mk_serial 115200 true false [("ID_VENDOR_ID", "2886"); ("ID_MODEL_ID", "0066")]%string).
Definition demo_binding : PhysicalBinding := mk_binding 1 "pair" [("receiver", inl demo_role); ("source", inl demo_role)]%string.
Definition demo_serials : given_serials := Given [("receiver", Some "RX01"); ("source", Some "TX02")]%string.

Definition demo_answer : answer := Eval vm_compute in (resolve_fixture demo_world "/sys" (Some demo_binding) demo_serials 0).1.
Definition demo_state : state := Eval vm_compute in (resolve_fixture demo_world "/sys" (Some demo_binding) demo_serials 0).2.
Definition demo_resolution : FixtureResolution := Eval vm_compute in match demo_answer with Resolved r => r | _ => mk_resolution [] [] end.
Lemma demo_resolved : resolve_fixture demo_world "/sys" (Some demo_binding) demo_serials 0 = (Resolved demo_resolution, demo_state).
Proof. vm_compute. reflexivity. Qed.


Lemma usb_parent_deepest_witness :
  let p := [("DEVPATH", "/devices/usb1/1-1/1-1:1.2/tty/x")]%string in
  exists k, Nat.iter k dirname "/sys/devices/usb1/1-1/1-1:1.2/tty/x" = "/sys/devices/usb1/1-1"%string.
Proof.
  intros p. destruct (DiscoveryTheorems.usb_parent_deepest demo_world "/sys" p "/devices/usb1/1-1/1-1:1.2/tty/x" (Some "/sys/devices/usb1/1-1"%string)
    fresh (mk_state 4 [] [])) as (k & _ & H & Hv).
  - reflexivity.
  - intros H. discriminate H.
  - vm_compute. reflexivity.
  - exists k. change (normpath _) with (normpath "/sys/devices/usb1/1-1/1-1:1.2/tty/x") in H. symmetry. exact H.
Defined.

Definition demo_capture : CaptureBinding :=
  mk_capture "alsa" "hw:CODEC,0" 1 48000 "S16_LE" [("ID_VENDOR_ID", "0d8c")]%string
    (mk_mixer "Mic" "80%" "on" "AGC" "off") (mk_metadata "/srv/fixture.json" "00" []).
Lemma capture_card_earned_witness :
  exists r s, resolve_capture_binding demo_world "/sys" (Some demo_capture) fresh = (Ok r, s) /\ cr_card_index r = 3 /\ cr_device r = "hw:CODEC,0"%string.
Proof.
  assert (resolve_capture_binding demo_world "/sys" (Some demo_capture) fresh =
    (Ok (mk_capture_resolution "hw:CODEC,0" 3 "CODEC" "/sys/class/sound/card3" [("ID_VENDOR_ID", "0d8c")]%string),
     mk_state 5 [udevadm "/sys/class/sound/card3"] [])) as H by (vm_compute; reflexivity).
  pose proof (DiscoveryTheorems.capture_card_earned demo_world "/sys" demo_capture _ _ _ H) as (_ & _ & _ & _ & _ & _ & _ & _ & _ & _ & D & _).
  eexists _, _. split; [exact H|]. split; [reflexivity | exact D].
Defined.
End DiscoveryWitnesses.
