(* ===== verification/HilLifecycle.v ===== *)
(** * Host lifecycle ownership (scripts/hil/lifecycle.py)

    [CleanupStack] over an arbitrary world its callbacks change, [FixtureLock]
    on a small file system with its system calls as separate steps, and the
    checks on output roots and run directories.  Paths are strings; the
    answers of the file system that the code only compares ([realpath],
    [expanduser]) are arguments. *)

From S2P Require Import Prelude PyText PyRegex Json.

(** ** Cleanup stacks *)

Module CleanupStack.

Section stack.
Context {W E : Type}.

(** A callback changes the world and may raise. *)
Definition callback : Type := W -> W * option E.

Record t : Type := mk { callbacks : list (string * callback); closed : bool }.
Definition init : t := mk [] false.

Inductive register_error : Type := AlreadyClosed.

Definition register (name : string) (cb : callback) (s : t) : result register_error t :=
  ensure (negb (closed s)) AlreadyClosed;; Ok (mk (callbacks s ++ [(name, cb)]) (closed s)).

(** The loop of [close]: every callback runs, failures are collected. *)
Fixpoint run_callbacks (cbs : list (string * callback)) (w : W) : W * list (string * E) :=
  match cbs with
  | [] => (w, [])
  | (name, cb) :: cbs' =>
      let '(w, e) := cb w in
      let '(w, failures) := run_callbacks cbs' w in
      (w, match e with Some x => (name, x) :: failures | None => failures end)
  end.

(** [close]; a non-empty list of failures is [CleanupFailure]. *)
Definition close (s : t) (w : W) : t * W * list (string * E) :=
  if closed s then (s, w, [])
  else let '(w, failures) := run_callbacks (reverse (callbacks s)) w in (mk (callbacks s) true, w, failures).

(** What leaves the [with] statement, for the exception of its body; [grouped]
    is [sys.version_info >= (3, 11)]. *)
Inductive exit_outcome : Type :=
| Normal | BodyError (e : E) | CleanupFailure (failures : list (string * E))
| Group (body : E) (failures : list (string * E))
| BodyAndCleanup (body : E) (failures : list (string * E)).

Definition __exit__ (grouped : bool) (body : option E) (s : t) (w : W) : exit_outcome * t * W :=
  let '(s, w, failures) := close s w in
  (match failures, body with
   | [], None => Normal
   | [], Some e => BodyError e
   | _, None => CleanupFailure failures
   | _, Some e => if grouped then Group e failures else BodyAndCleanup e failures
   end, s, w).
End stack.
End CleanupStack.

(** ** File system *)

Inductive node : Type := Dir | Symlink | File (content : list ascii) | OtherNode.
Abbreviation fs := (gmap string node).

Inductive lifecycle_error : Type :=
| LockDirSymlink | LockPathNotDir | CannotCreateLockDir
| FixtureBusy (fixture_id : string) | OpenFailed | WriteFailed
| NotAbsolute | RootIsSlash | RootIsHome | RootIsRepo | RootInsideRepo | RootContainsRepo | RootMissing
| BadRunId | RunDirSymlink | RunDirExists | RunDirEscapes | CannotCreateRunDir
| LockMissing | LockMalformed | LockTokenChanged | LockUnlinkFailed
| PlainValueError.

Definition islink (p : string) (f : fs) : bool := match f !! p with Some Symlink => true | _ => false end.
Definition lexists (p : string) (f : fs) : bool := match f !! p with Some _ => true | None => false end.
Definition isdir (p : string) (f : fs) : bool := match f !! p with Some Dir => true | _ => false end.

(** [os.path.join] of a directory and a relative name. *)
Definition join (dir name : string) : string := (dir ++ "/" ++ name)%string.

(** ** Fixture locks *)

Module FixtureLock.

Record t : Type := mk { path : string; token : string; fixture_id : string; pid : Z; host : string; created : string }.

(** What [acquire] reads outside the file system, and whether its system
    calls succeed. *)
Record env : Type := mk_env {
  e_token : string; e_pid : Z; e_host : string; e_created : string;
  mkdir_ok : bool; open_ok : bool; write_ok : bool; unlink_ok : bool;
}.

Section lock.
(** [hashlib.sha256(...).hexdigest()] *)
Variable sha256 : string -> string.

Definition lock_dir (output_root : string) : string := join output_root ".locks".
Definition lock_path (output_root fixture_id : string) : string := join (lock_dir output_root) (sha256 fixture_id).

(** [json.dumps(..., sort_keys=True) + "\n"] *)
Definition payload (e : env) (fixture_id : string) : list ascii :=
  dump true (JObj [("created", JStr (e_created e)); ("fixture_id", JStr fixture_id); ("host", JStr (e_host e));
                   ("pid", JInt (e_pid e)); ("token", JStr (e_token e))]%string) ++ [chr 10].

Definition ensure_lock_dir (dir : string) (e : env) (f : fs) : result lifecycle_error fs :=
  ensure (negb (islink dir f)) LockDirSymlink;;
  ensure (negb (lexists dir f && negb (isdir dir f))) LockPathNotDir;;
  if lexists dir f then Ok f
  else ensure (mkdir_ok e) CannotCreateLockDir;; Ok (<[dir := Dir]> f).

(** [os.open(path, O_CREAT | O_EXCL | O_WRONLY)] *)
Definition open_excl (fixture_id p : string) (e : env) (f : fs) : result lifecycle_error fs :=
  ensure (negb (lexists p f)) (FixtureBusy fixture_id);;
  ensure (open_ok e) OpenFailed;;
  Ok (<[p := File []]> f).

(** [acquire]: the file system changes even when an exception leaves it. *)
Definition acquire (output_root fixture_id : string) (e : env) (f : fs) : result lifecycle_error t * fs :=
  let dir := lock_dir output_root in
  match ensure_lock_dir dir e f with
  | Err x => (Err x, f)
  | Ok f =>
      let p := lock_path output_root fixture_id in
      match open_excl fixture_id p e f with
      | Err x => (Err x, f)
      | Ok f =>
          if write_ok e
          then (Ok (mk p (e_token e) fixture_id (e_pid e) (e_host e) (e_created e)), <[p := File (payload e fixture_id)]> f)
          else (Err WriteFailed, if unlink_ok e then delete p f else f)
      end
  end.

(** [json.loads(text)] and the comparison of the token. *)
Definition check_token (token : string) (text : list ascii) : result lifecycle_error unit :=
  match loads_chars (E := Empty_set) dict_hook text with
  | Ok (JObj d) =>
      match dict_get "token"%string d with
      | Some (JStr tok) => ensure (String.eqb tok token) LockTokenChanged
      | _ => Err LockTokenChanged
      end
  | Ok _ => Err LockTokenChanged
  | Err JIntLimit => Err PlainValueError
  | Err _ => Err LockMalformed
  end.

(** [open(...).read()]: only a missing file is turned into a
    [LockReleaseError]; a directory is an [OSError] and undecodable text a
    [UnicodeDecodeError], neither of which is caught.  (The target of a symbolic
    link is not modelled.) *)
Definition read_token (l : t) (f : fs) : result lifecycle_error unit :=
  match f !! path l with
  | Some (File text) => ensure (utf8_valid text) PlainValueError;; check_token (token l) text
  | Some _ => Err OpenFailed
  | None => Err LockMissing
  end.

Definition release (unlink_ok : bool) (l : t) (f : fs) : result lifecycle_error unit * fs :=
  match read_token l f with
  | Err x => (Err x, f)
  | Ok _ => if unlink_ok then (Ok tt, delete (path l) f) else (Err LockUnlinkFailed, f)
  end.

(** Owner data that [json] carries unchanged: ASCII text and a process number
    of fewer than 4300 digits. *)
Definition plain_owner (e : env) (fid : string) : Prop :=
  all_ascii (e_token e) && all_ascii fid && all_ascii (e_host e) && all_ascii (e_created e) = true /\
  (length (dec_digits (Z.abs (e_pid e))) <= int_max_str_digits)%nat.

(** *** Several processes on one fixture

    The system calls of [acquire] and [release] are the steps; between two
    steps of one process the others run. *)
Inductive pstate : Type :=
| Idle
| Opened (e : env)           (** between [open] and the end of the write *)
| Held (l : t)
| Verified (l : t)           (** [release] has read its token *)
| Dead.                      (** killed; its lock file stays *)

Record world : Type := mk_world { files : fs; procs : gmap nat pstate }.

Inductive step (output_root fixture_id : string) : world -> world -> Prop :=
| step_open i e w f :
    procs w !! i = Some Idle -> plain_owner e fixture_id ->
    open_excl fixture_id (lock_path output_root fixture_id) e (files w) = Ok f ->
    step output_root fixture_id w (mk_world f (<[i := Opened e]> (procs w)))
| step_busy i e w x :
    procs w !! i = Some Idle -> open_excl fixture_id (lock_path output_root fixture_id) e (files w) = Err x ->
    step output_root fixture_id w w
| step_write i e w :
    procs w !! i = Some (Opened e) -> write_ok e = true ->
    let p := lock_path output_root fixture_id in
    step output_root fixture_id w
      (mk_world (<[p := File (payload e fixture_id)]> (files w))
                (<[i := Held (mk p (e_token e) fixture_id (e_pid e) (e_host e) (e_created e))]> (procs w)))
| step_abort i e w :
    procs w !! i = Some (Opened e) -> write_ok e = false -> unlink_ok e = true ->
    step output_root fixture_id w
      (mk_world (delete (lock_path output_root fixture_id) (files w)) (<[i := Idle]> (procs w)))
| step_verify i l w :
    procs w !! i = Some (Held l) -> read_token l (files w) = Ok tt ->
    step output_root fixture_id w (mk_world (files w) (<[i := Verified l]> (procs w)))
| step_unlink i l w :
    procs w !! i = Some (Verified l) ->
    step output_root fixture_id w (mk_world (delete (path l) (files w)) (<[i := Idle]> (procs w)))
| step_kill i st w :
    procs w !! i = Some st -> st <> Idle ->
    step output_root fixture_id w (mk_world (files w) (<[i := Dead]> (procs w))).
End lock.
End FixtureLock.

(** ** Output roots and run directories *)

(** [str.startswith] on paths *)
Definition under (p root : string) : bool := startswith (root ++ "/") p.

Definition validate_output_root (realpath : string -> string) (isdir : string -> bool) (home repo path : string)
    : result lifecycle_error string :=
  ensure (startswith "/" path) NotAbsolute;;
  let canon := realpath path in
  ensure (negb (String.eqb canon "/")) RootIsSlash;;
  ensure (negb (String.eqb canon (realpath home))) RootIsHome;;
  let repo := realpath repo in
  ensure (negb (String.eqb canon repo)) RootIsRepo;;
  ensure (negb (under canon repo)) RootInsideRepo;;
  ensure (negb (under repo canon)) RootContainsRepo;;
  ensure (isdir canon) RootMissing;;
  Ok canon.

Definition is_alnum (c : ascii) : bool := is_alpha c || is_digit c.
Definition is_run_id_char (c : ascii) : bool := is_alnum c || py_in c ["."%char; "_"%char; "-"%char].

(** [c{0,n}], greedy *)
Fixpoint Upto (n : nat) (p : ascii -> bool) : re :=
  match n with O => Eps | S n' => Opt (Seq (Cls p) (Upto n' p)) end.

Definition RUN_ID_RE : re := (Bol • Cls is_alnum • Upto 63 is_run_id_char • Eos)%re.

Definition validate_run_id (run_id : string) : result lifecycle_error unit :=
  ensure (match re_match RUN_ID_RE (chars run_id) with Some _ => true | None => false end) BadRunId.

(** [escapes]: [realpath(run_dir) != normpath(run_dir)]. *)
Definition create_run_dir (escapes : string -> bool) (mkdir_ok : bool) (root run_id : string) (f : fs)
    : result lifecycle_error string * fs :=
  let run_dir := join root run_id in
  match
    validate_run_id run_id;;
    ensure (negb (islink run_dir f)) RunDirSymlink;;
    ensure (negb (lexists run_dir f)) RunDirExists;;
    ensure (negb (escapes run_dir)) RunDirEscapes;;
    ensure mkdir_ok CannotCreateRunDir
  with
  | Ok _ => (Ok run_dir, <[run_dir := Dir]> f)
  | Err x => (Err x, f)
  end.

(** ** Cleanup *)

Module CleanupTheorems.
Import CleanupStack.

Section stack.
Context {W E : Type}.

(** The world after some callbacks. *)
Definition after (cbs : list (string * callback (W := W) (E := E))) (w : W) : W := fold_left (fun w cb => (cb.2 w).1) cbs w.

Lemma run_callbacks_spec cbs w :
  (run_callbacks cbs w).1 = after cbs w /\
  forall name x, (name, x) ∈ (run_callbacks cbs w).2 <->
    exists pre cb post, cbs = pre ++ (name, cb) :: post /\ (cb (after pre w)).2 = Some x.
Proof.
  revert w. induction cbs as [|[n c] cbs IH]; intros w; simpl.
  - split; [done|]. intros name x. rewrite elem_of_nil. split; [done|]. intros ([|] & ? & ? & ? & _); done.
  - destruct (c w) as [w1 e] eqn:Hc. destruct (IH w1) as [IH1 IH2].
    destruct (run_callbacks cbs w1) as [w2 fs]. simpl in *. split; [done|]. intros name x.
    assert ((exists pre cb post, (n, c) :: cbs = pre ++ (name, cb) :: post /\ (cb (after pre w)).2 = Some x) <->
      (n = name /\ e = Some x) \/ exists pre cb post, cbs = pre ++ (name, cb) :: post /\ (cb (after pre w1)).2 = Some x) as ->.
    { split.
      - intros ([|[n' c'] pre] & cb & post & Heq & Hx); simpl in *; injection Heq as -> -> ->.
        + left. by rewrite Hc in Hx.
        + right. exists pre, cb, post. by rewrite Hc in Hx.
      - intros [[-> ->]|(pre & cb & post & -> & Hx)].
        + exists [], c, cbs. simpl. by rewrite Hc.
        + exists ((n, c) :: pre), cb, post. simpl. by rewrite Hc. }
    rewrite <- IH2. destruct e as [y|]; [rewrite elem_of_cons; naive_solver | naive_solver].
Qed.

(** Closing a stack runs every registered callback exactly once, in
    reverse order of registration, whether or not others raise; exactly the
    exceptions raised are reported; closing again does nothing; and nothing
    can be registered any more. *)
Theorem close_runs_all_once (s : t (W := W) (E := E)) w s' w' failures :
  closed s = false -> close s w = (s', w', failures) ->
  w' = after (reverse (callbacks s)) w /\
  (forall name x, (name, x) ∈ failures <->
    exists pre cb post, reverse (callbacks s) = pre ++ (name, cb) :: post /\ (cb (after pre w)).2 = Some x) /\
  (forall w2, close s' w2 = (s', w2, [])) /\
  (forall name cb, register name cb s' = Err AlreadyClosed).
Proof.
  intros Hs. unfold close. rewrite Hs.
  destruct (run_callbacks_spec (reverse (callbacks s)) w) as [H1 H2].
  destruct (run_callbacks _ w) as [w1 fs]. intros [= <- <- <-]. simpl in *. split_and!; try done.
Qed.

(** Leaving the [with] statement never loses an exception: the body's own
    is what propagates, alone or together with every cleanup failure, and the
    statement ends normally only when nothing failed. *)
Theorem exit_keeps_exceptions grouped (body : option E) (s : t (W := W) (E := E)) w :
  let '(out, _, _) := __exit__ grouped body s w in
  let failures := (close s w).2 in
  match out with
  | Normal => body = None /\ failures = []
  | BodyError e => body = Some e /\ failures = []
  | CleanupFailure fs => body = None /\ fs = failures /\ fs <> []
  | Group e fs => body = Some e /\ fs = failures /\ fs <> [] /\ grouped = true
  | BodyAndCleanup e fs => body = Some e /\ fs = failures /\ fs <> [] /\ grouped = false
  end.
Proof.
  unfold __exit__. destruct (close s w) as [[s' w'] fs]. simpl. destruct fs, body, grouped; by split_and!.
Qed.
End stack.
End CleanupTheorems.

(** ** Locks *)

Module LockTheorems.
Import FixtureLock.

Section lock.
Variable sha256 : string -> string.
Abbreviation acquire := (acquire sha256).
Abbreviation step := (step sha256).
Abbreviation lock_path := (lock_path sha256).

Lemma payload_ok e fid text :
  all_ascii (e_token e) && all_ascii fid && all_ascii (e_host e) && all_ascii (e_created e) = true ->
  (length (dec_digits (Z.abs (e_pid e))) <= int_max_str_digits)%nat ->
  text = payload e fid -> (ensure (utf8_valid text) PlainValueError;; check_token (e_token e) text) = Ok tt.
Proof.
  intros Ha Hp ->. unfold check_token, payload.
  set (doc := JObj _). assert (json_ok doc = true) as Hok.
  { subst doc. cbn [json_ok]. apply andb_true_iff. split; [|cbn [forallb json_ok]].
    - apply andb_true_iff. split; [apply bool_decide_eq_true, (bool_decide_eq_true_1 _); reflexivity | reflexivity].
    - apply Nat.leb_le in Hp. rewrite Hp. bool_to_prop. by rewrite !andb_true_r, H, H0, H1, H2. }
  rewrite utf8_valid_ascii by (rewrite forallb_app, dump_is_ascii by done; done). cbn [ensure mbind result_bind].
  rewrite (loads_dumps_newline _ dict_hook_id _ doc Hok). subst doc.
  change (ensure (String.eqb (e_token e) (e_token e)) LockTokenChanged = Ok tt). by rewrite String.eqb_refl.
Qed.


Lemma lock_path_ne root fid : lock_path root fid <> lock_dir root.
Proof.
  unfold FixtureLock.lock_path, lock_dir, join. intros H. apply (f_equal chars) in H. rewrite !chars_app in H.
  apply (f_equal length) in H. rewrite !length_app in H. simpl in H. lia.
Qed.

Lemma ensure_lock_dir_ok dir e f f1 :
  ensure_lock_dir dir e f = Ok f1 -> f1 !! dir = Some Dir /\ (f !! dir = Some Dir /\ f1 = f \/ f !! dir = None /\ f1 = <[dir := Dir]> f).
Proof.
  unfold ensure_lock_dir, islink, lexists, isdir. intros H. result_inv H.
  destruct (f !! dir) as [[]|] eqn:Hd; try done.
  - injection H as <-. auto.
  - result_inv H. subst f1. split; [apply lookup_insert_eq | by right].
Qed.

(** [release] undoes [acquire]: the owner's lock is recognised by its
    token read back from the JSON on disk and removed, and the file system is
    the one before the acquisition except for the lock directory. *)
Theorem acquire_release root fid e f l f' :
  plain_owner e fid -> acquire root fid e f = (Ok l, f') ->
  lexists (lock_path root fid) f = false /\ path l = lock_path root fid /\
  release true l f' = (Ok tt, <[lock_dir root := Dir]> f).
Proof.
  intros [Ha Hp]. unfold FixtureLock.acquire. destruct (ensure_lock_dir _ e f) as [f1|] eqn:Hd; [|done].
  apply ensure_lock_dir_ok in Hd as [_ Hd]. pose proof (lock_path_ne root fid) as Hne.
  assert (f1 = <[lock_dir root := Dir]> f) as ->.
  { destruct Hd as [[Hd ->]|[_ ->]]; [|done]. by rewrite insert_id. }
  unfold open_excl, lexists. rewrite lookup_insert_ne by done.
  destruct (f !! lock_path root fid) eqn:Hf; simpl; [done|]. destruct (open_ok e); simpl; [|done].
  destruct (write_ok e); [|done]. intros [= <- <-]. split_and!; [done..|].
  unfold release, read_token. simpl. rewrite lookup_insert_eq.
  rewrite (payload_ok e fid _ Ha Hp eq_refl). f_equal. rewrite insert_insert_eq.
  rewrite delete_insert_id; [done|]. by rewrite lookup_insert_ne.
Qed.

(** Failures leave no trace: a failed acquisition changes nothing but the
    lock directory (an existing lock is [FixtureBusy] and stays as it is), and
    a failed release changes nothing at all. *)
Theorem lock_errors_leave_no_trace root fid e f :
  unlink_ok e = true ->
  (forall x f', acquire root fid e f = (Err x, f') -> f' = f \/ f !! lock_dir root = None /\ f' = <[lock_dir root := Dir]> f) /\
  (f !! lock_dir root = Some Dir -> lexists (lock_path root fid) f = true -> acquire root fid e f = (Err (FixtureBusy fid), f)) /\
  (forall ok l x f', release ok l f = (Err x, f') -> f' = f).
Proof.
  intros Hu. unfold FixtureLock.acquire. split_and!.
  - intros x f'. destruct (ensure_lock_dir _ e f) as [f1|] eqn:Hd; [|intros [= _ <-]; by left].
    apply ensure_lock_dir_ok in Hd as [_ Hd].
    assert (f1 = f \/ f !! lock_dir root = None /\ f1 = <[lock_dir root := Dir]> f) as Hf by naive_solver.
    unfold open_excl, lexists. destruct (f1 !! lock_path root fid) eqn:Hl; simpl; [by intros [= _ <-]|].
    destruct (open_ok e); simpl; [|by intros [= _ <-]]. destruct (write_ok e); [done|]. rewrite Hu.
    intros [= _ <-]. by rewrite delete_insert_id.
  - intros Hd Hl. unfold ensure_lock_dir, islink, lexists, isdir. rewrite Hd. simpl.
    unfold open_excl. by rewrite Hl.
  - intros ok l x f'. unfold release. destruct (read_token l f); [|by intros [= _ <-]].
    destruct ok; [done | by intros [= _ <-]].
Qed.

(** *** Mutual exclusion *)

Definition idle (st : pstate) : bool := match st with Idle => true | _ => false end.

(** At most one process is in its critical section, the lock file exists
    then, and a holder's token is the one on disk. *)
Record lock_inv (root fid : string) (w : world) : Prop := mk_lock_inv {
  inv_one : forall i j a b, procs w !! i = Some a -> procs w !! j = Some b -> idle a = false -> idle b = false -> i = j;
  inv_file : forall i a, procs w !! i = Some a -> idle a = false -> lexists (lock_path root fid) (files w) = true;
  inv_plain : forall i e, procs w !! i = Some (Opened e) -> plain_owner e fid;
  inv_held : forall i l, procs w !! i = Some (Held l) \/ procs w !! i = Some (Verified l) ->
    path l = lock_path root fid /\ read_token l (files w) = Ok tt;
}.

Lemma lexists_insert p x f : lexists p (<[p := x]> f) = true.
Proof. unfold lexists. by rewrite lookup_insert_eq. Qed.

(** A process leaves or enters the section alone. *)
Lemma others_idle root fid w i a j b :
  lock_inv root fid w -> procs w !! i = Some a -> idle a = false -> procs w !! j = Some b -> j <> i -> idle b = true.
Proof. intros HI Hi Ha Hj Hne. destruct (idle b) eqn:Hb; [done|]. destruct Hne. by eapply inv_one. Qed.

Lemma free_all_idle root fid w j b :
  lock_inv root fid w -> lexists (lock_path root fid) (files w) = false -> procs w !! j = Some b -> idle b = true.
Proof.
  intros HI Hf Hj. destruct (idle b) eqn:Hb; [done|]. by rewrite (inv_file _ _ _ HI j b Hj Hb) in Hf.
Qed.

(** The process that moves is the only one that may be in the section. *)
Lemma lock_inv_intro root fid f ps i st :
  (forall j b, ps !! j = Some b -> j <> i -> idle b = true) ->
  (idle st = false -> lexists (lock_path root fid) f = true) ->
  (forall e, st = Opened e -> plain_owner e fid) ->
  (forall l, st = Held l \/ st = Verified l -> path l = lock_path root fid /\ read_token l f = Ok tt) ->
  lock_inv root fid (mk_world f (<[i := st]> ps)).
Proof.
  intros Ho Hf Hp Hh.
  assert (forall j b, <[i := st]> ps !! j = Some b -> idle b = false -> j = i /\ b = st) as Hone.
  { intros j b. destruct (decide (j = i)) as [->|Hne]; [rewrite lookup_insert_eq; by intros [= ->]|].
    rewrite lookup_insert_ne by done. intros Hj Hb. by rewrite (Ho j b Hj Hne) in Hb. }
  constructor; simpl.
  - intros j k a b Hj Hk Ha Hb. destruct (Hone j a Hj Ha), (Hone k b Hk Hb). congruence.
  - intros j a Hj Ha. destruct (Hone j a Hj Ha) as [_ ->]. auto.
  - intros j e Hj. destruct (Hone j _ Hj) as [_ He]; [done|]. by apply Hp.
  - intros j l [Hj|Hj]; (destruct (Hone j _ Hj) as [_ He]; [done|]); apply Hh; rewrite <- He; auto.
Qed.

Lemma lock_inv_step root fid w w' : lock_inv root fid w -> step root fid w w' -> lock_inv root fid w'.
Proof.
  intros HI Hs. destruct Hs as [i e w f Hi Hp Ho|i e w x Hi Ho|i e w Hi Hok p|i e w Hi Hok Hu|i l w Hi Hr|i l w Hi|i st w Hi Hst].
  - unfold open_excl in Ho. result_inv Ho. subst f. apply negb_true_iff in Ha. apply lock_inv_intro; try done.
    + intros j b Hj _. by eapply free_all_idle.
    + intros _. apply lexists_insert.
    + by intros e' [= <-].
    + by intros l [?|?].
  - done.
  - apply lock_inv_intro; [intros ? ? ? ?; by eapply (others_idle root fid w i) | intros _; apply lexists_insert | done |].
    intros l [[= <-]|?]; [|done]. split; [done|]. unfold read_token. cbn [path token].
    rewrite lookup_insert_eq. destruct (inv_plain _ _ _ HI i e Hi) as [Ha Hp]. by apply payload_ok with (fid := fid).
  - apply lock_inv_intro; try done; [intros ? ? ? ?; by eapply (others_idle root fid w i) | by intros l [?|?]].
  - destruct (inv_held _ _ _ HI i l (or_introl Hi)) as [Hpath Htok].
    apply lock_inv_intro; [intros ? ? ? ?; by eapply (others_idle root fid w i) | | done |].
    + intros _. by eapply inv_file.
    + by intros l' [?|[= <-]].
  - apply lock_inv_intro; try done; [intros ? ? ? ?; by eapply (others_idle root fid w i) | by intros l' [?|?]].
  - destruct (idle st) eqn:Hid; [by destruct st|].
    apply lock_inv_intro; [intros ? ? ? ?; by eapply (others_idle root fid w i) | | done | by intros l' [?|?]].
    intros _. by eapply inv_file.
Qed.

(** C26. Mutual exclusion over every interleaving of the system calls of any
    number of processes, killed ones included: two processes are never in the
    section together, a holder can always release, and while a process holds
    the lock, or was killed holding it, every attempt to take it is
    [FixtureBusy]. *)
Theorem mutual_exclusion root fid w0 w :
  (forall i a, procs w0 !! i = Some a -> a = Idle) -> rtc (step root fid) w0 w ->
  (forall i j a b, procs w !! i = Some a -> procs w !! j = Some b -> idle a = false -> idle b = false -> i = j) /\
  (forall i l, procs w !! i = Some (Held l) -> (release true l (files w)).1 = Ok tt) /\
  (forall i a e, procs w !! i = Some a -> idle a = false ->
    open_excl fid (lock_path root fid) e (files w) = Err (FixtureBusy fid)).
Proof.
  intros H0 Hr. assert (lock_inv root fid w) as HI.
  { assert (lock_inv root fid w0) as HI0.
    { constructor.
      - intros i j a b Ha _ Hi. by rewrite (H0 _ _ Ha) in Hi.
      - intros i a Ha Hi. by rewrite (H0 _ _ Ha) in Hi.
      - intros i e He. by apply H0 in He.
      - by intros i l [He|He]; apply H0 in He. }
    clear H0. induction Hr as [|w1 w2 w3 Hs _ IH]; [done|]. apply IH. by eapply lock_inv_step. }
  split_and!.
  - apply HI.
  - intros i l Hl. unfold release. by rewrite (proj2 (inv_held _ _ _ HI i l (or_introl Hl))).
  - intros i a e Ha Hi. unfold open_excl. by rewrite (inv_file _ _ _ HI i a Ha Hi).
Qed.
End lock.
End LockTheorems.

(** ** Paths *)

Module PathTheorems.

(** A canonical absolute path other than [/], by its components. *)
Definition good_component (c : list ascii) : Prop := c <> [] /\ "/"%char ∉ c.
Fixpoint of_components (cs : list (list ascii)) : list ascii :=
  match cs with [] => [] | c :: cs' => "/"%char :: c ++ of_components cs' end.
Definition canonical (p : string) (cs : list (list ascii)) : Prop :=
  chars p = of_components cs /\ Forall good_component cs /\ cs <> [].

Lemma component_split (c d x y : list ascii) :
  "/"%char ∉ c -> "/"%char ∉ d -> match x with [] => True | a :: _ => a = "/"%char end ->
  c ++ x = d ++ "/"%char :: y -> c = d /\ x = "/"%char :: y.
Proof.
  revert d. induction c as [|a c IH]; intros d Hc Hd Hx; destruct d as [|b d]; simpl.
  - done.
  - intros ->. simpl in Hx. subst b. by destruct Hd; left.
  - intros [= -> _]. by destruct Hc; left.
  - intros [= -> H]. rewrite not_elem_of_cons in Hc, Hd.
    destruct (IH d) as [-> ->]; try done; by (apply Hc || apply Hd).
Qed.

Lemma of_components_head cs : match of_components cs with [] => True | a :: _ => a = "/"%char end.
Proof. by destruct cs. Qed.

(** The textual prefix test is the prefix test on components. *)
Lemma under_components p r ps rs :
  canonical p ps -> chars r = of_components rs -> Forall good_component rs ->
  under p r = true <-> exists c t, ps = rs ++ c :: t.
Proof.
  intros (Hp & Hgp & _) Hr Hgr. unfold under. rewrite startswith_chars, chars_app, Hp, Hr. clear Hp Hr p r.
  revert ps Hgp. induction Hgr as [|d rs [Hd1 Hd2] Hgr IH]; intros ps Hgp; simpl.
  - split.
    + intros (q & Hq). destruct ps as [|c t]; [done | by exists c, t].
    + intros (c & t & ->). simpl. by eexists.
  - split.
    + intros (q & Hq). destruct Hgp as [|c ps [Hc1 Hc2] Hgp]; simpl in Hq; [done|].
      injection Hq as Hq.
      assert (exists y, of_components rs ++ "/"%char :: q = "/"%char :: y) as [y Hy]
        by (destruct rs; simpl; by eexists).
      assert (c ++ of_components ps = d ++ "/"%char :: y) as Hcd by (rewrite Hq, <- Hy; by rewrite <- !app_assoc).
      apply component_split in Hcd as [-> Hps]; [|done..|apply of_components_head].
      rewrite Hps, <- Hy in Hq. destruct (proj1 (IH ps Hgp)) as (c & t & ->).
      * exists q. by rewrite Hps, <- Hy, <- app_assoc.
      * by exists c, t.
    + intros (c & t & ->). apply Forall_cons in Hgp as [_ Hgp].
      destruct (proj2 (IH (rs ++ c :: t) Hgp)) as [q Hq]; [by exists c, t|].
      exists q. simpl. rewrite Hq. by rewrite <- !app_assoc.
Qed.

(** A validated output root is the canonical path of an existing
    directory that is neither the root, the home directory nor the
    repository, not inside the repository and not above it. *)
Theorem output_root_is_outside realpath isdir home repo path canon rs :
  (forall p, realpath p = "/"%string \/ exists cs, canonical (realpath p) cs) ->
  canonical (realpath repo) rs ->
  validate_output_root realpath isdir home repo path = Ok canon ->
  canon = realpath path /\ isdir canon = true /\ canon <> realpath home /\
  exists ps, canonical canon ps /\ ~ rs `prefix_of` ps /\ ~ ps `prefix_of` rs.
Proof.
  intros Hreal Hrepo H. unfold validate_output_root in H. result_inv H. subst canon.
  repeat match goal with H : negb _ = true |- _ => apply negb_true_iff in H end.
  repeat match goal with H : String.eqb _ _ = false |- _ => apply String.eqb_neq in H end.
  split_and!; try done. destruct (Hreal path) as [?|[ps Hps]]; [done|]. exists ps. split; [done|].
  pose proof Hps as (Hc & Hg & Hn). destruct Hrepo as (Hrc & Hrg & Hrn).
  assert (ps <> rs) as Hne.
  { intros ->. rewrite <- Hrc in Hc. by apply chars_inj in Hc. }
  split; intros [t ->]; (destruct t as [|c t]; [by rewrite app_nil_r in Hne|]).
  - assert (under (realpath path) (realpath repo) = true) as Hu
      by (eapply under_components; [done | exact Hrc | done | by exists c, t]). congruence.
  - assert (under (realpath repo) (realpath path) = true) as Hu
      by (eapply under_components; [by split_and! | exact Hc | done | by exists c, t]). congruence.
Qed.

(** *** Run ids *)

Lemma upto_sound n p st st' :
  den (Upto n p) st st' -> exists u, rest st = u ++ rest st' /\ forallb p u = true /\ (length u <= n)%nat.
Proof.
  revert st. induction n as [|n IH]; intros st; simpl.
  - intros ->. exists []. split_and!; [done | done | simpl; lia].
  - intros [(m & (c & l & Hr & Hc & ->) & (u & Hu & Hf & Hl)%IH)| ->].
    + exists (c :: u). simpl in *. rewrite Hr, Hu, Hc. split_and!; [done | done | lia].
    + exists []. split_and!; [done | done | simpl; lia].
Qed.

Lemma upto_complete n p u b v gs :
  forallb p u = true -> (length u <= n)%nat -> exists b', den (Upto n p) (mk_pos b (u ++ v) gs) (mk_pos b' v gs).
Proof.
  revert b n. induction u as [|c u IH]; intros b n Hf Hl.
  - exists b. destruct n; simpl; [done | by right].
  - destruct n as [|n]; simpl in Hl; [lia|]. simpl in Hf. apply andb_true_iff in Hf as [Hc Hf].
    destruct (IH (Some c) n Hf) as [b' Hd]; [lia|]. exists b'. simpl. left.
    exists (mk_pos (Some c) (u ++ v) gs). split; [|done]. by exists c, (u ++ v).
Qed.

Lemma validate_run_id_spec s :
  validate_run_id s = Ok tt <->
  exists c u tail, chars s = c :: u ++ tail /\ is_alnum c = true /\ forallb is_run_id_char u = true /\
    (length u <= 63)%nat /\ (tail = [] \/ tail = [newline]).
Proof.
  unfold validate_run_id. rewrite ensure_Ok. split.
  - destruct (re_match RUN_ID_RE (chars s)) as [st|] eqn:Hm; [|done]. intros _.
    unfold re_match, match_at in Hm. apply run_sound in Hm as (st' & Hd & _).
    destruct Hd as (m1 & [_ ->] & m2 & (c & l & Hr & Hc & ->) & m3 & (u & Hu & Hf & Hl)%upto_sound & He & _).
    simpl in Hr, Hu. subst l. exists c, u, (rest m3). split_and!; try done.
    unfold at_eos in He. destruct (rest m3) as [|d [|]]; [by left | | done].
    apply Ascii.eqb_eq in He as ->. by right.
  - intros (c & u & tail & Hs & Hc & Hf & Hl & Ht).
    destruct (upto_complete 63 is_run_id_char u (Some c) tail [] Hf Hl) as [b' Hd].
    assert (is_Some (re_match RUN_ID_RE (chars s))) as [st Hst]; [|by rewrite Hst].
    apply (run_complete _ _ (mk_pos b' tail []) Some); [|by eexists].
    exists (mk_pos None (chars s) []). split; [by split|].
    exists (mk_pos (Some c) (u ++ tail) []). split; [by exists c, (u ++ tail)|].
    exists (mk_pos b' tail []). split; [done|]. split; [|done]. by destruct Ht as [-> | ->].
Qed.

(** A created run directory did not exist before, is a direct child of
    the root (its name has no slash and is neither empty, [.] nor [..]), and
    is the only thing created; a failure creates nothing. *)
Theorem create_run_dir_spec escapes ok root run_id f :
  match create_run_dir escapes ok root run_id f with
  | (Ok p, f') => p = join root run_id /\ f !! p = None /\ f' = <[p := Dir]> f /\
      good_component (chars run_id) /\ chars run_id <> ["."%char] /\ chars run_id <> ["."%char; "."%char]
  | (Err _, f') => f' = f
  end.
Proof.
  unfold create_run_dir. destruct (validate_run_id run_id ≫= _) as [[]|x] eqn:H; [|done].
  result_inv H. destruct a. apply validate_run_id_spec in Ha as (c & u & tail & Hs & Hc & Hf & Hl & Ht).
  unfold lexists in *. split_and!; [done | by destruct (f !! join root run_id) | done | | |].
  - split; [by rewrite Hs|]. rewrite Hs. intros [<-|[Hin|Hin]%elem_of_app]%elem_of_cons.
    + done.
    + rewrite forallb_forall in Hf. apply list_elem_of_In, Hf in Hin. by vm_compute in Hin.
    + destruct Ht as [-> | ->]; [by apply elem_of_nil in Hin|]. by apply list_elem_of_singleton in Hin.
  - rewrite Hs. intros [= -> _]. by vm_compute in Hc.
  - rewrite Hs. intros [= -> _]. by vm_compute in Hc.
Qed.

(** The documented pattern is not enforced at the end: a run id with a
    trailing newline is accepted, and a directory of that name is created. *)
Theorem run_id_accepts_newline :
  exists run_id, last (chars run_id) = Some newline /\ validate_run_id run_id = Ok tt /\
    forall f, f !! join "/out" run_id = None ->
      create_run_dir (fun _ => false) true "/out" run_id f = (Ok (join "/out" run_id), <[join "/out" run_id := Dir]> f).
Proof.
  exists (of_chars ["a"%char; newline]). split; [done|]. split; [reflexivity|].
  intros f Hf. unfold create_run_dir, islink, lexists. rewrite Hf. reflexivity.
Qed.
End PathTheorems.

Module LifecycleWitnesses.
Import FixtureLock.

(** A world that records which callbacks ran; the second one raises. *)
Definition note (n : string) (raises : bool) : CleanupStack.callback (W := list string) (E := nat) :=
  fun w => (w ++ [n], if raises then Some 1%nat else None).
Definition demo_stack : CleanupStack.t := CleanupStack.mk [("a"%string, note "a" false); ("b"%string, note "b" true)] false.

Lemma close_runs_all_once_witness :
  exists s' w' fs, CleanupStack.close demo_stack [] = (s', w', fs) /\ w' = ["b"; "a"]%string /\ ("b"%string, 1%nat) ∈ fs.
Proof.
  assert (exists s' w' fs, CleanupStack.close demo_stack [] = (s', w', fs)) as (s' & w' & fs & H) by (do 3 eexists; reflexivity).
  exists s', w', fs.
  destruct (CleanupTheorems.close_runs_all_once demo_stack [] s' w' fs eq_refl H) as (Hw & Hf & _).
  split; [done|]. split; [rewrite Hw; reflexivity|]. apply Hf. exists [], (note "b" true), [("a"%string, note "a" false)].
  split; reflexivity.
Defined.

Definition demo_sha (s : string) : string := "9f86d081".
Definition demo_owner : env := mk_env "f00d" 4242 "lab" "2026-01-01T00:00:00+00:00" true true true true.
Definition demo_fs : fs := {[ "/out"%string := Dir ]}.

Lemma demo_plain : plain_owner demo_owner "bench-1".
Proof. split; [reflexivity | apply (Nat.leb_le _ _); reflexivity]. Qed.

Lemma acquire_release_witness :
  exists l f', acquire demo_sha "/out" "bench-1" demo_owner demo_fs = (Ok l, f') /\
    (release true l f').1 = Ok tt.
Proof.
  assert (exists l f', acquire demo_sha "/out" "bench-1" demo_owner demo_fs = (Ok l, f')) as (l & f' & H)
    by (do 2 eexists; reflexivity).
  exists l, f'. split; [done|].
  destruct (LockTheorems.acquire_release demo_sha "/out" "bench-1" demo_owner demo_fs l f' demo_plain H) as (_ & _ & Hr).
  by rewrite Hr.
Defined.

Lemma lock_errors_leave_no_trace_witness :
  let f := <[lock_path demo_sha "/out" "bench-1" := File []]> (<[lock_dir "/out" := Dir]> demo_fs) in
  acquire demo_sha "/out" "bench-1" demo_owner f = (Err (FixtureBusy "bench-1"), f).
Proof.
  intros f. apply (LockTheorems.lock_errors_leave_no_trace demo_sha "/out" "bench-1" demo_owner f eq_refl); reflexivity.
Defined.

Definition demo_world : world := mk_world (<[lock_dir "/out" := Dir]> demo_fs) {[ 0%nat := Idle; 1%nat := Idle ]}.

Lemma mutual_exclusion_witness :
  exists w, rtc (step demo_sha "/out" "bench-1") demo_world w /\ procs w !! 0%nat = Some (Opened demo_owner) /\
    open_excl "bench-1" (lock_path demo_sha "/out" "bench-1") demo_owner (files w) = Err (FixtureBusy "bench-1").
Proof.
  set (w := mk_world (<[lock_path demo_sha "/out" "bench-1" := File []]> (files demo_world)) (<[0%nat := Opened demo_owner]> (procs demo_world))).
  assert (rtc (step demo_sha "/out" "bench-1") demo_world w) as Hr.
  { apply rtc_once. apply (step_open demo_sha "/out" "bench-1" 0 demo_owner); [reflexivity | apply demo_plain | reflexivity]. }
  exists w. split; [done|]. split; [reflexivity|].
  destruct (LockTheorems.mutual_exclusion demo_sha "/out" "bench-1" demo_world w) as (_ & _ & H); [|done|].
  - intros i a Ha. unfold demo_world in Ha. cbn [procs] in Ha. apply lookup_insert_Some in Ha as [[_ <-]|[_ Ha]]; [done|].
    by apply lookup_singleton_Some in Ha as [_ <-].
  - by apply (H 0%nat (Opened demo_owner)).
Defined.

Definition demo_realpath (p : string) : string :=
  if String.eqb p "/home/user/repo" then "/home/user/repo" else if String.eqb p "/home/user" then "/home/user" else "/var/out".
Definition demo_components (p : string) : list (list ascii) :=
  if String.eqb p "/home/user/repo" then [chars "home"; chars "user"; chars "repo"]
  else if String.eqb p "/home/user" then [chars "home"; chars "user"] else [chars "var"; chars "out"].

Lemma demo_canonical p : PathTheorems.canonical (demo_realpath p) (demo_components p).
Proof.
  unfold demo_realpath, demo_components. repeat case_match; (split; [reflexivity|]; split; [|done]);
    repeat constructor; try done; apply (bool_decide_eq_true_1 _); reflexivity.
Qed.

Lemma output_root_is_outside_witness :
  exists canon ps, validate_output_root demo_realpath (fun _ => true) "/home/user" "/home/user/repo" "/tmp/../var/out" = Ok canon /\
    PathTheorems.canonical canon ps /\ ~ [chars "home"; chars "user"; chars "repo"] `prefix_of` ps.
Proof.
  assert (validate_output_root demo_realpath (fun _ => true) "/home/user" "/home/user/repo" "/tmp/../var/out" = Ok "/var/out"%string) as H
    by reflexivity.
  destruct (PathTheorems.output_root_is_outside demo_realpath (fun _ => true) "/home/user" "/home/user/repo" "/tmp/../var/out"
    "/var/out" [chars "home"; chars "user"; chars "repo"]) as (_ & _ & _ & ps & Hps & Hn & _).
  - intros p. right. exists (demo_components p). apply demo_canonical.
  - apply (demo_canonical "/home/user/repo").
  - exact H.
  - by exists "/var/out"%string, ps.
Defined.
End LifecycleWitnesses.
