(* ===== verification/HilSession.v ===== *)
(** * Immutable fixture sessions (scripts/hil/session.py)

    The session manifest: its strict parser, the payload of a resolution and
    its serialization; creating, loading and revalidating a session over a
    world of answers (files, clock, discovery), with the side effects on the
    session root and every discovery as ghost events.  SHA-256 is an
    argument.  Texts are ASCII or the UTF-8 bytes of the decoded text. *)

From S2P Require Import Prelude PyText PyPath PyRegex Json HilModel.
From S2P Require HilDiscovery HilLifecycle HilProtocol.
Module D := HilDiscovery.
Module L := HilLifecycle.

(** ** Constants *)

Definition SESSION_SCHEMA_VERSION : Z := 1.
Definition DEFAULT_SESSION_ROOT : string := "/tmp/opencode/hil-sessions".
Definition SESSION_FILENAME : string := "devices.json".
Definition PROBE_SERIAL_RE : re := (Bol • Plus D.serial_char • Eos)%re.
Definition SHA256_RE : re := (Bol • Rep 64 (Cls D.is_hex) • Eos)%re.
Definition RAW_HEX_RE : re := (Bol • Lit "0x" • Rep 8 (Cls D.is_hex) • Eos)%re.
Definition digits (n : nat) : re := Rep n (Cls is_digit).
Definition RFC3339_UTC_RE : re :=
  (Bol • digits 4 • Lit "-" • digits 2 • Lit "-" • digits 2 • Lit "T" • digits 2 • Lit ":" • digits 2 • Lit ":" • digits 2 •
   Opt (Lit "." • Plus is_digit) • Alt (Lit "Z") (Lit "+00:00") • Eos)%re.
Definition TTY_PATH_RE : re := (Bol • Lit "/dev/ttyACM" • Plus is_digit • Eos)%re.
Definition STABLE_UDEV_KEYS : list string :=
  ["ID_BUS"; "ID_VENDOR_ID"; "ID_MODEL_ID"; "ID_SERIAL_SHORT"; "ID_USB_INTERFACE_NUM"; "ID_USB_DRIVER"; "ID_PATH"]%string.
Definition EXPECTED_XIAO_UDEV : list (string * string) :=
  [("ID_BUS", "usb"); ("ID_VENDOR_ID", "2886"); ("ID_MODEL_ID", "0066"); ("ID_USB_INTERFACE_NUM", "02"); ("ID_USB_DRIVER", "cdc_acm")]%string.

(** ** Failures *)

(** [HilSessionError] by message. *)
Inductive cause : Type :=
| PathChanged | ReplacementDetected | PermissionChanged | BytesChanged
| NotUtf8 (label : string) | BadJson (label : string) | NotAnObject (label : string)
| MustBeObject (label : string) | UnknownKey (label : string) | MissingKey (label : string) | NotNonempty (label : string)
| NotSha256 (label : string) | BadSessionId | BadProbeSerial (label : string) | NotUtc
| VariantMalformed | VariantNotAscii | VariantNotPrintable
| ProtocolVersionNotInt | FirmwareMismatch (role : string) | ProbeMismatch (role key : string) | ApNotHex (role key : string)
| VariantDisagrees (role : string) | TtyNotCanonical (role : string) | ParentNotCanonical (role : string)
| UdevMismatch (role key : string) | CorrelationMismatch (role : string) | BadBaud (role : string) | BadLines (role : string)
| BadSchemaVersion | SameSerials | SameTtys | SameParents
| CannotRead (label : string) | Schema (e : schema_error) | RoleSetMismatch | LogicalMismatch (role : string) | ProbeContract (role : string)
| FixtureChanged | BindingChanged
| RootNotAbsolute | RootNotCanonical | DefaultParentMissing | DefaultParentNotCanonical | RootNotDirectory | CannotCreateRoot
| CustomRootMissing | RootIsSlash | RootInRepo
| SessionExists | SessionTraversesLink | CannotCreateSession | CannotOpenForSync | CannotSync | CannotCreateManifest | CannotWriteManifest
| ManifestNotAbsolute | ManifestNotCanonical | ManifestBasename | ManifestParentChanged | ManifestSymlink | CannotInspect | ManifestNotRegular
| CannotOpenManifest | CannotReadManifest | ModeNot0400
| MissingUdev (role key : string) | ResolvedProbe (role : string) | ResolvedAps (role : string) | ResolvedParent (role : string)
| NowNotUtc | NowNotText | SameProbes
| IdMismatch | FixtureIdChanged
| Drift (role what : string) | NotAManifest | NotABinding | OtherBinding | RevalidatedRoles.
Inductive exn : Type :=
| SessionError (c : cause)
| DiscoveryRefused (c : D.cause) (evidence : D.raw_map)
| OSError (text : string) | OtherError (text : string) | Interrupt | OutOfFuel.
Abbreviation cresult A := (result cause A).

(** ** The manifest document *)

(** A number, string or array anywhere in the value that came from a JSON
    constant ([NaN], [Infinity], [-Infinity]). *)
Fixpoint has_constant (v : json) : bool :=
  match v with
  | JFloat s => py_in s ["NaN"; "Infinity"; "-Infinity"]%string
  | JArr l => existsb has_constant l
  | JObj d => existsb (fun '(_, x) => has_constant x) d
  | _ => false
  end.

(** Invalid JSON, a duplicate key and a constant are refused alike. *)
Definition _parse_json_bytes (raw : list ascii) (label : string) : cresult (list (string * json)) :=
  ensure (utf8_valid raw) (NotUtf8 label);;
  match loads_chars HilProtocol._reject_duplicate_keys raw with
  | Err _ => Err (BadJson label)
  | Ok v =>
      ensure (negb (has_constant v)) (BadJson label);;
      match v with JObj d => Ok d | _ => Err (NotAnObject label) end
  end.

Definition _require_exact_keys (value : json) (keys : list string) (label : string) : cresult (list (string * json)) :=
  match value with
  | JObj d =>
      ensure (forallb (fun k => py_in k keys) d.*1) (UnknownKey label);;
      ensure (forallb (fun k => dict_has k d) keys) (MissingKey label);;
      Ok d
  | _ => Err (MustBeObject label)
  end.

Definition nul : ascii := "000"%char.
Definition _require_string (value : json) (label : string) : cresult string :=
  match value with
  | JStr s => ensure (negb (String.eqb s EmptyString) && negb (existsb (Ascii.eqb nul) (chars s))) (NotNonempty label);; Ok s
  | _ => Err (NotNonempty label)
  end.
Definition full (r : re) (s : string) : bool := match fullmatch r (chars s) with Some _ => true | None => false end.
Definition _require_sha256 (value : json) (label : string) : cresult string :=
  s ← _require_string value label; ensure (full SHA256_RE s) (NotSha256 label);; Ok s.
Definition _require_session_id (value : json) : cresult string :=
  match value with JStr s => ensure (full L.RUN_ID_RE s) BadSessionId;; Ok s | _ => Err BadSessionId end.
Definition _require_probe_serial (value : json) (label : string) : cresult string :=
  match value with JStr s => ensure (full PROBE_SERIAL_RE s) (BadProbeSerial label);; Ok s | _ => Err (BadProbeSerial label) end.

(** What [datetime.fromisoformat] still refuses of a text of the form above:
    a date or a time that does not exist. *)
Definition leap (y : Z) : bool := (y mod 4 =? 0) && (negb (y mod 100 =? 0) || (y mod 400 =? 0)).
Definition days_in_month (y m : Z) : Z :=
  if m =? 2 then (if leap y then 29 else 28) else if py_in m [4; 6; 9; 11] then 30 else 31.
Definition civil (l : list ascii) : bool :=
  let n a k := int_of_digits (take k (drop a l)) in
  let y := n 0%nat 4%nat in let m := n 5%nat 2%nat in let d := n 8%nat 2%nat in
  (1 <=? y) && (1 <=? m) && (m <=? 12) && (1 <=? d) && (d <=? days_in_month y m) &&
  (n 11%nat 2%nat <=? 23) && (n 14%nat 2%nat <=? 59) && (n 17%nat 2%nat <=? 59).
Definition _require_utc (value : json) : cresult string :=
  s ← _require_string value "created_at_utc";
  ensure (full RFC3339_UTC_RE s) NotUtc;;
  ensure (civil (chars s)) NotUtc;;
  Ok s.

Definition _variant_display (raw : string) : cresult string :=
  ensure (full RAW_HEX_RE raw) VariantMalformed;;
  let display := D.hex_bytes (drop 2 (chars raw)) in
  ensure (forallb is_ascii display) VariantNotAscii;;
  ensure (negb (bool_decide (display = [])) && forallb D.is_printable display) VariantNotPrintable;;
  Ok (of_chars display).

Definition _expected_firmware (role : string) : list (string * json) :=
  if String.eqb role "receiver" then [("role", JStr "receiver"); ("boot_contract", JStr "le-audio-receiver-v1")]%string
  else [("role", JStr "source"); ("firmware_id", JStr "le-audio-hil-source-rh1"); ("protocol_version", JInt 1)]%string.

Record SessionRole : Type := mk_role { expected_firmware : list (string * json); sr_probe : D.ProbeIdentity; sr_serial : D.SerialIdentity }.

(** [d[key]] of a checked object, and [d[key] != expected]. *)
Definition item (d : list (string * json)) (key : string) : json := default JNull (dict_get key d).
Definition is_text (expected : string) (v : json) : bool := match v with JStr s => String.eqb s expected | _ => false end.
Definition text_of (v : json) : string := match v with JStr s => s | _ => EmptyString end.
Definition scalar_eqb (a b : json) : bool :=
  match a, b with JStr s, JStr t => String.eqb s t | JInt x, JInt y => x =? y | _, _ => false end.

Definition check_firmware (role : string) (value : json) : cresult (list (string * json)) :=
  let expected := _expected_firmware role in
  d ← _require_exact_keys value expected.*1 (role ++ " expected_firmware");
  ensure (String.eqb role "receiver" || match item d "protocol_version" with JInt _ => true | _ => false end) ProtocolVersionNotInt;;
  ensure (forallb (fun '(k, v) => scalar_eqb (item d k) v) expected) (FirmwareMismatch role);;
  Ok d.

Definition PROBE_KEYS : list string :=
  ["backend"; "family"; "serial"; "product"; "target"; "dpidr"; "ap_idrs"; "part"; "variant"; "variant_raw"]%string.
Definition PROBE_CONTRACT : list (string * string) :=
  [("backend", "nrf-probes"); ("family", "nrf54l"); ("target", D.RECEIVER_TARGET); ("dpidr", D.RECEIVER_DPIDR); ("part", D.RECEIVER_PART)]%string.
(** The loop over a list of checks, each with its own error. *)
Fixpoint check_all {A} (ok : A -> bool) (err : A -> cause) (l : list A) : cresult unit :=
  match l with [] => Ok tt | x :: l => ensure (ok x) (err x);; check_all ok err l end.

Definition parse_probe (role : string) (value : json) : cresult D.ProbeIdentity :=
  probe ← _require_exact_keys value PROBE_KEYS (role ++ " probe");
  serial_number ← _require_probe_serial (item probe "serial") (role ++ " probe serial");
  product ← _require_string (item probe "product") (role ++ " probe product");
  check_all (fun '(k, v) => is_text v (item probe k)) (fun '(k, _) => ProbeMismatch role k) PROBE_CONTRACT;;
  ap_idrs ← _require_exact_keys (item probe "ap_idrs") D.ap_keys (role ++ " probe ap_idrs");
  check_all (fun k => match item ap_idrs k with JStr s => full RAW_HEX_RE s | _ => false end) (ApNotHex role) D.ap_keys;;
  variant ← _require_string (item probe "variant") (role ++ " probe variant");
  variant_raw ← _require_string (item probe "variant_raw") (role ++ " probe variant_raw");
  display ← _variant_display variant_raw;
  ensure (String.eqb display variant) (VariantDisagrees role);;
  let text k := text_of (item probe k) in
  Ok (D.mk_probe_identity role (text "backend") (text "family") serial_number product (text "target") (text "dpidr")
        (prod_map id text_of <$> ap_idrs) (text "part") variant variant_raw).

Definition SERIAL_KEYS : list string := ["path_observed"; "usb_parent_observed"; "stable_udev"; "baud"; "dtr"; "rts"]%string.
Definition parse_serial (role serial_number : string) (value : json) : cresult D.SerialIdentity :=
  serial ← _require_exact_keys value SERIAL_KEYS (role ++ " serial");
  path_observed ← _require_string (item serial "path_observed") (role ++ " serial path_observed");
  ensure (full TTY_PATH_RE path_observed && String.eqb (normpath path_observed) path_observed) (TtyNotCanonical role);;
  usb_parent ← _require_string (item serial "usb_parent_observed") (role ++ " serial usb_parent_observed");
  ensure (startswith "/" usb_parent && String.eqb (normpath usb_parent) usb_parent) (ParentNotCanonical role);;
  stable_udev ← _require_exact_keys (item serial "stable_udev") STABLE_UDEV_KEYS (role ++ " serial stable_udev");
  result_mapM (fun k => _require_string (item stable_udev k) (role ++ " serial stable_udev." ++ k)) STABLE_UDEV_KEYS;;
  check_all (fun '(k, v) => is_text v (item stable_udev k)) (fun '(k, _) => UdevMismatch role k) EXPECTED_XIAO_UDEV;;
  ensure (is_text serial_number (item stable_udev "ID_SERIAL_SHORT")) (CorrelationMismatch role);;
  ensure (match item serial "baud" with JInt z => z =? 115200 | _ => false end) (BadBaud role);;
  ensure (match item serial "dtr", item serial "rts" with JBool true, JBool false => true | _, _ => false end) (BadLines role);;
  Ok (D.mk_serial_identity role path_observed 115200 (prod_map id text_of <$> stable_udev) (Some usb_parent) true false).

Definition _parse_role (role : string) (value : json) : cresult SessionRole :=
  d ← _require_exact_keys value ["expected_firmware"; "probe"; "serial"]%string (role ++ " role");
  firmware ← check_firmware role (item d "expected_firmware");
  probe ← parse_probe role (item d "probe");
  serial ← parse_serial role (D.pi_serial probe) (item d "serial");
  Ok (mk_role firmware probe serial).

Record parsed_manifest : Type := mk_parsed {
  pm_session_id : string; pm_created : string; pm_fixture_id : string; pm_fixture_sha256 : string; pm_binding_sha256 : string;
  pm_receiver : SessionRole; pm_source : SessionRole }.
Definition MANIFEST_KEYS : list string := ["schema_version"; "session_id"; "created_at_utc"; "fixture"; "binding"; "roles"]%string.

(** The text of a path: the parser's label of the whole document. *)
Definition _parse_manifest (raw : list ascii) (path : string) : cresult parsed_manifest :=
  obj ← _parse_json_bytes raw path;
  obj ← _require_exact_keys (JObj obj) MANIFEST_KEYS path;
  ensure (match item obj "schema_version" with JInt z => z =? SESSION_SCHEMA_VERSION | _ => false end) BadSchemaVersion;;
  session_id ← _require_session_id (item obj "session_id");
  created_at_utc ← _require_utc (item obj "created_at_utc");
  fixture ← _require_exact_keys (item obj "fixture") ["fixture_id"; "sha256"]%string "fixture";
  fixture_id ← _require_string (item fixture "fixture_id") "fixture fixture_id";
  fixture_sha256 ← _require_sha256 (item fixture "sha256") "fixture sha256";
  binding ← _require_exact_keys (item obj "binding") ["sha256"]%string "binding";
  binding_sha256 ← _require_sha256 (item binding "sha256") "binding sha256";
  roles ← _require_exact_keys (item obj "roles") ["receiver"; "source"]%string "roles";
  receiver ← _parse_role "receiver" (item roles "receiver");
  source ← _parse_role "source" (item roles "source");
  ensure (negb (String.eqb (D.pi_serial (sr_probe receiver)) (D.pi_serial (sr_probe source)))) SameSerials;;
  ensure (negb (String.eqb (D.si_path (sr_serial receiver)) (D.si_path (sr_serial source)))) SameTtys;;
  ensure (negb (bool_decide (D.si_usb_parent (sr_serial receiver) = D.si_usb_parent (sr_serial source)))) SameParents;;
  Ok (mk_parsed session_id created_at_utc fixture_id fixture_sha256 binding_sha256 receiver source).

(** ** The payload of a resolution *)

Fixpoint stable_loop (role : string) (p : D.props) (keys : list string) : cresult (list (string * string)) :=
  match keys with
  | [] => Ok []
  | key :: keys =>
      match dict_get key p with
      | None | Some EmptyString => Err (MissingUdev role key)
      | Some v => rest ← stable_loop role p keys; Ok ((key, v) :: rest)
      end
  end.
Definition _stable_udev (p : D.props) (role : string) : cresult (list (string * string)) := stable_loop role p STABLE_UDEV_KEYS.

Definition strs (d : list (string * string)) : json := JObj (prod_map id JStr <$> d).
Definition _role_payload (role : string) (i : D.RoleIdentity) : cresult json :=
  let probe := D.ri_probe i in
  let serial := D.ri_serial i in
  ensure (String.eqb (D.pi_backend probe) "nrf-probes" && String.eqb (D.pi_family probe) "nrf54l" &&
          String.eqb (D.pi_target probe) D.RECEIVER_TARGET && String.eqb (D.pi_dpidr probe) D.RECEIVER_DPIDR &&
          String.eqb (D.pi_part probe) D.RECEIVER_PART) (ResolvedProbe role);;
  ensure (D.same_set (D.pi_ap_idrs probe).*1 D.ap_keys) (ResolvedAps role);;
  parent ← result_of_option (ResolvedParent role) (D.si_usb_parent serial);
  ensure (negb (String.eqb parent EmptyString)) (ResolvedParent role);;
  stable ← _stable_udev (D.si_properties serial) role;
  Ok (JObj
    [("expected_firmware", JObj (_expected_firmware role));
     ("probe", JObj [("backend", JStr (D.pi_backend probe)); ("family", JStr (D.pi_family probe)); ("serial", JStr (D.pi_serial probe));
        ("product", JStr (D.pi_product probe)); ("target", JStr (D.pi_target probe)); ("dpidr", JStr (D.pi_dpidr probe));
        ("ap_idrs", strs (D.pi_ap_idrs probe)); ("part", JStr (D.pi_part probe)); ("variant", JStr (D.pi_variant probe));
        ("variant_raw", JStr (D.pi_variant_raw probe))]);
     ("serial", JObj [("path_observed", JStr (D.si_path serial)); ("usb_parent_observed", JStr parent); ("stable_udev", strs stable);
        ("baud", JInt (D.si_baud serial)); ("dtr", JBool (D.si_dtr serial)); ("rts", JBool (D.si_rts serial))])]%string).

(** [json.dumps(payload, sort_keys=True, separators=(",", ":"))] and a
    newline. *)
Definition key_le {A} (x y : string * A) : Prop := String.le x.1 y.1.
#[export] Instance key_le_dec {A} : RelDecision (@key_le A) := fun x y => decide (String.le x.1 y.1).
Fixpoint sort_keys (v : json) : json :=
  match v with
  | JArr l => JArr (sort_keys <$> l)
  | JObj d => JObj (merge_sort key_le (prod_map id sort_keys <$> d))
  | v => v
  end.
Definition _serialize_manifest_payload (payload : json) : list ascii := dump false (sort_keys payload) ++ [newline].

(** ** The world and the state *)

Record file_stat : Type := mk_stat { st_dev : Z; st_ino : Z; st_regular : bool; st_link : bool; st_perm : Z }.
(** An answer per call.  [chunks] is what the reads of a descriptor return
    before the empty one; [written] is how many bytes a write took, less one.
    [discover] is [discovery.resolve_fixture]. *)
Record world : Type := mk_world {
  read_file : nat -> string -> result exn (list ascii);
  model_host : nat -> host; model_reads : nat -> reads;
  islink : nat -> string -> bool; isdir : nat -> string -> bool; lexists : nat -> string -> bool;
  realpath : nat -> string -> string; repo_root : string;
  mkdir : nat -> string -> result exn unit; chmod : nat -> string -> result exn unit;
  lstat : nat -> string -> result exn file_stat; open_read : nat -> string -> result exn file_stat;
  chunks : nat -> result exn (list (list ascii));
  open_excl : nat -> string -> result exn unit;
  written : nat -> result exn nat; sync : nat -> result exn unit; fchmod : nat -> result exn unit;
  open_dir : nat -> string -> result exn unit; close : nat -> result exn unit;
  now : nat -> json;
  discover : nat -> PhysicalBinding -> string -> string -> D.answer }.

(** Side effects, and every discovery. *)
Inductive event : Type :=
| Discovered (receiver source : string)
| MadeDir (path : string) | Created (path : string) | Wrote (path : string) (bytes : list ascii) | Sealed (path : string).
Record state : Type := mk_state { turn : nat; log : list event }.
Definition tick (s : state) : state := mk_state (S (turn s)) (log s).
Definition add_event (e : event) (s : state) : state := mk_state (turn s) (log s ++ [e]).

Abbreviation M := (method state exn).
Definition ask {A} (answer : nat -> A) : M A := s ← self; assign tick;; mret (answer (turn s)).
Definition call {A} (answer : nat -> result exn A) : M A := r ← ask answer; lift r.
Definition note (e : event) : M unit := assign (add_event e).
Definition refuse {A} (c : cause) : M A := raise (SessionError c).
Definition require (b : bool) (c : cause) : M unit := check b (SessionError c).
Definition of_cause {A} (r : cresult A) : M A := lift (match r with Ok a => Ok a | Err c => Err (SessionError c) end).
Definition is_os (e : exn) : bool := match e with OSError _ => true | _ => false end.
(** [except OSError as exc: raise HilSessionError(...)] *)
Definition or_refuse {A} (m : M A) (c : cause) : M A := except is_os m (fun _ => refuse c).
(** [try: m finally: os.close(fd)] *)
Definition closing {A} (w : world) (m : M A) : M A := r ← tried m; call (close w);; lift r.

(** Equality of the values a dictionary of strings holds, in any order. *)
Definition dict_eqb {V} (eqv : V -> V -> bool) (a b : list (string * V)) : bool :=
  (length a =? length b)%nat && forallb (fun '(k, v) => match dict_get k b with Some v' => eqv v v' | None => false end) a.
Definition strings_eqb : list (string * string) -> list (string * string) -> bool := dict_eqb String.eqb.

(** [binding != parsed_binding]: the values of a metadata document are
    strings. *)
Definition opt_eqb {A} (eqv : A -> A -> bool) (a b : option A) : bool :=
  match a, b with Some x, Some y => eqv x y | None, None => true | _, _ => false end.
Definition role_binding_eqb (a b : PhysicalRoleBinding) : bool :=
  let p := probe a in let q := probe b in let s := serial a in let t := serial b in
  String.eqb (pb_backend p) (pb_backend q) && String.eqb (pb_family p) (pb_family q) && opt_eqb strings_eqb (pb_udev p) (pb_udev q) &&
  (baud s =? baud t) && eqb (dtr s) (dtr t) && eqb (rts s) (rts t) && strings_eqb (sb_udev s) (sb_udev t).
Definition capture_binding_eqb (a b : CaptureBinding) : bool :=
  let m := cb_mixer a in let n := cb_mixer b in let x := cb_metadata a in let y := cb_metadata b in
  String.eqb (cb_backend a) (cb_backend b) && String.eqb (cb_device a) (cb_device b) && (cb_channels a =? cb_channels b) &&
  (cb_sample_rate a =? cb_sample_rate b) && String.eqb (cb_sample_format a) (cb_sample_format b) && strings_eqb (cb_udev a) (cb_udev b) &&
  String.eqb (control m) (control n) && String.eqb (volume m) (volume n) && String.eqb (capture_switch m) (capture_switch n) &&
  String.eqb (agc_control m) (agc_control n) && String.eqb (agc m) (agc n) &&
  String.eqb (m_path x) (m_path y) && String.eqb (m_sha256 x) (m_sha256 y) && dict_eqb scalar_eqb (m_values x) (m_values y).
Definition binding_eqb (a b : PhysicalBinding) : bool :=
  (b_schema_version a =? b_schema_version b) && String.eqb (b_fixture_id a) (b_fixture_id b) &&
  dict_eqb (fun x y => match x, y with inl p, inl q => role_binding_eqb p q | inr p, inr q => capture_binding_eqb p q | _, _ => false end)
    (b_roles a) (b_roles b).

Section session.
Context (w : world) (sha256 : list ascii -> string).

(** *** Inputs *)

Definition _read_bytes (path label : string) : M (list ascii) := or_refuse (call (fun n => read_file w n path)) (CannotRead label).

(** What a schema error becomes; [open] and the integer limit raise other
    exceptions. *)
Definition of_schema {A} (r : sresult A) : M A :=
  match r with
  | Ok a => mret a
  | Err OsError => raise (OSError "metadata")
  | Err PlainValueError => raise (OtherError "ValueError")
  | Err e => refuse (Schema e)
  end.

Definition expected_images (role : string) : list string := if String.eqb role "receiver" then ["cpuapp"; "flpr"]%string else ["cpuapp"]%string.
Definition check_pair_role (fx : LogicalFixture) (b : PhysicalBinding) (role : string) : M unit :=
  logical ← lift (result_of_option (OtherError role) (dict_get role (roles fx)));
  require (bool_decide (board logical = Some NRF54L15_CPUAPP_BOARD) && bool_decide (images logical = expected_images role)) (LogicalMismatch role);;
  physical ← lift (match dict_get role (b_roles b) with Some (inl r) => Ok r | _ => Err (OtherError role) end);
  require (String.eqb (pb_backend (probe physical)) "nrf-probes" && String.eqb (pb_family (probe physical)) "nrf54l") (ProbeContract role).

Record xiao_pair : Type := mk_pair { xp_fixture : LogicalFixture; xp_binding : PhysicalBinding; xp_fixture_bytes : list ascii; xp_binding_bytes : list ascii }.
Definition _load_xiao_pair (fixture_path binding_path : string) : M xiao_pair :=
  fixture_bytes ← _read_bytes fixture_path "fixture";
  binding_bytes ← _read_bytes binding_path "binding";
  fixture ← of_schema (parse_logical_fixture_bytes fixture_bytes);
  h ← ask (model_host w);
  rd ← ask (model_reads w);
  binding ← of_schema (parse_physical_binding_bytes sha256 h rd binding_bytes fixture);
  let expected_roles := ["receiver"; "source"]%string ++ (if decide (capture_capability fixture = NONE) then [] else ["capture"]%string) in
  require (D.same_set (roles fixture).*1 expected_roles && D.same_set (b_roles binding).*1 expected_roles) RoleSetMismatch;;
  check_pair_role fixture binding "receiver";;
  check_pair_role fixture binding "source";;
  mret (mk_pair fixture binding fixture_bytes binding_bytes).

Definition _assert_input_bytes_unchanged (fixture_path binding_path : string) (fixture_bytes binding_bytes : list ascii) : M unit :=
  current_fixture_bytes ← _read_bytes fixture_path "fixture";
  current_binding_bytes ← _read_bytes binding_path "binding";
  require (bool_decide (current_fixture_bytes = fixture_bytes)) FixtureChanged;;
  require (bool_decide (current_binding_bytes = binding_bytes)) BindingChanged.

(** *** The session root *)

Definition clean_path (path : string) : bool := startswith "/" path && negb (existsb (Ascii.eqb nul) (chars path)).
Definition make_dir (path : string) (c : cause) : M unit :=
  or_refuse (call (fun n => mkdir w n path);; note (MadeDir path);; call (fun n => chmod w n path)) c.

(** [commonpath((a, b))] of canonical paths is one of them: one is above the
    other, or they are equal. *)
Definition related (a b : string) : bool := String.eqb a b || L.under a b || L.under b a || String.eqb b "/".

Definition _canonical_root (path : string) (default_root : bool) : M string :=
  require (clean_path path) RootNotAbsolute;;
  require (String.eqb (normpath path) path) RootNotCanonical;;
  if default_root then
    let parent := "/tmp/opencode"%string in
    link ← ask (fun n => islink w n parent);
    dir ← (if link : bool then mret false else ask (fun n => isdir w n parent));
    require dir DefaultParentMissing;;
    real ← ask (fun n => realpath w n parent);
    require (String.eqb real parent) DefaultParentNotCanonical;;
    there ← ask (fun n => lexists w n path);
    (if there : bool then
       link ← ask (fun n => islink w n path);
       dir ← (if link : bool then mret false else ask (fun n => isdir w n path));
       require dir RootNotDirectory
     else make_dir path CannotCreateRoot);;
    mret path
  else
    link ← ask (fun n => islink w n path);
    dir ← (if link : bool then mret false else ask (fun n => isdir w n path));
    require dir CustomRootMissing;;
    canonical ← ask (fun n => realpath w n path);
    require (String.eqb canonical path) RootNotCanonical;;
    require (negb (String.eqb canonical "/")) RootIsSlash;;
    repo ← ask (fun n => realpath w n (repo_root w));
    require (negb (related canonical repo)) RootInRepo;;
    mret canonical.

Definition _create_session_dir (root session_id : string) : M string :=
  let path := path_join root session_id in
  there ← ask (fun n => lexists w n path);
  require (negb there) SessionExists;;
  real ← ask (fun n => realpath w n path);
  require (String.eqb real path) SessionTraversesLink;;
  make_dir path CannotCreateSession;;
  mret path.

Definition _fsync_directory (path : string) : M unit :=
  or_refuse (call (fun n => open_dir w n path)) CannotOpenForSync;;
  closing w (or_refuse (call (sync w)) CannotSync).

(** [while offset < len(data): offset += os.write(fd, data[offset:])]; a
    write takes at least one byte, so the length is enough fuel. *)
Fixpoint write_loop (fuel : nat) (path : string) (data : list ascii) : M unit :=
  match data, fuel with
  | [], _ => mret tt
  | _, O => raise OutOfFuel
  | _, S fuel =>
      n ← call (written w);
      note (Wrote path (take (S n) data));;
      write_loop fuel path (drop (S n) data)
  end.
Definition _create_manifest_file (session_dir : string) (data : list ascii) : M string :=
  let path := path_join session_dir SESSION_FILENAME in
  or_refuse (call (fun n => open_excl w n path)) CannotCreateManifest;;
  note (Created path);;
  closing w
    (or_refuse
       (write_loop (length data) path data;;
        call (sync w);;
        call (fchmod w);;
        note (Sealed path);;
        call (sync w)) CannotWriteManifest);;
  _fsync_directory session_dir;;
  mret path.

(** *** Reading a manifest *)

Definition _canonical_manifest_path (path : string) (expected_session_id : option string) : M (string * string) :=
  require (clean_path path) ManifestNotAbsolute;;
  require (String.eqb (normpath path) path) ManifestNotCanonical;;
  require (String.eqb (basename path) SESSION_FILENAME) ManifestBasename;;
  let session_id := basename (dirname path) in
  of_cause (_require_session_id (JStr session_id));;
  require (match expected_session_id with Some e => String.eqb session_id e | None => true end) ManifestParentChanged;;
  link ← ask (fun n => islink w n path);
  link_dir ← (if link : bool then mret true else ask (fun n => islink w n (dirname path)));
  require (negb link_dir) ManifestSymlink;;
  canonical ← ask (fun n => realpath w n path);
  require (String.eqb canonical path) ManifestNotCanonical;;
  mret (canonical, session_id).

Record file_state : Type := mk_file_state { fs_path : string; fs_bytes : list ascii; fs_device : Z; fs_inode : Z; fs_mode : Z; fs_session_id : string }.
Definition MODE : Z := 256. (** 0o400 *)
Definition _read_manifest_file (path : string) (expected_session_id : option string) : M file_state :=
  p ← _canonical_manifest_path path expected_session_id;
  let '(canonical, session_id) := p in
  before ← or_refuse (call (fun n => lstat w n canonical)) CannotInspect;
  require (negb (st_link before) && st_regular before) ManifestNotRegular;;
  opened ← or_refuse (call (fun n => open_read w n canonical)) CannotOpenManifest;
  raw ← closing w (require (st_regular opened) ManifestNotRegular;; or_refuse (call (chunks w)) CannotReadManifest);
  require ((st_dev before =? st_dev opened) && (st_ino before =? st_ino opened)) ReplacementDetected;;
  require (st_perm opened =? MODE) ModeNot0400;;
  mret (mk_file_state canonical (concat raw) (st_dev opened) (st_ino opened) (st_perm opened) session_id).

Record SessionManifest : Type := mk_manifest {
  path : string; raw_bytes : list ascii; m_sha256 : string; device : Z; inode : Z; mode : Z;
  session_id : string; created_at_utc : string; m_fixture_id : string; fixture_sha256 : string; binding_sha256 : string;
  fixture_bytes : list ascii; binding_bytes : list ascii; m_receiver : SessionRole; m_source : SessionRole }.

Definition assert_unchanged (m : SessionManifest) : M unit :=
  f ← _read_manifest_file (path m) (Some (session_id m));
  require (String.eqb (fs_path f) (path m)) PathChanged;;
  require ((fs_device f =? device m) && (fs_inode f =? inode m)) ReplacementDetected;;
  require ((fs_mode f =? mode m) && (fs_mode f =? MODE)) PermissionChanged;;
  require (bool_decide (fs_bytes f = raw_bytes m) && String.eqb (sha256 (fs_bytes f)) (m_sha256 m)) BytesChanged.

Definition load_session (manifest_path fixture_path binding_path : string) : M SessionManifest :=
  f ← _read_manifest_file manifest_path None;
  parsed ← of_cause (_parse_manifest (fs_bytes f) (fs_path f));
  require (String.eqb (fs_session_id f) (pm_session_id parsed)) IdMismatch;;
  x ← _load_xiao_pair fixture_path binding_path;
  require (String.eqb (pm_fixture_id parsed) (fixture_id (xp_fixture x))) FixtureIdChanged;;
  require (String.eqb (pm_fixture_sha256 parsed) (sha256 (xp_fixture_bytes x))) FixtureChanged;;
  require (String.eqb (pm_binding_sha256 parsed) (sha256 (xp_binding_bytes x))) BindingChanged;;
  mret (mk_manifest (fs_path f) (fs_bytes f) (sha256 (fs_bytes f)) (fs_device f) (fs_inode f) (fs_mode f)
          (pm_session_id parsed) (pm_created parsed) (pm_fixture_id parsed) (pm_fixture_sha256 parsed) (pm_binding_sha256 parsed)
          (xp_fixture_bytes x) (xp_binding_bytes x) (pm_receiver parsed) (pm_source parsed)).

(** *** Creating a session *)

(** The clock gives a [datetime] in UTC as its text, anything else as it is:
    [JNull] a [datetime] that is not in UTC. *)
Definition _utc_string : M string :=
  value ← ask (now w);
  match value with
  | JNull => refuse NowNotUtc
  | JStr s => of_cause (_require_utc (JStr s))
  | _ => refuse NowNotText
  end.

Definition resolve (b : PhysicalBinding) (receiver source : string) : M D.FixtureResolution :=
  a ← ask (fun n => discover w n b receiver source);
  note (Discovered receiver source);;
  match a with
  | D.Resolved r => mret r
  | D.Refused c ev => raise (DiscoveryRefused c ev)
  | D.Escaped _ => raise Interrupt
  end.

Definition role_of (r : D.FixtureResolution) (role : string) : M D.RoleIdentity :=
  lift (result_of_option (OtherError role) (dict_get role (D.fr_roles r))).

Definition session_payload (session_id created fixture_id fixture_sha binding_sha : string) (receiver source : json) : json :=
  JObj [("schema_version", JInt SESSION_SCHEMA_VERSION); ("session_id", JStr session_id); ("created_at_utc", JStr created);
        ("fixture", JObj [("fixture_id", JStr fixture_id); ("sha256", JStr fixture_sha)]);
        ("binding", JObj [("sha256", JStr binding_sha)]);
        ("roles", JObj [("receiver", receiver); ("source", source)])]%string.

(** The tail of [create_session], once the manifest is known to parse. *)
Definition commit (fixture_path binding_path : string) (x : xiao_pair) (session_root id : string) (data : list ascii) : M SessionManifest :=
  _assert_input_bytes_unchanged fixture_path binding_path (xp_fixture_bytes x) (xp_binding_bytes x);;
  root ← _canonical_root session_root (String.eqb session_root DEFAULT_SESSION_ROOT);
  _assert_input_bytes_unchanged fixture_path binding_path (xp_fixture_bytes x) (xp_binding_bytes x);;
  session_dir ← _create_session_dir root id;
  manifest_path ← _create_manifest_file session_dir data;
  load_session manifest_path fixture_path binding_path.

Definition create_session (fixture_path binding_path : string) (session_id receiver_probe source_probe : json) (session_root : string) : M SessionManifest :=
  x ← _load_xiao_pair fixture_path binding_path;
  session_id ← of_cause (_require_session_id session_id);
  receiver_probe ← of_cause (_require_probe_serial receiver_probe "receiver probe serial");
  source_probe ← of_cause (_require_probe_serial source_probe "source probe serial");
  require (negb (String.eqb receiver_probe source_probe)) SameProbes;;
  resolution ← resolve (xp_binding x) receiver_probe source_probe;
  created_at_utc ← _utc_string;
  ri ← role_of resolution "receiver";
  receiver ← of_cause (_role_payload "receiver" ri);
  si ← role_of resolution "source";
  source ← of_cause (_role_payload "source" si);
  let payload := session_payload session_id created_at_utc (fixture_id (xp_fixture x)) (sha256 (xp_fixture_bytes x)) (sha256 (xp_binding_bytes x)) receiver source in
  let manifest_bytes := _serialize_manifest_payload payload in
  of_cause (_parse_manifest manifest_bytes "generated session manifest");;
  commit fixture_path binding_path x session_root session_id manifest_bytes.

(** *** Revalidating *)

Definition PROBE_FIELDS : list (string * (D.ProbeIdentity -> string)) :=
  [("backend", D.pi_backend); ("family", D.pi_family); ("serial", D.pi_serial); ("product", D.pi_product); ("target", D.pi_target);
   ("dpidr", D.pi_dpidr); ("part", D.pi_part); ("variant", D.pi_variant); ("variant_raw", D.pi_variant_raw)]%string.
Definition _compare_role (manifest_role : SessionRole) (current : D.RoleIdentity) (role : string) : cresult unit :=
  let expected_probe := sr_probe manifest_role in let current_probe := D.ri_probe current in
  check_all (fun '(_, f) => String.eqb (f current_probe) (f expected_probe)) (fun '(name, _) => Drift role name) PROBE_FIELDS;;
  ensure (strings_eqb (D.pi_ap_idrs current_probe) (D.pi_ap_idrs expected_probe)) (Drift role "AP IDR");;
  let expected_serial := sr_serial manifest_role in let current_serial := D.ri_serial current in
  ensure (bool_decide (D.si_usb_parent current_serial = D.si_usb_parent expected_serial)) (Drift role "USB parent");;
  ensure ((D.si_baud current_serial =? D.si_baud expected_serial) && eqb (D.si_dtr current_serial) (D.si_dtr expected_serial) &&
          eqb (D.si_rts current_serial) (D.si_rts expected_serial)) (Drift role "serial configuration");;
  stable ← _stable_udev (D.si_properties current_serial) role;
  ensure (strings_eqb stable (D.si_properties expected_serial)) (Drift role "stable udev").

(** The tail of [revalidate_session], once discovery has answered. *)
Definition compare_roles (m : SessionManifest) (resolution : D.FixtureResolution) : M D.FixtureResolution :=
  require (D.same_set (D.fr_roles resolution).*1 ["receiver"; "source"]%string) RevalidatedRoles;;
  ri ← role_of resolution "receiver";
  of_cause (_compare_role (m_receiver m) ri "receiver");;
  si ← role_of resolution "source";
  of_cause (_compare_role (m_source m) si "source");;
  mret resolution.

Definition revalidate_session (manifest : option SessionManifest) (fixture_path binding_path : string) (binding : option PhysicalBinding)
    : M D.FixtureResolution :=
  m ← lift (result_of_option (SessionError NotAManifest) manifest);
  b ← lift (result_of_option (SessionError NotABinding) binding);
  assert_unchanged m;;
  x ← _load_xiao_pair fixture_path binding_path;
  require (binding_eqb b (xp_binding x)) OtherBinding;;
  require (String.eqb (fixture_id (xp_fixture x)) (m_fixture_id m) && bool_decide (xp_fixture_bytes x = fixture_bytes m) &&
           String.eqb (sha256 (xp_fixture_bytes x)) (fixture_sha256 m)) FixtureChanged;;
  require (bool_decide (xp_binding_bytes x = binding_bytes m) && String.eqb (sha256 (xp_binding_bytes x)) (binding_sha256 m)) BindingChanged;;
  resolution ← resolve b (D.pi_serial (sr_probe (m_receiver m))) (D.pi_serial (sr_probe (m_source m)));
  compare_roles m resolution.
End session.

(** ** Inversion of returning runs *)

Lemma call_gave {A} (f : nat -> result exn A) a s s' : call f s = (Ok a, s') -> f (turn s) = Ok a /\ s' = tick s.
Proof.
  unfold call. intros H. apply bind_run_Ok in H as (r & s1 & H1 & H). apply lift_run_Ok in H as [-> ->]. unfold ask in H1. by method_inv H1.
Qed.
Lemma ask_returned {A} (f : nat -> A) a s s' : ask f s = (Ok a, s') -> a = f (turn s) /\ s' = tick s.
Proof. unfold ask. intros H. by method_inv H. Qed.
Lemma require_gave b x u s s' : require b x s = (Ok u, s') -> b = true /\ s' = s.
Proof. apply check_run_Ok. Qed.
Lemma of_cause_gave {A} (r : cresult A) a s s' : of_cause r s = (Ok a, s') -> r = Ok a /\ s' = s.
Proof. unfold of_cause. intros H. apply lift_run_Ok in H as [H ->]. split; [|done]. destruct r; [congruence | done]. Qed.
Lemma or_refuse_returned {A} (m : M A) x a s s' : or_refuse m x s = (Ok a, s') -> m s = (Ok a, s').
Proof. unfold or_refuse. apply except_Ok. by intros. Qed.
Lemma closing_returned {A} w (m : M A) a s s' : closing w m s = (Ok a, s') -> exists s1, m s = (Ok a, s1) /\ s' = tick s1.
Proof.
  unfold closing. intros H. apply bind_run_Ok in H as (r & s1 & H1 & H). apply bind_run_Ok in H as (u & s2 & H2 & H).
  apply lift_run_Ok in H as [-> ->]. unfold tried in H1. destruct (m s) as [r s3]. simplify_eq/=. apply call_gave in H2 as [_ ->]. by eexists.
Qed.

(** Steps without side effects. *)
Definition same_log (s s' : state) : Prop := log s' = log s.
#[export] Instance same_log_preorder : PreOrder same_log.
Proof. split; [by intros s|]. unfold same_log. intros s1 s2 s3 A B. congruence. Qed.

Ltac quiet_leaf := solve
  [ apply keeps_ret, _ | apply keeps_raise, _ | apply keeps_self, _ | apply keeps_lift, _ | apply keeps_check, _
  | apply keeps_assign; done | auto with quiet ].
Ltac quiet := repeat first
  [ quiet_leaf | apply keeps_except; [apply _| |intros ?] | apply keeps_tried | apply keeps_bind; [apply _| |intros ?]
  | match goal with |- keeps _ (match ?x with _ => _ end) => destruct x end ].
Create HintDb quiet.

Lemma ask_quiet {A} (f : nat -> A) : keeps same_log (ask f).
Proof. unfold ask. quiet. Qed.
#[export] Hint Resolve ask_quiet : quiet.
Lemma call_quiet {A} (f : nat -> result exn A) : keeps same_log (call f).
Proof. unfold call. quiet. Qed.
#[export] Hint Resolve call_quiet : quiet.
Lemma or_refuse_quiet {A} (m : M A) c : keeps same_log m -> keeps same_log (or_refuse m c).
Proof. intros H. unfold or_refuse, refuse. quiet. Qed.
#[export] Hint Resolve or_refuse_quiet : quiet.
Lemma closing_quiet {A} w (m : M A) : keeps same_log m -> keeps same_log (closing w m).
Proof. intros H. unfold closing. quiet. Qed.
#[export] Hint Resolve closing_quiet : quiet.

Section quiet_steps.
Context (w : world) (sha256 : list ascii -> string).

Lemma load_pair_quiet f b : keeps same_log (_load_xiao_pair w sha256 f b).
Proof. unfold _load_xiao_pair, _read_bytes, of_schema, check_pair_role, require, refuse. quiet. Qed.
Lemma inputs_quiet f b x y : keeps same_log (_assert_input_bytes_unchanged w f b x y).
Proof. unfold _assert_input_bytes_unchanged, _read_bytes, require. quiet. Qed.
Lemma read_manifest_quiet p e : keeps same_log (_read_manifest_file w p e).
Proof. unfold _read_manifest_file, _canonical_manifest_path, require, of_cause. quiet. Qed.
#[local] Hint Resolve load_pair_quiet inputs_quiet read_manifest_quiet : quiet.
Lemma unchanged_quiet m : keeps same_log (assert_unchanged w sha256 m).
Proof. unfold assert_unchanged, require. quiet. Qed.
Lemma load_session_quiet p f b : keeps same_log (load_session w sha256 p f b).
Proof. unfold load_session, require, of_cause. quiet. Qed.
End quiet_steps.
#[export] Hint Resolve load_pair_quiet inputs_quiet read_manifest_quiet unchanged_quiet load_session_quiet : quiet.

(** ** What was read *)

Section reading.
Context (w : world) (sha256 : list ascii -> string).

(** The regular, unlinked file at a canonical path, opened once without a
    replacement in between, with mode 0400. *)
Definition manifest_read (p : string) (f : file_state) : Prop :=
  fs_path f = p /\ normpath p = p /\ basename p = SESSION_FILENAME /\ fs_session_id f = basename (dirname p) /\
  full L.RUN_ID_RE (fs_session_id f) = true /\ (exists n, islink w n p = false) /\ (exists n, realpath w n p = p) /\ fs_mode f = MODE /\
  exists n1 n2 n3 before opened cs, lstat w n1 p = Ok before /\ open_read w n2 p = Ok opened /\ chunks w n3 = Ok cs /\
    st_link before = false /\ st_regular before = true /\ st_regular opened = true /\
    st_dev before = st_dev opened /\ st_ino before = st_ino opened /\ fs_device f = st_dev opened /\ fs_inode f = st_ino opened /\
    fs_bytes f = concat cs.

Lemma canonical_manifest_Ok p e c id s s' : _canonical_manifest_path w p e s = (Ok (c, id), s') ->
  c = p /\ normpath p = p /\ basename p = SESSION_FILENAME /\ id = basename (dirname p) /\ full L.RUN_ID_RE id = true /\
  (exists n, islink w n p = false) /\ (exists n, realpath w n p = p) /\ (forall x, e = Some x -> id = x).
Proof.
  unfold _canonical_manifest_path. intros H.
  apply bind_run_Ok in H as (u1 & s1 & _ & H). apply bind_run_Ok in H as (u2 & s2 & [H2%String.eqb_eq _]%require_gave & H).
  apply bind_run_Ok in H as (u3 & s3 & [H3%String.eqb_eq _]%require_gave & H). apply bind_run_Ok in H as (u4 & s4 & [H4 _]%of_cause_gave & H).
  apply bind_run_Ok in H as (u5 & s5 & [H5 _]%require_gave & H). apply bind_run_Ok in H as (link & s6 & [H6 _]%ask_returned & H).
  apply bind_run_Ok in H as (link_dir & s7 & H7 & H). apply bind_run_Ok in H as (u6 & s8 & [H8%negb_true_iff _]%require_gave & H).
  apply bind_run_Ok in H as (real & s9 & [-> _]%ask_returned & H). apply bind_run_Ok in H as (u7 & s10 & [H9%String.eqb_eq _]%require_gave & H).
  apply ret_run_Ok in H as [[= -> ->] _]. unfold _require_session_id in H4. result_inv H4.
  split_and!; try done; [| by eexists |].
  - exists (turn s5). destruct link; [apply ret_run_Ok in H7 as [-> _]; done | by rewrite H6].
  - intros x ->. by apply String.eqb_eq in H5.
Qed.

Lemma read_manifest_Ok p e f s s' : _read_manifest_file w p e s = (Ok f, s') -> manifest_read p f /\ (forall x, e = Some x -> fs_session_id f = x).
Proof.
  unfold _read_manifest_file. intros H. apply bind_run_Ok in H as ([c id] & s1 & H1 & H).
  apply canonical_manifest_Ok in H1 as (-> & N & B & I & R & Lk & Rp & E). simpl in H.
  apply bind_run_Ok in H as (before & s2 & [H2 _]%or_refuse_returned%call_gave & H).
  apply bind_run_Ok in H as (u1 & s3 & [[H3%negb_true_iff H4]%andb_true_iff _]%require_gave & H).
  apply bind_run_Ok in H as (opened & s4 & [H5 _]%or_refuse_returned%call_gave & H).
  apply bind_run_Ok in H as (raw & s5 & H6 & H). apply closing_returned in H6 as (s6 & H6 & _).
  apply bind_run_Ok in H6 as (u2 & s7 & [H7 _]%require_gave & H6). apply or_refuse_returned, call_gave in H6 as [H6 _].
  apply bind_run_Ok in H as (u3 & s8 & [[H8%Z.eqb_eq H9%Z.eqb_eq]%andb_true_iff _]%require_gave & H).
  apply bind_run_Ok in H as (u4 & s9 & [H10%Z.eqb_eq _]%require_gave & H). apply ret_run_Ok in H as [-> _].
  split; [|exact E]. unfold manifest_read. simpl. split_and!; try done. by eexists _, _, _, before, opened, raw.
Qed.

(** The two inputs as read, and what they parse to. *)
Definition pair_read (fixture_path binding_path : string) (x : xiao_pair) : Prop :=
  (exists n, read_file w n fixture_path = Ok (xp_fixture_bytes x)) /\ (exists n, read_file w n binding_path = Ok (xp_binding_bytes x)) /\
  parse_logical_fixture_bytes (xp_fixture_bytes x) = Ok (xp_fixture x) /\
  (exists n m, parse_physical_binding_bytes sha256 (model_host w n) (model_reads w m) (xp_binding_bytes x) (xp_fixture x) = Ok (xp_binding x)) /\
  forall role, role ∈ ["receiver"; "source"]%string -> exists logical physical,
    dict_get role (roles (xp_fixture x)) = Some logical /\ board logical = Some NRF54L15_CPUAPP_BOARD /\ images logical = expected_images role /\
    dict_get role (b_roles (xp_binding x)) = Some (inl physical) /\
    pb_backend (probe physical) = "nrf-probes"%string /\ pb_family (probe physical) = "nrf54l"%string.

Lemma of_schema_Ok {A} (r : sresult A) a s s' : of_schema r s = (Ok a, s') -> r = Ok a.
Proof. unfold of_schema. intros H. destruct r as [b|e]; [by apply ret_run_Ok in H as [-> _]|]. by destruct e. Qed.

Lemma pair_role_Ok fx b role u s s' : check_pair_role fx b role s = (Ok u, s') -> exists logical physical,
    dict_get role (roles fx) = Some logical /\ board logical = Some NRF54L15_CPUAPP_BOARD /\ images logical = expected_images role /\
    dict_get role (b_roles b) = Some (inl physical) /\
    pb_backend (probe physical) = "nrf-probes"%string /\ pb_family (probe physical) = "nrf54l"%string.
Proof.
  unfold check_pair_role. intros H. apply bind_run_Ok in H as (l & s1 & H1 & H). apply lift_run_Ok in H1 as [H1%result_of_option_Ok _].
  apply bind_run_Ok in H as (u1 & s2 & [[H2%bool_decide_eq_true H3%bool_decide_eq_true]%andb_true_iff _]%require_gave & H).
  apply bind_run_Ok in H as (p & s3 & H4 & H). apply lift_run_Ok in H4 as [H4 _].
  apply require_gave in H as [[H5%String.eqb_eq H6%String.eqb_eq]%andb_true_iff _].
  destruct (dict_get role (b_roles b)) as [[q|]|]; simplify_eq. by exists l, p.
Qed.

Lemma load_pair_Ok fp bp x s s' : _load_xiao_pair w sha256 fp bp s = (Ok x, s') -> pair_read fp bp x.
Proof.
  unfold _load_xiao_pair, _read_bytes. intros H.
  apply bind_run_Ok in H as (fb & s1 & [H1 _]%or_refuse_returned%call_gave & H).
  apply bind_run_Ok in H as (bb & s2 & [H2 _]%or_refuse_returned%call_gave & H).
  apply bind_run_Ok in H as (fx & s3 & H3%of_schema_Ok & H). apply bind_run_Ok in H as (h & s4 & [-> _]%ask_returned & H).
  apply bind_run_Ok in H as (rd & s5 & [-> _]%ask_returned & H). apply bind_run_Ok in H as (b & s6 & H4%of_schema_Ok & H).
  apply bind_run_Ok in H as (u1 & s7 & _ & H). apply bind_run_Ok in H as (u2 & s8 & H5%pair_role_Ok & H).
  apply bind_run_Ok in H as (u3 & s9 & H6%pair_role_Ok & H). apply ret_run_Ok in H as [-> _].
  unfold pair_read. simpl. split_and!; eauto. intros role [->|[->|[]%elem_of_nil]%elem_of_cons]%elem_of_cons; done.
Qed.

(** A loaded manifest: what the file held, and the inputs it is bound to. *)
Definition loaded (manifest_path fixture_path binding_path : string) (m : SessionManifest) : Prop :=
  exists f x, manifest_read manifest_path f /\ pair_read fixture_path binding_path x /\
    path m = manifest_path /\ raw_bytes m = fs_bytes f /\ m_sha256 m = sha256 (fs_bytes f) /\ device m = fs_device f /\ inode m = fs_inode f /\
    mode m = MODE /\ session_id m = basename (dirname manifest_path) /\
    _parse_manifest (raw_bytes m) (path m) =
      Ok (mk_parsed (session_id m) (created_at_utc m) (m_fixture_id m) (fixture_sha256 m) (binding_sha256 m) (m_receiver m) (m_source m)) /\
    m_fixture_id m = fixture_id (xp_fixture x) /\ fixture_sha256 m = sha256 (fixture_bytes m) /\ binding_sha256 m = sha256 (binding_bytes m) /\
    fixture_bytes m = xp_fixture_bytes x /\ binding_bytes m = xp_binding_bytes x.
Lemma load_session_Ok p fp bp m s s' : load_session w sha256 p fp bp s = (Ok m, s') -> loaded p fp bp m.
Proof.
  unfold load_session. intros H. apply bind_run_Ok in H as (f & s1 & [H1 _]%read_manifest_Ok & H).
  apply bind_run_Ok in H as (pm & s2 & [H2 _]%of_cause_gave & H). apply bind_run_Ok in H as (u1 & s3 & [H3%String.eqb_eq _]%require_gave & H).
  apply bind_run_Ok in H as (x & s4 & H4%load_pair_Ok & H). apply bind_run_Ok in H as (u2 & s5 & [H5%String.eqb_eq _]%require_gave & H).
  apply bind_run_Ok in H as (u3 & s6 & [H6%String.eqb_eq _]%require_gave & H).
  apply bind_run_Ok in H as (u4 & s7 & [H7%String.eqb_eq _]%require_gave & H). apply ret_run_Ok in H as [-> _].
  exists f, x. pose proof H1 as (P1 & _ & _ & P4 & _ & _ & _ & P8 & _). simpl. split_and!; try done.
  - congruence.
  - rewrite H2. by destruct pm.
Qed.

(** What revalidation has compared of a role: every field of the probe, the
    port's parent and configuration, and its stable properties; not its path. *)
Definition no_drift (r : SessionRole) (i : D.RoleIdentity) (role : string) : Prop :=
  (forall name f, (name, f) ∈ PROBE_FIELDS -> f (D.ri_probe i) = f (sr_probe r)) /\
  strings_eqb (D.pi_ap_idrs (D.ri_probe i)) (D.pi_ap_idrs (sr_probe r)) = true /\
  D.si_usb_parent (D.ri_serial i) = D.si_usb_parent (sr_serial r) /\ D.si_baud (D.ri_serial i) = D.si_baud (sr_serial r) /\
  D.si_dtr (D.ri_serial i) = D.si_dtr (sr_serial r) /\ D.si_rts (D.ri_serial i) = D.si_rts (sr_serial r) /\
  exists stable, _stable_udev (D.si_properties (D.ri_serial i)) role = Ok stable /\ strings_eqb stable (D.si_properties (sr_serial r)) = true.

Lemma check_all_Ok {A} (ok : A -> bool) err l u : check_all ok err l = Ok u <-> forall x, x ∈ l -> ok x = true.
Proof.
  destruct u. induction l as [|x l IH]; simpl; [split; [by intros _ x ?%elem_of_nil | done]|]. rewrite bind_Ok. split.
  - intros (v & Hx%ensure_Ok & Hl) y [->|Hy]%elem_of_cons; [done | by apply (proj1 IH Hl)].
  - intros H. exists tt. split; [apply ensure_Ok; apply H; by left|]. apply IH. intros y Hy. apply H. by right.
Qed.

Lemma compare_role_iff r i role : _compare_role r i role = Ok tt <-> no_drift r i role.
Proof.
  unfold _compare_role, no_drift. split.
  - intros H. result_inv H. repeat match goal with G : _ && _ = true |- _ => apply andb_true_iff in G as [??] end.
    split_and!; try done; [| by apply bool_decide_eq_true in Ha1 | by apply Z.eqb_eq | by apply eqb_prop | by apply eqb_prop | by eexists].
    intros name f Hf. match goal with G : check_all _ _ _ = Ok _ |- _ => apply (proj1 (check_all_Ok _ _ _ _)) with (x := (name, f)) in G; [|done] end.
    by apply String.eqb_eq.
  - intros (H1 & H2 & H3 & H4 & H5 & H6 & stable & H7 & H8).
    rewrite (proj2 (check_all_Ok _ _ _ tt)) by (intros [n f] Hf; apply String.eqb_eq; by apply (H1 n)).
    cbn [mbind result_bind]. rewrite H2, H3, H4, H5, H6, Z.eqb_refl, !eqb_reflx, bool_decide_eq_true_2 by done.
    cbn [andb ensure mbind result_bind]. rewrite H7. cbn [mbind result_bind]. by rewrite H8.
Qed.
End reading.

(** ** Side effects of a creation *)

Section effects.
Context (w : world) (sha256 : list ascii -> string).

Definition adds (P : list event -> Prop) (s s' : state) : Prop := exists es, log s' = log s ++ es /\ P es.
Lemma adds_trans (P Q R : list event -> Prop) s s1 s2 : adds P s s1 -> adds Q s1 s2 -> (forall a b, P a -> Q b -> R (a ++ b)) -> adds R s s2.
Proof. intros (a & Ha & Pa) (b & Hb & Qb) H. exists (a ++ b). split; [by rewrite Hb, Ha, app_assoc | by apply H]. Qed.
Lemma adds_nil (P : list event -> Prop) s s' : same_log s s' -> P [] -> adds P s s'.
Proof. intros H Hp. exists []. rewrite app_nil_r. by split. Qed.
Lemma wp_quiet {A} (m : M A) Q X s : keeps same_log m ->
  (forall a s', m s = (Ok a, s') -> same_log s s' -> Q a s') -> (forall e s', m s = (Err e, s') -> same_log s s' -> X e s') -> wp m Q X s.
Proof. intros Hm HQ HX. specialize (Hm s). unfold wp. destruct (m s) as [[a|e] s']; [by apply HQ | by apply HX]. Qed.

(** A directory: made, or not. *)
Definition dir_effects (path : string) (es : list event) : Prop := es = [] \/ es = [MadeDir path].
(** The manifest file: created exclusively, its bytes appended in order, and
    sealed once all of them are there. *)
Definition file_effects (p : string) (data : list ascii) (whole : bool) (es : list event) : Prop :=
  exists ws sealed, es = Created p :: (Wrote p <$> ws) ++ sealed /\ concat ws `prefix_of` data /\
    (sealed = [] \/ sealed = [Sealed p] /\ concat ws = data) /\ (whole = true -> sealed = [Sealed p]).

Lemma make_dir_effects p c s : wp (make_dir w p c) (fun _ => adds (fun es => es = [MadeDir p]) s) (fun _ => adds (dir_effects p) s) s.
Proof.
  unfold make_dir, or_refuse. rewrite wp_except, wp_bind. apply wp_quiet; [apply call_quiet | intros u s1 _ H1 | intros e s1 _ H1].
  - rewrite wp_bind. unfold note. rewrite wp_assign. apply wp_quiet; [apply call_quiet | intros v s2 _ H2 | intros e s2 _ H2].
    + exists [MadeDir p]. split; [|done]. unfold same_log in *. rewrite H2. simpl. by rewrite H1.
    + assert (adds (dir_effects p) s s2) as Ha.
      { exists [MadeDir p]. split; [|by right]. unfold same_log in *. rewrite H2. simpl. by rewrite H1. }
      destruct (is_os e); exact Ha.
  - assert (adds (dir_effects p) s s1) as Ha by (apply adds_nil; [done | by left]). destruct (is_os e); exact Ha.
Qed.

Lemma write_loop_effects fuel p data s :
  wp (write_loop w fuel p data) (fun _ => adds (fun es => exists ws, es = (Wrote p <$> ws) /\ concat ws = data) s)
     (fun _ => adds (fun es => exists ws, es = (Wrote p <$> ws) /\ concat ws `prefix_of` data) s) s.
Proof.
  revert data s. induction fuel as [|fuel IH]; intros data s; destruct data as [|a data].
  - exists []. split; [by rewrite app_nil_r | by exists []].
  - exists []. split; [by rewrite app_nil_r | exists []; split; [done | apply prefix_nil]].
  - exists []. split; [by rewrite app_nil_r | by exists []].
  - cbn [write_loop]. rewrite wp_bind. apply wp_quiet; [apply call_quiet | intros n s1 _ H1 | intros e s1 _ H1].
    + rewrite wp_bind. unfold note. rewrite wp_assign. set (s2 := add_event _ s1).
      assert (adds (fun es => es = [Wrote p (take (S n) (a :: data))]) s s2) as H2.
      { eexists. split; [|done]. simpl. by rewrite H1. }
      eapply wp_mono; [apply IH | intros u s3 H3 | intros e s3 H3].
      * eapply adds_trans; [exact H2 | exact H3 |]. intros x y -> (ws & -> & Hc). exists (take (S n) (a :: data) :: ws). split; [done|].
        cbn [concat]. rewrite Hc. apply take_drop.
      * eapply adds_trans; [exact H2 | exact H3 |]. intros x y -> (ws & -> & Hc). exists (take (S n) (a :: data) :: ws). split; [done|].
        cbn [concat]. rewrite <- (take_drop (S n) (a :: data)) at 2. by apply prefix_app.
    + apply adds_nil; [done|]. exists []. split; [done | apply prefix_nil].
Qed.

Lemma seal_effects p data s :
  wp (write_loop w (length data) p data;; call (sync w);; call (fchmod w);; note (Sealed p);; call (sync w))
    (fun _ => adds (fun es => exists ws, es = (Wrote p <$> ws) ++ [Sealed p] /\ concat ws = data) s)
    (fun _ => adds (fun es => exists ws sealed, es = (Wrote p <$> ws) ++ sealed /\ concat ws `prefix_of` data /\
                                (sealed = [] \/ sealed = [Sealed p] /\ concat ws = data)) s) s.
Proof.
  rewrite wp_bind. eapply wp_mono; [apply write_loop_effects | intros u s1 H1 | intros e s1 (es & Hl & ws & -> & Hp)].
  2: { exists (Wrote p <$> ws). split; [done|]. exists ws, []. rewrite app_nil_r. auto. }
  destruct H1 as (es & Hl & ws & -> & Hc).
  assert (forall s2 sealed, log s2 = log s1 ++ sealed -> sealed = [] \/ sealed = [Sealed p] ->
    adds (fun es => exists ws sealed, es = (Wrote p <$> ws) ++ sealed /\ concat ws `prefix_of` data /\
                                (sealed = [] \/ sealed = [Sealed p] /\ concat ws = data)) s s2) as Hadd.
  { intros s2 sealed H2 Hs. exists ((Wrote p <$> ws) ++ sealed). split; [by rewrite H2, Hl, app_assoc|]. exists ws, sealed.
    rewrite Hc. split_and!; [done | done | destruct Hs; auto]. }
  rewrite wp_bind. apply wp_quiet; [apply call_quiet | intros v s2 _ H2 | intros e s2 _ H2; apply (Hadd s2 []); [by rewrite app_nil_r | by left]].
  rewrite wp_bind. apply wp_quiet; [apply call_quiet | intros v' s3 _ H3 |
    intros e s3 _ H3; apply (Hadd s3 []); [by rewrite app_nil_r, H3, H2 | by left]].
  rewrite wp_bind. unfold note. rewrite wp_assign. apply wp_quiet; [apply call_quiet | intros v'' s4 _ H4 | intros e s4 _ H4].
  - exists ((Wrote p <$> ws) ++ [Sealed p]). split; [|by exists ws]. unfold same_log in *. rewrite H4. simpl. by rewrite H3, H2, Hl, app_assoc.
  - apply (Hadd s4 [Sealed p]); [|by right]. unfold same_log in *. rewrite H4. simpl. by rewrite H3, H2.
Qed.

Lemma manifest_file_effects dir data s : let p := path_join dir SESSION_FILENAME in
  wp (_create_manifest_file w dir data) (fun r s' => r = p /\ adds (file_effects p data true) s s')
     (fun _ => adds (fun es => es = [] \/ file_effects p data false es) s) s.
Proof.
  intros p. unfold _create_manifest_file. fold p. rewrite wp_bind.
  apply wp_quiet; [auto with quiet | intros u s1 _ H1 | intros e s1 _ H1; apply adds_nil; [done | by left]].
  rewrite wp_bind. unfold note at 1. rewrite wp_assign. set (s2 := add_event _ s1).
  assert (log s2 = log s ++ [Created p]) as Hl2 by (simpl; by rewrite H1).
  assert (forall s3, adds (fun es => exists ws sealed, es = (Wrote p <$> ws) ++ sealed /\ concat ws `prefix_of` data /\
             (sealed = [] \/ sealed = [Sealed p] /\ concat ws = data)) s2 s3 -> adds (fun es => es = [] \/ file_effects p data false es) s s3) as Hbad.
  { intros s3 (es & Hl & ws & sealed & -> & Hp & Hs). exists (Created p :: (Wrote p <$> ws) ++ sealed).
    split; [by rewrite Hl, Hl2, <- app_assoc|]. right. by exists ws, sealed. }
  assert (forall s3, adds (fun es => exists ws, es = (Wrote p <$> ws) ++ [Sealed p] /\ concat ws = data) s2 s3 -> adds (file_effects p data true) s s3) as Hgood.
  { intros s3 (es & Hl & ws & -> & Hc). exists (Created p :: (Wrote p <$> ws) ++ [Sealed p]).
    split; [by rewrite Hl, Hl2, <- app_assoc|]. exists ws, [Sealed p]. rewrite Hc. split_and!; [done | done | by right | done]. }
  assert (forall s3, adds (file_effects p data true) s s3 -> adds (fun es => es = [] \/ file_effects p data false es) s s3) as Hweak.
  { intros s3 (es & Hl & ws & sealed & -> & Hp & Hs & _). eexists. split; [exact Hl|]. right. by exists ws, sealed. }
  assert (forall s3 s4, same_log s3 s4 -> adds (file_effects p data true) s s3 -> adds (file_effects p data true) s s4) as Hsame.
  { intros s3 s4 Hq (es & Hl & He). exists es. by rewrite Hq. }
  assert (forall s3 s4, same_log s3 s4 -> adds (fun es => es = [] \/ file_effects p data false es) s s3 ->
    adds (fun es => es = [] \/ file_effects p data false es) s s4) as Hsame'.
  { intros s3 s4 Hq (es & Hl & He). exists es. by rewrite Hq. }
  rewrite wp_bind. unfold closing. rewrite wp_bind, wp_tried. unfold or_refuse at 1. rewrite wp_except.
  eapply wp_mono; [apply seal_effects | intros u3 s3 H3%Hgood | intros e s3 H3%Hbad].
  - rewrite wp_bind. apply wp_quiet; [apply call_quiet | intros v s4 _ H4 | intros e s4 _ H4; by eapply Hweak, Hsame].
    rewrite wp_lift. rewrite wp_bind. unfold _fsync_directory.
    apply wp_quiet; [|intros v' s5 _ H5; rewrite wp_ret; split; [done | by eapply Hsame, Hsame] | intros e s5 _ H5; by eapply Hweak, Hsame, Hsame].
    apply keeps_bind; [apply _ | auto with quiet | intros; auto with quiet].
  - assert (wp (call (close w)) (fun _ s4 => adds (fun es => es = [] \/ file_effects p data false es) s s4)
      (fun (_ : exn) s4 => adds (fun es => es = [] \/ file_effects p data false es) s s4) s3) as Hclose.
    { apply wp_quiet; [apply call_quiet | intros v s4 _ H4; by eapply Hsame' | intros x s4 _ H4; by eapply Hsame']. }
    destruct (is_os e); [unfold refuse; rewrite wp_raise|]; rewrite wp_bind;
      (eapply wp_mono; [exact Hclose | intros v s4 H4; by rewrite wp_lift | done]).
Qed.

Lemma root_effects path d s : wp (_canonical_root w path d)
  (fun r s' => r = path /\ adds (fun es => es = [] \/ es = [MadeDir path] /\ d = true) s s')
  (fun _ => adds (fun es => es = [] \/ es = [MadeDir path] /\ d = true) s) s.
Proof.
  assert (forall (P : list event -> Prop) s1, P [] -> same_log s s1 -> adds P s s1) as Hnil by (intros; by apply adds_nil).
  unfold _canonical_root. rewrite wp_bind. apply wp_quiet; [apply keeps_check, _ | intros u s1 _ H1 | intros e s1 _ H1; apply Hnil; auto].
  rewrite wp_bind. apply wp_quiet; [apply keeps_check, _ | intros u1 s2 _ H2 | intros e s2 _ H2; apply Hnil; [auto | by etrans]].
  assert (same_log s s2) as H02 by (by etrans). destruct d.
  - do 5 (rewrite wp_bind; apply wp_quiet; [unfold require; quiet | intros ? ? _ ?; cbv beta | intros ? ? _ ?; apply Hnil; [by left | repeat (etrans; [eassumption|]); done]]).
    match goal with |- context [wp _ _ _ ?st] => assert (same_log s st) as H03 by (repeat (etrans; [eassumption|]); done); set (s3 := st) in * end.
    rewrite wp_bind. apply wp_quiet; [apply ask_quiet | intros there s4 _ G4 | intros e s4 _ G4; apply Hnil; [by left | by etrans]].
    assert (same_log s s4) as G04 by (by etrans). rewrite wp_bind. destruct there.
    + apply wp_quiet; [unfold require; quiet | intros v s5 _ G5; rewrite wp_ret; split; [done|]; apply Hnil; [by left | by etrans] |
        intros e s5 _ G5; apply Hnil; [by left | by etrans]].
    + eapply wp_mono; [apply make_dir_effects | intros v s5 (es & Hl & ->); rewrite wp_ret | intros e s5 (es & Hl & He)].
      * split; [done|]. exists [MadeDir path]. split; [by rewrite Hl, G04 | by right].
      * exists es. split; [by rewrite Hl, G04|]. destruct He; auto.
  - apply wp_quiet; [unfold require; quiet | intros r s3 Hr H3 | intros e s3 _ H3; apply Hnil; [by left | by etrans]].
    split; [|apply Hnil; [by left | by etrans]].
    repeat (apply bind_run_Ok in Hr as (? & ? & ? & Hr)). 
    match goal with G : require (String.eqb _ path) _ _ = _ |- _ => apply require_gave in G as [G%String.eqb_eq _] end.
    apply ret_run_Ok in Hr as [-> _]. done.
Qed.

Lemma session_dir_effects root id s : let dir := path_join root id in
  wp (_create_session_dir w root id) (fun r s' => r = dir /\ adds (fun es => es = [MadeDir dir]) s s') (fun _ => adds (dir_effects dir) s) s.
Proof.
  intros dir. unfold _create_session_dir. fold dir.
  assert (forall s1, same_log s s1 -> adds (dir_effects dir) s s1) as Hnil by (intros; apply adds_nil; [done | by left]).
  do 4 (rewrite wp_bind; apply wp_quiet; [unfold require; quiet | intros ? ? _ ?; cbv beta | intros ? ? _ ?; apply Hnil; repeat (etrans; [eassumption|]); done]).
  match goal with |- context [wp _ _ _ ?st] => assert (same_log s st) as Hs by (repeat (etrans; [eassumption|]); done); set (s1 := st) in * end.
  rewrite wp_bind. eapply wp_mono; [apply make_dir_effects | intros v s2 (es & Hl & ->); rewrite wp_ret | intros e s2 (es & Hl & He)].
  - split; [done|]. exists [MadeDir dir]. by rewrite Hl, Hs.
  - exists es. by rewrite Hl, Hs.
Qed.

(** Everything a creation does to the session root: at most the default root
    itself, then the session's own directory, then the manifest in it. *)
Definition creation_effects (root id : string) (data : list ascii) (whole : bool) (es : list event) : Prop :=
  let dir := path_join root id in
  exists a b c, es = a ++ b ++ c /\ (a = [] \/ a = [MadeDir root] /\ root = DEFAULT_SESSION_ROOT) /\ dir_effects dir b /\
    (c = [] \/ b = [MadeDir dir] /\ file_effects (path_join dir SESSION_FILENAME) data whole c) /\ (whole = true -> c <> []).

Lemma creation_partial root id data es : creation_effects root id data true es -> creation_effects root id data false es.
Proof.
  intros (a & b & c & -> & Ha & Hb & Hc & _). exists a, b, c. split_and!; try done.
  destruct Hc as [->|(Hd & ws & sealed & Hw & Hp & Hs & _)]; [by left|]. right. split; [done|]. by exists ws, sealed.
Qed.

Lemma commit_effects fp bp x root id data s :
  wp (commit w sha256 fp bp x root id data)
    (fun m s' => adds (creation_effects root id data true) s s' /\
       loaded w sha256 (path_join (path_join root id) SESSION_FILENAME) fp bp m)
    (fun _ => adds (creation_effects root id data false) s) s.
Proof.
  unfold commit. rewrite wp_bind. apply wp_quiet; [auto with quiet | intros u s1 _ H1 | intros e s1 _ H1].
  2: { apply adds_nil; [done|]. exists [], [], []. unfold dir_effects. auto 10. }
  rewrite wp_bind. eapply wp_mono; [apply root_effects | intros r s2 [-> (a & Ha & Hroot)] | intros e s2 (a & Ha & Hroot)].
  2: { exists a. split; [by rewrite Ha, H1|]. exists a, [], []. rewrite !app_nil_r. unfold dir_effects. split_and!; auto.
       destruct Hroot as [?|[? ?%String.eqb_eq]]; auto. }
  assert (a = [] \/ a = [MadeDir root] /\ root = DEFAULT_SESSION_ROOT) as Ha' by (destruct Hroot as [?|[? ?%String.eqb_eq]]; auto).
  rewrite wp_bind. apply wp_quiet; [auto with quiet | intros u3 s3 _ H3 | intros e s3 _ H3].
  2: { exists a. split; [by rewrite H3, Ha, H1|]. exists a, [], []. rewrite !app_nil_r. unfold dir_effects. auto 10. }
  rewrite wp_bind. eapply wp_mono; [apply session_dir_effects | intros r s4 [-> (b & Hb & ->)] | intros e s4 (b & Hb & Hd)].
  2: { exists (a ++ b). split; [by rewrite Hb, H3, Ha, H1, app_assoc|]. exists a, b, []. rewrite !app_nil_r. auto 10. }
  assert (log s4 = log s ++ a ++ [MadeDir (path_join root id)]) as Hl4 by (by rewrite Hb, H3, Ha, H1, app_assoc).
  rewrite wp_bind. eapply wp_mono; [apply manifest_file_effects | intros r s5 [-> (c & Hc & Hf)] | intros e s5 (c & Hc & Hf)].
  - assert (adds (creation_effects root id data true) s s5) as H5.
    { exists (a ++ [MadeDir (path_join root id)] ++ c). split; [by rewrite Hc, Hl4, <- !app_assoc|].
      exists a, [MadeDir (path_join root id)], c. split_and!; auto; [by right|]. intros _ ->. by destruct Hf as (? & ? & ? & _). }
    apply wp_quiet; [auto with quiet | intros m s6 Hm H6 | intros e s6 _ H6].
    + split; [|by eapply load_session_Ok]. destruct H5 as (es & He & Hcr). exists es. by rewrite H6.
    + destruct H5 as (es & He & Hcr). exists es. split; [by rewrite H6|]. by apply creation_partial.
  - exists (a ++ [MadeDir (path_join root id)] ++ c). split; [by rewrite Hc, Hl4, <- !app_assoc|].
    exists a, [MadeDir (path_join root id)], c. unfold dir_effects. split_and!; auto. destruct Hf as [->|Hf]; auto.
Qed.
End effects.

(** ** What a manifest's bytes give back

    The bytes written sort every object's keys; reading looks keys up, so that
    the fields come back as they were recorded. *)

Definition sorted (d : list (string * json)) : list (string * json) := merge_sort key_le (prod_map id sort_keys <$> d).

Lemma sorted_perm d : sorted d ≡ₚ prod_map id sort_keys <$> d.
Proof. apply merge_sort_Permutation. Qed.
Lemma sorted_keys d : (sorted d).*1 ≡ₚ d.*1.
Proof. by rewrite sorted_perm, dict_keys_fmap. Qed.
Lemma item_sorted d key : NoDup d.*1 -> item (sorted d) key = sort_keys (item d key).
Proof.
  intros Hd. unfold item. rewrite (dict_get_perm key _ _ ltac:(by rewrite sorted_keys) (sorted_perm d)), dict_get_fmap.
  by destruct (dict_get key d).
Qed.

Lemma json_ok_sort v : json_ok v = true -> json_ok (sort_keys v) = true.
Proof.
  induction v as [| | | | |l IH|d IH] using json_ind'; try done; intros H; simpl in H |- *.
  - rewrite forallb_forall in H |- *. intros x Hx. apply in_map_iff in Hx as (y & <- & Hy).
    rewrite List.Forall_forall in IH. auto.
  - change (json_ok (JObj (sorted d)) = true). apply andb_true_iff in H as [[Hn Hk]%andb_true_iff Hv].
    apply bool_decide_eq_true in Hn. simpl. unfold json_dict_ok. rewrite bool_decide_eq_true_2 by by rewrite sorted_keys.
    rewrite forallb_forall in Hk, Hv. rewrite List.Forall_forall in IH. rewrite andb_true_l, andb_true_iff, !forallb_forall.
    split; intros [k x] Hx; apply list_elem_of_In in Hx; rewrite sorted_perm in Hx; apply list_elem_of_fmap in Hx as ([k' x'] & [= -> ->] & Hx%list_elem_of_In).
    + by apply (Hk (k', x')).
    + apply (IH (k', x')); [done|]. by apply (Hv (k', x')).
Qed.

Lemma parse_serialized d label r : json_ok (JObj d) = true ->
  _parse_json_bytes (_serialize_manifest_payload (JObj d)) label = Ok r -> r = sorted d.
Proof.
  intros Hd%json_ok_sort. unfold _parse_json_bytes, _serialize_manifest_payload. intros H. result_inv H.
  change [newline] with [chr 10] in H. rewrite loads_dumps_newline in H; [|apply HilProtocol.ParserFacts.reject_duplicate_keys_id | done].
  simpl in H. result_inv H. by subst.
Qed.

Lemma exact_keys_Ok v keys label d : _require_exact_keys v keys label = Ok d -> v = JObj d.
Proof. unfold _require_exact_keys. intros H. destruct v; try done. result_inv H. by subst. Qed.
Lemma require_string_Ok v label s : _require_string v label = Ok s -> v = JStr s.
Proof. unfold _require_string. intros H. destruct v; try done. result_inv H. by subst. Qed.
Lemma require_sha256_Ok v label s : _require_sha256 v label = Ok s -> v = JStr s.
Proof. unfold _require_sha256. intros H. result_inv H. subst. by eapply require_string_Ok. Qed.
Lemma require_utc_Ok v s : _require_utc v = Ok s -> v = JStr s.
Proof. unfold _require_utc. intros H. result_inv H. subst. by eapply require_string_Ok. Qed.
Lemma require_serial_Ok v l s : _require_probe_serial v l = Ok s -> v = JStr s.
Proof. unfold _require_probe_serial. intros H. destruct v; try done. result_inv H. by subst. Qed.
Lemma require_id_Ok v s : _require_session_id v = Ok s -> v = JStr s.
Proof. unfold _require_session_id. intros H. destruct v; try done. result_inv H. by subst. Qed.

(** A dictionary of strings, sorted and read back. *)
Lemma strs_sorted e d : sort_keys (strs e) = JObj d -> prod_map id text_of <$> d ≡ₚ e.
Proof.
  intros H. change (JObj (sorted (prod_map id JStr <$> e)) = JObj d) in H. injection H as <-. rewrite sorted_perm.
  enough (prod_map id text_of <$> (prod_map id sort_keys <$> (prod_map id JStr <$> e)) = e) as -> by done.
  induction e as [|[k v] e IH]; [done|]. simpl. f_equal. exact IH.
Qed.
Lemma strings_eqb_perm a b : NoDup a.*1 -> a ≡ₚ b -> strings_eqb a b = true.
Proof.
  intros Ha Hp. unfold strings_eqb, dict_eqb. rewrite Hp at 1. rewrite Nat.eqb_refl. apply forallb_forall. intros [k v] Hk.
  rewrite <- (dict_get_perm k _ _ Ha Hp), (dict_get_NoDup _ v) by (done || by apply list_elem_of_In). apply String.eqb_refl.
Qed.
Lemma stable_keys role p keys st : stable_loop role p keys = Ok st -> st.*1 = keys.
Proof.
  revert st. induction keys as [|k keys IH]; intros st H; simpl in H; [by simplify_eq|].
  destruct (dict_get k p) as [[|c v]|]; try done. result_inv H. subst. simpl. f_equal. auto.
Qed.

(** An object written with sorted keys, and a lookup in it. *)
Ltac unsort H := apply exact_keys_Ok in H;
  match type of H with sort_keys (JObj ?F) = JObj ?d => change (JObj (sorted F) = JObj d) in H; injection H as <- end.
Ltac assoc k F := lazymatch F with (k, ?v) :: _ => v | _ :: ?G => assoc k G end.
Ltac lookup H := repeat match type of H with context [item (sorted ?F) ?k] =>
  let v := assoc k F in
  replace (item (sorted F) k) with (sort_keys v) in H by (rewrite item_sorted by (apply (bool_decide_unpack _); vm_compute; exact I); reflexivity) end.
Ltac field H := lookup H; cbn [sort_keys text_of] in H.

Lemma probe_recorded role i v :
  let probe := D.ri_probe i in NoDup (D.pi_ap_idrs probe).*1 ->
  parse_probe role (sort_keys (JObj [("backend", JStr (D.pi_backend probe)); ("family", JStr (D.pi_family probe)); ("serial", JStr (D.pi_serial probe));
        ("product", JStr (D.pi_product probe)); ("target", JStr (D.pi_target probe)); ("dpidr", JStr (D.pi_dpidr probe));
        ("ap_idrs", strs (D.pi_ap_idrs probe)); ("part", JStr (D.pi_part probe)); ("variant", JStr (D.pi_variant probe));
        ("variant_raw", JStr (D.pi_variant_raw probe))]%string)) = Ok v ->
  (forall name f, (name, f) ∈ PROBE_FIELDS -> f probe = f v) /\ strings_eqb (D.pi_ap_idrs probe) (D.pi_ap_idrs v) = true.
Proof.
  intros probe Hap H. unfold parse_probe in H. result_inv H. unsort Ha.
  apply require_serial_Ok in Ha0. field Ha0. apply require_string_Ok in Ha1, Ha5, Ha6. field Ha1. field Ha5. field Ha6.
  apply exact_keys_Ok in Ha3. field Ha3. field H. simplify_eq.
  split; simpl.
  - intros name f Hf. unfold PROBE_FIELDS in Hf. by repeat (apply elem_of_cons in Hf as [[= -> ->]|Hf]; [done|]); apply elem_of_nil in Hf.
  - apply strings_eqb_perm; [done|]. symmetry. by apply strs_sorted.
Qed.

Lemma serial_recorded role n (si : D.SerialIdentity) parent st v :
  _stable_udev (D.si_properties si) role = Ok st ->
  parse_serial role n (sort_keys (JObj [("path_observed", JStr (D.si_path si)); ("usb_parent_observed", JStr parent); ("stable_udev", strs st);
        ("baud", JInt (D.si_baud si)); ("dtr", JBool (D.si_dtr si)); ("rts", JBool (D.si_rts si))]%string)) = Ok v ->
  D.si_path v = D.si_path si /\ D.si_usb_parent v = Some parent /\ D.si_baud v = D.si_baud si /\ D.si_dtr v = D.si_dtr si /\
  D.si_rts v = D.si_rts si /\ strings_eqb st (D.si_properties v) = true.
Proof.
  intros Hst H. unfold parse_serial in H. result_inv H. unsort Ha.
  apply require_string_Ok in Ha0, Ha2. apply exact_keys_Ok in Ha4.
  repeat match goal with G : context [item (sorted _) _] |- _ => progress field G end.
  simplify_eq. simpl. destruct (D.si_dtr si), (D.si_rts si); try done. apply Z.eqb_eq in Ha8.
  split_and!; try done. apply strings_eqb_perm; [|symmetry; by apply strs_sorted].
  unfold _stable_udev in Hst. rewrite (stable_keys _ _ _ _ Hst). apply (bool_decide_unpack _). by vm_compute.
Qed.

(** A recorded role, read back: the identity it was made of has not drifted
    from it, and its port is the one recorded. *)
Lemma role_recorded role i j r : _role_payload role i = Ok j -> NoDup (D.pi_ap_idrs (D.ri_probe i)).*1 ->
  _parse_role role (sort_keys j) = Ok r -> no_drift r i role /\ D.si_path (sr_serial r) = D.si_path (D.ri_serial i).
Proof.
  intros Hj Hap H. unfold _role_payload in Hj. result_inv Hj. subst j. unfold _parse_role in H. result_inv H.
  unsort Ha4. lookup Ha6. lookup Ha7. apply (probe_recorded role i) in Ha6 as [H1 H2]; [|done].
  apply (serial_recorded _ _ _ _ _ _ Ha3) in Ha7 as (H3 & H4 & H5 & H6 & H7 & H8). subst r. split; [|done].
  unfold no_drift. simpl. rewrite H4, H5, H6, H7. split_and!; try done. by exists a3.
Qed.

(** Recording a pair of roles. *)
Lemma manifest_recorded id created fid fsha bsha rj sj label pm :
  let payload := session_payload id created fid fsha bsha rj sj in
  json_ok payload = true -> _parse_manifest (_serialize_manifest_payload payload) label = Ok pm ->
  pm_session_id pm = id /\ pm_created pm = created /\ pm_fixture_id pm = fid /\ pm_fixture_sha256 pm = fsha /\ pm_binding_sha256 pm = bsha /\
  _parse_role "receiver" (sort_keys rj) = Ok (pm_receiver pm) /\ _parse_role "source" (sort_keys sj) = Ok (pm_source pm).
Proof.
  intros payload Hok H. unfold _parse_manifest in H. apply bind_Ok in H as (d & Hd%parse_serialized & H); [|done].
  result_inv H. subst d. apply exact_keys_Ok in Ha. injection Ha as <-. lookup Ha3. unsort Ha3. lookup Ha6. unsort Ha6. lookup Ha8. unsort Ha8.
  apply require_id_Ok in Ha1. apply require_utc_Ok in Ha2. apply require_string_Ok in Ha4. apply require_sha256_Ok in Ha5, Ha7.
  field Ha1. field Ha2. field Ha4. field Ha5. field Ha7. lookup Ha9. lookup Ha10. by simplify_eq.
Qed.

(** ** Properties *)

Module SessionTheorems.

(** What a checked probe serial, and the manifest of a creation, are. *)
Lemma check_probe_serial v l s : _require_probe_serial v l = Ok s -> v = JStr s /\ full PROBE_SERIAL_RE s = true.
Proof. unfold _require_probe_serial. intros H. destruct v; try done. result_inv H. by subst. Qed.
Lemma check_session_id v s : _require_session_id v = Ok s -> v = JStr s /\ full L.RUN_ID_RE s = true.
Proof. unfold _require_session_id. intros H. destruct v; try done. result_inv H. by subst. Qed.

Section theorems.
Context (w : world) (sha256 : list ascii -> string).

Lemma wp_of_cause' {A} (r : cresult A) (Q : A -> state -> Prop) X s :
  wp (of_cause r) Q X s <-> match r with Ok a => Q a s | Err c => X (SessionError c) s end.
Proof. by destruct r. Qed.

Lemma resolve_log b r0 s0 s : wp (resolve w b r0 s0) (fun r s' => log s' = log s ++ [Discovered r0 s0] /\ exists n, discover w n b r0 s0 = D.Resolved r)
  (fun _ s' => log s' = log s ++ [Discovered r0 s0]) s.
Proof.
  unfold resolve. rewrite wp_bind. apply wp_quiet; [apply ask_quiet | intros a s1 Ha H1 | done].
  apply ask_returned in Ha as [-> ->]. rewrite wp_bind. unfold note. rewrite wp_assign.
  destruct (discover w (turn s) b r0 s0) eqn:Hd; [rewrite wp_ret; split; [done | by eexists] | by rewrite wp_raise | by rewrite wp_raise].
Qed.

(** C17. A creation touches the session root only after discovery, with a manifest
    that parses; it makes at most the default root and the session's own
    directory, creates the manifest there exclusively and appends its bytes in
    order, so what a failure leaves is a prefix.  When it returns, the whole
    manifest was written and sealed read-only before it was loaded back. *)
Theorem session_created_exclusively (fixture_path binding_path : string) (id receiver_probe source_probe : json) (root : string) (s : state) :
  match create_session w sha256 fixture_path binding_path id receiver_probe source_probe root s with
  | (Ok m, s') => exists sid receiver source data pm es,
      id = JStr sid /\ receiver_probe = JStr receiver /\ source_probe = JStr source /\ receiver <> source /\
      log s' = log s ++ Discovered receiver source :: es /\ creation_effects root sid data true es /\
      _parse_manifest data "generated session manifest" = Ok pm /\
      loaded w sha256 (path_join (path_join root sid) SESSION_FILENAME) fixture_path binding_path m
  | (Err _, s') =>
      log s' = log s \/ exists sid receiver source es, log s' = log s ++ Discovered receiver source :: es /\
        (es = [] \/ exists data pm, _parse_manifest data "generated session manifest" = Ok pm /\ creation_effects root sid data false es)
  end.
Proof.
  enough (wp (create_session w sha256 fixture_path binding_path id receiver_probe source_probe root)
    (fun m s' => exists sid receiver source data pm es,
      id = JStr sid /\ receiver_probe = JStr receiver /\ source_probe = JStr source /\ receiver <> source /\
      log s' = log s ++ Discovered receiver source :: es /\ creation_effects root sid data true es /\
      _parse_manifest data "generated session manifest" = Ok pm /\
      loaded w sha256 (path_join (path_join root sid) SESSION_FILENAME) fixture_path binding_path m)
    (fun _ s' => log s' = log s \/ exists sid receiver source es, log s' = log s ++ Discovered receiver source :: es /\
        (es = [] \/ exists data pm, _parse_manifest data "generated session manifest" = Ok pm /\ creation_effects root sid data false es)) s) as H.
  { unfold wp in H. by destruct (create_session w sha256 fixture_path binding_path id receiver_probe source_probe root s) as [[m|e] s']. }
  unfold create_session. rewrite wp_bind. apply wp_quiet; [auto with quiet | intros x s1 _ H1 | intros e s1 _ H1; by left].
  rewrite wp_bind, wp_of_cause'. destruct (_require_session_id id) as [sid|c] eqn:Hid; [|by left].
  apply check_session_id in Hid as [-> _]. rewrite wp_bind, wp_of_cause'. destruct (_require_probe_serial receiver_probe _) as [rs|c] eqn:Hr; [|by left].
  apply check_probe_serial in Hr as [-> _]. rewrite wp_bind, wp_of_cause'. destruct (_require_probe_serial source_probe _) as [ss|c] eqn:Hs; [|by left].
  apply check_probe_serial in Hs as [-> _]. rewrite wp_bind. unfold require at 1. rewrite wp_check. destruct (negb (String.eqb rs ss)) eqn:Hne; [|by left].
  apply negb_true_iff, String.eqb_neq in Hne. rewrite wp_bind. eapply wp_mono; [apply resolve_log | intros res s2 [H2 _] | intros e s2 H2].
  2: { right. exists sid, rs, ss, []. split; [by rewrite H2, H1 | by left]. }
  rewrite H1 in H2. assert (forall s3, same_log s2 s3 -> log s3 = log s \/ exists sid receiver source es, log s3 = log s ++ Discovered receiver source :: es /\
      (es = [] \/ exists data pm, _parse_manifest data "generated session manifest" = Ok pm /\ creation_effects root sid data false es)) as Hnone.
  { intros s3 H3. right. exists sid, rs, ss, []. split; [by rewrite H3, H2 | by left]. }
  rewrite wp_bind. apply wp_quiet; [unfold _utc_string, refuse, of_cause; quiet | intros created s3 _ H3 | intros e s3 _ H3; by apply Hnone].
  rewrite wp_bind. unfold role_of at 1. rewrite wp_lift. destruct (result_of_option _ _) as [ri|e]; [|by apply Hnone].
  rewrite wp_bind, wp_of_cause'. destruct (_role_payload "receiver" ri) as [rj|e]; [|by apply Hnone].
  rewrite wp_bind. unfold role_of at 1. rewrite wp_lift. destruct (result_of_option _ _) as [si|e]; [|by apply Hnone].
  rewrite wp_bind, wp_of_cause'. destruct (_role_payload "source" si) as [sj|e]; [|by apply Hnone].
  cbv zeta. set (data := _serialize_manifest_payload _). rewrite wp_bind, wp_of_cause'.
  destruct (_parse_manifest data _) as [pm|e] eqn:Hpm; [|by apply Hnone].
  eapply wp_mono; [apply commit_effects | intros m s4 [(es & Hl & Hes) Hm] | intros e s4 (es & Hl & Hes)].
  - exists sid, rs, ss, data, pm, es. split_and!; try done. by rewrite Hl, H3, H2, <- app_assoc.
  - right. exists sid, rs, ss, es. split; [by rewrite Hl, H3, H2, <- app_assoc|]. right. by exists data, pm.
Qed.

Lemma compare_roles_quiet m res : keeps same_log (compare_roles m res).
Proof. unfold compare_roles, require, role_of, of_cause. quiet. Qed.
Lemma compare_roles_Ok m res r s s' : compare_roles m res s = (Ok r, s') -> res = r /\ exists ri si,
  dict_get "receiver"%string (D.fr_roles res) = Some ri /\ dict_get "source"%string (D.fr_roles res) = Some si /\
  no_drift (m_receiver m) ri "receiver" /\ no_drift (m_source m) si "source".
Proof.
  unfold compare_roles. intros H. apply bind_run_Ok in H as (u & s1 & _ & H).
  apply bind_run_Ok in H as (ri & s2 & [Hr%result_of_option_Ok _]%lift_run_Ok & H).
  apply bind_run_Ok in H as ([] & s3 & [Cr%compare_role_iff _]%of_cause_gave & H).
  apply bind_run_Ok in H as (si & s4 & [Hs%result_of_option_Ok _]%lift_run_Ok & H).
  apply bind_run_Ok in H as ([] & s5 & [Cs%compare_role_iff _]%of_cause_gave & H).
  apply ret_run_Ok in H as [-> _]. split; [done|]. by exists ri, si.
Qed.

(** C21. What is written for a resolved pair, when it parses, gives back the ids,
    the hashes, the two roles' identities (against which the same resolution
    has not drifted) and the ports they were on. *)
Theorem manifest_roundtrip (id created fid fsha bsha label : string) (ri si : D.RoleIdentity) (rj sj : json) (pm : parsed_manifest)
  (Hr : _role_payload "receiver" ri = Ok rj) (Hs : _role_payload "source" si = Ok sj)
  (Hra : NoDup (D.pi_ap_idrs (D.ri_probe ri)).*1) (Hsa : NoDup (D.pi_ap_idrs (D.ri_probe si)).*1) :
  let payload := session_payload id created fid fsha bsha rj sj in
  json_ok payload = true -> _parse_manifest (_serialize_manifest_payload payload) label = Ok pm ->
  pm_session_id pm = id /\ pm_created pm = created /\ pm_fixture_id pm = fid /\ pm_fixture_sha256 pm = fsha /\ pm_binding_sha256 pm = bsha /\
  _compare_role (pm_receiver pm) ri "receiver" = Ok tt /\ _compare_role (pm_source pm) si "source" = Ok tt /\
  D.si_path (sr_serial (pm_receiver pm)) = D.si_path (D.ri_serial ri) /\ D.si_path (sr_serial (pm_source pm)) = D.si_path (D.ri_serial si).
Proof.
  intros payload Hok H. apply manifest_recorded in H as (H1 & H2 & H3 & H4 & H5 & H6 & H7); [|done].
  destruct (role_recorded _ _ _ _ Hr Hra H6) as [Cr%compare_role_iff Pr]. destruct (role_recorded _ _ _ _ Hs Hsa H7) as [Cs%compare_role_iff Ps].
  split_and!; done.
Qed.
End theorems.
End SessionTheorems.

(** ** Concrete sessions *)

Module SessionWitnesses.

Definition demo_sha (l : list ascii) : string := "aaaaaaaaaaaaaaaaaaaaaaaaaaaaaaaaaaaaaaaaaaaaaaaaaaaaaaaaaaaaaaaa".
Definition demo_fixture : LogicalFixture := HilModel.mk_fixture 1 "pair" NONE [
  ("receiver", HilModel.mk_role ZEPHYR_KIND (Some NRF54L15_CPUAPP_BOARD) ["cpuapp"; "flpr"] None);
  ("source", HilModel.mk_role ZEPHYR_KIND (Some NRF54L15_CPUAPP_BOARD) ["cpuapp"] None)]%string.
Definition demo_role (serial : string) : json := JObj [
  ("probe", JObj [("backend", JStr "nrf-probes"); ("family", JStr "nrf54l")]);
  ("serial", JObj [("baud", JInt 115200); ("dtr", JBool true); ("rts", JBool false);
                   ("udev", strs [("ID_VENDOR_ID", "2886"); ("ID_MODEL_ID", "0066"); ("ID_SERIAL_SHORT", serial)])])]%string.
Definition fixture_text : list ascii := Eval vm_compute in dump true (FixtureTheorems.fixture_json demo_fixture).
Definition binding_text : list ascii := Eval vm_compute in dump true
  (JObj [("schema_version", JInt 1); ("fixture_id", JStr "pair"); ("roles", JObj [("receiver", demo_role "RX01"); ("source", demo_role "TX02")])]%string).

(** The manifest of the discovery's demonstration pair. *)
Definition identity (role : string) : D.RoleIdentity :=
  default (D.mk_role_identity EmptyString (D.mk_probe_identity EmptyString EmptyString EmptyString EmptyString EmptyString EmptyString EmptyString [] EmptyString EmptyString EmptyString)
             (D.mk_serial_identity EmptyString EmptyString 0 [] None false false))
    (dict_get role (D.fr_roles D.DiscoveryWitnesses.demo_resolution)).
Definition payload_of (role : string) : json := match _role_payload role (identity role) with Ok j => j | Err _ => JNull end.
Definition demo_payload : json :=
  session_payload "run-1" "2026-01-02T03:04:05.000006Z" "pair" (demo_sha []) (demo_sha []) (payload_of "receiver") (payload_of "source").
Definition demo_data : list ascii := Eval vm_compute in _serialize_manifest_payload demo_payload.
Definition demo_parsed : parsed_manifest := Eval vm_compute in
  match _parse_manifest demo_data "x" with Ok pm => pm | Err _ => mk_parsed EmptyString EmptyString EmptyString EmptyString EmptyString
    (mk_role [] (D.ri_probe (identity "receiver")) (D.ri_serial (identity "receiver"))) (mk_role [] (D.ri_probe (identity "source")) (D.ri_serial (identity "source"))) end.

Lemma manifest_roundtrip_witness :
  _parse_manifest (_serialize_manifest_payload demo_payload) "x" = Ok demo_parsed /\
  _compare_role (pm_receiver demo_parsed) (identity "receiver") "receiver" = Ok tt.
Proof.
  assert (_parse_manifest (_serialize_manifest_payload demo_payload) "x" = Ok demo_parsed) as H by (vm_compute; reflexivity).
  split; [exact H|].
  pose proof (SessionTheorems.manifest_roundtrip "run-1" "2026-01-02T03:04:05.000006Z" "pair" (demo_sha []) (demo_sha []) "x"
    (identity "receiver") (identity "source") (payload_of "receiver") (payload_of "source") demo_parsed
    ltac:(vm_compute; reflexivity) ltac:(vm_compute; reflexivity)
    ltac:(apply (bool_decide_unpack _); vm_compute; exact I) ltac:(apply (bool_decide_unpack _); vm_compute; exact I)
    ltac:(vm_compute; reflexivity) H) as (_ & _ & _ & _ & _ & G & _). exact G.
Defined.

(** A root under /srv, two files, writes of at most 200 bytes, and a manifest
    that reads back what was written. *)
Definition demo_world : world :=
  let stat := mk_stat 8 77 true false MODE in
  mk_world (fun _ p => Ok (if String.eqb p "/f" then fixture_text else binding_text)) (fun _ => HilModel.mk_host (fun _ => false) id (fun _ => Some true) "/repo")
    (fun _ => HilModel.mk_reads (fun _ => None) (fun _ => None))
    (fun _ _ => false) (fun _ p => String.eqb p "/srv") (fun _ _ => false) (fun _ p => p) "/repo"
    (fun _ _ => Ok tt) (fun _ _ => Ok tt) (fun _ _ => Ok stat) (fun _ _ => Ok stat)
    (fun _ => Ok [take 100 demo_data; drop 100 demo_data]) (fun _ _ => Ok tt) (fun _ => Ok 199%nat) (fun _ => Ok tt) (fun _ => Ok tt)
    (fun _ _ => Ok tt) (fun _ => Ok tt) (fun _ => JStr "2026-01-02T03:04:05.000006Z")
    (fun _ b r s => (D.resolve_fixture D.DiscoveryWitnesses.demo_world "/sys" (Some b) (D.Given [("receiver", Some r); ("source", Some s)]%string) 0).1).
Definition fresh : state := mk_state 0 [].
Definition created : result exn SessionManifest * state := Eval vm_compute in
  create_session demo_world demo_sha "/f" "/b" (JStr "run-1") (JStr "RX01") (JStr "TX02") "/srv" fresh.

(** A session is created, and revalidates against the same boards. *)
Example demo_session :
  match created with
  | (Ok m, s) =>
      (let p := "/srv/run-1/devices.json"%string in
       log s = [Discovered "RX01" "TX02"; MadeDir "/srv/run-1"; Created p] ++
         ((fun n => Wrote p (take 200 (drop (200 * n) demo_data))) <$> seq 0 ((length demo_data + 199) `div` 200)) ++ [Sealed p]) /\
      is_ok (revalidate_session demo_world demo_sha (Some m) "/f" "/b" (Some (match (_load_xiao_pair demo_world demo_sha "/f" "/b" fresh).1 with
        | Ok x => xp_binding x | Err _ => HilModel.mk_binding 0 EmptyString [] end)) s).1 = true
  | _ => False
  end.
Proof. vm_compute. repeat split. Qed.
End SessionWitnesses.
