(* ===== verification/HilCapture.v ===== *)
(** * The owned capture process (scripts/hil/capture.py)

    [CaptureSession] as methods over the object's fields: the checks before
    the start, the launch, the stop with its bounded escalation from SIGINT to
    a kill, the promotion of the partial recording, and the abort path.  What
    the object calls (child processes, validators, the file system, the clock)
    answers from a [world]: any answer, exceptions included, in any order.
    Every call and every observed exit is recorded in [log], a ghost field. *)

From S2P Require Import Prelude PyText PyRegex HilModel HilReceiver.

(** ** Text *)

Definition not_comma (c : ascii) : bool := negb (Ascii.eqb c ","%char).

(** Groups: 1 card, 2 name, 3 device. *)
Definition ARECORD_DEVICE_RE : re :=
  (Bol • Lit "card" • Plus is_space • Group 1 (Plus is_digit) • Lit ":" • Plus is_space • Group 2 (Plus not_comma) • Lit "," •
   Plus is_space • Lit "device" • Plus is_space • Group 3 (Plus is_digit) • Lit ":")%re.

(** [\b(w1|w2|...)\b] *)
Fixpoint one_of (ws : list string) : re :=
  match ws with [] => Cls (fun _ => false) | [w] => Ci w | w :: ws => Alt (Ci w) (one_of ws) end.
Definition words (ws : list string) : re := (Wb • Group 1 (one_of ws) • Wb)%re.
Definition XRUN_RE : re := words ["xrun"; "overrun"; "underrun"; "usb reset"; "format drift"; "short read"].
Definition ERROR_RE : re := words ["error"; "warning"; "failed"; "invalid"].
Definition STOP_TIMEOUT : Z := 10.

(** [bytes.decode("utf-8", errors="replace")]: each maximal piece of a
    sequence that cannot go on becomes U+FFFD. *)
Definition REPLACEMENT : list ascii := [chr 239; chr 191; chr 189].
Definition lead_length (a : ascii) : nat :=
  if between 194 223 a then 1%nat else if between 224 239 a then 2%nat else if between 240 244 a then 3%nat else 0%nat.
Fixpoint take_cont (n : nat) (l : list ascii) : list ascii :=
  match n, l with S n, c :: l => if cont c then c :: take_cont n l else [] | _, _ => [] end.
Definition tail_of (a : ascii) (l : list ascii) : list ascii :=
  match lead_length a, l with S n, b :: l => if second_ok a b then b :: take_cont n l else [] | _, _ => [] end.
Fixpoint decode_loop (fuel : nat) (l : list ascii) : list ascii :=
  match fuel, l with
  | S fuel, a :: l =>
      if code a <? 128 then a :: decode_loop fuel l
      else let t := tail_of a l in
           (if (0 <? lead_length a)%nat && (length t =? lead_length a)%nat then a :: t else REPLACEMENT) ++ decode_loop fuel (drop (length t) l)
  | _, _ => []
  end.
Definition decode_replace (l : list ascii) : list ascii := decode_loop (length l) l.

Inductive stream : Type := NoText | Bytes (b : list ascii) | Text (t : list ascii).
Definition _as_text (v : stream) : list ascii :=
  match v with NoText => [] | Bytes b => decode_replace b | Text t => t end.
(** [not value] *)
Definition is_empty (v : stream) : bool :=
  match v with NoText => true | Bytes b => bool_decide (b = []) | Text t => bool_decide (t = []) end.

(** *** The frozen mixer value *)

Definition value_char (c : ascii) : bool := is_alpha c || is_digit c || py_in c ["_"; "."; "-"]%char.
Definition not_value (o : option ascii) : bool := match o with Some c => negb (value_char c) | None => true end.
(** [re.search] of the escaped text between the two negative look-arounds. *)
Fixpoint frozen_from (b : option ascii) (output expected : list ascii) : bool :=
  match strip_prefix expected output with
  | Some rest => not_value b && not_value (head rest)
  | None => false
  end || match output with [] => false | c :: output => frozen_from (Some c) output expected end.
Definition _contains_frozen_value (output : list ascii) (expected : string) : bool := frozen_from None output (chars expected).

(** *** Devices *)

Record endpoint : Type := mk_endpoint { numeric : list ascii; e_name : list ascii; e_device : list ascii }.
Definition endpoint_of (st : pos) : endpoint :=
  let g n := default [] (group n st) in
  mk_endpoint (chars "hw:" ++ g 1%nat ++ chars "," ++ g 3%nat) (strip (g 2%nat)) (g 3%nat).
Definition parse_arecord_devices (output : list ascii) : list endpoint :=
  omap (fun line => endpoint_of <$> re_match ARECORD_DEVICE_RE line) (splitlines output).

(** [device[3:].split(",", 1)] *)
Fixpoint split1 (l : list ascii) : option (list ascii * list ascii) :=
  match l with
  | [] => None
  | c :: l => if Ascii.eqb c ","%char then Some ([], l) else (fun '(u, v) => (c :: u, v)) <$> split1 l
  end.
Definition before_comma (l : list ascii) : list ascii := match split1 l with Some (u, _) => u | None => l end.

(** ** Failures *)

(** Exceptions: [CaptureError] by message; the exceptions of the calls by
    the classes the handlers tell apart.  [Interrupt] stands for the ones
    [except Exception] lets through. *)
Inductive exn : Type :=
| CaptureError (c : cause)
| OSError (text : string)
| TimeoutExpired (output error : stream)
| SubprocessError (text : string)
| OtherError (text : string)
| Interrupt
with cause : Type :=
| NotABinding | NotAbsolute | NotWav | OutputExists | PartialExists | PreNotCallable | PostNotCallable | BadCardIndex | NotDirect
| CannotRun (e : exn) | CommandFailed (argv : list string) | CommandStderr (text : list ascii)
| DeviceNotOnce | UdevRequired | UdevDrift (key : string) | MixerMismatch (argv : list string) (expected : string)
| StartedTwice | IdentityInvalid (e : exn) | CannotStart (e : exn)
| CannotInspect (e : exn)
| CannotCollectExited (e : exn) | CannotInterrupt (e : exn) | CannotKillAfter (first : exn) (e : exn) | AliveAfterKill (first : exn) (e : exn)
| CannotKill (e : exn) | AliveAfterTimeout (e : exn) | CannotCollect (e : exn)
| ExitNotConfirmed | StopTimedOut | UnexpectedExit (status : option Z) | Diagnostic (text : list ascii)
| IdentityDrift (e : exn) | NoPartial | NoValidator | WavInvalid (e : exn) | FinalCollision | CannotPromote (e : exn).

Definition is_capture (e : exn) : bool := match e with CaptureError _ => true | _ => false end.
Definition is_os (e : exn) : bool := match e with OSError _ => true | _ => false end.
Definition is_timeout (e : exn) : bool := match e with TimeoutExpired _ _ => true | _ => false end.
Definition is_exception (e : exn) : bool := match e with Interrupt => false | _ => true end.
(** [(OSError, subprocess.SubprocessError)]; a timeout is one of the latter. *)
Definition is_command_error (e : exn) : bool := match e with OSError _ | TimeoutExpired _ _ | SubprocessError _ => true | _ => false end.

Definition alsa_card_name (device : string) : result exn string :=
  match fullmatch CAPTURE_DEVICE_RE (chars device) with
  | Some _ => Ok (of_chars (before_comma (drop 3 (chars device))))
  | None => Err (CaptureError NotDirect)
  end.
(** The two-name unpacking of the split raises without a comma. *)
Definition split_device (device : string) : result exn (list ascii * list ascii) :=
  result_of_option (OtherError "not enough values to unpack") (split1 (drop 3 (chars device))).

(** ** The object *)

(** What the constructor keeps and never changes.  A validator is absent or
    callable; what it answers is the world's. *)
Record config : Type := mk_config {
  binding : CaptureBinding; output_path : string; partial_path : string;
  observed_udev : option UdevIdentity; resolved_card_index : option Z;
  has_pre : bool; has_post : bool; has_wav : bool }.

(** An argument of the constructor as it may be given. *)
Inductive given_index : Type := NoIndex | IndexInt (z : Z) | IndexBool (b : bool) | IndexOther.
Inductive given_callable : Type := NoCallable | Callable | NotCallable.
Definition is_given (g : given_callable) : bool := match g with NoCallable => false | _ => true end.
Definition WAV : list ascii := chars ".wav".
Definition ends_with_wav (path : string) : bool :=
  bool_decide (drop (length (chars path) - 4) (chars path) = WAV).
Definition partial_of (output_path : string) : string :=
  of_chars (take (length (chars output_path) - 4) (chars output_path) ++ chars ".partial.wav").

(** [__init__]; [lexists] is the file system then. *)
Definition new_config (lexists : string -> bool) (binding : option CaptureBinding) (output_path : option string)
    (pre post : given_callable) (wav : bool) (observed_udev : option UdevIdentity) (index : given_index) : result exn config :=
  b ← result_of_option (CaptureError NotABinding) binding;
  path ← result_of_option (CaptureError NotAbsolute) output_path;
  ensure (startswith "/" path) (CaptureError NotAbsolute);;
  ensure (ends_with_wav path) (CaptureError NotWav);;
  ensure (negb (lexists path)) (CaptureError OutputExists);;
  ensure (negb (lexists (partial_of path))) (CaptureError PartialExists);;
  ensure (match pre with NotCallable => false | _ => true end) (CaptureError PreNotCallable);;
  ensure (match post with NotCallable => false | _ => true end) (CaptureError PostNotCallable);;
  i ← match index with
      | NoIndex => Ok None
      | IndexInt z => ensure (0 <=? z) (CaptureError BadCardIndex);; Ok (Some z)
      | _ => Err (CaptureError BadCardIndex)
      end;
  Ok (mk_config b path (partial_of path) observed_udev i (is_given pre) (is_given post) wav).

Record completed : Type := mk_completed { args : list string; returncode : option Z; stdout : stream; stderr : stream }.
Record command_result : Type := mk_command_result { cr_argv : list string; cr_status : option Z; cr_stdout : list ascii; cr_stderr : list ascii }.
Definition _command_result (proc : completed) : command_result :=
  mk_command_result (args proc) (returncode proc) (_as_text (stdout proc)) (_as_text (stderr proc)).

Record process_result : Type := mk_process_result {
  pr_argv : list string; pr_status : option Z; pr_stdout : list ascii; pr_stderr : list ascii;
  pr_killed : bool; pr_kill_attempted : bool; pr_confirmed : bool; pr_error : option exn }.
Inductive validation : Type := Passed | Failed (e : exn).

(** What was asked of the world, and what was seen of it. *)
Inductive event : Type :=
| Spawned (pid : Z) (argv : list string) | Signalled (pid : Z) | Killed (pid : Z) | Exited (pid : Z) (status : Z)
| IdentityHolds | WavHolds (path : string) | Promoted (src dst : string).

(** The locals of the running [_stop_process], which its [finally] reads. *)
Record locals : Type := mk_locals { l_stdout : stream; l_stderr : stream; l_killed : bool; l_attempted : bool; l_error : option exn }.
Definition no_locals : locals := mk_locals (Text []) (Text []) false false None.

Record session : Type := mk_session {
  proc : option Z; started_at : option Z; stopped_at : option Z;
  preflight : list command_result; last_result : option process_result;
  pre_start_validation : option validation; post_stop_validation : option validation;
  exit_confirmed : bool; exit_status : option Z;
  cleanup_complete : bool; finalized : bool;
  attempts : list process_result;
  frame : locals; turn : nat; log : list event }.

Definition new_session : session :=
  mk_session None None None [] None None None false None false false [] no_locals 0 [].

Definition set_proc p s := mk_session p (started_at s) (stopped_at s) (preflight s) (last_result s) (pre_start_validation s) (post_stop_validation s)
  (exit_confirmed s) (exit_status s) (cleanup_complete s) (finalized s) (attempts s) (frame s) (turn s) (log s).
Definition set_started t s := mk_session (proc s) t (stopped_at s) (preflight s) (last_result s) (pre_start_validation s) (post_stop_validation s)
  (exit_confirmed s) (exit_status s) (cleanup_complete s) (finalized s) (attempts s) (frame s) (turn s) (log s).
Definition set_stopped t s := mk_session (proc s) (started_at s) t (preflight s) (last_result s) (pre_start_validation s) (post_stop_validation s)
  (exit_confirmed s) (exit_status s) (cleanup_complete s) (finalized s) (attempts s) (frame s) (turn s) (log s).
Definition add_preflight c s := mk_session (proc s) (started_at s) (stopped_at s) (preflight s ++ [c]) (last_result s) (pre_start_validation s)
  (post_stop_validation s) (exit_confirmed s) (exit_status s) (cleanup_complete s) (finalized s) (attempts s) (frame s) (turn s) (log s).
Definition set_pre v s := mk_session (proc s) (started_at s) (stopped_at s) (preflight s) (last_result s) v (post_stop_validation s)
  (exit_confirmed s) (exit_status s) (cleanup_complete s) (finalized s) (attempts s) (frame s) (turn s) (log s).
Definition set_post v s := mk_session (proc s) (started_at s) (stopped_at s) (preflight s) (last_result s) (pre_start_validation s) v
  (exit_confirmed s) (exit_status s) (cleanup_complete s) (finalized s) (attempts s) (frame s) (turn s) (log s).
Definition set_exit c st s := mk_session (proc s) (started_at s) (stopped_at s) (preflight s) (last_result s) (pre_start_validation s)
  (post_stop_validation s) c st (cleanup_complete s) (finalized s) (attempts s) (frame s) (turn s) (log s).
Definition set_cleanup c s := mk_session (proc s) (started_at s) (stopped_at s) (preflight s) (last_result s) (pre_start_validation s)
  (post_stop_validation s) (exit_confirmed s) (exit_status s) c (finalized s) (attempts s) (frame s) (turn s) (log s).
Definition set_finalized f s := mk_session (proc s) (started_at s) (stopped_at s) (preflight s) (last_result s) (pre_start_validation s)
  (post_stop_validation s) (exit_confirmed s) (exit_status s) (cleanup_complete s) f (attempts s) (frame s) (turn s) (log s).
Definition add_result r s := mk_session (proc s) (started_at s) (stopped_at s) (preflight s) (Some r) (pre_start_validation s) (post_stop_validation s)
  (exit_confirmed s) (exit_status s) (cleanup_complete s) (finalized s) (attempts s ++ [r]) (frame s) (turn s) (log s).
Definition set_frame l s := mk_session (proc s) (started_at s) (stopped_at s) (preflight s) (last_result s) (pre_start_validation s) (post_stop_validation s)
  (exit_confirmed s) (exit_status s) (cleanup_complete s) (finalized s) (attempts s) l (turn s) (log s).
Definition tick s := mk_session (proc s) (started_at s) (stopped_at s) (preflight s) (last_result s) (pre_start_validation s) (post_stop_validation s)
  (exit_confirmed s) (exit_status s) (cleanup_complete s) (finalized s) (attempts s) (frame s) (S (turn s)) (log s).
Definition add_event e s := mk_session (proc s) (started_at s) (stopped_at s) (preflight s) (last_result s) (pre_start_validation s) (post_stop_validation s)
  (exit_confirmed s) (exit_status s) (cleanup_complete s) (finalized s) (attempts s) (frame s) (turn s) (log s ++ [e]).
Definition set_out o e l := mk_locals o e (l_killed l) (l_attempted l) (l_error l).
Definition set_error e l := mk_locals (l_stdout l) (l_stderr l) (l_killed l) (l_attempted l) (Some e).
Definition set_attempted l := mk_locals (l_stdout l) (l_stderr l) (l_killed l) true (l_error l).
Definition set_killed l := mk_locals (l_stdout l) (l_stderr l) true true (l_error l).

(** ** The world *)

(** An answer per call: the turn of the call, and what it was asked. *)
Record world : Type := mk_world {
  run_cmd : nat -> list string -> Z -> result exn completed;
  popen : nat -> list string -> result exn Z;
  poll : nat -> Z -> result exn (option Z);
  send_signal : nat -> Z -> result exn unit;
  kill : nat -> Z -> result exn unit;
  communicate : nat -> Z -> result exn (stream * stream);
  pre_validator : nat -> result exn unit;
  post_validator : nat -> result exn unit;
  wav_validator : nat -> string -> result exn unit;
  isfile : nat -> string -> bool;
  lexists : nat -> string -> bool;
  replace : nat -> string -> string -> result exn unit;
  clock : nat -> Z }.

Abbreviation M := (method session exn).

Definition ask {A} (answer : nat -> A) : M A := s ← self; assign tick;; mret (answer (turn s)).
Definition call {A} (answer : nat -> result exn A) : M A := r ← ask answer; lift r.
Definition note (e : event) : M unit := assign (add_event e).
Definition refuse {A} (c : cause) : M A := raise (CaptureError c).
Definition require (b : bool) (c : cause) : M unit := check b (CaptureError c).
Definition on_frame (f : locals -> locals) : M unit := s ← self; assign (set_frame (f (frame s))).

Section CaptureSession.
Context (c : config) (w : world).

(** *** Preflight *)

Definition argv : result exn (list string) :=
  device ← match resolved_card_index c with
           | Some i => '(_, pcm_device) ← split_device (cb_device (binding c));
                       Ok (of_chars (chars "hw:" ++ chars (dec i) ++ chars "," ++ pcm_device))
           | None => Ok (cb_device (binding c))
           end;
  Ok ["arecord"; "-D"; device; "-t"; "wav"; "-f"; cb_sample_format (binding c); "-r"; dec (cb_sample_rate (binding c));
      "-c"; dec (cb_channels (binding c)); "--period-size"; "480"; "--buffer-size"; "1920"; partial_path c]%string.

Record CaptureIdentity : Type := mk_identity {
  ci_device : string; ci_card_index : option Z; ci_udev : UdevIdentity; ci_mixer : list (string * string);
  ci_metadata_path : string; ci_metadata_sha256 : string }.
Definition identity : CaptureIdentity :=
  let m := cb_mixer (binding c) in
  mk_identity (cb_device (binding c)) (resolved_card_index c) (cb_udev (binding c))
    [("control", control m); ("volume", volume m); ("capture_switch", capture_switch m);
     ("agc_control", agc_control m); ("agc", agc m)]%string
    (m_path (cb_metadata (binding c))) (m_sha256 (cb_metadata (binding c))).

Definition _run (argv : list string) (timeout : Z) : M completed :=
  proc ← except is_command_error (call (fun n => run_cmd w n argv timeout)) (fun e => refuse (CannotRun e));
  assign (add_preflight (_command_result proc));;
  require (bool_decide (returncode proc = Some 0)) (CommandFailed argv);;
  let err := _as_text (stderr proc) in
  require (match search ERROR_RE err with Some _ => false | None => true end) (CommandStderr (strip err));;
  mret proc.

(** The endpoints of the list that are the bound device. *)
Definition is_bound (card device : list ascii) (e : endpoint) : bool :=
  match resolved_card_index c with
  | Some i => bool_decide (numeric e = chars "hw:" ++ chars (dec i) ++ chars "," ++ device)
  | None => bool_decide (numeric e = chars (cb_device (binding c))) || (bool_decide (e_name e = card) && bool_decide (e_device e = device))
  end.

Fixpoint check_udev (observed : UdevIdentity) (values : list (string * string)) : M unit :=
  match values with
  | [] => mret tt
  | (key, expected) :: values =>
      require (bool_decide (dict_get key observed = Some expected)) (UdevDrift key);; check_udev observed values
  end.

Definition _validate_device : M unit :=
  devices ← _run ["arecord"; "--list-devices"]%string 10;
  let endpoints := parse_arecord_devices (_as_text (stdout devices)) in
  parts ← lift (split_device (cb_device (binding c)));
  let '(card, device) := parts in
  require (length (List.filter (is_bound card device) endpoints) =? 1)%nat DeviceNotOnce;;
  match observed_udev c with
  | None => refuse UdevRequired
  | Some observed => check_udev observed (cb_udev (binding c))
  end.

Fixpoint check_values (argv : list string) (output : list ascii) (expected : list string) : M unit :=
  match expected with
  | [] => mret tt
  | e :: expected => require (_contains_frozen_value output e) (MixerMismatch (drop 3 argv) e);; check_values argv output expected
  end.

Definition check_control (card control : string) (expected : list string) : M unit :=
  let argv := ["amixer"; "-c"; card; "get"; control]%string in
  proc ← _run argv 10;
  check_values argv (_as_text (stdout proc)) expected.

Definition _validate_mixer : M unit :=
  card ← match resolved_card_index c with
         | Some i => mret (dec i)
         | None => lift (alsa_card_name (cb_device (binding c)))
         end;
  let mixer := cb_mixer (binding c) in
  check_control card (control mixer) [volume mixer; capture_switch mixer];;
  check_control card (agc_control mixer) [agc mixer].

Definition before_launch : M unit :=
  (if has_pre c then
     except is_exception (call (pre_validator w))
       (fun e => assign (set_pre (Some (Failed e)));; refuse (IdentityInvalid e));;
     assign (set_pre (Some Passed))
   else mret tt);;
  _validate_device;;
  _validate_mixer.

Definition launch : M unit :=
  except is_os
    (args ← lift argv;
     pid ← call (fun n => popen w n args);
     note (Spawned pid args);;
     assign (set_proc (Some pid)))
    (fun e => refuse (CannotStart e));;
  assign (set_exit false None);;
  now ← ask (clock w);
  assign (set_started (Some now)).

Definition start : M unit :=
  s ← self;
  require (negb (cleanup_complete s || finalized s || bool_decide (is_Some (proc s)))) StartedTwice;;
  before_launch;;
  launch.

(** *** Stop *)

Definition _process_exited : M bool :=
  s ← self;
  match proc s with
  | None => assign (set_exit true None);; mret true
  | Some pid =>
      if exit_confirmed s then mret true else
        status ← except is_os (call (fun n => poll w n pid)) (fun e => refuse (CannotInspect e));
        match status with
        | None => mret false
        | Some st => note (Exited pid st);; assign (set_exit true (Some st));; mret true
        end
  end.

Definition _record_process_result : M unit :=
  s ← self;
  args ← lift argv;
  let l := frame s in
  assign (add_result (mk_process_result args (if exit_confirmed s then exit_status s else None)
                        (_as_text (l_stdout l)) (_as_text (l_stderr l)) (l_killed l) (l_attempted l) (exit_confirmed s) (l_error l))).

(** [stdout, stderr = proc.communicate(timeout)]; a timeout goes to [late]
    with what it carries. *)
Definition collect (pid : Z) (late : exn -> stream -> stream -> M unit) : M unit :=
  r ← tried (call (fun n => communicate w n pid));
  match r with
  | Ok (o, e) => on_frame (set_out o e)
  | Err (TimeoutExpired o e) => late (TimeoutExpired o e) o e
  | Err e => raise e
  end.

Definition send_kill (pid : Z) (refused : exn -> M unit) (killed : M unit) : M unit :=
  note (Killed pid);;
  r ← tried (call (fun n => kill w n pid));
  match r with
  | Ok _ => killed
  | Err e => if is_os e then refused e else raise e
  end.

(** SIGINT could not be sent. *)
Definition after_refused_signal (pid : Z) (e : exn) : M unit :=
  let first := CaptureError (CannotInterrupt e) in
  on_frame (set_error first);;
  gone ← _process_exited;
  if gone : bool then mret tt else
    on_frame set_attempted;;
    send_kill pid (fun k => on_frame (set_error (CaptureError (CannotKillAfter first k))))
      (collect pid (fun x o e => on_frame (set_out o e);; on_frame (set_error (CaptureError (AliveAfterKill first x))))).

(** The process did not end in time. *)
Definition after_timeout (pid : Z) (x : exn) (o e : stream) : M unit :=
  on_frame (set_out o e);;
  on_frame set_killed;;
  send_kill pid (fun k => on_frame (set_error (CaptureError (CannotKill k))))
    (collect pid (fun x o e =>
       s ← self;
       let l := frame s in
       on_frame (set_out (if is_empty (l_stdout l) then o else l_stdout l) (if is_empty (l_stderr l) then e else l_stderr l));;
       on_frame (set_error (CaptureError (AliveAfterTimeout x))))).

Definition terminate (pid : Z) (already_exited : bool) : M unit :=
  if already_exited then
    collect pid (fun x o e => on_frame (set_out o e);; on_frame (set_error (CaptureError (CannotCollectExited x))))
  else
    note (Signalled pid);;
    r ← tried (call (fun n => send_signal w n pid));
    match r with
    | Err e => if is_os e then after_refused_signal pid e else raise e
    | Ok _ => collect pid (after_timeout pid)
    end.

(** [if termination_error is None: termination_error = e] *)
Definition first_error (e : exn) (l : locals) : locals := match l_error l with None => set_error e l | Some _ => l end.

Definition status_ok (st : option Z) : bool := match st with Some z => py_in z [0; -2; 130] | None => false end.

(** The [finally] clause, after which an exception that no handler took goes
    on, and the checks that follow. *)
Definition conclude (escaping : option exn) : M unit :=
  except is_capture (_process_exited;; mret tt) (fun e => on_frame (first_error e));;
  _record_process_result;;
  match escaping with Some e => raise e | None => mret tt end;;
  s ← self;
  match l_error (frame s) with Some e => raise e | None => mret tt end;;
  require (exit_confirmed s) ExitNotConfirmed;;
  require (negb (l_killed (frame s))) StopTimedOut;;
  require (status_ok (exit_status s)) (UnexpectedExit (exit_status s));;
  let diagnostics := match last_result s with Some r => pr_stderr r | None => [] end in
  require (match search XRUN_RE diagnostics, search ERROR_RE diagnostics with None, None => true | _, _ => false end)
    (Diagnostic (strip diagnostics)).

Definition _stop_process : M unit :=
  s ← self;
  match proc s with
  | None => assign (set_exit true None)
  | Some pid =>
      already_exited ← _process_exited;
      assign (set_frame no_locals);;
      r ← tried (terminate pid already_exited);
      escaping ← match r with
                 | Ok _ => mret None
                 | Err (CaptureError c) => on_frame (first_error (CaptureError c));; mret None
                 | Err (OSError t) => on_frame (first_error (CaptureError (CannotCollect (OSError t))));; mret None
                 | Err e => mret (Some e)
                 end;
      conclude escaping
  end.

(** The body of [stop]'s [try]. *)
Definition finish : M unit :=
  _stop_process;;
  (if has_post c then
     except is_exception (call (post_validator w))
       (fun e => assign (set_post (Some (Failed e)));; refuse (IdentityDrift e));;
     note IdentityHolds;;
     assign (set_post (Some Passed))
   else mret tt);;
  there ← ask (fun n => isfile w n (partial_path c));
  require there NoPartial;;
  require (has_wav c) NoValidator;;
  except is_exception (call (fun n => wav_validator w n (partial_path c))) (fun e => refuse (WavInvalid e));;
  note (WavHolds (partial_path c));;
  taken ← ask (fun n => lexists w n (output_path c));
  require (negb taken) FinalCollision;;
  except is_os (call (fun n => replace w n (partial_path c) (output_path c))) (fun e => refuse (CannotPromote e));;
  note (Promoted (partial_path c) (output_path c)).

Definition stop : M (option string) :=
  s ← self;
  if finalized s || cleanup_complete s then
    there ← ask (fun n => isfile w n (output_path c));
    mret (if there : bool then Some (output_path c) else None)
  else
    now ← ask (clock w);
    assign (set_stopped (Some now));;
    except is_capture finish
      (fun e => s ← self; (if exit_confirmed s then assign (set_cleanup true) else mret tt);; raise e);;
    assign (set_finalized true);;
    assign (set_cleanup true);;
    mret (Some (output_path c)).

Definition abort : M unit :=
  s ← self;
  if cleanup_complete s then mret tt else
    now ← ask (clock w);
    assign (set_stopped (Some now));;
    r ← tried _stop_process;
    s ← self;
    (if exit_confirmed s then assign (set_cleanup true) else mret tt);;
    lift r.

(** *** Evidence *)

Record evidence_doc : Type := mk_evidence {
  ev_identity : CaptureIdentity; ev_argv : list string; ev_preflight : list command_result;
  ev_process : option process_result; ev_attempts : list process_result;
  ev_pre : option validation; ev_post : option validation; ev_started : option Z; ev_stopped : option Z;
  ev_partial_path : string; ev_partial_sha256 : option string; ev_wav_path : option string; ev_wav_sha256 : option string }.

Section evidence.
Context (sha256 : list ascii -> string) (contents : nat -> string -> result exn (list ascii)).
Definition sha256_if_regular (path : string) : M (option string) :=
  there ← ask (fun n => isfile w n path);
  if there : bool then data ← call (fun n => contents n path); mret (Some (sha256 data)) else mret None.
Definition evidence : M evidence_doc :=
  final_sha ← sha256_if_regular (output_path c);
  partial_sha ← sha256_if_regular (partial_path c);
  args ← lift argv;
  there ← ask (fun n => isfile w n (output_path c));
  s ← self;
  mret (mk_evidence identity args (preflight s) (last_result s) (attempts s) (pre_start_validation s) (post_stop_validation s)
          (started_at s) (stopped_at s) (partial_path c) partial_sha (if there : bool then Some (output_path c) else None) final_sha).
End evidence.

(** A caller's use of the object: calls in any order, each to its end. *)
Inductive op : Type := Start | Stop | Abort.
Definition perform (o : op) (s : session) : session :=
  match o with Start => (start s).2 | Stop => (stop s).2 | Abort => (abort s).2 end.
Definition use (ops : list op) : session := fold_left (fun s o => perform o s) ops new_session.
End CaptureSession.

(** ** Rules for runs *)

Lemma wp_asked {A} (f : nat -> A) Q X s : wp (ask f) Q X s <-> Q (f (turn s)) (tick s).
Proof. done. Qed.
Lemma wp_call {A} (f : nat -> result exn A) Q X s :
  wp (call f) Q X s <-> match f (turn s) with Ok a => Q a (tick s) | Err e => X e (tick s) end.
Proof. unfold call. rewrite wp_bind, wp_asked. apply wp_lift. Qed.
Lemma wp_noted e Q X s : wp (note e) Q X s <-> Q tt (add_event e s).
Proof. done. Qed.
Lemma wp_refuse {A} x (Q : A -> session -> Prop) X s : wp (refuse x) Q X s <-> X (CaptureError x) s.
Proof. done. Qed.
Lemma wp_require b x Q X s : wp (require b x) Q X s <-> if b then Q tt s else X (CaptureError x) s.
Proof. apply wp_check. Qed.
Lemma wp_on_frame f Q X s : wp (on_frame f) Q X s <-> Q tt (set_frame (f (frame s)) s).
Proof. done. Qed.

(** One rule at the head of the run. *)
Ltac wp_rule :=
  first [ rewrite wp_bind | rewrite wp_asked | rewrite wp_call | rewrite wp_noted | rewrite wp_refuse | rewrite wp_require
        | rewrite wp_on_frame | rewrite wp_tried | rewrite wp_except | rewrite wp_ret | rewrite wp_raise | rewrite wp_assign
        | rewrite wp_self | rewrite wp_check | rewrite wp_lift ].
Ltac wp_auto := repeat (wp_rule; cbv beta).

(** A triple: from [P], [m] returns into [Q] or raises into [X]. *)
Definition sat {A} (P : session -> Prop) (m : M A) (Q : A -> session -> Prop) (X : exn -> session -> Prop) : Prop :=
  forall s, P s -> wp m Q X s.
Lemma sat_wp {A} P (m : M A) Q X Q' X' s :
  sat P m Q X -> P s -> (forall a s', Q a s' -> Q' a s') -> (forall e s', X e s' -> X' e s') -> wp m Q' X' s.
Proof. intros H Hs. by apply wp_mono, H. Qed.

(** ** The invariant of the object *)

Definition is_spawned (e : event) : bool := match e with Spawned _ _ => true | _ => false end.
Definition is_promoted (e : event) : bool := match e with Promoted _ _ => true | _ => false end.
Definition is_exit (e : event) : bool := match e with Exited _ _ => true | _ => false end.
(** The process an event was addressed to, or seen from. *)
Definition concerns (e : event) : option Z :=
  match e with Spawned p _ | Signalled p | Killed p | Exited p _ => Some p | _ => None end.
Definition disturbs (e : event) : bool := match e with Signalled _ | Killed _ => true | _ => false end.
(** No signal after an exit that was seen. *)
Definition quiet (l : list event) : Prop :=
  forall l1 e l2, l = l1 ++ e :: l2 -> is_exit e = true -> forall x, x ∈ l2 -> disturbs x = false.

Section object.
Context (c : config) (w : world).

(** What a promotion was preceded by. *)
Definition earned (s : session) : Prop :=
  exists l, log s = l ++ [Promoted (partial_path c) (output_path c)] /\
    count is_promoted l = 0%nat /\ WavHolds (partial_path c) ∈ l /\ (has_post c = true -> IdentityHolds ∈ l) /\
    (forall pid, proc s = Some pid -> exists st, Exited pid st ∈ l /\ status_ok (Some st) = true).

Record inv (s : session) : Prop := {
  inv_spawned : count is_spawned (log s) = (if proc s is Some _ then 1 else 0)%nat;
  inv_own : forall e pid, e ∈ log s -> concerns e = Some pid -> proc s = Some pid;
  inv_seen : forall pid, exit_confirmed s = true -> proc s = Some pid -> exists st, exit_status s = Some st /\ Exited pid st ∈ log s;
  inv_open : exit_confirmed s = false -> count is_exit (log s) = 0%nat;
  inv_quiet : quiet (log s);
  inv_clean : cleanup_complete s = true -> exit_confirmed s = true;
  inv_final : finalized s = true -> cleanup_complete s = true;
  inv_kept : finalized s = false -> count is_promoted (log s) = 0%nat;
  inv_earned : finalized s = true -> earned s }.

(** Between calls of [stop] and [abort] with cleanup still due. *)
Definition due (s : session) : Prop := inv s /\ cleanup_complete s = false.
Definition running (pid : Z) (s : session) : Prop := due s /\ proc s = Some pid /\ exit_confirmed s = false.
Definition owned (pid : Z) (s : session) : Prop := due s /\ proc s = Some pid.

Lemma quiet_snoc l e : quiet l -> (disturbs e = true -> count is_exit l = 0%nat) -> quiet (l ++ [e]).
Proof.
  intros Hq He l1 x l2 Heq Hx y Hy. destruct l2 as [|z l2 _] using rev_ind; [by apply elem_of_nil in Hy|].
  change (l1 ++ x :: (l2 ++ [z])) with (l1 ++ (x :: l2) ++ [z]) in Heq. rewrite app_assoc in Heq.
  apply app_inj_tail in Heq as [Hl <-]. apply elem_of_app in Hy as [Hy| ->%list_elem_of_singleton].
  - by apply (Hq l1 x l2).
  - destruct (disturbs e) eqn:Hd; [|done]. specialize (He eq_refl). rewrite Hl, count_app in He. simpl in He.
    unfold count in He at 2. simpl in He. rewrite Hx in He. simpl in He. lia.
Qed.

(** What a state needs to keep the invariant when only these parts change. *)
Lemma inv_same s s' :
  proc s' = proc s -> exit_confirmed s' = exit_confirmed s -> exit_status s' = exit_status s ->
  cleanup_complete s' = cleanup_complete s -> finalized s' = finalized s -> log s' = log s -> inv s -> inv s'.
Proof.
  intros Hp Hc Hs Hl Hf Hg [A B C D E F G H I]. split; unfold earned in *; rewrite ?Hp, ?Hc, ?Hs, ?Hl, ?Hf, ?Hg; auto.
Qed.

(** An event of the owned process while its exit has not been seen. *)
Lemma inv_disturb pid e s : running pid s -> concerns e = Some pid -> disturbs e = true -> running pid (add_event e s).
Proof.
  intros ((Hi & Hd) & Hp & Hc) Hpid He. assert (finalized s = false) as Hf.
  { destruct (finalized s) eqn:Hf; [|done]. apply (inv_final _ Hi) in Hf. congruence. }
  split_and!; [split; [|done]|done|done]. destruct Hi as [A B C D E F G H I].
  assert (is_spawned e = false /\ is_promoted e = false /\ is_exit e = false) as (E1 & E2 & E3) by (by destruct e).
  split; simpl; rewrite ?Hc, ?Hf in *; try done.
  - rewrite count_snoc, A, E1. destruct (proc s); lia.
  - intros x p [Hx| ->%list_elem_of_singleton]%elem_of_app; [by apply B | by intros [= <-]%(eq_trans (eq_sym Hpid))].
  - rewrite count_snoc, E3. rewrite D by done. done.
  - apply quiet_snoc; [done|]. intros _. by apply D.
  - rewrite count_snoc, E2. rewrite H by done. done.
Qed.

Lemma exit_seen pid st s : running pid s -> owned pid (set_exit true (Some st) (add_event (Exited pid st) s)).
Proof.
  intros ((Hi & Hd) & Hp & Hc). assert (finalized s = false) as Hf.
  { destruct (finalized s) eqn:Hf; [|done]. apply (inv_final _ Hi) in Hf. congruence. }
  split; [split; [|done]|done]. destruct Hi as [A B C D E F G H I]. split; simpl; rewrite ?Hf; try done.
  - rewrite count_snoc, A. simpl. destruct (proc s); lia.
  - intros x p [Hx| ->%list_elem_of_singleton]%elem_of_app; [by apply B | by intros [= <-]].
  - intros p _ Hp'. exists st. split; [done|]. apply elem_of_app. right. apply list_elem_of_singleton. congruence.
  - by apply quiet_snoc.
  - intros _. rewrite count_snoc, H by done. done.
Qed.

(** Fields the invariant does not read. *)
Lemma due_fields s s' :
  proc s' = proc s -> exit_confirmed s' = exit_confirmed s -> exit_status s' = exit_status s ->
  cleanup_complete s' = cleanup_complete s -> finalized s' = finalized s -> log s' = log s -> due s -> due s'.
Proof. intros Hp Hc Hs Hl Hf Hg [Hi Hd]. split; [by apply (inv_same s) | congruence]. Qed.
Lemma owned_fields pid s s' :
  proc s' = proc s -> exit_confirmed s' = exit_confirmed s -> exit_status s' = exit_status s ->
  cleanup_complete s' = cleanup_complete s -> finalized s' = finalized s -> log s' = log s -> owned pid s -> owned pid s'.
Proof. intros Hp ????? [Hi Hd]. split; [by eapply due_fields | congruence]. Qed.
Lemma running_fields pid s s' :
  proc s' = proc s -> exit_confirmed s' = exit_confirmed s -> exit_status s' = exit_status s ->
  cleanup_complete s' = cleanup_complete s -> finalized s' = finalized s -> log s' = log s -> running pid s -> running pid s'.
Proof. intros Hp Hc ???? (Hi & Hd & He). split_and!; [by eapply due_fields | congruence | congruence]. Qed.
Lemma running_owned pid s : running pid s -> owned pid s.
Proof. intros (? & ? & _). done. Qed.
End object.

Create HintDb capture.
#[export] Hint Resolve running_owned : capture.
#[export] Hint Extern 2 (owned _ _ _) => match goal with H : owned _ _ _ |- _ => eapply owned_fields; [..|exact H]; done end : capture.
#[export] Hint Extern 2 (running _ _ _) => match goal with H : running _ _ _ |- _ => eapply running_fields; [..|exact H]; done end : capture.
#[export] Hint Extern 2 (due _ _) => match goal with H : due _ _ |- _ => eapply due_fields; [..|exact H]; done end : capture.
#[export] Hint Extern 3 (owned _ _ (_ ?s)) => match goal with H : running _ _ s |- _ => apply running_owned; eapply running_fields; [..|exact H]; done end : capture.

Section stopping.
Context (c : config) (w : world) (pid : Z).
Abbreviation owned := (owned c pid).
Abbreviation running := (running c pid).

Lemma exited_sat : sat owned (_process_exited w)
  (fun b s => owned s /\ if b : bool then exit_confirmed s = true else running s) (fun _ => owned).
Proof.
  intros s Hs. unfold _process_exited. wp_auto. pose proof Hs as ((Hi & Hd) & Hp). rewrite Hp.
  destruct (exit_confirmed s) eqn:Hc; wp_auto; [by split|].
  assert (running s) as Hr by (split_and!; [split|..]; done).
  destruct (poll w (turn s) pid) as [[st|]|e]; wp_auto.
  - split; [|done]. apply exit_seen. auto with capture.
  - split; auto with capture.
  - destruct (is_os e); wp_auto; auto with capture.
Qed.

Lemma collect_sat P late (Q : unit -> session -> Prop) (X : exn -> session -> Prop) :
  (forall s, P s -> P (tick s)) -> (forall s l, P s -> P (set_frame l s)) ->
  (forall s, P s -> Q tt s) -> (forall e s, P s -> X e s) ->
  (forall x o e, sat P (late x o e) Q X) -> sat P (collect w pid late) Q X.
Proof.
  intros Ht Hf HQ HX Hl s Hs. unfold collect. wp_auto. destruct (communicate w (turn s) pid) as [[o e]|x]; wp_auto; [by auto|].
  destruct x; wp_auto; try by apply HX, Ht. by apply Hl, Ht.
Qed.

Lemma on_frame_sat f : sat owned (on_frame f) (fun _ => owned) (fun _ => owned).
Proof. intros s Hs. wp_auto. auto with capture. Qed.

Lemma kill_sat refused killed :
  (forall e, sat owned (refused e) (fun _ => owned) (fun _ => owned)) -> sat owned killed (fun _ => owned) (fun _ => owned) ->
  sat running (send_kill w pid refused killed) (fun _ => owned) (fun _ => owned).
Proof.
  intros Hr Hk s Hs. unfold send_kill. wp_auto. apply (inv_disturb _ _ (Killed pid)) in Hs as Hs'; [|done..].
  destruct (kill w _ pid) as [u|e]; wp_auto; [apply Hk; auto with capture|].
  destruct (is_os e); wp_auto; [apply Hr|]; auto with capture.
Qed.

Lemma collect_owned late : (forall x o e, sat owned (late x o e) (fun _ => owned) (fun _ => owned)) ->
  sat owned (collect w pid late) (fun _ => owned) (fun _ => owned).
Proof. intros Hl. apply collect_sat; auto with capture. Qed.

Lemma refused_sat e : sat running (after_refused_signal w pid e) (fun _ => owned) (fun _ => owned).
Proof.
  intros s Hs. unfold after_refused_signal. wp_auto. eapply sat_wp; [apply exited_sat | auto with capture | | done].
  intros [] s1 [H1 H2]; wp_auto; [done|]. apply kill_sat.
  - intros k. apply on_frame_sat.
  - apply collect_owned. intros x o e' s2 H. wp_auto. auto with capture.
  - auto with capture.
Qed.

Lemma timeout_sat x o e : sat running (after_timeout w pid x o e) (fun _ => owned) (fun _ => owned).
Proof.
  intros s Hs. unfold after_timeout. wp_auto. apply kill_sat.
  - intros k. apply on_frame_sat.
  - apply collect_owned. intros y o' e' s2 H. wp_auto. auto with capture.
  - auto with capture.
Qed.

Lemma terminate_sat (b : bool) s : owned s -> (b = false -> running s) -> wp (terminate w pid b) (fun _ => owned) (fun _ => owned) s.
Proof.
  intros Ho Hr. unfold terminate. destruct b; wp_auto.
  - apply collect_owned; [|done]. intros x o e s1 H. wp_auto. auto with capture.
  - apply (inv_disturb _ _ (Signalled pid)) in Hr as Hs; [|done..]. destruct (send_signal w _ pid) as [u|e]; wp_auto.
    + eapply collect_sat with (P := running); auto with capture. intros. apply timeout_sat.
    + destruct (is_os e); wp_auto; [|auto with capture]. apply refused_sat. auto with capture.
Qed.

Lemma record_sat : sat owned (_record_process_result c) (fun _ => owned) (fun _ => owned).
Proof. intros s Hs. unfold _record_process_result. wp_auto. destruct (argv c); wp_auto; auto with capture. Qed.

Lemma conclude_sat esc : sat owned (conclude c w esc)
  (fun _ s => owned s /\ exit_confirmed s = true /\ status_ok (exit_status s) = true) (fun _ => owned).
Proof.
  intros s Hs. unfold conclude. rewrite wp_bind. apply (wp_mono _ (fun _ => owned) _ (fun _ => owned)).
  - wp_auto. eapply sat_wp; [apply exited_sat | done | by intros ? ? [? _] |].
    intros e s1 H1. cbv beta in H1. destruct (is_capture e); wp_auto; auto with capture.
  - intros ? s1 H1. wp_auto. eapply sat_wp; [apply record_sat | done | | done]. intros ? s4 H4. cbv beta in H4. wp_auto.
    destruct esc; wp_auto; [done|]. destruct (l_error (frame s4)); wp_auto; [done|].
    destruct (exit_confirmed s4) eqn:Hc; wp_auto; [|done]. destruct (l_killed (frame s4)); wp_auto; [done|].
    destruct (status_ok (exit_status s4)) eqn:Hst; wp_auto; [|done].
    destruct (search XRUN_RE _); [done|]. destruct (search ERROR_RE _); [done|]. done.
  - done.
Qed.

(** A returned stop saw a clean exit. *)
Lemma stop_process_owned : sat owned (_stop_process c w)
  (fun _ s => owned s /\ exit_confirmed s = true /\ status_ok (exit_status s) = true) (fun _ => owned).
Proof.
  intros s Hs. unfold _stop_process. wp_auto. pose proof Hs as (_ & Hp). rewrite Hp. wp_auto.
  eapply sat_wp; [apply exited_sat | done | | done]. intros b s1 [H1 H2]. wp_auto.
  eapply wp_mono with (Q := fun r => owned) (X := fun _ => owned).
  - apply terminate_sat; [auto with capture|]. intros ->. auto with capture.
  - intros _ s2 Ho. wp_auto. by apply conclude_sat.
  - intros e s2 Ho. destruct e; wp_auto; apply conclude_sat; auto with capture.
Qed.
End stopping.

(** [_stop_process] without a process, too. *)
Lemma stop_process_sat c w : sat (due c) (_stop_process c w)
  (fun _ s => due c s /\ exit_confirmed s = true /\ forall pid, proc s = Some pid -> status_ok (exit_status s) = true) (fun _ => due c).
Proof.
  intros s Hs. destruct (proc s) as [pid|] eqn:Hp.
  - eapply sat_wp; [apply (stop_process_owned c w pid) | by split | | by intros ? ? [? _]]. intros _ s' ((H1 & H2) & H3 & H4). done.
  - unfold _stop_process. wp_auto. rewrite Hp. wp_auto. destruct Hs as [[A B C D E F G H I] Hd].
    split_and!; [|done|]; [|simpl; by rewrite Hp]. split; [|done]. split; simpl; try done. intros pid _ Hq. congruence.
Qed.

(** ** Steps that leave the process alone *)

(** Everything the invariant reads. *)
Definition same_core (s s' : session) : Prop :=
  proc s' = proc s /\ exit_confirmed s' = exit_confirmed s /\ exit_status s' = exit_status s /\
  cleanup_complete s' = cleanup_complete s /\ finalized s' = finalized s /\ log s' = log s.
#[export] Instance same_core_preorder : PreOrder same_core.
Proof. split; [by intros s|]. intros s1 s2 s3 (A & B & C & D & E & F) (A' & B' & C' & D' & E' & F'). split_and!; congruence. Qed.

Lemma keeps_ask R `{!PreOrder R} {A} (f : nat -> A) : (forall s, R s (tick s)) -> keeps R (ask f).
Proof. intros H s. apply H. Qed.
Lemma keeps_call R `{!PreOrder R} {A} (f : nat -> result exn A) : (forall s, R s (tick s)) -> keeps R (call f).
Proof. intros H s. unfold call. rewrite run_bind. apply H. Qed.
Lemma keeps_require R `{!PreOrder R} b x : keeps R (require b x).
Proof. apply keeps_check. apply _. Qed.
Lemma keeps_refuse R `{!PreOrder R} {A} x : keeps R (refuse (A := A) x).
Proof. intros s. simpl. reflexivity. Qed.
#[export] Hint Resolve keeps_ask keeps_call keeps_require keeps_refuse : keeps.

Section preflight.
Context (c : config) (w : world).

Ltac keep_leaf := solve
  [ apply keeps_ret, _ | apply keeps_raise, _ | apply keeps_self, _ | apply keeps_lift, _ | apply keeps_require, _ | apply keeps_refuse, _
  | apply keeps_assign; done | apply keeps_call; [apply _|done] | apply keeps_ask; [apply _|done] | auto with keeps ].
Ltac keep := repeat first [ keep_leaf | apply keeps_except; [apply _| |intros ?] | apply keeps_bind; [apply _| |intros ?] ].

Lemma run_core args t : keeps same_core (_run w args t).
Proof. unfold _run. keep. Qed.
#[local] Hint Resolve run_core : keeps.
Lemma check_udev_core observed values : keeps same_core (check_udev observed values).
Proof. induction values as [|[k e] values IH]; simpl; keep. Qed.
#[local] Hint Resolve check_udev_core : keeps.
Lemma validate_device_core : keeps same_core (_validate_device c w).
Proof.
  unfold _validate_device. keep. destruct a0. keep. destruct (observed_udev c); keep.
Qed.
#[local] Hint Resolve validate_device_core : keeps.
Lemma check_values_core args output expected : keeps same_core (check_values args output expected).
Proof. induction expected as [|e expected IH]; simpl; keep. Qed.
#[local] Hint Resolve check_values_core : keeps.
Lemma check_control_core card control expected : keeps same_core (check_control w card control expected).
Proof. unfold check_control. keep. Qed.
#[local] Hint Resolve check_control_core : keeps.
Lemma validate_mixer_core : keeps same_core (_validate_mixer c w).
Proof. unfold _validate_mixer. keep. destruct (resolved_card_index c); keep. Qed.
#[local] Hint Resolve validate_mixer_core : keeps.

Lemma before_launch_core : keeps same_core (before_launch c w).
Proof. unfold before_launch. keep. destruct (has_pre c); keep. Qed.
#[local] Hint Resolve before_launch_core : keeps.

(** A start launches exactly when it returns. *)
Definition launched (s s' : session) : Prop :=
  exists pid args, argv c = Ok args /\ proc s' = Some pid /\ log s' = log s ++ [Spawned pid args] /\
    exit_confirmed s' = false /\ exit_status s' = None /\ cleanup_complete s' = cleanup_complete s /\ finalized s' = finalized s.
Lemma start_sat s : wp (start c w)
  (fun _ s' => launched s s' /\ proc s = None /\ cleanup_complete s = false) (fun _ s' => same_core s s') s.
Proof.
  unfold start. rewrite wp_bind, wp_self. rewrite wp_bind, wp_require.
  destruct (negb _) eqn:Hn; [|done]. apply negb_true_iff, orb_false_iff in Hn as [[Hc Hf]%orb_false_iff Hp%bool_decide_eq_false].
  assert (proc s = None) as Hnone by (destruct (proc s); [by exfalso; apply Hp|done]).
  rewrite wp_bind. eapply wp_mono; [apply wp_keeps, before_launch_core | intros ? s1 H1; cbv beta in H1 | done].
  unfold launch. wp_auto. destruct H1 as (P1 & P2 & P3 & P4 & P5 & P6).
  destruct (argv c) as [args|e] eqn:Ha; wp_auto; [|by destruct (is_os e)].
  destruct (popen w (turn s1) args) as [pid|e]; wp_auto; [|by destruct (is_os e)].
  split; [|done]. exists pid, args. simpl. rewrite P6, P4, P5. done.
Qed.
End preflight.

(** ** The operations keep the invariant *)

Section operations.
Context (c : config) (w : world).

Lemma inv_new : inv c new_session.
Proof.
  split; simpl; try done. - intros e pid He. by apply elem_of_nil in He. - intros l1 e l2 Heq. by destruct l1.
Qed.

Lemma inv_core s s' : same_core s s' -> inv c s -> inv c s'.
Proof. intros (? & ? & ? & ? & ? & ?). by apply inv_same. Qed.

Lemma count_None {A} (f : A -> bool) l : (forall x, x ∈ l -> f x = true -> False) -> count f l = 0%nat.
Proof. intros H. apply count_zero. intros x Hx. destruct (f x) eqn:Hf; [|done]. by destruct (H x). Qed.

Lemma inv_launched s s' : launched c s s' -> proc s = None -> cleanup_complete s = false -> inv c s -> inv c s'.
Proof.
  intros (pid & args & _ & Hp & Hl & Hc & Hs & Hd & Hf) Hnone Hclean [A B C D E F G H I].
  assert (finalized s = false) as Hfin by (destruct (finalized s); [by rewrite G in Hclean | done]).
  assert (forall e, e ∈ log s -> concerns e = None) as Hfree.
  { intros e He. destruct (concerns e) as [p|] eqn:Hpid; [|done]. apply (B e p) in Hpid; [congruence | done]. }
  split; rewrite ?Hp, ?Hl, ?Hc, ?Hs, ?Hd, ?Hf, ?Hclean, ?Hfin in *; try done.
  - rewrite count_snoc, A, Hnone. done.
  - intros e p [He| ->%list_elem_of_singleton]%elem_of_app; [by rewrite Hfree in * | by intros [= <-]].
  - intros _. rewrite count_snoc. rewrite count_None; [done|]. intros e He Hx. apply Hfree in He. by destruct e.
  - by apply quiet_snoc.
  - intros _. rewrite count_snoc, H by done. done.
Qed.

Lemma start_inv s : inv c s -> wp (start c w) (fun _ => inv c) (fun _ => inv c) s.
Proof.
  intros Hi. eapply wp_mono; [apply start_sat|..].
  - intros ? s' (H1 & H2 & H3). by eapply inv_launched.
  - intros ? s' H. by apply (inv_core s).
Qed.

(** A validator's pass changes nothing else. *)
Lemma due_note e s : concerns e = None -> is_promoted e = false -> due c s -> due c (add_event e s).
Proof.
  intros He Hp [Hi Hd]. assert (finalized s = false) as Hf.
  { destruct (finalized s) eqn:Hf; [|done]. apply (inv_final _ _ Hi) in Hf. congruence. }
  assert (is_spawned e = false /\ is_exit e = false /\ disturbs e = false) as (E1 & E2 & E3) by (by destruct e).
  split; [|done]. destruct Hi as [A B C D E F G H I]. split; simpl; rewrite ?Hf; try done.
  - rewrite count_snoc, A, E1. lia.
  - intros x p [Hx| ->%list_elem_of_singleton]%elem_of_app; [by apply B | by rewrite He].
  - intros p H1 H2. destruct (C p H1 H2) as (st & ? & ?). exists st. split; [done|]. apply elem_of_app. by left.
  - intros Hc. rewrite count_snoc, E2, D by done. done.
  - apply quiet_snoc; [done|]. by rewrite E3.
  - intros _. by rewrite count_snoc, Hp, H.
Qed.

(** What [finish] had seen when it promoted the recording. *)
Definition finished (s : session) : Prop :=
  exists s1, s = add_event (Promoted (partial_path c) (output_path c)) s1 /\ due c s1 /\ exit_confirmed s1 = true /\
    (forall pid, proc s1 = Some pid -> status_ok (exit_status s1) = true) /\
    WavHolds (partial_path c) ∈ log s1 /\ (has_post c = true -> IdentityHolds ∈ log s1).

Definition stopped_cleanly (s : session) : Prop :=
  due c s /\ exit_confirmed s = true /\ forall pid, proc s = Some pid -> status_ok (exit_status s) = true.

Lemma stopped_same s s' : same_core s s' -> stopped_cleanly s -> stopped_cleanly s'.
Proof.
  intros (? & ? & ? & ? & ? & ?) (? & ? & Hs). split_and!; [by eapply due_fields | congruence |].
  intros pid Hp. replace (exit_status s') with (exit_status s) by done. apply (Hs pid). congruence.
Qed.
Lemma stopped_note e s : concerns e = None -> is_promoted e = false -> stopped_cleanly s -> stopped_cleanly (add_event e s).
Proof. intros ?? (? & ? & ?). split_and!; [by apply due_note | done..]. Qed.
Lemma stopped_due s : stopped_cleanly s -> due c s.
Proof. by intros [? _]. Qed.

Lemma post_check_sat : sat stopped_cleanly
  (if has_post c then
     except is_exception (call (post_validator w))
       (fun e => assign (set_post (Some (Failed e)));; refuse (IdentityDrift e));;
     note IdentityHolds;;
     assign (set_post (Some Passed))
   else mret tt)
  (fun _ s => stopped_cleanly s /\ (has_post c = true -> IdentityHolds ∈ log s)) (fun _ => due c).
Proof.
  intros s Hs. destruct (has_post c); wp_auto; [|done]. pose proof (stopped_due _ Hs).
  destruct (post_validator w (turn s)) as [[]|e]; wp_auto.
  - split; [|intros _; simpl; apply elem_of_app; right; by left].
    apply (stopped_same (add_event IdentityHolds (tick s))); [done|]. apply stopped_note; [done..|]. by apply (stopped_same s).
  - destruct (is_exception e); wp_auto; auto with capture.
Qed.

Lemma finish_sat : sat (due c) (finish c w) (fun _ => finished) (fun _ => due c).
Proof.
  intros s Hs. unfold finish. rewrite wp_bind. eapply sat_wp; [apply stop_process_sat | done | | done].
  intros ? s1 Hs1. rewrite wp_bind. eapply sat_wp; [apply post_check_sat | exact Hs1 | | done].
  intros ? s2 [Hs2 Hid]. wp_auto. pose proof (stopped_due _ Hs2) as Hd2.
  destruct (isfile w _ _); wp_auto; [|auto with capture]. destruct (has_wav c); wp_auto; [|auto with capture].
  destruct (wav_validator w _ _) as [u|e]; wp_auto; [|destruct (is_exception e); wp_auto; auto with capture].
  assert (stopped_cleanly (add_event (WavHolds (partial_path c)) (tick (tick s2)))) as Hs3.
  { apply stopped_note; [done..|]. by apply (stopped_same s2). }
  pose proof (stopped_due _ Hs3) as Hd3.
  destruct (lexists w _ _); simpl negb; cbv iota; wp_auto; [auto with capture|].
  destruct (replace w _ _ _) as [u'|e]; wp_auto; [|destruct (is_os e); wp_auto; auto with capture].
  eexists. split; [done|]. destruct Hs3 as (D1 & D2 & D3). split_and!; try done; [auto with capture|..]; simpl.
  - apply elem_of_app. right. by left.
  - intros H. apply elem_of_app. auto.
Qed.

Lemma inv_finished s : finished s -> inv c (set_cleanup true (set_finalized true s)).
Proof.
  intros (s1 & -> & [[A B C D E F G H I] Hd] & Hc & Hst & Hw & Hid). split; simpl; try done.
  - rewrite count_snoc, A. simpl. lia.
  - intros e p [He| ->%list_elem_of_singleton]%elem_of_app; [by apply B | done].
  - intros pid H1 H2. destruct (C pid H1 H2) as (st & ? & ?). exists st. split; [done|]. apply elem_of_app. by left.
  - intros Hx. congruence.
  - by apply quiet_snoc.
  - intros _. exists (log s1). split_and!; try done.
    + apply H. destruct (finalized s1) eqn:Hf; [|done]. by rewrite G in Hd.
    + intros pid Hp. destruct (C pid Hc Hp) as (st & Hx & ?). exists st. split; [done|]. rewrite <- Hx. by apply (Hst pid).
Qed.

Lemma inv_cleaned s : inv c s -> exit_confirmed s = true -> inv c (set_cleanup true s).
Proof. intros [A B C D E F G H I] Hc. by split. Qed.

Lemma not_settled s : inv c s -> finalized s || cleanup_complete s = false -> due c s.
Proof. intros Hi [_ Hd]%orb_false_iff. by split. Qed.

Lemma stop_inv s : inv c s -> wp (stop c w) (fun _ => inv c) (fun _ => inv c) s.
Proof.
  intros Hi. unfold stop. wp_rule. wp_rule. destruct (finalized s || cleanup_complete s) eqn:Hf.
  - wp_auto. by apply (inv_core s).
  - apply not_settled in Hf; [|done]. do 4 wp_rule. rewrite wp_bind, wp_except.
    eapply sat_wp; [apply finish_sat | auto with capture | |].
    + intros ? s1 H1. wp_auto. by apply inv_finished.
    + intros e s1 [H1 H2]. destruct (is_capture e); wp_auto; [|done].
      destruct (exit_confirmed s1) eqn:Hc; wp_auto; [by apply inv_cleaned | done].
Qed.

Lemma abort_inv s : inv c s -> wp (abort c w) (fun _ => inv c) (fun _ => inv c) s.
Proof.
  intros Hi. unfold abort. wp_rule. wp_rule. destruct (cleanup_complete s) eqn:Hf; [done|].
  assert (due c s) as Hdue by done. wp_auto.
  eapply wp_mono with (Q := fun _ => due c) (X := fun _ => due c).
  - eapply sat_wp; [apply stop_process_sat | auto with capture | by intros ? ? [? _] | done].
  - intros ? s1 [H1 H2]. wp_auto. destruct (exit_confirmed s1) eqn:Hc; wp_auto; [by apply inv_cleaned | done].
  - intros e s1 [H1 H2]. wp_auto. destruct (exit_confirmed s1) eqn:Hc; wp_auto; [by apply inv_cleaned | done].
Qed.

Lemma perform_inv o s : inv c s -> inv c (perform c w o s).
Proof.
  intros Hi. unfold perform. destruct o.
  - pose proof (start_inv s Hi) as H. unfold wp in H. by destruct (start c w s) as [[a|e] s'].
  - pose proof (stop_inv s Hi) as H. unfold wp in H. by destruct (stop c w s) as [[a|e] s'].
  - pose proof (abort_inv s Hi) as H. unfold wp in H. by destruct (abort c w s) as [[a|e] s'].
Qed.

Lemma use_inv ops : inv c (use c w ops).
Proof.
  unfold use. generalize inv_new. generalize new_session. induction ops as [|o ops IH]; intros s Hs; [done|]. by apply IH, perform_inv.
Qed.
End operations.

(** ** The phases of a session *)

(** [Fresh]: nothing launched; [Running]: launched, no exit seen; [Reaped]:
    exit seen, cleanup still due; [Abandoned], [Final]: settled without and
    with a promoted recording. *)
Inductive phase : Type := Fresh | Running | Reaped | Abandoned | Final.
Definition phase_of (s : session) : phase :=
  if finalized s then Final else if cleanup_complete s then Abandoned
  else match proc s with None => Fresh | Some _ => if exit_confirmed s then Reaped else Running end.
Definition unsettled (p : phase) : bool := match p with Abandoned | Final => false | _ => true end.

(** The contract: how each call may move a session. *)
Inductive moves : op -> phase -> phase -> Prop :=
| start_refused p : moves Start p p
| start_launched : moves Start Fresh Running
| settled_kept o p : unsettled p = false -> moves o p p
| stop_escaped p : unsettled p = true -> moves Stop p p
| stop_reaped : moves Stop Running Reaped
| stop_failed p : unsettled p = true -> moves Stop p Abandoned
| stop_done p : unsettled p = true -> moves Stop p Final
| abort_done p : unsettled p = true -> moves Abort p Abandoned
| abort_alive : moves Abort Running Running.

Definition mono (s s' : session) : Prop := proc s' = proc s /\ (exit_confirmed s = true -> exit_confirmed s' = true).
#[export] Instance mono_preorder : PreOrder mono.
Proof. split; [by intros s|]. intros s1 s2 s3 [A B] [A' B']. split; [congruence | auto]. Qed.

Section monotone.
Context (c : config) (w : world).
Ltac keep_leaf := solve
  [ apply keeps_ret, _ | apply keeps_raise, _ | apply keeps_self, _ | apply keeps_lift, _ | apply keeps_require, _ | apply keeps_refuse, _
  | apply keeps_assign; done | apply keeps_call; [apply _|done] | apply keeps_ask; [apply _|done] | auto with keeps ].
Ltac keep := repeat first
  [ keep_leaf | apply keeps_except; [apply _| |intros ?] | apply keeps_tried | apply keeps_bind; [apply _| |intros ?]
  | match goal with |- keeps _ (match ?x with _ => _ end) => destruct x end ].

Lemma exited_mono : keeps mono (_process_exited w).
Proof. unfold _process_exited. keep. Qed.
#[local] Hint Resolve exited_mono : keeps.
Lemma frame_mono f : keeps mono (on_frame f).
Proof. unfold on_frame. by keep. Qed.
#[local] Hint Resolve frame_mono : keeps.
Lemma collect_mono pid late : (forall x o e, keeps mono (late x o e)) -> keeps mono (collect w pid late).
Proof. intros H. unfold collect. keep. Qed.
Lemma kill_mono pid refused killed : (forall e, keeps mono (refused e)) -> keeps mono killed -> keeps mono (send_kill w pid refused killed).
Proof. intros H1 H2. unfold send_kill, note. keep. Qed.
#[local] Hint Resolve collect_mono kill_mono : keeps.
Lemma terminate_mono pid b : keeps mono (terminate w pid b).
Proof.
  unfold terminate, after_refused_signal, after_timeout, note.
  keep; repeat first [apply collect_mono; intros | apply kill_mono; [intros|] | progress keep].
Qed.
#[local] Hint Resolve terminate_mono : keeps.
Lemma stop_process_mono : keeps mono (_stop_process c w).
Proof. unfold _stop_process, conclude, _record_process_result. keep. Qed.
#[local] Hint Resolve stop_process_mono : keeps.
Lemma finish_mono : keeps mono (finish c w).
Proof. unfold finish, note. keep. Qed.
End monotone.

Section settling.
Context (c : config) (w : world).

Lemma unsettled_due s : inv c s -> unsettled (phase_of s) = true -> due c s.
Proof.
  intros Hi H. split; [done|]. unfold phase_of in H. destruct (finalized s); [done|]. by destruct (cleanup_complete s).
Qed.
Lemma due_unsettled s : due c s -> unsettled (phase_of s) = true /\ finalized s = false.
Proof.
  intros [Hi Hd]. assert (finalized s = false) as Hf.
  { destruct (finalized s) eqn:Hf; [|done]. apply (inv_final _ _ Hi) in Hf. congruence. }
  split; [|done]. unfold phase_of. rewrite Hf, Hd. by destruct (proc s), (exit_confirmed s).
Qed.
Lemma settled_flags s : inv c s -> (unsettled (phase_of s) = false <-> cleanup_complete s = true).
Proof.
  intros Hi. unfold phase_of. destruct (finalized s) eqn:Hf; [by rewrite (inv_final _ _ Hi) by done|].
  destruct (cleanup_complete s), (proc s), (exit_confirmed s); done.
Qed.

(** A settled session stays as it is. *)
Lemma settled_stop s : inv c s -> cleanup_complete s = true ->
  stop c w s = (Ok (if isfile w (turn s) (output_path c) then Some (output_path c) else None), tick s).
Proof. intros Hi H. unfold stop. rewrite run_bind. simpl. by rewrite H, orb_true_r. Qed.
Lemma settled_abort s : cleanup_complete s = true -> abort c w s = (Ok tt, s).
Proof. intros H. unfold abort. rewrite run_bind. simpl. by rewrite H. Qed.
Lemma settled_start s : cleanup_complete s = true -> start c w s = (Err (CaptureError StartedTwice), s).
Proof. intros H. unfold start. rewrite run_bind. simpl. by rewrite H. Qed.

(** How an unsettled session leaves [stop]. *)
Lemma stop_spec s : due c s -> wp (stop c w)
  (fun r s' => r = Some (output_path c) /\ finalized s' = true /\ cleanup_complete s' = true)
  (fun e s' => finalized s' = false /\ mono s s' /\
     cleanup_complete s' = is_capture e && exit_confirmed s') s.
Proof.
  intros Hdue. unfold stop. wp_rule. wp_rule. destruct Hdue as [Hi Hd]. rewrite Hd.
  destruct (due_unsettled s) as [_ Hf]; [done|]. rewrite Hf. simpl. do 4 wp_rule. rewrite wp_bind, wp_except.
  eapply wp_mono.
  - apply wp_and; [eapply sat_wp; [apply (finish_sat c w) | | intros ? s' H; exact H | intros e s' H; exact H]|].
    + apply (due_fields c s); done.
    + apply (wp_keeps mono), finish_mono.
  - intros ? s1 _. wp_auto. done.
  - intros e s1 [[H1 H2] Hm]. destruct (due_unsettled s1) as [_ Hf1]; [done|].
    destruct (is_capture e) eqn:He; wp_auto; [|done].
    destruct (exit_confirmed s1) eqn:Hc; wp_auto; rewrite ?He; split_and!; try done; try (by destruct Hm); simpl; rewrite ?Hc; try done.
Qed.

(** How it leaves [abort]: settled unless its process may still run. *)
Lemma abort_spec s : due c s ->
  let s' := (abort c w s).2 in
  finalized s' = false /\ mono s s' /\ cleanup_complete s' = exit_confirmed s' /\ (proc s = None -> exit_confirmed s' = true).
Proof.
  intros Hdue. enough (wp (abort c w)
    (fun _ s' => finalized s' = false /\ mono s s' /\ cleanup_complete s' = exit_confirmed s' /\ (proc s = None -> exit_confirmed s' = true))
    (fun _ s' => finalized s' = false /\ mono s s' /\ cleanup_complete s' = exit_confirmed s' /\ (proc s = None -> exit_confirmed s' = true)) s) as H.
  { unfold wp in H. by destruct (abort c w s) as [[a|e] s']. }
  unfold abort. wp_rule. wp_rule. destruct Hdue as [Hi Hd]. rewrite Hd. do 4 wp_rule. rewrite wp_bind, wp_tried.
  set (s0 := set_stopped _ _). assert (due c s0) as H0 by (apply (due_fields c s); done).
  eapply (wp_mono _ (fun _ s1 => due c s1 /\ mono s0 s1 /\ (proc s = None -> exit_confirmed s1 = true))
                    _ (fun _ s1 => due c s1 /\ mono s0 s1 /\ (proc s = None -> exit_confirmed s1 = true))).
  - destruct (proc s) as [pid|] eqn:Hp.
    + eapply wp_mono; [apply wp_and; [eapply sat_wp; [apply (stop_process_sat c w) | exact H0 | intros ? s' H; exact H | intros e s' H; exact H]
        | apply (wp_keeps mono), stop_process_mono]|..]; [intros ? s1 [[H1 _] H2] | intros e s1 [H1 H2]]; done.
    + unfold _stop_process. wp_rule. wp_rule. change (proc s0) with (proc s). rewrite Hp. wp_rule. split_and!; try done.
      destruct H0 as [I0 D0]. split; [|done]. destruct I0 as [A B C D E F G H I]. split; simpl; try done.
      intros pid _ Hx. change (proc s0) with (proc s) in Hx. congruence.
  - intros ? s1 ([H1 H2] & Hm & Hn). destruct (due_unsettled s1) as [_ Hf1]; [done|].
    wp_auto. destruct (exit_confirmed s1) eqn:Hc; wp_auto; simpl; rewrite ?Hc; split_and!; try done; by destruct Hm.
  - intros ? s1 ([H1 H2] & Hm & Hn). destruct (due_unsettled s1) as [_ Hf1]; [done|].
    wp_auto. destruct (exit_confirmed s1) eqn:Hc; wp_auto; simpl; rewrite ?Hc; split_and!; try done; by destruct Hm.
Qed.
End settling.

(** ** What a start had checked *)

Section checked.
Context (c : config) (w : world).

Lemma call_Ok {A} (f : nat -> result exn A) a s s' : call f s = (Ok a, s') -> f (turn s) = Ok a.
Proof. unfold call. rewrite run_bind. simpl. by intros [= ? _]. Qed.
Lemma require_Ok b x u s s' : require b x s = (Ok u, s') -> b = true /\ s' = s.
Proof. apply check_run_Ok. Qed.

Lemma run_Ok args t proc s s' : _run w args t s = (Ok proc, s') ->
  exists n, run_cmd w n args t = Ok proc /\ returncode proc = Some 0 /\ search ERROR_RE (_as_text (stderr proc)) = None.
Proof.
  unfold _run. intros H. apply bind_run_Ok in H as (p & s1 & H1 & H). apply except_Ok in H1; [|by intros].
  apply call_Ok in H1. method_inv H. apply require_Ok in Hm as [Hr _], Hm0 as [He _]. apply bool_decide_eq_true in Hr.
  exists (turn s). split_and!; try done. by destruct (search ERROR_RE _).
Qed.

Lemma check_udev_Ok observed values u s s' : check_udev observed values s = (Ok u, s') ->
  forall k v, (k, v) ∈ values -> dict_get k observed = Some v.
Proof.
  revert s. induction values as [|[k e] values IH]; intros s H k' v Hin; [by apply elem_of_nil in Hin|]. simpl in H.
  apply bind_run_Ok in H as (a & s1 & H1 & H). apply require_Ok in H1 as [Hk%bool_decide_eq_true _].
  apply elem_of_cons in Hin as [[= -> ->]|Hin]; [done|]. by eapply IH.
Qed.

Lemma check_values_Ok args output expected u s s' : check_values args output expected s = (Ok u, s') ->
  forall e, e ∈ expected -> _contains_frozen_value output e = true.
Proof.
  revert s. induction expected as [|e expected IH]; intros s H x Hin; [by apply elem_of_nil in Hin|]. simpl in H.
  apply bind_run_Ok in H as (a & s1 & H1 & H). apply require_Ok in H1 as [Hk _].
  apply elem_of_cons in Hin as [->|Hin]; [done|]. by eapply IH.
Qed.

(** [amixer] showed every expected value. *)
Definition mixer_shows (card control : string) (expected : list string) : Prop :=
  exists n o, run_cmd w n ["amixer"; "-c"; card; "get"; control]%string 10 = Ok o /\ returncode o = Some 0 /\
    forall e, e ∈ expected -> _contains_frozen_value (_as_text (stdout o)) e = true.
Lemma check_control_Ok card control expected u s s' : check_control w card control expected s = (Ok u, s') -> mixer_shows card control expected.
Proof.
  unfold check_control. intros H. apply bind_run_Ok in H as (p & s1 & H1 & H). apply run_Ok in H1 as (n & ? & ? & _).
  exists n, p. split_and!; try done. by eapply check_values_Ok.
Qed.

(** The listing had exactly one endpoint that is the bound device. *)
Definition listed_once : Prop :=
  exists n o card device e, run_cmd w n ["arecord"; "--list-devices"]%string 10 = Ok o /\ returncode o = Some 0 /\
    split_device (cb_device (binding c)) = Ok (card, device) /\
    List.filter (is_bound c card device) (parse_arecord_devices (_as_text (stdout o))) = [e].
Definition udev_holds : Prop :=
  exists observed, observed_udev c = Some observed /\ forall k v, (k, v) ∈ cb_udev (binding c) -> dict_get k observed = Some v.
Lemma validate_device_Ok u s s' : _validate_device c w s = (Ok u, s') -> listed_once /\ udev_holds.
Proof.
  unfold _validate_device. intros H. apply bind_run_Ok in H as (p & s1 & H1 & H). apply run_Ok in H1 as (n & ? & ? & _).
  apply bind_run_Ok in H as ([card device] & s2 & H2 & H). apply lift_run_Ok in H2 as [H2 _].
  apply bind_run_Ok in H as (x & s3 & H3 & H). apply require_Ok in H3 as [H3%Nat.eqb_eq _].
  split.
  - destruct (List.filter _ _) as [|e [|]] eqn:Hf; try done. exists n, p, card, device, e. done.
  - destruct (observed_udev c) as [observed|] eqn:Ho; [|done]. exists observed. split; [done|]. by eapply check_udev_Ok.
Qed.

Definition mixer_holds : Prop :=
  let m := cb_mixer (binding c) in
  exists card, mixer_shows card (control m) [volume m; capture_switch m] /\ mixer_shows card (agc_control m) [agc m].
Lemma validate_mixer_Ok u s s' : _validate_mixer c w s = (Ok u, s') -> mixer_holds.
Proof.
  unfold _validate_mixer. intros H. apply bind_run_Ok in H as (card & s1 & _ & H).
  apply bind_run_Ok in H as (x & s2 & H2 & H). exists card. split; by eapply check_control_Ok.
Qed.

Lemma before_launch_Ok u s s' : before_launch c w s = (Ok u, s') ->
  listed_once /\ udev_holds /\ mixer_holds /\ (has_pre c = true -> exists n, pre_validator w n = Ok tt).
Proof.
  unfold before_launch. intros H. apply bind_run_Ok in H as (x & s1 & H1 & H). apply bind_run_Ok in H as (y & s2 & H2 & H).
  apply validate_device_Ok in H2 as [? ?]. apply validate_mixer_Ok in H. split_and!; try done. intros Hpre. rewrite Hpre in H1.
  apply bind_run_Ok in H1 as ([] & s3 & H3 & _). apply except_Ok in H3; [|by intros]. apply call_Ok in H3. eauto.
Qed.
End checked.

(** ** How long a stop can take *)

(** At most [n] calls of the world. *)
Definition within {A} (n : nat) (m : M A) : Prop := forall s, (turn (m s).2 <= turn s + n)%nat.

Section bounded.
Context (c : config) (w : world).

Lemma within_weaken {A} n k (m : M A) : within n m -> (n <= k)%nat -> within k m.
Proof. intros H Hk s. specialize (H s). lia. Qed.
Lemma within_bind {A B} n k (m : M A) (f : A -> M B) : within n m -> (forall a, within k (f a)) -> within (n + k) (m ≫= f).
Proof.
  intros Hm Hf s. rewrite run_bind. specialize (Hm s). destruct (m s) as [[a|e] s1]; simpl in *; [|lia]. specialize (Hf a s1). lia.
Qed.
Lemma within_except {A} n k q (m : M A) h : within n m -> (forall e, within k (h e)) -> within (n + k) (except q m h).
Proof.
  intros Hm Hh s. unfold except. rewrite run_bind. unfold tried. specialize (Hm s). destruct (m s) as [[a|e] s1]; simpl in *; [lia|].
  destruct (q e); simpl; [specialize (Hh e s1); lia | lia].
Qed.
Lemma within_tried {A} n (m : M A) : within n m -> within n (tried m).
Proof. intros Hm s. unfold tried. specialize (Hm s). by destruct (m s). Qed.
Lemma within_call {A} (f : nat -> result exn A) : within 1 (call f).
Proof. intros s. unfold call. rewrite run_bind. simpl. lia. Qed.
Lemma within_ask {A} (f : nat -> A) : within 1 (ask f).
Proof. intros s. simpl. lia. Qed.
Lemma within_ret {A} (a : A) : within 0 (mret a).
Proof. intros s. simpl. lia. Qed.
Lemma within_raise {A} e : within 0 (raise (A := A) e : M A).
Proof. intros s. simpl. lia. Qed.
Lemma within_lift {A} (r : result exn A) : within 0 (lift r : M A).
Proof. intros s. simpl. lia. Qed.
Lemma within_self : within 0 (self : M session).
Proof. intros s. simpl. lia. Qed.
Lemma within_assign f : (forall s, turn (f s) = turn s) -> within 0 (assign f).
Proof. intros H s. simpl. rewrite H. lia. Qed.
Lemma within_require b x : within 0 (require b x).
Proof. intros s. simpl. lia. Qed.
Lemma within_note e : within 0 (note e).
Proof. intros s. simpl. lia. Qed.
Lemma within_on_frame f : within 0 (on_frame f).
Proof. intros s. simpl. lia. Qed.
Lemma within_if {A} n (b : bool) (m k : M A) : within n m -> within n k -> within n (if b then m else k).
Proof. by destruct b. Qed.
End bounded.

Ltac within_leaf := first
  [ apply within_ret | apply within_raise | apply within_lift | apply within_self | apply within_call | apply within_ask
  | apply within_require | apply within_note | apply within_on_frame | apply within_assign; done ].
Section bounded_stop.
Context (c : config) (w : world).

Lemma exited_within : within 1 (_process_exited w).
Proof.
  unfold _process_exited. apply (within_bind 0 1); [apply within_self|intros s]. destruct (proc s) as [pid|].
  - apply within_if; [eapply within_weaken; [apply within_ret | lia]|].
    apply (within_bind 1 0); [apply (within_except 1 0); [apply within_call | intros; apply within_raise]|].
    intros [st|]; [|apply within_ret]. repeat (eapply (within_bind 0 0); [within_leaf|intros ?]). apply within_ret.
  - apply (within_weaken 0); [|lia]. apply (within_bind 0 0); [within_leaf | intros; within_leaf].
Qed.
Lemma collect_within n pid late : (forall x o e, within n (late x o e)) -> within (1 + n) (collect w pid late).
Proof.
  intros H. unfold collect. apply within_bind; [apply within_tried, within_call|]. intros [[o e]|e].
  - eapply within_weaken; [apply within_on_frame | lia].
  - destruct e; try (eapply within_weaken; [apply within_raise | lia]). apply H.
Qed.
Lemma kill_within n pid refused killed : (forall e, within n (refused e)) -> within n killed -> within (1 + n) (send_kill w pid refused killed).
Proof.
  intros H1 H2. unfold send_kill. apply (within_bind 0 (1 + n)); [apply within_note|intros _].
  apply within_bind; [apply within_tried, within_call|]. intros [u|e]; [done|].
  apply within_if; [done|]. eapply within_weaken; [apply within_raise | lia].
Qed.
Lemma terminate_within pid b : within 4 (terminate w pid b).
Proof.
  unfold terminate. destruct b.
  - apply (within_weaken 1); [|lia]. apply (collect_within 0). intros. apply (within_bind 0 0); intros; within_leaf.
  - apply (within_bind 0 4); [apply within_note|intros _]. apply (within_bind 1 3); [apply within_tried, within_call|]. intros [u|e].
    + apply (collect_within 2). intros x o e. unfold after_timeout.
      do 2 (eapply (within_bind 0 2); [within_leaf|intros ?]). apply (kill_within 1); [intros; apply (within_weaken 0); [within_leaf | lia]|].
      apply (collect_within 0). intros. repeat (eapply (within_bind 0 0); [within_leaf|intros ?]). within_leaf.
    + apply within_if; [|apply (within_weaken 0); [within_leaf | lia]]. unfold after_refused_signal.
      apply (within_bind 0 3); [within_leaf|intros _]. apply (within_bind 1 2); [apply exited_within|intros []].
      * apply (within_weaken 0); [within_leaf | lia].
      * apply (within_bind 0 2); [within_leaf|intros _]. apply (kill_within 1); [intros; apply (within_weaken 0); [within_leaf | lia]|].
        apply (collect_within 0). intros. apply (within_bind 0 0); intros; within_leaf.
Qed.
Lemma conclude_within esc : within 1 (conclude c w esc).
Proof.
  unfold conclude. apply (within_bind 1 0).
  - apply (within_except 1 0); [apply (within_bind 1 0); [apply exited_within | intros; within_leaf] | intros; within_leaf].
  - intros _. apply (within_bind 0 0).
    + unfold _record_process_result. apply (within_bind 0 0); [within_leaf|intros s]. apply (within_bind 0 0); [within_leaf|intros l]. within_leaf.
    + intros _. apply (within_bind 0 0); [destruct esc; within_leaf|intros _]. apply (within_bind 0 0); [within_leaf|intros s].
      apply (within_bind 0 0); [destruct (l_error (frame s)); within_leaf|intros _].
      repeat (eapply (within_bind 0 0); [within_leaf|intros ?]). within_leaf.
Qed.
Lemma stop_process_within : within 6 (_stop_process c w).
Proof.
  unfold _stop_process. apply (within_bind 0 6); [within_leaf|intros s]. destruct (proc s) as [pid|].
  - apply (within_bind 1 5); [apply exited_within|intros b]. apply (within_bind 0 5); [within_leaf|intros _].
    apply (within_bind 4 1); [apply within_tried, terminate_within|intros r]. apply (within_bind 0 1); [|intros; apply conclude_within].
    destruct r as [u|[]]; try within_leaf; apply (within_bind 0 0); intros; within_leaf.
  - apply (within_weaken 0); [within_leaf | lia].
Qed.
Lemma abort_within : within 7 (abort c w).
Proof.
  unfold abort. apply (within_bind 0 7); [within_leaf|intros s]. apply within_if; [apply (within_weaken 0); [within_leaf | lia]|].
  apply (within_bind 1 6); [within_leaf|intros now]. apply (within_bind 0 6); [within_leaf|intros _].
  apply (within_bind 6 0); [apply within_tried, stop_process_within|intros r]. apply (within_bind 0 0); [within_leaf|intros s'].
  apply (within_bind 0 0); [apply within_if; within_leaf|intros _]. within_leaf.
Qed.
End bounded_stop.

(** The character before the position after [u], when [b] is before [u]. *)
Definition before_of (b : option ascii) (u : list ascii) : option ascii := match last u with Some a => Some a | None => b end.
Lemma before_of_cons b a u : before_of b (a :: u) = before_of (Some a) u.
Proof. unfold before_of. destruct u as [|d u]; [done|]. rewrite last_cons_cons. by destruct (last (d :: u)) eqn:H; [|apply last_None in H]. Qed.

Lemma frozen_here x b m :
  match strip_prefix x m with Some rest => not_value b && not_value (head rest) | None => false end = true <->
  exists v, m = x ++ v /\ not_value b = true /\ not_value (head v) = true.
Proof.
  destruct (strip_prefix x m) as [r|] eqn:Hr.
  - apply strip_prefix_Some in Hr as ->. rewrite andb_true_iff. split; [intros []; eauto|].
    intros (v & Heq & ? & ?). apply app_inv_head in Heq as ->. done.
  - split; [done|]. intros (v & Heq & _). apply strip_prefix_Some in Heq. congruence.
Qed.
Lemma frozen_from_spec x b l :
  frozen_from b l x = true <-> exists u v, l = u ++ x ++ v /\ not_value (before_of b u) = true /\ not_value (head v) = true.
Proof.
  revert b. induction l as [|a l IH]; intros b; simpl; rewrite orb_true_iff, frozen_here.
  - split.
    + intros [(v & ? & ? & ?)|]; [|done]. exists [], v. done.
    + intros (u & v & Heq & H1 & H2). destruct u; [|done]. left. eauto.
  - rewrite IH. split.
    + intros [(v & ? & ? & ?)|(u & v & -> & ? & ?)]; [by exists [], v|]. exists (a :: u), v. by rewrite before_of_cons.
    + intros ([|d u] & v & Heq & H1 & H2); [left; by exists v|]. injection Heq as <- ->. rewrite before_of_cons in H1. right. eauto.
Qed.

(** ** Properties *)

Module CaptureTheorems.
Section theorems.
Context (c : config) (w : world).

(** Over any sequence of calls and any behaviour of the world, the session
    launches at most one process, signals and kills only that process and
    never after its exit was seen, and promotes at most one recording. *)
Theorem capture_process_owned (ops : list op) :
  let l := log (use c w ops) in
  (count is_spawned l <= 1)%nat /\ (count is_promoted l <= 1)%nat /\ quiet l /\
  (forall e pid, e ∈ l -> concerns e = Some pid -> exists args, Spawned pid args ∈ l).
Proof.
  intros l. unfold l. pose proof (use_inv c w ops) as Hi. set (s := use c w ops) in *. split_and!.
  - rewrite (inv_spawned _ _ Hi). destruct (proc s); lia.
  - destruct (finalized s) eqn:Hf; [|rewrite (inv_kept _ _ Hi); [lia|done]].
    destruct (inv_earned _ _ Hi Hf) as (k & -> & Hk & _). rewrite count_snoc, Hk. simpl. lia.
  - apply (inv_quiet _ _ Hi).
  - intros e pid He Hpid. apply (inv_own _ _ Hi) in Hpid as Hp; [|done]. pose proof (inv_spawned _ _ Hi) as Hc. rewrite Hp in Hc.
    destruct (List.filter is_spawned (log s)) as [|x xs] eqn:Hx; [unfold count in Hc; by rewrite Hx in Hc|].
    assert (In x (List.filter is_spawned (log s))) as Hin by (rewrite Hx; by left). apply filter_In in Hin as [Hin%list_elem_of_In Hs].
    destruct x as [q args| | | | | |]; try done. assert (proc s = Some q) as Hq by (by apply (inv_own _ _ Hi (Spawned q args))).
    exists args. congruence.
Qed.

(** C35. A recording that was promoted is the session's own partial file moved to
    its output path, as the last thing the session did: after the recording
    passed the WAV validator, the identity was revalidated if a validator was
    given, and every launched process was seen to end with status 0, by
    SIGINT, or with 130. *)
Theorem capture_promotion_earned (ops : list op) (src dst : string) (H : Promoted src dst ∈ log (use c w ops)) :
  src = partial_path c /\ dst = output_path c /\
  exists l, log (use c w ops) = l ++ [Promoted src dst] /\ WavHolds src ∈ l /\ (has_post c = true -> IdentityHolds ∈ l) /\
    forall pid args, Spawned pid args ∈ l -> exists st, Exited pid st ∈ l /\ st ∈ [0; -2; 130].
Proof.
  pose proof (use_inv c w ops) as Hi. set (s := use c w ops) in *. destruct (finalized s) eqn:Hf.
  - destruct (inv_earned _ _ Hi Hf) as (l & Hl & Hn & Hw & Hid & Hst). rewrite Hl in H.
    apply elem_of_app in H as [H|[= -> ->]%list_elem_of_singleton].
    + by apply (proj1 (count_zero is_promoted l)) with (x := Promoted src dst) in Hn.
    + split_and!; [done..|]. exists l. split_and!; try done. intros pid args Hs. destruct (Hst pid) as (st & Hx & Hok).
      * apply (inv_own _ _ Hi (Spawned pid args)); [|done]. rewrite Hl. apply elem_of_app. by left.
      * exists st. split; [done|]. unfold status_ok, py_in in Hok. by apply bool_decide_eq_true in Hok.
  - pose proof (inv_kept _ _ Hi Hf) as Hn. by apply (proj1 (count_zero is_promoted (log s))) with (x := Promoted src dst) in Hn.
Qed.


(** [start] returns exactly when it launched the argument vector of the
    binding, once; by then the device was listed exactly once, its udev
    identity held, and the mixer showed every frozen value.  A start that
    raises launched nothing and left the process state as it was. *)
Theorem start_launches_validated (s s' : session) (r : result exn unit) (H : start c w s = (r, s')) :
  match r with
  | Ok _ => listed_once c w /\ udev_holds c /\ mixer_holds c w /\ (has_pre c = true -> exists n, pre_validator w n = Ok tt) /\
            proc s = None /\ exists pid args, argv c = Ok args /\ proc s' = Some pid /\ log s' = log s ++ [Spawned pid args]
  | Err _ => same_core s s'
  end.
Proof.
  pose proof (start_sat c w s) as Hs. unfold wp in Hs. rewrite H in Hs. destruct r as [u|e]; [|done].
  destruct Hs as ((pid & args & Ha & Hp & Hl & _) & Hn & _). unfold start in H. apply bind_run_Ok in H as (x & s1 & _ & H).
  apply bind_run_Ok in H as (y & s2 & _ & H). apply bind_run_Ok in H as (z & s3 & H & _). apply before_launch_Ok in H as (? & ? & ? & ?).
  split_and!; try done. eauto.
Qed.

(** [abort] asks the world at most seven times, two of them waits of
    [STOP_TIMEOUT]; it leaves the session settled unless its process was not
    seen to end. *)
Theorem abort_bounded (ops : list op) :
  let s := use c w ops in let s' := (abort c w s).2 in
  (turn s' <= turn s + 7)%nat /\ (cleanup_complete s' = true \/ exit_confirmed s' = false /\ is_Some (proc s')).
Proof.
  intros s s'. split; [apply abort_within|]. pose proof (use_inv c w ops) as Hi. fold s in Hi. destruct (cleanup_complete s) eqn:Hd.
  - left. unfold s'. by rewrite settled_abort.
  - destruct (abort_spec c w s) as (_ & [Hp _] & Hc & Hn); [done|]. fold s' in Hp, Hc, Hn. rewrite Hc.
    destruct (exit_confirmed s') eqn:He; [by left|]. right. split; [done|]. rewrite Hp. destruct (proc s); [done|]. by discriminate Hn.
Qed.

(** A mixer value is found exactly when it occurs in the output with no
    character of a longer value on either side. *)
Theorem frozen_value_exact (output : list ascii) (expected : string) :
  _contains_frozen_value output expected = true <->
  exists u v, output = u ++ chars expected ++ v /\ not_value (last u) = true /\ not_value (head v) = true.
Proof.
  unfold _contains_frozen_value. rewrite frozen_from_spec. unfold before_of.
  split; intros (u & v & ? & H1 & ?); exists u, v; destruct (last u); done.
Qed.
End theorems.
End CaptureTheorems.

Module CaptureWitnesses.

Definition demo_binding (device : string) : CaptureBinding :=
  mk_capture "alsa" device 1 48000 "S16_LE" [("ID_VENDOR_ID", "0d8c"); ("ID_PATH", "pci-0000")]
    (mk_mixer "Mic" "80%" "on" "Auto Gain Control" "off") (mk_metadata "/srv/fixture.json" "00" []).
Definition demo_config (device : string) (index : option Z) : config :=
  mk_config (demo_binding device) "/run/row.wav" "/run/row.partial.wav" (Some [("ID_VENDOR_ID", "0d8c"); ("ID_PATH", "pci-0000")])
    index true true true.
Definition says (t : string) : result exn completed := Ok (mk_completed [] (Some 0) (Text (chars t)) (Text [])).
Definition listing : string := "card 2: Capture_1 [USB Audio Device], device 0: USB Audio [USB Audio]".
(** [arecord] is found, runs, and ends on SIGINT. *)
Definition demo_world : world :=
  mk_world (fun _ argv _ => match argv with
                            | ["arecord"; _] => says listing
                            | [_; _; _; _; "Mic"] => says "Mono: Capture 12 [80%] [23.81dB] [on]"
                            | _ => says "Mono: Capture [off]" end)
    (fun _ _ => Ok 700) (fun n _ => Ok (if (n <? 8)%nat then None else Some (-2))) (fun _ _ => Ok tt) (fun _ _ => Ok tt)
    (fun _ _ => Ok (Text [], Text (chars "Aborted by signal Interrupt..."))) (fun _ => Ok tt) (fun _ => Ok tt) (fun _ _ => Ok tt)
    (fun _ _ => true) (fun _ _ => false) (fun _ _ _ => Ok tt) (fun n => Z.of_nat n).

Definition demo_ops : list op := [Start; Stop; Abort].
Definition demo_log : list event := Eval vm_compute in log (use (demo_config "hw:Capture_1,0" (Some 2)) demo_world demo_ops).
Lemma demo_log_eq : log (use (demo_config "hw:Capture_1,0" (Some 2)) demo_world demo_ops) = demo_log.
Proof. vm_compute. reflexivity. Qed.

Lemma capture_promotion_earned_witness :
  "/run/row.partial.wav" = partial_path (demo_config "hw:Capture_1,0" (Some 2)) /\
  exists l, log (use (demo_config "hw:Capture_1,0" (Some 2)) demo_world demo_ops) = l ++ [Promoted "/run/row.partial.wav" "/run/row.wav"].
Proof.
  destruct (CaptureTheorems.capture_promotion_earned (demo_config "hw:Capture_1,0" (Some 2)) demo_world demo_ops
    "/run/row.partial.wav" "/run/row.wav") as (H1 & _ & l & H2 & _).
  - rewrite demo_log_eq. unfold demo_log. rewrite !elem_of_cons. auto 10.
  - split; [exact H1|]. exists l. exact H2.
Defined.

Lemma start_launches_validated_witness :
  let c := demo_config "hw:Capture_1,0" (Some 2) in
  let r := start c demo_world new_session in is_ok r.1 = true /\ listed_once c demo_world.
Proof.
  intros c r. split; [vm_compute; reflexivity|].
  pose proof (CaptureTheorems.start_launches_validated c demo_world new_session r.2 r.1 (surjective_pairing r)) as H.
  assert (r.1 = Ok tt) as Hr by (vm_compute; reflexivity). rewrite Hr in H. apply H.
Defined.

(** A card bound by name is never found in a listing that prints the card's
    long name in brackets after it: the name the listing gives is the text up
    to the comma. *)
Lemma named_card_not_listed :
  let c := demo_config "hw:Capture_1,0" None in
  (e_name <$> parse_arecord_devices (chars listing)) = [chars "Capture_1 [USB Audio Device]"] /\
  (start c demo_world new_session).1 = Err (CaptureError DeviceNotOnce).
Proof. vm_compute. split; reflexivity. Qed.
End CaptureWitnesses.
