(* ===== verification/HilRunnerSteps.v ===== *)
(** * The row runner: commands, consoles, flashing, boot, clean state (scripts/hil/runner.py)

    The external answers of one row are a [world]: each call to the outside
    (clock, cancellation, receiver command, console line, process, source
    client, file write) takes one turn and is answered by the world at that
    turn, so every interleaving of answers is covered.  The runner's state is
    the trace of what it did, the list of transcript blocks it shares between
    its procedures, and the turn.  Times are microseconds; loops take fuel and
    [OutOfFuel] is the model's own exception. *)

From S2P Require Import Prelude PyText PyRegex FlprStatus SerialIo HilReceiver HilReceiverVerdict HilRows.
From S2P Require HciTrace HilModel HilDiscovery.

(** ** Constants *)

Definition CONSOLE_READY_TIMEOUT : Z := 10000000.

Definition quoted (s : string) : string := of_chars (["034"%char] ++ chars s ++ ["034"%char]).
Definition RECEIVER_BOOT_MARKERS : list string :=
  ["BLE ready"; "settings_load() OK"; "I2S ready"; "FLPR READY"; "FLPR READY_ACK sent"; "offload init OK"; "FLPR runtime init OK";
   "Advertising as " +:+ quoted "LE Audio Receiver"]%string.
Definition UNPAIR_SUCCESS_TEXT : string := "Pairing reset complete: bonds cleared; BONDING advertising active.".

Abbreviation OPENOCD_FAILURE_RE := HilDiscovery.OPENOCD_FAILURE_RE.

(** ** Exceptions *)

Inductive detail : Type :=
| Plain (text : string) | Text (text : list ascii) | Says_lines (ls : list (list ascii)) | Says_markers (ms : list string)
| Refused (c : complaints) | Exited (status : Z) (output : list ascii) | Numbers (text : string) (ns : list Z)
| LogFailures (source : list (list ascii)) (protocol : list string) (receiver shell : list (list ascii)) (error : option string)
| Traced (errors : list HciTrace.message).

(** What a command left: its status, standard output and standard error. *)
Record output : Type := mk_output { returncode : option Z; stdout : list ascii; stderr : list ascii }.

Inductive runner_exn : Type :=
| HilRunnerError (boundary : string) (d : detail)
| RunnerCancelled (boundary : string)
| CommandCancelled (completed : output)         (** a [RunnerCancelled] *)
| ReceiverError (d : detail)
| SourceClientError | SourceClientCancelled
| SerialConsoleError | SerialConsoleCancelled   (** the second is a subclass of the first *)
| HilDiscoveryError | HilLifecycleError | QualificationError | CaptureError
| EvidenceError (name : string)
| TimeoutExpired (partial : output)
| OtherError (name : string)                    (** [OSError], [ValueError], [KeyError], ... *)
| OutOfFuel.

(** ** The world and the state *)

Inductive reply : Type := Transcript (text : list ascii) | ConsoleCancelled | ConsoleFailed.
Inductive line_answer : Type := Line (l : option (list ascii)) | LineFailed.
Inductive process : Type := Finished (o : output) | Interrupted (o : output) | TimedOut (o : output) | NotStarted.
(** The source client: it returns (with the bond count of a [hello]) or raises. *)
Inductive source_answer : Type := SourceOk (bond_count : value) | SourceFails | SourceCancels | SourceSerial | SourceOther.
(** What discovery read: a command, the udev records of each role (a node may
    have none), the fingerprint output of each role. *)
Record command_record : Type := mk_command_record { c_argv : list string; c_status : option Z; c_stdout : list ascii; c_stderr : list ascii }.
Record identity_raw : Type := mk_raw {
  nrf_probes : option command_record;
  udev : string -> list (string * option (list (string * string)));
  cmsis_dap : string -> option (list ascii);
}.
(** The identity of both roles, as far as the runner uses it. *)
Record resolution : Type := mk_resolution {
  receiver_path : string; source_path : string; receiver_probe : string; source_probe : string; r_raw : identity_raw }.
(** A discovery or a revalidation: [HilSessionError], [HilDiscoveryError] with
    what it had read, or another exception (a cancelled command, ...). *)
Inductive session_answer : Type := Resolved (r : resolution) | SessionRefused | DiscoveryRefused (raw : identity_raw) | Raises (e : runner_exn).

Record world : Type := mk_world {
  clock : nat -> Z;                       (** [deps.clock()] *)
  cancel : nat -> bool;                   (** [deps.cancel()] *)
  answers : nat -> reply;                 (** one receiver shell command *)
  rx_line : nat -> line_answer;           (** [wait_line], [next_line] *)
  faulty : nat -> bool;                   (** a console's [decode_error] or [read_error] *)
  offset : nat -> Z;                      (** [rx_offset], [bytes_received] *)
  raw_text : nat -> Z -> list ascii;      (** [raw_text_since] *)
  write_ok : nat -> bool;                 (** an evidence file can be written *)
  processes : nat -> process;             (** an external command *)
  source : nat -> source_answer;          (** a call of the source client *)
  opens : nat -> bool;                    (** [console.open] *)
  marks : nat -> bool;                    (** [console.mark_rx] *)
  ready : nat -> bool;                    (** [reader_ready] *)
  session : nat -> session_answer;        (** [revalidate_session], [resolve] *)
  artifacts_valid : nat -> bool;          (** [revalidate_artifact_set] *)
  captures : nat -> bool;                 (** [capture_session.start] *)
  cleanups : nat -> option string;        (** a cleanup callback: the error it raises *)
  others : nat -> option runner_exn;      (** a call into another module: what it raises *)
  present : nat -> bool;                  (** [os.path.isfile], [os.path.exists] *)
  same : nat -> bool;                     (** two digests or values agree *)
}.

(** How the runner names a boundary: a name, or a text with an exception in it. *)
Inductive boundary_text : Type := At (name : string) | Prefixed (prefix : string) (e : runner_exn) | Said (e : runner_exn).
Inductive failure_text : Type := SaysExn (e : runner_exn) | SaysCleanups (failures : list (string * string)).
(** [result.json] and the JUnit case, as far as they are decided by the run. *)
Record result_doc : Type := mk_result {
  outcome : string; first_failed_boundary : option boundary_text; failure_detail : option failure_text;
  cleanup_failures : list (string * string); result_capability : string }.

Inductive content : Type := Body (text : list ascii) | Document | Decided (r : result_doc).
Inductive event : Type :=
| Asked (command : string)                (** a receiver shell command was sent *)
| Ran (argv : list string) (env : option (list (string * string))) (o : output) (failed : bool)
| Wrote (name : string) (c : content)
| Registered (name : string)              (** on the cleanup stack *)
| Opened (role : string)
| Marked (role : string)
| Called (what : string)                  (** a method of another object *)
| Cleaned (name : string)                 (** a cleanup callback ran *)
| CaptureStarted.

Record runner : Type := mk_runner { trace : list event; blocks : list (list ascii); turn : nat }.
Definition fresh_runner : runner := mk_runner [] [] 0.
Definition tick (s : runner) : runner := mk_runner (trace s) (blocks s) (S (turn s)).
Definition log (e : event) (s : runner) : runner := mk_runner (trace s ++ [e]) (blocks s) (turn s).
Definition set_blocks (b : list (list ascii)) (s : runner) : runner := mk_runner (trace s) b (turn s).

Abbreviation M := (method runner runner_exn).

(** [try: m  except: handle; raise]; an exception of the handler replaces it. *)
Definition on_error {A} (m : M A) (handle : runner_exn -> M unit) : M A := fun s =>
  match m s with
  | (Ok a, s') => (Ok a, s')
  | (Err e, s') => match handle e s' with (Ok _, s'') => (Err e, s'') | (Err e', s'') => (Err e', s'') end
  end.
(** [try: m  except (...) as exc: raise f(exc) from exc] *)
Definition convert {A} (m : M A) (f : runner_exn -> runner_exn) : M A := fun s =>
  match m s with (Err e, s') => (Err (f e), s') | r => r end.
Definition note (e : event) : M unit := assign (log e).
Definition parsed {A} (o : option A) : M A := match o with Some a => mret a | None => raise (OtherError "ValueError") end.

Section steps.
Context (w : world).

Definition ask {A} (stream : world -> nat -> A) : M A := s ← self; assign tick;; mret (stream w (turn s)).

Definition _check_cancel (boundary : string) : M unit := c ← ask cancel; check (negb c) (RunnerCancelled boundary).

(** *** Files *)

(** [_write], and the JSON writers. *)
Definition put (name : string) (c : content) (e : runner_exn) : M unit :=
  ok ← ask write_ok; check ok e;; note (Wrote name c).
Definition _write (name : string) (text : list ascii) : M unit := put name (Body text) (OtherError "OSError").
Definition write_json_evidence (name : string) : M unit := put name Document (EvidenceError name).
Definition _write_jsonl (name : string) : M unit := put name Document (OtherError "OSError").

(** *** Commands *)

(** The ledger entry comes before the exception goes on. *)
Definition _command (argv : list string) (env : option (list (string * string))) : M output :=
  _check_cancel "cancelled before command";;
  p ← ask processes;
  match p with
  | Finished o => note (Ran argv env o false);; _check_cancel "cancelled after command";; mret o
  | Interrupted o => note (Ran argv env o true);; raise (CommandCancelled o)
  | TimedOut o => note (Ran argv env o true);; raise (TimeoutExpired o)
  | NotStarted => note (Ran argv env (mk_output None [] []) true);; raise (OtherError "OSError")
  end.

(** [_command_output] of a result or an exception. *)
Definition _command_output (e : runner_exn) : output :=
  match e with CommandCancelled o => o | TimeoutExpired o => mk_output None (stdout o) (stderr o) | _ => mk_output None [] [] end.
Definition _write_flash_log (name : string) (o : output) : M unit := _write name (stdout o ++ [newline] ++ stderr o).

(** *** Console health *)

Definition _check_console_health (role : string) : M unit :=
  bad ← ask faulty; check (negb bad) (HilRunnerError "serial" (Plain role)).

Fixpoint wait_line_loop (fuel : nat) (deadline : Z) (boundary : string) : M (option (list ascii)) :=
  match fuel with
  | O => raise OutOfFuel
  | S fuel =>
      _check_cancel boundary;;
      _check_console_health "receiver";;
      now ← ask clock;
      if deadline - now <=? 0 then mret None else
        l ← ask rx_line;
        match l with
        | LineFailed => raise SerialConsoleError
        | Line l =>
            _check_console_health "receiver";;
            match l with Some text => mret (Some text) | None => wait_line_loop fuel deadline boundary end
        end
  end.
Definition _wait_console_line (fuel : nat) (timeout : Z) (boundary : string) : M (option (list ascii)) :=
  now ← ask clock; wait_line_loop fuel (now + timeout) boundary.

(** *** Receiver commands *)

Definition _checked_receiver_command (command : string) : M (list ascii) :=
  note (Asked command);;
  r ← ask answers;
  match r with
  | ConsoleCancelled => raise (RunnerCancelled "console")
  | ConsoleFailed => raise (ReceiverError (Plain "console"))
  | Transcript text =>
      match scan_shell_errors text with
      | [] => mret text
      | errors => raise (ReceiverError (Says_lines errors))
      end
  end.

(** *** Source client calls *)

Definition source_call (what : string) : M value :=
  note (Called what);;
  r ← ask source;
  match r with
  | SourceOk v => mret v
  | SourceFails => raise SourceClientError
  | SourceCancels => raise SourceClientCancelled
  | SourceSerial => raise SerialConsoleError
  | SourceOther => raise (OtherError "source")
  end.

(** *** The source port is free *)

Definition _step_preflight_tty (tty : string) : M unit :=
  o ← _command ["lsof"; "--"; tty]%string None;
  check (negb (bool_decide (returncode o = Some 0))) (HilRunnerError "preflight tty" (Text (stdout o)));;
  check (bool_decide (returncode o = Some 1)) (HilRunnerError "preflight tty" (Plain "lsof failed")).

(** *** Sessions *)

Definition lines_text (ls : list (list ascii)) : list ascii := Client.join_lines ls ++ [newline].

Definition _raw_text (record : option command_record) : list ascii :=
  match record with
  | None => []
  | Some r =>
      let part (title : string) (text : list ascii) := match text with [] => [] | _ => [chars title; text] end in
      lines_text ([chars ("argv: " +:+ String.concat " " (c_argv r));
                   chars ("status: " +:+ match c_status r with Some n => dec n | None => "None" end)]
                  ++ part "-- stdout --" (c_stdout r) ++ part "-- stderr --" (c_stderr r))
  end.
Definition udev_lines (records : list (string * option (list (string * string)))) : list (list ascii) :=
  concat ((fun node =>
    chars ("## " +:+ node) ::
    match default None (dict_get node records) with
    | None => [chars "(no udev record)"]
    | Some props => (fun key => chars (key +:+ "=" +:+ default EmptyString (dict_get key props))) <$> sorted_strings (fst <$> props)
    end) <$> sorted_strings (fst <$> records)).
Definition _write_identity_raw (raw : identity_raw) : M unit :=
  write_json_evidence "identity.json";;
  _write "nrf-probes.txt" (_raw_text (nrf_probes raw));;
  _write "receiver-udev.txt" (lines_text (udev_lines (udev raw "receiver")));;
  _write "source-udev.txt" (lines_text (udev_lines (udev raw "source")));;
  _write "receiver-cmsis-dap.txt" (default [] (cmsis_dap raw "receiver"));;
  _write "source-cmsis-dap.txt" (default [] (cmsis_dap raw "source")).

(** A revalidation: a failed one keeps what discovery had read, a successful
    one is retained before it is used. *)
Definition _step_session_revalidate (before : string) : M resolution :=
  let refused := HilRunnerError ("session revalidate: " +:+ before) (Plain "revalidation") in
  r ← ask session;
  match r with
  | SessionRefused => raise refused
  | DiscoveryRefused raw => _write_identity_raw raw;; raise refused
  | Raises e => raise e
  | Resolved r => _write_jsonl "session-revalidations.jsonl";; mret r
  end.

(** The paths of the consoles that are open. *)
Definition _require_session_console_paths (r : resolution) (before : string) (receiver source : option string) : M unit :=
  let unchanged (role : string) (open : option string) (current : string) :=
    check (match open with None => true | Some p => String.eqb current p end)
          (HilRunnerError ("session revalidate: " +:+ before) (Plain (role +:+ " tty changed after open"))) in
  unchanged "receiver" receiver (receiver_path r);;
  unchanged "source" source (source_path r).

(** *** Opening both consoles *)

Definition open_console (role : string) : M unit :=
  ok ← ask opens; check ok (HilRunnerError "open consoles" (Plain role));; note (Opened role).

Fixpoint ready_loop (fuel : nat) (deadline : Z) : M unit :=
  match fuel with
  | O => raise OutOfFuel
  | S fuel =>
      r ← ask ready;
      s ← (if r : bool then ask ready else mret false);
      if s : bool then mret tt else
        _check_cancel "cancelled opening consoles";;
        now ← ask clock;
        check (negb (deadline <=? now)) (HilRunnerError "open consoles" (Plain "reader threads not ready"));;
        ready_loop fuel deadline
  end.

(** The paths both consoles were opened with. *)
Definition _step_open_consoles (fuel : nat) (r : resolution) (session_bound : bool) : M (string * string) :=
  paths ← (if session_bound then
             r1 ← _step_session_revalidate "receiver serial open";
             note (Registered "close receiver console");;
             open_console "receiver";;
             r2 ← _step_session_revalidate "source serial open";
             _require_session_console_paths r2 "source serial open" (Some (receiver_path r1)) None;;
             _step_preflight_tty (source_path r2);;
             note (Registered "close source console");;
             open_console "source";;
             mret (receiver_path r1, source_path r2)
           else
             note (Registered "close receiver console");;
             note (Registered "close source console");;
             open_console "receiver";;
             open_console "source";;
             mret (receiver_path r, source_path r));
  now ← ask clock;
  ready_loop fuel (now + CONSOLE_READY_TIMEOUT);;
  mret paths.

(** *** Flashing *)

Definition mark_rx (role : string) : M unit :=
  ok ← ask marks; check ok (HilRunnerError "mark boot" (Plain role));; note (Marked role).

Definition flash_failures (o : output) : list (list ascii) :=
  List.filter (fun line => is_match (search OPENOCD_FAILURE_RE line)) (splitlines (stdout o ++ [newline] ++ stderr o)).
Definition _check_flash (boundary : string) (o : output) : M unit :=
  check (bool_decide (returncode o = Some 0))
        (HilRunnerError boundary (Exited (default (-1) (returncode o)) (stdout o ++ [newline] ++ stderr o)));;
  check (bool_decide (flash_failures o = [])) (HilRunnerError boundary (Says_lines (flash_failures o))).

(** The image paths of an artifact set; a role may have no image. *)
Record image_paths : Type := mk_images { source_cpuapp : option string; receiver_cpuapp : option string; receiver_flpr : option string }.
Definition image (o : option string) (boundary : string) : M string :=
  match o with Some p => mret p | None => raise (HilRunnerError boundary (Plain "image role")) end.

(** A fresh identity when the row is bound to a session. *)
Definition flash_resolution (before : string) (session_bound : bool) (paths : string * string) (r : resolution) : M resolution :=
  if session_bound then
    r ← _step_session_revalidate before;
    _require_session_console_paths r before (Some paths.1) (Some paths.2);;
    mret r
  else mret r.

Definition revalidated (boundary : string) : M unit :=
  ok ← ask artifacts_valid; check ok (HilRunnerError boundary (Plain "artifacts changed")).

Definition source_env (artifacts : option image_paths) (r : resolution) : M (list (string * string)) :=
  let probe := ("FW_HIL_SOURCE_NRF54L15_PROBE_SERIAL"%string, source_probe r) in
  match artifacts with
  | None => mret [probe]
  | Some a =>
      revalidated "flash source";;
      hex ← image (source_cpuapp a) "flash source";
      mret [probe; ("FW_HIL_SOURCE_CPUAPP_HEX"%string, hex)]
  end.
Definition receiver_env (artifacts : option image_paths) (r : resolution) : M (list (string * string)) :=
  let probe := ("FW_NRF54L15_PROBE_SERIAL"%string, receiver_probe r) in
  match artifacts with
  | None => mret [probe]
  | Some a =>
      revalidated "flash receiver";;
      cpuapp ← image (receiver_cpuapp a) "flash receiver";
      flpr ← image (receiver_flpr a) "flash receiver";
      mret [probe; ("FW_NRF54L15_CPUAPP_HEX"%string, cpuapp); ("FW_NRF54L15_FLPR_HEX"%string, flpr)]
  end.

Definition flash_source (artifacts : option image_paths) (session_bound : bool) (paths : string * string) (r : resolution) (board : string) : M resolution :=
  mark_rx "source";;
  r ← flash_resolution "source flash" session_bound paths r;
  check (String.eqb board HilModel.NRF54L15_CPUAPP_BOARD) (HilRunnerError "flash source" (Plain "unsupported source board"));;
  env ← source_env artifacts r;
  o ← on_error (_command ["fw-flash-hil-source-54l15"]%string (Some env)) (fun e => _write_flash_log "source-flash.log" (_command_output e));
  _write_flash_log "source-flash.log" o;;
  _check_flash "flash source" o;;
  mret r.

(** Here the handler covers the identity and the artifacts too. *)
Definition flash_receiver (artifacts : option image_paths) (session_bound : bool) (paths : string * string) (r : resolution) : M unit :=
  mark_rx "receiver";;
  o ← on_error
        (r ← flash_resolution "receiver flash" session_bound paths r;
         env ← receiver_env artifacts r;
         _command ["fw-flash-54l15"]%string (Some env))
        (fun e => _write_flash_log "receiver-flash.log" (_command_output e));
  _write_flash_log "receiver-flash.log" o;;
  _check_flash "flash receiver" o.

Definition _step_flash (artifacts : option image_paths) (session_bound : bool) (paths : string * string) (r : resolution) (board : string) : M unit :=
  r ← flash_source artifacts session_bound paths r board;
  flash_receiver artifacts session_bound paths r.

(** *** Boot *)

Definition _receiver_boot_marker_matches (marker : string) (line : list ascii) : bool :=
  let line := strip_vt100 line in
  if String.eqb marker "FLPR READY" then contains_chars (chars "FLPR READY (") line else contains_chars (chars marker) line.

Definition still_pending (line : list ascii) (pending : list string) : list string :=
  List.filter (fun m => negb (_receiver_boot_marker_matches m line)) pending.
Fixpoint boot_loop (fuel : nat) (deadline : Z) (pending : list string) : M unit :=
  match pending with
  | [] => mret tt
  | _ =>
      match fuel with
      | O => raise OutOfFuel
      | S fuel =>
          _check_cancel "cancelled during boot";;
          _check_console_health "receiver";;
          now ← ask clock;
          check (negb (deadline - now <=? 0)) (HilRunnerError "boot" (Says_markers pending));;
          l ← ask rx_line;
          match l with
          | LineFailed => raise SerialConsoleError
          | Line l =>
              _check_console_health "receiver";;
              boot_loop fuel deadline
                (match l with None => pending | Some line => still_pending line pending end)
          end
      end
  end.

(** [except (SourceClientError, SerialConsoleError)] *)
Definition source_boundary (boundary : string) (e : runner_exn) : runner_exn :=
  match e with
  | SourceClientError => HilRunnerError boundary (Plain "source")
  | SerialConsoleError | SerialConsoleCancelled => HilRunnerError boundary (Plain "serial")
  | e => e
  end.
(** [except (ReceiverError, SourceClientError, SerialConsoleError)] *)
Definition row_boundary (boundary : string) (e : runner_exn) : runner_exn :=
  match e with ReceiverError d => HilRunnerError boundary d | e => source_boundary boundary e end.

Definition _step_boot (fuel : nat) (boot_timeout : Z) : M value :=
  now ← ask clock;
  boot_loop fuel (now + boot_timeout) RECEIVER_BOOT_MARKERS;;
  convert (source_call "hello") (source_boundary "boot").

(** *** Clean state *)

Definition receiver_bonds : M (option Z) :=
  t ← _checked_receiver_command "bt bonds"; parsed (parse_bond_count t).
Definition bonds_are (n : Z) (found : option Z) : M unit :=
  check (bool_decide (found = Some n)) (ReceiverError (Plain "receiver bond count")).
(** [hello.bond_count != n] *)
Definition source_bonds_are (n : Z) : M unit :=
  v ← source_call "hello"; check (eq_z v n) (ReceiverError (Plain "source bond count")).

Definition identity : Type := option (list ascii) * option (list ascii).
Definition read_identity (missing : string) : M identity :=
  t ← _checked_receiver_command "bt identity";
  match parse_identity t with Some i => mret i | None => raise (ReceiverError (Plain missing)) end.

Definition clean_bonds (row : RowSpec) : M unit :=
  if String.eqb (state row) "fresh" then
    unpair ← _checked_receiver_command "bt unpair";
    check (contains_chars (chars UNPAIR_SUCCESS_TEXT) unpair) (ReceiverError (Plain "bt unpair success text missing"));;
    n ← receiver_bonds; bonds_are 0 n;;
    source_call "idle";; source_call "unpair";;
    source_bonds_are 0
  else if String.eqb (state row) "preserved" then
    n ← receiver_bonds; bonds_are 1 n;;
    source_bonds_are 1
  else raise (ReceiverError (Plain "unsupported row state")).

Definition _step_clean_state (row : RowSpec) : M identity :=
  convert
    (i ← read_identity "bt identity did not return an identity line";
     clean_bonds row;;
     again ← read_identity "receiver identity changed after unpair";
     check (bool_decide (again.1 = i.1)) (ReceiverError (Plain "receiver identity changed after unpair"));;
     mret i)
    (row_boundary "clean state").
End steps.

(** ** Inversion of the primitive steps *)

Section inversion.
Context (w : world).

Lemma ask_Ok {A} (f : world -> nat -> A) s a s' : ask w f s = (Ok a, s') -> a = f w (turn s) /\ s' = tick s.
Proof. by intros [= <- <-]. Qed.
Lemma note_Ok e u s s' : note e s = (Ok u, s') -> s' = log e s.
Proof. by intros [= <-]. Qed.
Lemma cancel_Ok b u s s' : _check_cancel w b s = (Ok u, s') -> cancel w (turn s) = false /\ s' = tick s.
Proof. unfold _check_cancel. intros H. method_inv H. apply ask_Ok in Hm as [-> ->]. apply negb_true_iff in H. done. Qed.
Lemma health_Ok r u s s' : _check_console_health w r s = (Ok u, s') -> faulty w (turn s) = false /\ s' = tick s.
Proof. unfold _check_console_health. intros H. method_inv H. apply ask_Ok in Hm as [-> ->]. apply negb_true_iff in H. done. Qed.
Lemma put_Ok name c e u s s' : put w name c e s = (Ok u, s') -> s' = log (Wrote name c) (tick s).
Proof. unfold put. intros H. method_inv H. apply ask_Ok in Hm as [_ ->]. by apply note_Ok in H. Qed.
Lemma parsed_Ok {A} (o : option A) a s s' : parsed o s = (Ok a, s') -> o = Some a /\ s' = s.
Proof. unfold parsed. destruct o; [by intros [= -> ->] | done]. Qed.
Lemma convert_Ok {A} (m : M A) f a s s' : convert m f s = (Ok a, s') -> m s = (Ok a, s').
Proof. unfold convert. by destruct (m s) as [[b|e] s1]. Qed.
Lemma on_error_Ok {A} (m : M A) h a s s' : on_error m h s = (Ok a, s') -> m s = (Ok a, s').
Proof. unfold on_error. destruct (m s) as [[b|e] s1]; [done|]. by destruct (h e s1) as [[?|?] ?]. Qed.
Lemma command_Ok argv env o s s' : _command w argv env s = (Ok o, s') ->
  processes w (S (turn s)) = Finished o /\ cancel w (turn s) = false /\ cancel w (2 + turn s) = false
  /\ s' = tick (log (Ran argv env o false) (tick (tick s))).
Proof.
  unfold _command. intros H. method_inv H. apply cancel_Ok in Hm as [Hc ->]. apply ask_Ok in Hm0 as [-> ->].
  destruct (processes w _) as [out|out|out|] eqn:Hp; method_inv H. apply note_Ok in Hm as ->. apply cancel_Ok in Hm0 as [Hc' ->]. done.
Qed.
Lemma receiver_command_Ok c t s s' : _checked_receiver_command w c s = (Ok t, s') ->
  answers w (turn s) = Transcript t /\ scan_shell_errors t = [] /\ s' = tick (log (Asked c) s).
Proof.
  unfold _checked_receiver_command. intros H. method_inv H. apply note_Ok in Hm as ->. apply ask_Ok in Hm0 as [-> ->]. simpl in H.
  destruct (answers w (turn s)) as [text| |]; [|done..]. destruct (scan_shell_errors text) eqn:He; [|done]. method_inv H. done.
Qed.
Lemma source_call_Ok what v s s' : source_call w what s = (Ok v, s') -> source w (turn s) = SourceOk v /\ s' = tick (log (Called what) s).
Proof.
  unfold source_call. intros H. method_inv H. apply note_Ok in Hm as ->. apply ask_Ok in Hm0 as [-> ->]. simpl in H.
  destruct (source w (turn s)); method_inv H. done.
Qed.
End inversion.

(** [steps_inv]: every returning run among the hypotheses, down to its primitive steps. *)
Ltac steps_inv :=
  repeat (match goal with
  | H : (_ ≫= _) _ = (Ok _, _) |- _ => method_inv H
  | H : ask _ _ _ = (Ok _, _) |- _ => apply ask_Ok in H as [? ?]
  | H : note _ _ = (Ok _, _) |- _ => apply note_Ok in H
  | H : _check_cancel _ _ _ = (Ok _, _) |- _ => apply cancel_Ok in H as [? ?]
  | H : _check_console_health _ _ _ = (Ok _, _) |- _ => apply health_Ok in H as [? ?]
  | H : put _ _ _ _ _ = (Ok _, _) |- _ => apply put_Ok in H
  | H : _write _ _ _ _ = (Ok _, _) |- _ => apply put_Ok in H
  | H : write_json_evidence _ _ _ = (Ok _, _) |- _ => apply put_Ok in H
  | H : _write_jsonl _ _ _ = (Ok _, _) |- _ => apply put_Ok in H
  | H : _write_flash_log _ _ _ _ = (Ok _, _) |- _ => apply put_Ok in H
  | H : parsed _ _ = (Ok _, _) |- _ => apply parsed_Ok in H as [? ?]
  | H : convert _ _ _ = (Ok _, _) |- _ => apply convert_Ok in H
  | H : on_error _ _ _ = (Ok _, _) |- _ => apply on_error_Ok in H
  | H : _command _ _ _ _ = (Ok _, _) |- _ => apply command_Ok in H as (? & ? & ? & ?)
  | H : _checked_receiver_command _ _ _ = (Ok _, _) |- _ => apply receiver_command_Ok in H as (? & ? & ?)
  | H : source_call _ _ _ = (Ok _, _) |- _ => apply source_call_Ok in H as [? ?]
  | H : mret _ _ = (Ok _, _) |- _ => method_inv H
  | H : raise _ _ = (Ok _, _) |- _ => by apply raise_run_Ok in H
  | H : check _ _ _ = (Ok _, _) |- _ => method_inv H
  end; subst).

(** A line matching [m] was read between two turns. *)
Definition read_between (w : world) (from to : nat) (P : list ascii -> Prop) : Prop :=
  exists n l, (from <= n < to)%nat /\ rx_line w n = Line (Some l) /\ P l.

Lemma read_between_mono w a b a' b' P : (a' <= a)%nat -> (b <= b')%nat -> read_between w a b P -> read_between w a' b' P.
Proof. intros Ha Hb (n & l & Hn & H). exists n, l. split; [lia | done]. Qed.

Lemma boot_loop_reads w fuel deadline pending u s s' : boot_loop w fuel deadline pending s = (Ok u, s') ->
  (turn s <= turn s')%nat /\ trace s' = trace s
  /\ forall m, m ∈ pending -> read_between w (turn s) (turn s') (fun l => _receiver_boot_marker_matches m l = true).
Proof.
  revert pending s. induction fuel as [|fuel IH]; intros [|m0 pending] s H; cbn [boot_loop] in H; steps_inv;
    try (split_and!; [done | done | by intros m ?%elem_of_nil]).
  cbn [turn tick] in *. destruct (rx_line w _) as [l|] eqn:Hl; [|done]. steps_inv.
  match goal with H : boot_loop _ _ _ _ _ = _ |- _ => apply IH in H as (Ht & Htr & Hr) end. cbn [turn tick trace] in *.
  split; [lia|]. split; [done|]. intros m Hm.
  destruct l as [line|]; [|eapply read_between_mono; [| |by apply Hr]; lia].
  destruct (_receiver_boot_marker_matches m line) eqn:Hmatch.
  - exists (S (S (S (turn s)))), line. split; [lia | done].
  - eapply read_between_mono; [| |apply Hr]; [lia | done|]. apply list_elem_of_In, filter_In. split; [by apply list_elem_of_In | by rewrite Hmatch].
Qed.

(** ** A loop that reads the clock ends *)

(** From turn [n] on the clock has reached [deadline]. *)
Definition due (w : world) (deadline : Z) (n : nat) : Prop := forall k, (n <= k)%nat -> deadline <= clock w k.

Definition ends {A} (m : M A) (s : runner) : Prop := wp m (fun _ s' => (turn s <= turn s')%nat) (fun e _ => e <> OutOfFuel) s.

Lemma wp_ask {A} w (f : world -> nat -> A) Q X s : wp (ask w f) Q X s <-> Q (f w (turn s)) (tick s).
Proof. done. Qed.
Lemma wp_note e Q X s : wp (note e) Q X s <-> Q tt (log e s).
Proof. done. Qed.
Lemma wp_check_cancel w b Q X s : wp (_check_cancel w b) Q X s <-> (if cancel w (turn s) then X (RunnerCancelled b) (tick s) else Q tt (tick s)).
Proof. unfold _check_cancel. rewrite wp_bind, wp_ask, wp_check. by destruct (cancel w (turn s)). Qed.
Lemma wp_health w r Q X s : wp (_check_console_health w r) Q X s <->
  (if faulty w (turn s) then X (HilRunnerError "serial" (Plain r)) (tick s) else Q tt (tick s)).
Proof. unfold _check_console_health. rewrite wp_bind, wp_ask, wp_check. by destruct (faulty w (turn s)). Qed.
Lemma wp_receiver_command w c Q X s : wp (_checked_receiver_command w c) Q X s <->
  match answers w (turn s) with
  | ConsoleCancelled => X (RunnerCancelled "console") (tick (log (Asked c) s))
  | ConsoleFailed => X (ReceiverError (Plain "console")) (tick (log (Asked c) s))
  | Transcript t =>
      match scan_shell_errors t with [] => Q t (tick (log (Asked c) s)) | errors => X (ReceiverError (Says_lines errors)) (tick (log (Asked c) s)) end
  end.
Proof.
  unfold _checked_receiver_command. rewrite wp_bind, wp_note, wp_bind, wp_ask. simpl.
  destruct (answers w (turn s)) as [t| |]; [|done..]. by destruct (scan_shell_errors t).
Qed.

Lemma wp_convert {A} (m : M A) f Q X s : wp (convert m f) Q X s <-> wp m Q (fun e => X (f e)) s.
Proof. unfold wp, convert. by destruct (m s) as [[a|e] s1]. Qed.
Definition source_exn (a : source_answer) : option runner_exn :=
  match a with SourceOk _ => None | SourceFails => Some SourceClientError | SourceCancels => Some SourceClientCancelled
  | SourceSerial => Some SerialConsoleError | SourceOther => Some (OtherError "source") end.
Lemma wp_source_call w what Q X s : wp (source_call w what) Q X s <->
  match source w (turn s) with
  | SourceOk v => Q v (tick (log (Called what) s))
  | a => match source_exn a with Some e => X e (tick (log (Called what) s)) | None => True end
  end.
Proof. unfold source_call. rewrite wp_bind, wp_note, wp_bind, wp_ask. simpl. by destruct (source w (turn s)). Qed.

Lemma ends_boot_loop w deadline n fuel pending s : due w deadline n -> (0 < fuel)%nat -> (n < turn s + fuel)%nat ->
  ends (boot_loop w fuel deadline pending) s.
Proof.
  intros Hdue. unfold ends. revert pending s. induction fuel as [|fuel IH]; intros [|m pending] s H0 Hf; cbn [boot_loop]; try (apply wp_ret; lia).
  { lia. }
  rewrite wp_bind, wp_check_cancel. destruct (cancel w _); [done|]. rewrite wp_bind, wp_health. destruct (faulty w _); [done|].
  rewrite wp_bind, wp_ask, wp_bind, wp_check. cbn [turn tick]. destruct (_ <=? 0) eqn:Hlate; [done|]. cbn [negb]. apply Z.leb_gt in Hlate.
  assert (S (S (turn s)) < n)%nat as Hn by (specialize (Hdue (S (S (turn s)))); lia).
  rewrite wp_bind, wp_ask. cbn [turn tick].
  destruct (rx_line w _) as [l|]; [|done]. rewrite wp_bind, wp_health. destruct (faulty w _); [done|].
  eapply wp_mono; [apply IH; cbn [turn tick]; lia | cbn [turn tick]; intros; lia | done].
Qed.

(** ** Theorems *)

Module RunnerStepTheorems.

Lemma boot_reads_markers w fuel boot_timeout v s s' :
  _step_boot w fuel boot_timeout s = (Ok v, s') ->
  trace s' = trace s ++ [Called "hello"] /\
  forall m, m ∈ RECEIVER_BOOT_MARKERS -> read_between w (turn s) (turn s') (fun l => _receiver_boot_marker_matches m l = true).
Proof.
  unfold _step_boot. intros H. steps_inv.
  match goal with H : boot_loop _ _ _ _ _ = _ |- _ => apply boot_loop_reads in H as (Ht & Htr & Hr) end. cbn [trace turn tick log] in *.
  split; [by rewrite Htr|]. intros m Hm. eapply read_between_mono; [| |by apply Hr]; simpl; lia.
Qed.

(** A booted receiver printed every marker after the consoles were marked:
    [_step_boot] returns only when each of the eight markers was matched by a
    line read in its own window, and asks the source for its hello last. *)
Theorem boot_saw_every_marker w fuel boot_timeout v s s' :
  _step_boot w fuel boot_timeout s = (Ok v, s') ->
  trace s' = trace s ++ [Called "hello"] /\
  forall m, m ∈ RECEIVER_BOOT_MARKERS -> read_between w (turn s) (turn s') (fun l => _receiver_boot_marker_matches m l = true).
Proof. apply boot_reads_markers. Qed.

(** The wait is bounded by the clock alone: once it has passed the deadline
    from turn [n] on, [n] rounds of fuel are enough for any console. *)
Theorem boot_ends w n fuel boot_timeout s :
  due w (clock w (turn s) + boot_timeout) n -> (0 < fuel)%nat -> (n < turn s + fuel)%nat ->
  forall e s', _step_boot w fuel boot_timeout s = (Err e, s') -> e <> OutOfFuel.
Proof.
  intros Hdue H0 Hn e s' H. unfold _step_boot in H.
  assert (wp (now ← ask w clock; boot_loop w fuel (now + boot_timeout) RECEIVER_BOOT_MARKERS;; convert (source_call w "hello") (source_boundary "boot"))
    (fun _ _ => True) (fun e _ => e <> OutOfFuel) s) as Hwp.
  { rewrite wp_bind, wp_ask, wp_bind. eapply wp_mono; [apply ends_boot_loop with n; [exact Hdue | done | simpl; lia] | | done].
    intros _ s1 _. rewrite wp_convert, wp_source_call. by destruct (source w (turn s1)). }
  by eapply wp_Err in Hwp.
Qed.

(** What one flash leaves on the trace. *)
Definition revalidations (session_bound : bool) : list event :=
  if session_bound then [Wrote "session-revalidations.jsonl" Document] else [].
Definition flashed (role : string) (session_bound : bool) (helper : string) (env : list (string * string)) (o : output) (log_file : string) : list event :=
  [Marked role] ++ revalidations session_bound ++ [Ran [helper] (Some env) o false; Wrote log_file (Body (stdout o ++ [newline] ++ stderr o))].
Definition flash_ok (o : output) : Prop := returncode o = Some 0 /\ flash_failures o = [].

(** Resolution in force at a flash, bound to the open consoles. *)
Definition bound_to (session_bound : bool) (paths : string * string) (r r' : resolution) : Prop :=
  if session_bound then receiver_path r' = paths.1 /\ source_path r' = paths.2 else r' = r.

Lemma revalidate_Ok w before r s s' : _step_session_revalidate w before s = (Ok r, s') ->
  session w (turn s) = Resolved r /\ s' = log (Wrote "session-revalidations.jsonl" Document) (tick (tick s)).
Proof.
  unfold _step_session_revalidate. intros H. steps_inv. destruct (session w (turn s)) as [r1| |raw|e]; steps_inv. done.
Qed.
Lemma flash_resolution_Ok w before sb paths r r' s s' : flash_resolution w before sb paths r s = (Ok r', s') ->
  bound_to sb paths r r' /\ trace s' = trace s ++ revalidations sb.
Proof.
  unfold flash_resolution, bound_to, revalidations. destruct sb; intros H.
  - unfold _require_session_console_paths in H. method_inv H. apply revalidate_Ok in Hm as [_ ->]. steps_inv. bool_to_prop. apply String.eqb_eq in Hm1, Hm0. done.
  - steps_inv. by rewrite app_nil_r.
Qed.

Lemma source_env_Ok w a r env s s' : source_env w a r s = (Ok env, s') ->
  head env = Some ("FW_HIL_SOURCE_NRF54L15_PROBE_SERIAL"%string, source_probe r) /\ trace s' = trace s.
Proof.
  unfold source_env, revalidated, image. intros H. destruct a as [a|]; steps_inv; [|done]. by destruct (source_cpuapp a); steps_inv.
Qed.
Lemma receiver_env_Ok w a r env s s' : receiver_env w a r s = (Ok env, s') ->
  head env = Some ("FW_NRF54L15_PROBE_SERIAL"%string, receiver_probe r) /\ trace s' = trace s.
Proof.
  unfold receiver_env, revalidated, image. intros H. destruct a as [a|]; steps_inv; [|done].
  by destruct (receiver_cpuapp a), (receiver_flpr a); steps_inv.
Qed.
Lemma check_flash_Ok b o u s s' : _check_flash b o s = (Ok u, s') -> flash_ok o /\ s' = s.
Proof. unfold _check_flash, flash_ok. intros H. steps_inv. by bool_to_prop. Qed.

Lemma flash_ordered w artifacts sb paths r board u s s' :
  _step_flash w artifacts sb paths r board s = (Ok u, s') ->
  board = HilModel.NRF54L15_CPUAPP_BOARD /\
  exists r1 r2 env1 env2 o1 o2,
    trace s' = trace s ++ flashed "source" sb "fw-flash-hil-source-54l15" env1 o1 "source-flash.log"
                       ++ flashed "receiver" sb "fw-flash-54l15" env2 o2 "receiver-flash.log"
    /\ bound_to sb paths r r1 /\ bound_to sb paths r1 r2
    /\ head env1 = Some ("FW_HIL_SOURCE_NRF54L15_PROBE_SERIAL"%string, source_probe r1)
    /\ head env2 = Some ("FW_NRF54L15_PROBE_SERIAL"%string, receiver_probe r2)
    /\ flash_ok o1 /\ flash_ok o2.
Proof.
  unfold _step_flash, flash_source, flash_receiver, mark_rx. intros H. steps_inv.
  repeat match goal with
  | H : flash_resolution _ _ _ _ _ _ = _ |- _ => apply flash_resolution_Ok in H as [? ?]
  | H : source_env _ _ _ _ = _ |- _ => apply source_env_Ok in H as [? ?]
  | H : receiver_env _ _ _ _ = _ |- _ => apply receiver_env_Ok in H as [? ?]
  | H : _check_flash _ _ _ = _ |- _ => apply check_flash_Ok in H as [? ?]
  end. subst. split; [by apply String.eqb_eq|].
  match goal with
  | H : bound_to _ _ r ?r1, H' : bound_to _ _ ?r1 ?r2 |- context [Ran ["fw-flash-54l15"%string] (Some ?env2) ?o2 _] =>
      match goal with _ : context [Ran ["fw-flash-hil-source-54l15"%string] (Some ?env1) ?o1 _] |- _ => exists r1, r2, env1, env2, o1, o2 end
  end.
  cbn [trace log tick] in *. split; [|by split_and!].
  repeat match goal with H : trace _ = _ |- _ => rewrite H; clear H end. unfold flashed. by rewrite <- !app_assoc.
Qed.

(** C23. Both boards are flashed source first, each console marked before its own
    helper, each helper run with its role's probe under the identity of the
    open consoles, its log kept, and its success read from status 0 and an
    output without an OpenOCD failure line. *)
Theorem flash_in_order w artifacts sb paths r board u s s' :
  _step_flash w artifacts sb paths r board s = (Ok u, s') ->
  board = HilModel.NRF54L15_CPUAPP_BOARD /\
  exists r1 r2 env1 env2 o1 o2,
    trace s' = trace s ++ flashed "source" sb "fw-flash-hil-source-54l15" env1 o1 "source-flash.log"
                       ++ flashed "receiver" sb "fw-flash-54l15" env2 o2 "receiver-flash.log"
    /\ bound_to sb paths r r1 /\ bound_to sb paths r1 r2
    /\ head env1 = Some ("FW_HIL_SOURCE_NRF54L15_PROBE_SERIAL"%string, source_probe r1)
    /\ head env2 = Some ("FW_NRF54L15_PROBE_SERIAL"%string, receiver_probe r2)
    /\ flash_ok o1 /\ flash_ok o2.
Proof. apply flash_ordered. Qed.

(** What the clean state asks for, and in which order. *)
Definition clean_trace (row : RowSpec) : list event :=
  [Asked "bt identity"] ++
  (if String.eqb (state row) "fresh" then [Asked "bt unpair"; Asked "bt bonds"; Called "idle"; Called "unpair"; Called "hello"]
   else [Asked "bt bonds"; Called "hello"]) ++ [Asked "bt identity"].
(** Both ends hold [n] bonds, as one reply and one hello said between two turns. *)
Definition bonds_seen (w : world) (n : Z) (from to : nat) : Prop :=
  exists i j t v, (from <= i < j)%nat /\ (j < to)%nat /\ answers w i = Transcript t /\ parse_bond_count t = Some (Some n)
    /\ source w j = SourceOk v /\ eq_z v n = true.

Lemma read_identity_Ok w missing i s s' : read_identity w missing s = (Ok i, s') ->
  s' = tick (log (Asked "bt identity") s) /\ exists t, answers w (turn s) = Transcript t /\ parse_identity t = Some i.
Proof. unfold read_identity. intros H. steps_inv. destruct (parse_identity _) eqn:?; [|done]. steps_inv. eauto. Qed.

Lemma clean_state_seen w row i s s' :
  _step_clean_state w row s = (Ok i, s') ->
  trace s' = trace s ++ clean_trace row
  /\ (state row = "fresh"%string /\ bonds_seen w 0 (turn s) (turn s') \/ state row = "preserved"%string /\ bonds_seen w 1 (turn s) (turn s'))
  /\ (exists t, answers w (turn s) = Transcript t /\ parse_identity t = Some i)
  /\ exists n t again, (turn s < n < turn s')%nat /\ answers w n = Transcript t /\ parse_identity t = Some again /\ again.1 = i.1.
Proof.
  unfold _step_clean_state, clean_bonds, clean_trace, receiver_bonds, bonds_are, source_bonds_are. intros H. steps_inv.
  match goal with H : read_identity _ _ _ = _ |- _ => apply read_identity_Ok in H as [-> (again & Ha & Hpa)] end.
  match goal with H : read_identity _ _ _ = _ |- _ => apply read_identity_Ok in H as [-> Hfirst] end.
  destruct (String.eqb (state row) "fresh") eqn:Hf; [|destruct (String.eqb (state row) "preserved") eqn:Hp; [|done]];
    steps_inv; bool_to_prop; subst; cbn [trace turn log tick] in *; rewrite <- ?app_assoc;
    (split; [done|]; split; [|split; [exact Hfirst | do 3 eexists; split; [|eauto]; lia]]); [left | right];
    (split; [by apply String.eqb_eq|]; unfold bonds_seen; do 4 eexists; split; [|split; [|eauto]]; lia).
Qed.

(** A clean state is one both ends confirm: a fresh row unpairs both and reads
    zero bonds from both, a preserved row reads one from both, any other state
    is refused; the receiver's identity is the same before and after. *)
Theorem clean_state_exact w row i s s' :
  _step_clean_state w row s = (Ok i, s') ->
  trace s' = trace s ++ clean_trace row
  /\ (state row = "fresh"%string /\ bonds_seen w 0 (turn s) (turn s') \/ state row = "preserved"%string /\ bonds_seen w 1 (turn s) (turn s'))
  /\ (exists t, answers w (turn s) = Transcript t /\ parse_identity t = Some i)
  /\ exists n t again, (turn s < n < turn s')%nat /\ answers w n = Transcript t /\ parse_identity t = Some again /\ again.1 = i.1.
Proof. apply clean_state_seen. Qed.
End RunnerStepTheorems.

Module RunnerStepWitnesses.
Import RunnerStepTheorems.

Definition step_world (lines : nat -> line_answer) (replies : nat -> reply) (runs : nat -> process) (cancelled : nat -> bool) : world :=
  mk_world (fun n => 1000000 * Z.of_nat n) cancelled replies lines (fun _ => false) (fun _ => 0) (fun _ _ => []) (fun _ => true) runs
    (fun _ => SourceOk (IntV 0)) (fun _ => true) (fun _ => true) (fun _ => true) (fun _ => SessionRefused) (fun _ => true) (fun _ => true)
    (fun _ => None) (fun _ => None) (fun _ => true) (fun _ => true).
Definition no_cancel (n : nat) : bool := false.
Definition no_line (n : nat) : line_answer := Line None.
Definition done_ok (n : nat) : process := Finished (mk_output (Some 0) (chars "flashed and verified") []).

(** A boot log in which the acknowledgement comes before the ready line. *)
Definition boot_lines (n : nat) : line_answer :=
  Line (Some (nth (n / 5) (chars <$> ["BLE ready"; "FLPR READY_ACK sent"; "settings_load() OK"; "I2S ready"; "offload init OK";
                                     "FLPR READY (1 ms)"; "FLPR runtime init OK"; "Advertising as " +:+ quoted "LE Audio Receiver"]%string) [])).
Definition boot_world : world := step_world boot_lines (fun _ => ConsoleFailed) done_ok no_cancel.
Lemma boot_saw_every_marker_witness :
  exists v s', _step_boot boot_world 20 90000000 fresh_runner = (Ok v, s')
    /\ read_between boot_world 0 (turn s') (fun l => _receiver_boot_marker_matches "FLPR READY" l = true).
Proof.
  assert (exists v s', _step_boot boot_world 20 90000000 fresh_runner = (Ok v, s')) as (v & s' & H) by (do 2 eexists; vm_compute; reflexivity).
  exists v, s'. split; [exact H|]. destruct (boot_saw_every_marker _ _ _ _ _ _ H) as [_ Hr]. apply Hr. apply (bool_decide_eq_true_1 _). reflexivity.
Defined.

Definition silent_world : world := step_world no_line (fun _ => ConsoleFailed) done_ok no_cancel.
Lemma boot_ends_witness : exists e s', _step_boot silent_world 91 90000000 fresh_runner = (Err e, s') /\ e <> OutOfFuel.
Proof.
  assert (exists e s', _step_boot silent_world 91 90000000 fresh_runner = (Err e, s')) as (e & s' & H) by (do 2 eexists; vm_compute; reflexivity).
  exists e, s'. split; [exact H|]. apply (boot_ends silent_world 90 91 90000000 fresh_runner) with s'; [|lia | simpl; lia | exact H].
  intros k Hk. cbn [clock silent_world step_world turn fresh_runner]. lia.
Defined.

Definition demo_resolution : resolution := mk_resolution "/dev/ttyACM1" "/dev/ttyACM0" "0011" "0022" (mk_raw None (fun _ => []) (fun _ => None)).
Lemma flash_in_order_witness :
  exists s', _step_flash silent_world None false ("/dev/ttyACM1"%string, "/dev/ttyACM0"%string) demo_resolution HilModel.NRF54L15_CPUAPP_BOARD fresh_runner = (Ok tt, s')
    /\ exists env o, flash_ok o /\ Ran ["fw-flash-54l15"%string] (Some env) o false ∈ trace s'.
Proof.
  assert (exists s', _step_flash silent_world None false ("/dev/ttyACM1"%string, "/dev/ttyACM0"%string) demo_resolution HilModel.NRF54L15_CPUAPP_BOARD fresh_runner
    = (Ok tt, s')) as (s' & H) by (eexists; vm_compute; reflexivity).
  exists s'. split; [exact H|]. destruct (flash_in_order _ _ _ _ _ _ _ _ _ H) as (_ & r1 & r2 & e1 & e2 & o1 & o2 & Htr & _ & _ & _ & _ & _ & Ho2).
  exists e2, o2. split; [exact Ho2|]. rewrite Htr. unfold flashed. rewrite !elem_of_app. do 2 right. do 2 right. left.
Defined.

Definition clean_text : list ascii :=
  ["Identity: C0:FF:EE:00:11:22 (random)"; UNPAIR_SUCCESS_TEXT; "Bond count: 0"]%string ≫= fun s => chars s ++ [CR; newline].
Definition clean_world : world := step_world no_line (fun _ => Transcript clean_text) done_ok no_cancel.
Lemma clean_state_exact_witness :
  exists i s', _step_clean_state clean_world RH2_ROW fresh_runner = (Ok i, s') /\ bonds_seen clean_world 0 0 (turn s').
Proof.
  assert (exists i s', _step_clean_state clean_world RH2_ROW fresh_runner = (Ok i, s')) as (i & s' & H) by (do 2 eexists; vm_compute; reflexivity).
  exists i, s'. split; [exact H|]. destruct (clean_state_exact _ _ _ _ _ H) as (_ & [[_ Hb]|[Hs _]] & _); [exact Hb | discriminate Hs].
Defined.

(** ** What modelling showed *)

(** A flash log is to keep the helper's output also when the row is cancelled.
    When the cancellation is seen right after the helper came back, the
    exception carries no process, and the log written is a bare newline; only
    the command ledger has the output. *)
Theorem late_cancel_empties_flash_log :
  let w := step_world no_line (fun _ => ConsoleFailed) done_ok (fun n => (n =? 3)%nat) in
  let '(res, s') := flash_source w None false ("/dev/ttyACM1"%string, "/dev/ttyACM0"%string) demo_resolution HilModel.NRF54L15_CPUAPP_BOARD fresh_runner in
  is_ok res = false
  /\ trace s' = [Marked "source"; Ran ["fw-flash-hil-source-54l15"]%string (Some [("FW_HIL_SOURCE_NRF54L15_PROBE_SERIAL"%string, "0022"%string)])
                                      (mk_output (Some 0) (chars "flashed and verified") []) false;
                 Wrote "source-flash.log" (Body [newline])].
Proof. vm_compute. done. Qed.
End RunnerStepWitnesses.
