(* ===== verification/HilRunnerCapture.v ===== *)
(** * The row runner: receiver evidence of one row (scripts/hil/runner.py)

    The active offload snapshot and its settling, the named fault window, the
    live tail, the post-stop diagnostics, the stream summaries, the log scan
    with its two HCI traces, and [_step_run_row], which hangs them on the
    source client's hooks. *)

From S2P Require Import Prelude PyText PyRegex FlprStatus SerialIo HilReceiver HilReceiverVerdict HilRows HilRunnerSteps.
From S2P Require HilProtocol HilSourceClient HciTrace.

(** ** Constants *)

Definition LIVE_TAIL_COMMANDS : list string := ["bt iso quality"]%string.
Definition POST_STOP_COMMANDS : list string := ["audio status"; "audio perf"; "flpr offload"; "flpr status"]%string.
Definition RECEIVER_OFFLOAD_SETTLE_TIMEOUT : Z := 500000.
Definition RECEIVER_ACTIVE_OFFLOAD_TIMEOUT : Z := 45000000.
Definition FAULT_BASELINE_SUCCESS : list (string * Z) := [("hang", 1000); ("stall", 500)]%string.
Definition FAULT_READY_TIMEOUT : Z := 45000000.
Definition FAULT_RECOVERY_TIMEOUT : Z := 60000000.
Definition FAULT_COMMANDS : list (string * string) := [("hang", "flpr hang"); ("stall", "flpr ring stall_flpr_ms 1 60")]%string.

(** ** Recognizing offload snapshots *)

(** [isinstance(v, int)], [v >= lo]. *)
Definition at_least (lo : Z) (v : value) : bool := match as_int v with Some n => lo <=? n | None => false end.
Definition counter (d : dict) (key : string) : Z := default 0 (as_int (get d key)).

Definition _offload_counters_are_single_pending (offload : dict) : bool :=
  at_least 1 (get offload "submit") && at_least 0 (get offload "success")
  && (counter offload "submit" =? counter offload "success" + 1).
Definition _offload_counters_are_equal (offload : dict) : bool :=
  at_least 0 (get offload "submit") && at_least 0 (get offload "success") && (counter offload "submit" =? counter offload "success").

Definition _fault_baseline_ready (status : dict) (fault : string) : bool :=
  bool_decide (get status "state" = StrV "ACTIVE")
  && match dict_get fault FAULT_BASELINE_SUCCESS with Some n => at_least n (get status "success") | None => false end.

(** [baseline[key]], [baseline[key] + 1] *)
Definition entry (d : dict) (key : string) : result runner_exn value := result_of_option (OtherError "KeyError") (dict_get key d).
Definition successor (v : value) : result runner_exn Z :=
  match as_int v with Some n => Ok (n + 1) | None => Err (OtherError "TypeError") end.
(** [a < n], [a <= b] *)
Definition below (a : value) (n : Z) : result runner_exn bool :=
  match as_int a with Some m => Ok (m <? n) | None => Err (OtherError "TypeError") end.
Definition not_above (a b : value) : result runner_exn bool :=
  match as_int a, as_int b with
  | Some m, Some n => Ok (m <=? n)
  | None, None => match a, b with StrV x, StrV y => Ok (String.leb x y) | _, _ => Err (OtherError "TypeError") end
  | _, _ => Err (OtherError "TypeError")
  end.
(** [if b: return False] *)
Definition unless_ (b : bool) (k : result runner_exn bool) : result runner_exn bool := if b then Ok false else k.

Definition _recovery_complete (status baseline : dict) (fault : string) : result runner_exn bool :=
  unless_ (negb (bool_decide (get status "state" = StrV "ACTIVE")))
  (attempts ← (v ← entry baseline "recovery_attempts"; successor v);
   unless_ (negb (eq_z (get status "recovery_attempts") attempts))
   (unless_ (negb (eq_z (get status "probation_active") 0))
    (cleared ← (v ← entry baseline "probation_cleared"; successor v);
     low ← below (get_or (-1) status "probation_cleared") cleared;
     unless_ low
     (epoch ← entry baseline "epoch";
      unless_ (py_eq (get status "epoch") epoch)
      (v ← entry baseline "fallback";
       stuck ← not_above (get_or (-1) status "fallback") v;
       unless_ stuck
       (v ← entry baseline "success";
        idle ← not_above (get_or (-1) status "success") v;
        unless_ idle
        (restarts ← entry baseline "runtime_restarts";
         if String.eqb fault "hang" then
           n ← successor restarts; Ok (eq_z (get status "runtime_restarts") n)
         else Ok (py_eq (get status "runtime_restarts") restarts)))))))).

(** ** Evidence blocks *)

Definition block (title : string) (transcript : list ascii) : list ascii := chars title ++ [newline] ++ transcript.
Fixpoint join_blocks (bs : list (list ascii)) : list ascii :=
  match bs with [] => [] | [b] => b | b :: bs' => b ++ [newline; newline] ++ join_blocks bs' end.
(** ["\n\n".join(blocks) + "\n"] *)
Definition blocks_text (bs : list (list ascii)) : list ascii := join_blocks bs ++ [newline].
Definition poll_title (kind : string) (n : Z) : string := "# flpr offload (" +:+ kind +:+ " " +:+ dec n +:+ ")".
Definition append_block (b : list ascii) : M unit := s ← self; assign (set_blocks (blocks s ++ [b])).
Definition new_blocks : M unit := assign (set_blocks []).

(** What a trace mode of the log scan returns. *)
Abbreviation hci_payload := (HciTrace.payload HciTrace.Hci.kind).
Inductive trace_payload : Type := HciPayload (p : hci_payload) | SdcPayload (t : HciTrace.Sdc.trace).

Section capture.
Context (w : world).

Definition write_blocks (name : string) : M unit := s ← self; _write w name (blocks_text (blocks s)).
Definition offload_status (transcript : list ascii) : M dict := d ← parsed (receiver_offload_status transcript); mret (of_status d).

(** ** Settling *)

Inductive settled_as : Type := Equal | MovingSinglePending | Unproven.
#[export] Instance settled_as_eq : EqDecision settled_as.
Proof. solve_decision. Defined.
Record settle : Type := mk_settle { s_outcome : settled_as; s_retries : Z; s_initial : value * value; s_final : value * value }.
Definition counters (d : dict) : value * value := (get d "submit", get d "success").
Definition settle_evidence (o : settled_as) (retries : Z) (initial final : dict) : dict * settle :=
  (final, mk_settle o retries (counters initial) (counters final)).

Fixpoint settle_loop (fuel : nat) (deadline retry : Z) (initial final : dict) : M (dict * settle) :=
  match fuel with
  | O => raise OutOfFuel
  | S fuel =>
      now ← ask w clock;
      if negb (now <? deadline) then mret (settle_evidence Unproven retry initial final) else
      _check_cancel w "cancelled settling receiver offload";;
      transcript ← _checked_receiver_command w "flpr offload";
      append_block (block (poll_title "settle retry" (retry + 1)) transcript);;
      final ← offload_status transcript;
      if _offload_counters_are_equal final then mret (settle_evidence Equal (retry + 1) initial final)
      else if _offload_counters_are_single_pending final
              && (counter initial "submit" <? counter final "submit") && (counter initial "success" <? counter final "success")
      then mret (settle_evidence MovingSinglePending (retry + 1) initial final)
      else
        now ← ask w clock;
        if deadline - now <=? 0 then mret (settle_evidence Unproven (retry + 1) initial final) else
        _check_cancel w "cancelled settling receiver offload";;
        _check_cancel w "cancelled settling receiver offload";;
        settle_loop fuel deadline (retry + 1) initial final
  end.

Definition _settle_receiver_offload (fuel : nat) (row : RowSpec) (recovering : bool) (initial : dict) : M (dict * settle) :=
  if _offload_counters_are_equal initial then mret (settle_evidence Equal 0 initial initial)
  else if negb (String.eqb (profile row) "48_4_1") || bool_decide (is_Some (fault row)) || recovering
  then mret (settle_evidence Unproven 0 initial initial)
  else if negb (_offload_counters_are_single_pending initial) then mret (settle_evidence Unproven 0 initial initial)
  else
    now ← ask w clock;
    settle_loop fuel (now + RECEIVER_OFFLOAD_SETTLE_TIMEOUT) 0 initial initial.

(** ** The active offload snapshot *)

Record active : Type := mk_active { a_offload : dict; a_settle : option settle }.

Definition verdict {A} (r : result receiver_exn A) : M A :=
  match r with Ok a => mret a | Err (UnsupportedProfile p) => raise (ReceiverError (Plain p)) | Err TypeError => raise (OtherError "TypeError") end.
Definition moving (o : option settle) : bool := match o with Some e => bool_decide (s_outcome e = MovingSinglePending) | None => false end.
Definition work_ready (row : RowSpec) (allow_offload_disabled : bool) (offload : dict) : bool :=
  allow_offload_disabled || negb (String.eqb (profile row) "48_4_1")
  || match get offload "submit" with IntV n => 1 <=? n | _ => false end.

Definition accept_active (fuel : nat) (row : RowSpec) (allow_offload_disabled : bool) (offload : dict) : M active :=
  fe ← _settle_receiver_offload fuel row false offload;
  errors ← verdict (_validate_active_offload (Some fe.1) (profile row) NoRecovery (moving (Some fe.2)) allow_offload_disabled);
  check (bool_decide (errors = [])) (HilRunnerError "receiver active" (Refused errors));;
  write_blocks "receiver-active-status.txt";;
  mret (mk_active fe.1 (Some fe.2)).

Definition active_expired : runner_exn := HilRunnerError "receiver active" (Plain "FLPR active offload deadline expired").
Fixpoint active_loop (fuel sfuel : nat) (row : RowSpec) (allow_offload_disabled : bool) (deadline attempt : Z) : M active :=
  match fuel with
  | O => raise OutOfFuel
  | S fuel =>
      now ← ask w clock;
      if negb (now <? deadline) then raise active_expired else
      _check_cancel w "cancelled awaiting active receiver offload";;
      transcript ← _checked_receiver_command w "flpr offload";
      append_block (block (poll_title "active poll" (attempt + 1)) transcript);;
      offload ← offload_status transcript;
      if bool_decide (get offload "state" = StrV "ACTIVE") && work_ready row allow_offload_disabled offload
      then accept_active sfuel row allow_offload_disabled offload
      else
        now ← ask w clock;
        if deadline - now <=? 0 then raise active_expired else
        _check_cancel w "cancelled awaiting active receiver offload";;
        _check_cancel w "cancelled awaiting active receiver offload";;
        active_loop fuel sfuel row allow_offload_disabled deadline (attempt + 1)
  end.

(** Whatever ends the capture, the transcripts read so far are written. *)
Definition _collect_receiver_active_offload (fuel sfuel : nat) (row : RowSpec) (allow_offload_disabled : bool) : M active :=
  new_blocks;;
  now ← ask w clock;
  on_error (active_loop fuel sfuel row allow_offload_disabled (now + RECEIVER_ACTIVE_OFFLOAD_TIMEOUT) 0)
           (fun _ => write_blocks "receiver-active-status.txt").

(** ** The fault window *)

Record fault_recovery : Type := mk_fault_recovery {
  f_fault : string; f_command : string; f_ack : string; f_baseline : dict; f_final : dict; f_start : Z; f_end : Z }.
Definition recovery_of (r : fault_recovery) : recovery_arg := Recovery (mk_recovery (StrV (f_fault r)) (Some (f_baseline r)) (StrV (f_ack r))).
Definition recovery_opt (r : option fault_recovery) : recovery_arg := match r with Some r => recovery_of r | None => NoRecovery end.
Definition raw_window (r : option fault_recovery) : option (option Z * option Z) :=
  r ← r; Some (Some (f_start r), Some (f_end r)).

(** The [window] list is local: what the loops append is in their result. *)
Fixpoint baseline_loop (fuel : nat) (deadline : Z) (fault : string) (window : list (list ascii)) : M (list (list ascii) * option dict) :=
  match fuel with
  | O => raise OutOfFuel
  | S fuel =>
      now ← ask w clock;
      if negb (now <? deadline) then mret (window, None) else
      _check_cancel w "cancelled awaiting FLPR fault baseline";;
      transcript ← _checked_receiver_command w "flpr offload";
      let window := window ++ [block "# flpr offload (baseline)" transcript] in
      status ← offload_status transcript;
      if _fault_baseline_ready status fault then mret (window, Some (normalized_recovery_baseline status))
      else baseline_loop fuel deadline fault window
  end.

Fixpoint recovery_loop (fuel : nat) (deadline : Z) (fault : string) (baseline : dict) (window : list (list ascii))
    : M (list (list ascii) * option (dict * Z)) :=
  match fuel with
  | O => raise OutOfFuel
  | S fuel =>
      now ← ask w clock;
      if negb (now <? deadline) then mret (window, None) else
      _check_cancel w "cancelled awaiting FLPR recovery";;
      transcript ← _checked_receiver_command w "flpr offload";
      let window := window ++ [block "# flpr offload (recovery)" transcript] in
      parsed_status ← offload_status transcript;
      let status := normalized_recovery_baseline parsed_status in
      complete ← lift (_recovery_complete status baseline fault);
      if complete : bool then stop ← ask w offset; mret (window, Some (status, stop))
      else recovery_loop fuel deadline fault baseline window
  end.

Definition _run_fault_window (fuel : nat) (fault : string) : M fault_recovery :=
  match dict_get fault FAULT_COMMANDS with
  | None => raise (HilRunnerError "fault injection" (Plain fault))
  | Some command =>
      now ← ask w clock;
      found ← baseline_loop fuel (now + FAULT_READY_TIMEOUT) fault [];
      match found.2 with
      | None => _write w "recovery-window.txt" (blocks_text found.1);; raise (HilRunnerError "fault injection" (Plain "baseline never reached"))
      | Some baseline =>
          write_json_evidence w "fault-baseline.json";;
          start ← ask w offset;
          transcript ← _checked_receiver_command w command;
          let window := found.1 ++ [block ("# " +:+ command) transcript] in
          match parse_fault_ack transcript fault with
          | None => _write w "recovery-window.txt" (blocks_text window);; raise (HilRunnerError "fault injection" (Plain "ACK missing"))
          | Some ack =>
              now ← ask w clock;
              over ← recovery_loop fuel (now + FAULT_RECOVERY_TIMEOUT) fault baseline window;
              _write w "recovery-window.txt" (blocks_text over.1);;
              match over.2 with
              | None => raise (HilRunnerError "fault recovery" (Plain "recovery did not complete"))
              | Some (final, stop) =>
                  write_json_evidence w "recovery.json";;
                  mret (mk_fault_recovery fault command ack baseline final start stop)
              end
          end
      end
  end.

(** ** The live tail *)

Fixpoint tail_commands (commands : list string) (quality : option iso_quality) : M (option iso_quality) :=
  match commands with
  | [] => mret quality
  | command :: commands' =>
      _check_cancel w "cancelled during receiver tail";;
      transcript ← _checked_receiver_command w command;
      append_block (block ("# " +:+ command) transcript);;
      quality ← (if String.eqb command "bt iso quality" then q ← parsed (parse_iso_link_quality transcript); mret (Some q) else mret quality);
      tail_commands commands' quality
  end.
Definition _collect_receiver_tail (row : RowSpec) : M (option iso_quality) :=
  new_blocks;;
  quality ← on_error (tail_commands LIVE_TAIL_COMMANDS None) (fun _ => write_blocks "receiver-status.txt");
  write_blocks "receiver-status.txt";;
  let errors := validate_iso_link_quality (of_quality <$> quality) (stream_count row) in
  check (bool_decide (errors = [])) (HilRunnerError "receiver tail" (Refused errors));;
  mret quality.

(** ** Post-stop diagnostics *)

(** The transcripts of both audio commands, the offload, the handshake. *)
Record post_stop : Type := mk_post_stop { p_audio : list (list ascii); p_offload : dict; p_handshake : dict }.
Definition post_stop_reply (command : string) (transcript : list ascii) (p : post_stop) : M post_stop :=
  if py_in command ["audio status"; "audio perf"]%string then mret (mk_post_stop (p_audio p ++ [transcript]) (p_offload p) (p_handshake p))
  else if String.eqb command "flpr offload" then d ← offload_status transcript; mret (mk_post_stop (p_audio p) d (p_handshake p))
  else if String.eqb command "flpr status" then h ← parsed (parse_flpr_handshake transcript); mret (mk_post_stop (p_audio p) (p_offload p) (of_handshake h))
  else mret p.
Fixpoint post_stop_commands (commands : list string) (p : post_stop) : M post_stop :=
  match commands with
  | [] => mret p
  | command :: commands' =>
      _check_cancel w "cancelled during receiver post-stop";;
      transcript ← _checked_receiver_command w command;
      append_block (block ("# " +:+ command) transcript);;
      p ← post_stop_reply command transcript p;
      post_stop_commands commands' p
  end.
Definition _collect_receiver_post_stop (row : RowSpec) (a : active) (r : option fault_recovery) (allow_offload_disabled : bool) : M post_stop :=
  new_blocks;;
  p ← on_error (post_stop_commands POST_STOP_COMMANDS (mk_post_stop [] [] [])) (fun _ => write_blocks "receiver-post-stop-status.txt");
  write_blocks "receiver-post-stop-status.txt";;
  faults ← parsed (receiver_audio_faults (Client.join_lines (p_audio p)));
  errors ← verdict (validate_receiver_lifecycle_blocks (Some (of_audio faults)) (Some (a_offload a)) (Some (p_offload p)) (Some (p_handshake p))
                      (profile row) (recovery_opt r) (moving (a_settle a)) allow_offload_disabled);
  check (bool_decide (errors = [])) (HilRunnerError "receiver post-stop" (Refused errors));;
  mret p.

(** ** Stream summaries *)

Definition session_end (d : detail) : runner_exn := HilRunnerError "session end" d.

(** [append_summaries]: the list and the set of slots it fills. *)
Fixpoint append_summaries (count : Z) (keep_first : bool) (found : list stream_summary) (acc : list stream_summary * list Z)
    : M (list stream_summary * list Z) :=
  match found with
  | [] => mret acc
  | s :: found' =>
      check ((0 <=? slot s) && (slot s <? count)) (session_end (Numbers "slot out of range" [slot s]));;
      if bool_decide (slot s ∈ acc.2) then
        check keep_first (session_end (Numbers "duplicate slot" [slot s]));; append_summaries count keep_first found' acc
      else append_summaries count keep_first found' (acc.1 ++ [s], acc.2 ++ [slot s])
  end.

Definition raw_fallback_summaries (count scan_offset : Z) : M (list stream_summary) :=
  text ← (s ← self; assign tick;; mret (raw_text w (turn s) scan_offset));
  found ← parsed (parse_stream_summary text);
  acc ← append_summaries count true found ([], []);
  let missing := List.filter (fun slot => negb (bool_decide (slot ∈ acc.2))) (seqZ 0 count) in
  check (bool_decide (missing = [])) (session_end (Numbers "missing slots" missing));;
  mret acc.1.

(** The summaries, and whether they come from the raw evidence. *)
Fixpoint summary_loop (fuel line_fuel : nat) (deadline count scan_offset : Z) (acc : list stream_summary * list Z) : M (list stream_summary * bool) :=
  if negb (Z.of_nat (length acc.1) <? count) then mret (acc.1, false) else
  match fuel with
  | O => raise OutOfFuel
  | S fuel =>
      now ← ask w clock;
      if deadline - now <=? 0 then raw ← raw_fallback_summaries count scan_offset; mret (raw, true) else
      line ← _wait_console_line w line_fuel (deadline - now) "cancelled during session end";
      match line with
      | None => raw ← raw_fallback_summaries count scan_offset; mret (raw, true)
      | Some text =>
          found ← parsed (parse_stream_summary text);
          check (negb (bool_decide (found = []))) (session_end (Plain "no parseable stream summary"));;
          acc ← append_summaries count false found acc;
          summary_loop fuel line_fuel deadline count scan_offset acc
      end
  end.

Definition clean_summary (s : stream_summary) : bool := (decode_err s =? 0) && (i2s_underrun s =? 0) && (stream_reset s =? 0).
Record segment_summary : Type := mk_segment_summary { g_segment : Z; g_streams : list stream_summary; g_last : stream_summary; g_raw_derived : bool }.

Fixpoint check_each (f : stream_summary -> M unit) (ss : list stream_summary) : M unit :=
  match ss with [] => mret tt | s :: ss' => f s;; check_each f ss' end.
Definition _step_session_end (fuel line_fuel : nat) (summary_timeout : Z) (row : RowSpec) (segment scan_offset : Z) : M segment_summary :=
  now ← ask w clock;
  sb ← summary_loop fuel line_fuel (now + summary_timeout) (stream_count row) scan_offset ([], []);
  last ← match last sb.1 with Some s => mret s | None => raise (OtherError "IndexError") end;
  check_each (fun s => check (clean_summary s) (session_end (Numbers "stream summary" [slot s]))) sb.1;;
  check_each (fun s => check (bool_decide (validate_stream_transport s (expected_submitted_per_segment row) = []))
                             (session_end (Refused (validate_stream_transport s (expected_submitted_per_segment row))))) sb.1;;
  mret (mk_segment_summary segment sb.1 last sb.2).

(** ** Running the row *)

(** What the hooks leave to one another and to the result. *)
Record row_result : Type := mk_row_result {
  source_active : list Z;                              (** segments whose active status was validated *)
  actives : list (Z * active);
  bases : list (Z * Z);                                (** [segment_summary_bases] *)
  tails : list (Z * option iso_quality);
  summaries : list (segment_summary * post_stop);
  row_recovery : option fault_recovery;
}.
Definition no_result : row_result := mk_row_result [] [] [] [] [] None.

Record fuels : Type := mk_fuels { polls_fuel : nat; settle_fuel : nat; fault_fuel : nat; summaries_fuel : nat; lines_fuel : nat }.

Section row.
Context (fs : fuels) (summary_timeout : Z) (row : RowSpec) (allow_offload_disabled : bool) (captured : bool).

Definition collect_streaming (segment : Z) (r : row_result) : M row_result :=
  source_call w "query_status";;
  source_call w "validate_active_status";;
  let r := mk_row_result (source_active r ++ [segment]) (actives r) (bases r) (tails r) (summaries r) (row_recovery r) in
  match fault row with
  | Some f =>
      if segment =? 0 then
        rec ← _run_fault_window (fault_fuel fs) f;
        mret (mk_row_result (source_active r) (dict_set segment (mk_active (f_final rec) None) (actives r)) (bases r) (tails r) (summaries r) (Some rec))
      else
        a ← _collect_receiver_active_offload (polls_fuel fs) (settle_fuel fs) row allow_offload_disabled;
        mret (mk_row_result (source_active r) (dict_set segment a (actives r)) (bases r) (tails r) (summaries r) (row_recovery r))
  | None =>
      a ← _collect_receiver_active_offload (polls_fuel fs) (settle_fuel fs) row allow_offload_disabled;
      mret (mk_row_result (source_active r) (dict_set segment a (actives r)) (bases r) (tails r) (summaries r) (row_recovery r))
  end.

Definition collect_tail (segment : Z) (r : row_result) : M row_result :=
  base ← ask w offset;
  let r := mk_row_result (source_active r) (actives r) (dict_set segment base (bases r)) (tails r) (summaries r) (row_recovery r) in
  tail ← _collect_receiver_tail row;
  mret (mk_row_result (source_active r) (actives r) (bases r) (tails r ++ [(segment, tail)]) (summaries r) (row_recovery r)).

Definition looked_up {A} (o : option A) : M A := match o with Some a => mret a | None => raise (OtherError "KeyError") end.
Definition collect_summary (segment : Z) (r : row_result) : M row_result :=
  base ← looked_up (dict_get segment (bases r));
  s ← _step_session_end (summaries_fuel fs) (lines_fuel fs) summary_timeout row segment base;
  a ← looked_up (dict_get segment (actives r));
  p ← _collect_receiver_post_stop row a (row_recovery r) allow_offload_disabled;
  mret (mk_row_result (source_active r) (actives r) (bases r) (tails r) (summaries r ++ [(s, p)]) (row_recovery r)).

Definition start_capture_before_source : M unit :=
  if captured then ok ← ask w captures; check ok CaptureError;; note CaptureStarted else mret tt.

(** [SourceClient.start]: between two hooks the client runs on its own, and
    either comes to the next hook or raises. *)
Definition run_hooks (segment : Z) (r : row_result) : M row_result :=
  source_call w "streaming";;
  r ← collect_streaming segment r;
  source_call w "scored_complete";;
  r ← collect_tail segment r;
  source_call w "segment_teardown";;
  collect_summary segment r.
Fixpoint run_segments (segments : list Z) (r : row_result) : M row_result :=
  match segments with [] => mret r | seg :: segs => r ← run_hooks seg r; run_segments segs r end.
Definition start : M row_result :=
  source_call w "before_start";;
  note (Registered "source stop/idle");;
  start_capture_before_source;;
  r ← run_segments (seqZ 0 (segment_count row)) no_result;
  source_call w "final_status";;
  mret r.

(** [except (SourceClientError, ReceiverError, SerialConsoleError, CaptureError)] *)
Definition run_row_boundary (e : runner_exn) : runner_exn :=
  match e with CaptureError => HilRunnerError "run row" (Plain "capture") | e => row_boundary "run row" e end.
Definition _step_run_row : M row_result :=
  convert (source_call w "register_prestart_cleanup";; note (Registered "source pre-start idle");; source_call w "configure";; start) run_row_boundary.
End row.

(** ** The log scan *)

Inductive file_read : Type := Bytes (bytes : list ascii) | Unreadable.
Inductive source_problem : Type := MalformedRecord (line : list ascii) | DiagnosticRecord (line : list ascii) | Unconsumed (line : list ascii).

Definition no_problems (l : list source_problem) : bool := match l with [] => true | _ => false end.

(** [Counter] of lines. *)
Abbreviation tally := (list (list ascii * Z)).
Definition count_of (t : tally) (x : list ascii) : Z := default 0 (dict_get x t).
Definition tally_of (ls : list (list ascii)) : tally := fold_left (fun t x => dict_set x (count_of t x + 1) t) ls [].
Definition is_hil1 (line : list ascii) : bool := bool_decide (is_Some (strip_prefix (chars "HIL1 ") line)).
Definition rstrip_crs (line : list ascii) : list ascii := rstrip (Ascii.eqb CR) line.
Definition consumed_hil1 (records : list (list ascii)) : tally := tally_of (rstrip_crs <$> List.filter is_hil1 records).

Fixpoint scan_source_lines (ls : list (list ascii)) (left : tally) : M (list source_problem) :=
  match ls with
  | [] => mret []
  | line :: ls' =>
      if negb (is_hil1 line) then scan_source_lines ls' left else
      match HilProtocol.parse_hil1_line (HilProtocol.LStr (of_chars line)) with
      | Err _ => es ← scan_source_lines ls' left; mret (MalformedRecord line :: es)
      | Ok None => raise (OtherError "AttributeError")
      | Ok (Some r) =>
          let e1 := if HilSourceClient.is_diagnostic_record r then [DiagnosticRecord line] else [] in
          let x := rstrip_crs line in
          if count_of left x <=? 0 then es ← scan_source_lines ls' left; mret (e1 ++ Unconsumed line :: es)
          else es ← scan_source_lines ls' (dict_set x (count_of left x - 1) left); mret (e1 ++ es)
      end
  end.

Record receiver_scan : Type := mk_receiver_scan { v_warnings : list (list ascii); v_shell : list (list ascii); v_error : option string }.
Definition scan_receiver (row : RowSpec) (r : option fault_recovery) (log : option file_read) : receiver_scan :=
  match log with
  | Some (Bytes raw) =>
      let '(warnings, e1) := match scan_raw_warnings raw (fault row) (raw_window r) with
                             | Ok hits => (hits, None)
                             | Err NotUtf8 => ([], Some "receiver raw log invalid UTF-8"%string)
                             | Err WindowInvalid => ([], Some "fault recovery raw_window missing or invalid"%string)
                             end in
      if utf8_valid raw then mk_receiver_scan warnings (if bool_decide (raw = []) then [] else scan_shell_errors raw) e1
      else mk_receiver_scan warnings [] (Some "receiver raw log invalid UTF-8"%string)
  | Some Unreadable => mk_receiver_scan [] [] (Some "cannot read receiver raw log"%string)
  | None =>
      mk_receiver_scan [] []
        (match fault row with
         | Some _ => match scan_raw_warnings [] (fault row) (raw_window r) with Ok _ => None | Err _ => Some "fault recovery raw_window missing or invalid"%string end
         | None => None
         end)
  end.

(** *** The HCI traces

    Parsed from the receiver log; from nothing when it is not there or cannot
    be read, and then the error is the trace's too. *)

Definition unread : HciTrace.message := HciTrace.say "cannot read receiver raw log".
Definition hci_unread (p : hci_payload) : hci_payload := HciTrace.invalid [unread] (HciTrace.unparsed unread p).
Definition sdc_unread (t : HciTrace.Sdc.trace) : HciTrace.Sdc.trace :=
  HciTrace.Sdc.mk_trace (HciTrace.unparsed unread (HciTrace.Sdc.filed t)) (HciTrace.Sdc.receive_disposition_outcome t) (HciTrace.Sdc.errors t ++ [unread]).
Definition trace_of_log {A} (parse : option (list ascii) -> result HciTrace.exn A) (unread : A -> A) (log : option file_read) : result HciTrace.exn A :=
  match log with
  | Some (Bytes raw) => parse (Some raw)
  | Some Unreadable => t ← parse (Some []); Ok (unread t)
  | None => parse (Some [])
  end.
Definition hci_trace_of : option file_read -> result HciTrace.exn hci_payload :=
  trace_of_log HciTrace.Hci.parse_hci_remove_iso_path_trace hci_unread.
Definition sdc_trace_of : option file_read -> result HciTrace.exn HciTrace.Sdc.trace :=
  trace_of_log HciTrace.Sdc.parse_sdc_hci_remove_iso_path_trace sdc_unread.

Definition of_trace {A} (r : result HciTrace.exn A) : M A :=
  match r with
  | Ok t => mret t
  | Err HciTrace.ValueError => raise (OtherError "ValueError")
  | Err HciTrace.TypeError => raise (OtherError "TypeError")
  end.
Definition trace_evidence {A} (asked : bool) (name : string) (r : result HciTrace.exn A) : M (option A) :=
  if asked then t ← of_trace r; write_json_evidence w name;; mret (Some t) else mret None.
(** A warning that is the line of an arm failure is reported as that. *)
Definition without_arm_failures (h : option hci_payload) (warnings : list (list ascii)) : list (list ascii) :=
  match h with
  | Some p => List.filter (fun line => negb (py_in (strip (strip_vt100 line)) (HciTrace.r_line <$> HciTrace.recs p HciTrace.Hci.arm_failure_markers))) warnings
  | None => warnings
  end.
Definition check_trace (boundary : string) (errors : list HciTrace.message) : M unit :=
  check (bool_decide (errors = [])) (HilRunnerError boundary (Traced errors)).

(** The records the client consumed, and both raw logs as they are found. *)
Definition _step_scan_logs (row : RowSpec) (r : option fault_recovery) (hci_remove_iso_path_trace sdc_hci_remove_iso_path_trace : bool)
    (records : list (list ascii)) (source_log : file_read) (receiver_log : option file_read) : M (option trace_payload) :=
  _write_jsonl w "source-records.jsonl";;
  source_text ← match source_log with
                | Unreadable => raise (HilRunnerError "log scan" (Plain "cannot read source raw log"))
                | Bytes b => check (utf8_valid b) (HilRunnerError "log scan" (Plain "source raw log invalid UTF-8"));; mret b
                end;
  let warnings := scan_warnings (splitlines source_text) in
  problems ← scan_source_lines (splitlines source_text) (consumed_hil1 records);
  h ← trace_evidence hci_remove_iso_path_trace "hci-remove-iso-path-trace.json" (hci_trace_of receiver_log);
  c ← trace_evidence sdc_hci_remove_iso_path_trace "sdc-hci-remove-iso-path-trace.json" (sdc_trace_of receiver_log);
  let v := scan_receiver row r receiver_log in
  let receiver_warnings := without_arm_failures h (v_warnings v) in
  check (bool_decide (warnings = []) && no_problems problems && bool_decide (receiver_warnings = []) && bool_decide (v_shell v = [])
         && bool_decide (v_error v = None))
        (HilRunnerError "log scan" (LogFailures warnings [] receiver_warnings (v_shell v) (v_error v)));;
  check_trace "hci remove iso path trace evidence" (from_option HciTrace.validation_errors [] h);;
  check_trace "sdc hci remove iso path trace evidence" (from_option HciTrace.Sdc.errors [] c);;
  mret (match h with Some p => Some (HciPayload p) | None => SdcPayload <$> c end).
End capture.

(** ** Lemmas *)

Section inversion.
Context (w : world).

Lemma append_block_Ok b u s s' : append_block b s = (Ok u, s') -> s' = set_blocks (blocks s ++ [b]) s.
Proof. by intros [= <-]. Qed.
Lemma new_blocks_Ok u s s' : new_blocks s = (Ok u, s') -> s' = set_blocks [] s.
Proof. by intros [= <-]. Qed.
Lemma offload_status_Ok t d s s' : offload_status t s = (Ok d, s') -> (exists st, receiver_offload_status t = Some st /\ d = of_status st) /\ s' = s.
Proof. unfold offload_status. intros H. steps_inv. eauto. Qed.
Lemma write_blocks_Ok name u s s' : write_blocks w name s = (Ok u, s') -> s' = log (Wrote name (Body (blocks_text (blocks s)))) (tick s).
Proof. unfold write_blocks. intros H. by steps_inv. Qed.
Lemma verdict_Ok {A} (r : result receiver_exn A) a s s' : verdict r s = (Ok a, s') -> r = Ok a /\ s' = s.
Proof. unfold verdict. destruct r as [b|[]]; intros H; steps_inv; done. Qed.
Lemma looked_up_Ok {A} (o : option A) a s s' : looked_up o s = (Ok a, s') -> o = Some a /\ s' = s.
Proof. unfold looked_up. destruct o; intros H; steps_inv; done. Qed.
End inversion.

(** [row_inv]: [steps_inv] with the steps of this file. *)
Ltac row_inv :=
  repeat (steps_inv; match goal with
  | H : append_block _ _ = (Ok _, _) |- _ => apply append_block_Ok in H
  | H : new_blocks _ = (Ok _, _) |- _ => apply new_blocks_Ok in H
  | H : offload_status _ _ = (Ok _, _) |- _ => apply offload_status_Ok in H as [? ?]
  | H : write_blocks _ _ _ = (Ok _, _) |- _ => apply write_blocks_Ok in H
  | H : verdict _ _ = (Ok _, _) |- _ => apply verdict_Ok in H as [? ?]
  | H : looked_up _ _ = (Ok _, _) |- _ => apply looked_up_Ok in H as [? ?]
  end; subst); steps_inv; subst.

(** *** Settling *)

(** What the evidence claims of the first and the last snapshot. *)
Definition advanced (initial final : dict) : Prop :=
  _offload_counters_are_single_pending initial = true /\ _offload_counters_are_single_pending final = true
  /\ counter initial "submit" < counter final "submit" /\ counter initial "success" < counter final "success".
Definition settled (initial : dict) (fe : dict * settle) : Prop :=
  s_initial fe.2 = counters initial /\ s_final fe.2 = counters fe.1
  /\ match s_outcome fe.2 with
     | Equal => _offload_counters_are_equal fe.1 = true
     | MovingSinglePending => advanced initial fe.1
     | Unproven => True
     end.

Lemma settle_loop_sound w fuel deadline retry initial final fe s s' :
  _offload_counters_are_single_pending initial = true ->
  settle_loop w fuel deadline retry initial final s = (Ok fe, s') -> settled initial fe.
Proof.
  intros Hi. revert retry final s. induction fuel as [|fuel IH]; intros retry final s H; cbn [settle_loop] in H; row_inv.
  destruct (negb _); row_inv; [done|].
  match type of H with context [_offload_counters_are_equal ?d] => destruct (_offload_counters_are_equal d) eqn:Heq end; row_inv; [done|].
  match type of H with (if ?b then _ else _) _ = _ => destruct b eqn:Hmov end; row_inv; [by bool_to_prop|].
  match type of H with (if ?b then _ else _) _ = _ => destruct b end; row_inv; [done | by eapply IH].
Qed.

Lemma settle_sound w fuel row recovering initial fe s s' :
  _settle_receiver_offload w fuel row recovering initial s = (Ok fe, s') -> settled initial fe.
Proof.
  unfold _settle_receiver_offload. intros H. destruct (_offload_counters_are_equal initial) eqn:Heq; [row_inv; done|].
  destruct (_ || recovering); [row_inv; done|].
  destruct (_offload_counters_are_single_pending initial) eqn:Hsp; cbn [negb] in H; row_inv; [|done].
  by eapply settle_loop_sound.
Qed.

(** *** Every poll is retained *)

Definition is_asked (e : event) : bool := match e with Asked _ => true | _ => false end.
(** Since [s0], at most [slack] polls have no block. *)
Definition retained (s0 : runner) (slack : nat) (s : runner) : Prop :=
  exists k, (k <= slack)%nat /\ (count is_asked (trace s) + length (blocks s0) = count is_asked (trace s0) + length (blocks s) + k)%nat.

Lemma wp_on_error {A} (m : M A) h Q X s : wp (on_error m h) Q X s <-> wp m Q (fun e s1 => wp (h e) (fun _ s2 => X e s2) X s1) s.
Proof. unfold wp, on_error. destruct (m s) as [[a|e] s1]; [done|]. by destruct (h e s1) as [[?|?] ?]. Qed.
Lemma wp_append_block b Q X s : wp (append_block b) Q X s <-> Q tt (set_blocks (blocks s ++ [b]) s).
Proof. done. Qed.
Lemma wp_offload_status t Q X s : wp (offload_status t) Q X s <->
  match receiver_offload_status t with Some st => Q (of_status st) s | None => X (OtherError "ValueError") s end.
Proof. unfold offload_status, parsed. by destruct (receiver_offload_status t). Qed.
Lemma wp_verdict {A} (r : result receiver_exn A) (Q : A -> runner -> Prop) X s :
  (forall a, r = Ok a -> Q a s) -> (forall e, e <> OutOfFuel -> X e s) -> wp (verdict r) Q X s.
Proof. destruct r as [a|[]]; intros HQ HX; [by apply HQ | by apply HX | by apply HX]. Qed.
Lemma wp_put w name c e Q X s : wp (put w name c e) Q X s <->
  (if write_ok w (turn s) then Q tt (log (Wrote name c) (tick s)) else X e (tick s)).
Proof. unfold put. rewrite wp_bind, wp_ask, wp_bind, wp_check. destruct (write_ok w (turn s)); [by rewrite wp_note | done]. Qed.

Lemma retained_tick s0 k s : retained s0 k s -> retained s0 k (tick s).
Proof. done. Qed.
Lemma retained_weaken s0 s : retained s0 0 s -> retained s0 1 s.
Proof. intros (k & Hk & H). exists k. split; [lia | done]. Qed.
Lemma retained_asked s0 c s : retained s0 0 s -> retained s0 1 (tick (log (Asked c) s)).
Proof. intros (k & Hk & H). exists 1%nat. split; [done|]. simpl. rewrite count_snoc. simpl. lia. Qed.
Lemma retained_block s0 c b s : retained s0 0 s -> retained s0 0 (set_blocks (blocks (tick (log (Asked c) s)) ++ [b]) (tick (log (Asked c) s))).
Proof. intros (k & Hk & H). exists 0%nat. split; [done|]. simpl. rewrite count_snoc, length_app. simpl. lia. Qed.
#[local] Hint Resolve retained_tick retained_weaken retained_asked retained_block : core.

(** The polling step both loops share. *)
Lemma wp_poll {A} w (title : string) (k : dict -> M A) s0 Q s :
  retained s0 0 s ->
  (forall st s1, retained s0 0 s1 -> wp (k (of_status st)) Q (fun _ s' => retained s0 1 s') s1) ->
  wp (transcript ← _checked_receiver_command w "flpr offload"; append_block (block title transcript);; d ← offload_status transcript; k d)
     Q (fun _ s' => retained s0 1 s') s.
Proof.
  intros Hr Hk. rewrite wp_bind, wp_receiver_command. destruct (answers w _) as [t| |]; [|auto..].
  destruct (scan_shell_errors t); [|auto]. rewrite wp_bind, wp_append_block, wp_bind, wp_offload_status.
  destruct (receiver_offload_status t); [apply Hk; auto | auto].
Qed.

Lemma retained_settle_loop w fuel deadline retry initial final s0 s : retained s0 0 s ->
  wp (settle_loop w fuel deadline retry initial final) (fun _ s' => retained s0 0 s') (fun _ s' => retained s0 1 s') s.
Proof.
  revert retry final s. induction fuel as [|fuel IH]; intros retry final s Hr; cbn [settle_loop]; [rewrite wp_raise; auto|].
  rewrite wp_bind, wp_ask. destruct (negb _); [rewrite wp_ret; auto|]. rewrite wp_bind, wp_check_cancel. destruct (cancel w _); [auto|].
  apply wp_poll; [auto|]. intros st s1 Hr1.
  destruct (_offload_counters_are_equal _); [rewrite wp_ret; auto|].
  match goal with |- wp (if ?b then _ else _) _ _ _ => destruct b end; [rewrite wp_ret; auto|].
  rewrite wp_bind, wp_ask. destruct (_ <=? 0); [rewrite wp_ret; auto|].
  rewrite wp_bind, wp_check_cancel. destruct (cancel w _); [auto|]. rewrite wp_bind, wp_check_cancel. destruct (cancel w _); auto.
Qed.

Lemma retained_settle w fuel row recovering initial s0 s : retained s0 0 s ->
  wp (_settle_receiver_offload w fuel row recovering initial) (fun _ s' => retained s0 0 s') (fun _ s' => retained s0 1 s') s.
Proof.
  intros Hr. unfold _settle_receiver_offload. destruct (_offload_counters_are_equal initial); [rewrite wp_ret; auto|].
  destruct (_ || recovering); [rewrite wp_ret; auto|]. destruct (negb _); [rewrite wp_ret; auto|].
  rewrite wp_bind, wp_ask. apply retained_settle_loop; auto.
Qed.

(** The capture's last event is the file with every block, and every poll is in it. *)
Definition kept_in (name : string) (s0 : runner) (slack : nat) (s : runner) : Prop :=
  exists tr, trace s = tr ++ [Wrote name (Body (blocks_text (blocks s)))] /\ retained s0 slack s.

Lemma retained_wrote s0 k name c s : retained s0 k s -> retained s0 k (log (Wrote name c) (tick s)).
Proof. intros (j & Hj & H). exists j. split; [done|]. simpl. rewrite count_snoc. simpl. lia. Qed.

Lemma kept_write w name s0 k s (X : runner_exn -> runner -> Prop) : (forall n, write_ok w n = true) -> retained s0 k s ->
  wp (write_blocks w name) (fun _ s' => kept_in name s0 k s') X s.
Proof.
  intros Hw Hr. unfold write_blocks, _write. rewrite wp_bind, wp_self, wp_put, Hw. eexists. split; [reflexivity|]. by apply retained_wrote.
Qed.

Lemma kept_active_loop w fuel sfuel row allow deadline attempt s0 s : (forall n, write_ok w n = true) -> retained s0 0 s ->
  wp (active_loop w fuel sfuel row allow deadline attempt)
     (fun _ s' => kept_in "receiver-active-status.txt" s0 0 s') (fun _ s' => retained s0 1 s') s.
Proof.
  intros Hw. revert attempt s. induction fuel as [|fuel IH]; intros attempt s Hr; cbn [active_loop]; [rewrite wp_raise; auto|].
  rewrite wp_bind, wp_ask. destruct (negb _); [rewrite wp_raise; auto|]. rewrite wp_bind, wp_check_cancel. destruct (cancel w _); [auto|].
  apply wp_poll; [auto|]. intros st s1 Hr1.
  match goal with |- wp (if ?b then _ else _) _ _ _ => destruct b end.
  - unfold accept_active. rewrite wp_bind. eapply wp_mono; [by apply retained_settle| |auto]. intros fe s2 Hr2.
    rewrite wp_bind. apply wp_verdict; [|auto]. intros errors _. rewrite wp_bind, wp_check.
    destruct (bool_decide _); [|auto]. rewrite wp_bind. eapply wp_mono; [by apply (kept_write _ _ s0 0 _ (fun _ s' => retained s0 1 s'))| |auto].
    intros u s3 Hk. by rewrite wp_ret.
  - rewrite wp_bind, wp_ask. destruct (_ <=? 0); [rewrite wp_raise; auto|].
    rewrite wp_bind, wp_check_cancel. destruct (cancel w _); [auto|]. rewrite wp_bind, wp_check_cancel. destruct (cancel w _); auto.
Qed.

(** *** The active snapshot *)

Lemma active_loop_sound w fuel sfuel row allow deadline attempt a s s' :
  active_loop w fuel sfuel row allow deadline attempt s = (Ok a, s') ->
  exists initial e, settled initial (a_offload a, e) /\ a_settle a = Some e
    /\ _validate_active_offload (Some (a_offload a)) (profile row) NoRecovery (moving (Some e)) allow = Ok []
    /\ get initial "state" = StrV "ACTIVE".
Proof.
  revert attempt s. induction fuel as [|fuel IH]; intros attempt s H; cbn [active_loop] in H; row_inv.
  destruct (negb _); row_inv.
  match type of H with (if ?b then _ else _) _ = _ => destruct b eqn:Hready end.
  - unfold accept_active in H. row_inv. bool_to_prop. subst.
    match goal with H : _settle_receiver_offload _ _ _ _ ?i _ = (Ok ?fe, _) |- _ => apply settle_sound in H; exists i, fe.2; destruct fe end.
    by split_and!.
  - row_inv. match type of H with (if ?b then _ else _) _ = _ => destruct b end; row_inv. by eapply IH.
Qed.

(** *** The polling predicate *)

Lemma unless_true c k : unless_ c k = Ok true <-> c = false /\ k = Ok true.
Proof. destruct c; simpl; naive_solver. Qed.
Lemma entry_int b f n : int_is b f n -> exists v, entry b f = Ok v /\ as_int v = Some n.
Proof. unfold int_is, entry, get. destruct (dict_get f b) as [v|]; simpl; [eauto | done]. Qed.
Lemma py_eq_int v e n : as_int e = Some n -> py_eq v e = eq_z v n.
Proof. unfold py_eq, eq_z. intros ->. by destruct (as_int v). Qed.
Lemma below_true v n : below v n = Ok false <-> exists m, as_int v = Some m /\ n <= m.
Proof. unfold below. destruct (as_int v) as [m|]; [|naive_solver]. split; [intros [= ?%Z.ltb_ge]; eauto | intros (? & [= <-] & ?); f_equal; apply Z.ltb_ge; lia]. Qed.
Lemma not_above_false a b n : as_int b = Some n -> not_above a b = Ok false <-> exists m, as_int a = Some m /\ n < m.
Proof.
  unfold not_above. intros ->. destruct (as_int a) as [m|]; [|naive_solver].
  split; [intros [= ?%Z.leb_gt]; eauto | intros (? & [= <-] & ?); f_equal; apply Z.leb_gt; lia].
Qed.
Lemma successor_int v n : as_int v = Some n -> successor v = Ok (n + 1).
Proof. unfold successor. by intros ->. Qed.

Record polled (o b : dict) (restarts : Z) : Prop := mk_polled {
  po_active : get o "state" = StrV "ACTIVE";
  po_attempt : int_is o "recovery_attempts" (base b "recovery_attempts" + 1);
  po_probation : int_is o "probation_active" 0;
  po_cleared : exists n, int_or o "probation_cleared" n /\ base b "probation_cleared" < n;
  po_epoch : ~ int_is o "epoch" (base b "epoch");
  po_fallback : exists n, int_or o "fallback" n /\ base b "fallback" < n;
  po_success : exists n, int_or o "success" n /\ base b "success" < n;
  po_restarts : int_is o "runtime_restarts" (base b "runtime_restarts" + restarts) }.

Lemma baseline_entry b f : baseline_ok b -> f ∈ BASELINE_FIELDS -> exists v, entry b f = Ok v /\ as_int v = Some (base b f).
Proof.
  intros Hb Hf. destruct (Hb f Hf) as (n & Hn & _). destruct (entry_int b f n Hn) as (v & Hv & Hi). exists v. split; [done|].
  unfold base. unfold int_is in Hn. by rewrite Hn.
Qed.

Lemma recovery_complete_iff o b hang : baseline_ok b ->
  _recovery_complete o b (if hang : bool then "hang" else "stall") = Ok true <-> polled o b (if hang then 1 else 0).
Proof.
  intros Hb. unfold _recovery_complete.
  destruct (baseline_entry b "recovery_attempts" Hb) as (va & -> & Ha); [set_solver|].
  destruct (baseline_entry b "probation_cleared" Hb) as (vc & -> & Hc); [set_solver|].
  destruct (baseline_entry b "epoch" Hb) as (ve & -> & He); [set_solver|].
  destruct (baseline_entry b "fallback" Hb) as (vf & -> & Hf); [set_solver|].
  destruct (baseline_entry b "success" Hb) as (vs & -> & Hs); [set_solver|].
  destruct (baseline_entry b "runtime_restarts" Hb) as (vr & -> & Hr); [set_solver|].
  cbn [mbind result_bind]. rewrite (successor_int _ _ Ha), (successor_int _ _ Hc), (successor_int _ _ Hr), (py_eq_int _ _ _ He), (py_eq_int _ _ _ Hr).
  assert ((if String.eqb (if hang then "hang" else "stall") "hang"
           then Ok (eq_z (get o "runtime_restarts") (base b "runtime_restarts" + 1))
           else Ok (eq_z (get o "runtime_restarts") (base b "runtime_restarts")) : result runner_exn bool) = Ok true
          <-> int_is o "runtime_restarts" (base b "runtime_restarts" + (if hang then 1 else 0))) as Hlast.
  { unfold int_is. rewrite <- eq_z_iff. destruct hang; cbn [String.eqb Ascii.eqb Bool.eqb mbind result_bind]; rewrite ?Z.add_0_r; by split; [intros [= ?] | intros ->]. }
  cbn [mbind result_bind] in *. rewrite !unless_true, !negb_false_iff, bool_decide_eq_true, !eq_z_iff, bind_Ok. split.
  - intros (H1 & H2 & H3 & low & Hlow & H). apply unless_true in H as [-> H]. apply below_true in Hlow as (n1 & Hn1 & ?).
    apply unless_true in H as [Hep H]. apply bind_Ok in H as (stuck & Hstuck & H). apply unless_true in H as [-> H].
    apply (not_above_false _ _ _ Hf) in Hstuck as (n2 & Hn2 & ?). apply bind_Ok in H as (idle & Hidle & H). apply unless_true in H as [-> H].
    apply (not_above_false _ _ _ Hs) in Hidle as (n3 & Hn3 & ?). apply Hlast in H.
    split; try done; [exists n1; split; [done | lia] | | by exists n2 | by exists n3].
    intros Hn. apply eq_z_iff in Hn. congruence.
  - intros [H1 H2 H3 (n1 & ? & ?) H4 (n2 & ? & ?) (n3 & ? & ?) Hre]. split_and!; [done..|].
    exists false. split; [apply below_true; exists n1; split; [done | lia]|]. apply unless_true. split; [done|].
    apply unless_true. split; [apply not_true_iff_false; by rewrite eq_z_iff|].
    apply bind_Ok. exists false. split; [apply (not_above_false _ _ _ Hf); by exists n2|]. apply unless_true. split; [done|].
    apply bind_Ok. exists false. split; [apply (not_above_false _ _ _ Hs); by exists n3|]. apply unless_true. split; [done | by apply Hlast].
Qed.

(** *** The fault window *)

Definition polls (n : nat) : list event := replicate n (Asked "flpr offload").
Lemma polls_S n : [Asked "flpr offload"] ++ polls n = polls (S n).
Proof. done. Qed.

Lemma baseline_loop_sound w fuel deadline f window win b s s' :
  baseline_loop w fuel deadline f window s = (Ok (win, b), s') ->
  (exists n, trace s' = trace s ++ polls n)
  /\ match b with Some b => exists st, _fault_baseline_ready st f = true /\ b = normalized_recovery_baseline st | None => True end.
Proof.
  revert window s. induction fuel as [|fuel IH]; intros window s H; cbn [baseline_loop] in H; row_inv.
  destruct (negb _); row_inv.
  { match goal with H : (_, _) = (_, _) |- _ => injection H as -> -> end. split; [exists 0%nat; by rewrite app_nil_r | done]. }
  match type of H with (if ?c then _ else _) _ = _ => destruct c eqn:Hr end; row_inv.
  - match goal with H : (_, _) = (_, _) |- _ => injection H as -> -> end. split; [by exists 1%nat | eauto].
  - apply IH in H as [(n & Hn) H]. split; [|done]. exists (S n). cbn [trace tick log] in Hn. by rewrite Hn, <- polls_S, app_assoc.
Qed.

Lemma recovery_loop_sound w fuel deadline f b window win r s s' :
  recovery_loop w fuel deadline f b window s = (Ok (win, r), s') ->
  (exists n, trace s' = trace s ++ polls n)
  /\ match r with Some (final, _) => _recovery_complete final b f = Ok true /\ exists st, final = normalized_recovery_baseline st | None => True end.
Proof.
  revert window s. induction fuel as [|fuel IH]; intros window s H; cbn [recovery_loop] in H; row_inv.
  destruct (negb _); row_inv.
  { match goal with H : (_, _) = (_, _) |- _ => injection H as -> -> end. split; [exists 0%nat; by rewrite app_nil_r | done]. }
  match type of H with (if ?c then _ else _) _ = _ => destruct c eqn:Hr end; row_inv.
  - match goal with H : (_, _) = (_, _) |- _ => injection H as -> -> end. split; [by exists 1%nat | by eauto].
  - apply IH in H as [(n & Hn) H]. split; [|done]. exists (S n). cbn [trace tick log] in Hn. by rewrite Hn, <- polls_S, app_assoc.
Qed.

(** *** Stream summaries *)

Definition slots_ok (count : Z) (acc : list stream_summary * list Z) : Prop :=
  acc.2 = slot <$> acc.1 /\ NoDup acc.2 /\ Forall (fun k => 0 <= k < count) acc.2.

Lemma append_summaries_ok count keep found acc acc' s s' : slots_ok count acc ->
  append_summaries count keep found acc s = (Ok acc', s') -> slots_ok count acc' /\ s' = s.
Proof.
  revert acc. induction found as [|x found IH]; intros acc Hacc H; cbn [append_summaries] in H; row_inv; [done|].
  bool_to_prop. case_bool_decide as Hin; row_inv; [by eapply IH|]. eapply IH; [|exact H]. destruct Hacc as (Heq & Hnd & Hr). unfold slots_ok. cbn [fst snd].
  rewrite fmap_app, Heq. split; [done|]. rewrite <- Heq. split.
  - apply NoDup_app. split; [done|]. split; [by intros k Hk ->%list_elem_of_singleton | apply NoDup_singleton].
  - apply Forall_app. split; [done|]. by apply Forall_singleton.
Qed.

Lemma all_slots n l : NoDup l -> Forall (fun k => 0 <= k < n) l -> (n <= Z.of_nat (length l) \/ forall k, 0 <= k < n -> k ∈ l) -> l ≡ₚ seqZ 0 n.
Proof.
  intros Hnd Hr [Hlen|Hall].
  - apply submseteq_length_Permutation; [|rewrite length_seqZ; lia]. apply NoDup_submseteq; [done|].
    intros k Hk. rewrite Forall_forall in Hr. apply elem_of_seqZ. specialize (Hr k Hk). lia.
  - apply NoDup_Permutation; [done | apply NoDup_seqZ|]. intros k. rewrite elem_of_seqZ. rewrite Forall_forall in Hr.
    split; [intros Hk; specialize (Hr k Hk); lia | intros Hk; apply Hall; lia].
Qed.

Lemma no_slots count : slots_ok count ([], []).
Proof. split_and!; [done | constructor | constructor]. Qed.

Lemma raw_fallback_ok w count off ss s s' : raw_fallback_summaries w count off s = (Ok ss, s') -> slot <$> ss ≡ₚ seqZ 0 count /\ trace s' = trace s.
Proof.
  unfold raw_fallback_summaries. intros H. row_inv.
  match goal with H : append_summaries _ _ _ _ _ = _ |- _ => apply append_summaries_ok in H as [(Heq & Hnd & Hr) ?]; [|apply no_slots] end.
  bool_to_prop. subst. split; [|done].
  match goal with H : List.filter ?p _ = [] |- _ => assert (forall k, k ∈ seqZ 0 count -> p k = false) as Hmiss end.
  { intros k Hk. apply not_true_iff_false. intros Hp. match goal with H : List.filter _ _ = [] |- _ => eapply elem_of_nil; rewrite <- H end.
    by apply list_elem_of_In, filter_In; split; [apply list_elem_of_In|]. }
  rewrite <- Heq. apply all_slots; [done..|]. right. intros k Hk.
  specialize (Hmiss k). rewrite negb_false_iff, bool_decide_eq_true in Hmiss. apply Hmiss, elem_of_seqZ. lia.
Qed.

Lemma wait_line_trace w fuel deadline b l s s' : wait_line_loop w fuel deadline b s = (Ok l, s') -> trace s' = trace s.
Proof.
  revert s. induction fuel as [|fuel IH]; intros s H; cbn [wait_line_loop] in H; row_inv. destruct (_ <=? 0); row_inv; [done|].
  destruct (rx_line w _) as [[text|]|]; row_inv; [done|]. by apply IH in H.
Qed.

Lemma summary_loop_ok w fuel lfuel deadline count off acc sb s s' : slots_ok count acc ->
  summary_loop w fuel lfuel deadline count off acc s = (Ok sb, s') -> slot <$> sb.1 ≡ₚ seqZ 0 count /\ trace s' = trace s.
Proof.
  assert (forall acc, slots_ok count acc -> negb (Z.of_nat (length acc.1) <? count) = true -> slot <$> acc.1 ≡ₚ seqZ 0 count) as Hdone.
  { clear. intros acc (Heq & Hnd & Hr) Hlen. bool_to_prop. rewrite <- Heq. apply all_slots; [done..|]. left. rewrite Heq, length_fmap. done. }
  revert acc s. induction fuel as [|fuel IH]; intros acc s Hacc H; cbn [summary_loop] in H;
    (destruct (negb _) eqn:Hlen; [row_inv; split; [by eapply Hdone | done]|]); row_inv.
  destruct (_ <=? 0); row_inv.
  { match goal with H : raw_fallback_summaries _ _ _ _ = _ |- _ => by apply raw_fallback_ok in H end. }
  unfold _wait_console_line in *. row_inv.
  match goal with H : wait_line_loop _ _ _ _ _ = _ |- _ => apply wait_line_trace in H as Htr end. cbn [trace tick] in Htr.
  match goal with H : (match ?l with Some _ => _ | None => _ end) _ = _ |- _ => destruct l as [text|] end; row_inv.
  - match goal with H : append_summaries _ _ _ _ _ = _ |- _ => apply append_summaries_ok in H as [? ->]; [|done] end.
    apply IH in H as [? ->]; done.
  - match goal with H : raw_fallback_summaries _ _ _ _ = _ |- _ => apply raw_fallback_ok in H as [? ->] end. done.
Qed.

Lemma check_each_ok (f : stream_summary -> bool) e ss u s s' :
  check_each (fun x => check (f x) (e x)) ss s = (Ok u, s') -> Forall (fun x => f x = true) ss /\ s' = s.
Proof. revert u. induction ss as [|x ss IH]; intros u H; cbn [check_each] in H; row_inv; [by split|]. apply IH in H as [? ->]. split; [by constructor | done]. Qed.

(** A segment end: every slot once, clean, within the limits. *)
Definition segment_ok (row : RowSpec) (segment : Z) (g : segment_summary) : Prop :=
  g_segment g = segment /\ slot <$> g_streams g ≡ₚ seqZ 0 (stream_count row) /\ last (g_streams g) = Some (g_last g)
  /\ Forall (fun s => clean_summary s = true /\ validate_stream_transport s (expected_submitted_per_segment row) = []) (g_streams g).

Lemma session_end_ok w fuel lfuel timeout row segment off g s s' :
  _step_session_end w fuel lfuel timeout row segment off s = (Ok g, s') -> segment_ok row segment g /\ trace s' = trace s.
Proof.
  unfold _step_session_end. intros H. row_inv.
  match goal with H : summary_loop _ _ _ _ _ _ _ _ = _ |- _ => apply summary_loop_ok in H as [Hslots Htr]; [|apply no_slots] end.
  match goal with H : (match last ?l with Some _ => _ | None => _ end) _ = _ |- _ => destruct (last l) as [x|] eqn:Hlast end; row_inv.
  repeat match goal with H : check_each _ _ _ = _ |- _ => apply check_each_ok in H as [? ->] end.
  split; [|done]. unfold segment_ok. cbn [g_segment g_streams g_last]. split_and!; [done..|].
  apply Forall_and. split; [done|]. match goal with H : Forall _ _ |- _ => apply (Forall_impl _ _ _ H) end.
  intros y Hy. by apply bool_decide_eq_true in Hy.
Qed.

(** *** The log scan *)

Definition occurs_in (x : list ascii) (ls : list (list ascii)) : Z := Z.of_nat (count (fun y => bool_decide (x = y)) ls).
Lemma occurs_in_cons x y ls : occurs_in x (y :: ls) = (if bool_decide (x = y) then 1 else 0) + occurs_in x ls.
Proof. unfold occurs_in, count. simpl. case_bool_decide; simpl; lia. Qed.

Lemma count_of_set t x y n : count_of (dict_set x n t) y = if bool_decide (y = x) then n else count_of t y.
Proof. unfold count_of. case_bool_decide; [subst; by rewrite dict_get_set_eq | by rewrite dict_get_set_ne]. Qed.

Lemma tally_of_count ls x : count_of (tally_of ls) x = occurs_in x ls.
Proof.
  unfold tally_of. assert (forall t, count_of (fold_left (fun t x => dict_set x (count_of t x + 1) t) ls t) x = count_of t x + occurs_in x ls) as H.
  { induction ls as [|y ls IH]; intros t; simpl; [unfold occurs_in, count; simpl; lia|].
    rewrite IH, count_of_set, occurs_in_cons. case_bool_decide; subst; lia. }
  rewrite H. done.
Qed.

(** A source line the scan has nothing to say about, whatever was consumed. *)
Definition proper_record (line : list ascii) : Prop :=
  exists r, HilProtocol.parse_hil1_line (HilProtocol.LStr (of_chars line)) = Ok (Some r) /\ HilSourceClient.is_diagnostic_record r = false.

Lemma scan_source_lines_iff ls left s s' : (forall x, 0 <= count_of left x) ->
  scan_source_lines ls left s = (Ok [], s') <->
  s' = s /\ Forall proper_record (List.filter is_hil1 ls) /\ forall x, occurs_in x (rstrip_crs <$> List.filter is_hil1 ls) <= count_of left x.
Proof.
  revert left. induction ls as [|line ls IH]; intros left Hleft; cbn [scan_source_lines List.filter].
  { split; [|by intros [-> _]]. intros H. row_inv. split_and!; [done | constructor | intros x; apply Hleft]. }
  destruct (is_hil1 line) eqn:Hh; cbn [negb]; [|by apply IH]. rewrite Forall_cons, fmap_cons. unfold proper_record at 1.
  setoid_rewrite occurs_in_cons.
  destruct (HilProtocol.parse_hil1_line _) as [[r|]|e] eqn:Hp.
  2: { split; [intros H; by row_inv|]. by intros (_ & [(r & [= ] & _) _] & _). }
  2: { split; [intros H; row_inv; done|]. by intros (_ & [(r & [= ] & _) _] & _). }
  destruct (HilSourceClient.is_diagnostic_record r) eqn:Hd.
  { split; [|intros (_ & [(r' & [= <-] & Hd') _] & _); by rewrite Hd in Hd']. destruct (_ <=? 0); intros H; row_inv; done. }
  destruct (count_of left (rstrip_crs line) <=? 0) eqn:Hc; bool_to_prop.
  - split; [intros H; row_inv; done|]. intros (_ & _ & Hx). specialize (Hx (rstrip_crs line)). rewrite bool_decide_true in Hx by done.
    unfold occurs_in in Hx. lia.
  - assert (forall x, 0 <= count_of (dict_set (rstrip_crs line) (count_of left (rstrip_crs line) - 1) left) x) as Hleft'
      by (intros x; rewrite count_of_set; case_bool_decide; [lia | apply Hleft]).
    specialize (IH _ Hleft'). split.
    + intros H. row_inv. match goal with H : [] = [] ++ ?a |- _ => simpl in H; subst a end. apply IH in Hm as (-> & Hf & Hx). split; [done|].
      split; [split; [by exists r | done]|]. intros x. specialize (Hx x). rewrite count_of_set in Hx. case_bool_decide; subst; lia.
    + intros (-> & [_ Hf] & Hx). rewrite run_bind. rewrite (proj2 IH); [done|]. split; [done|]. split; [done|].
      intros x. specialize (Hx x). rewrite count_of_set. case_bool_decide; subst; lia.
Qed.

(** *** One segment of the row *)

Lemma tail_commands_ok w q s s' : tail_commands w LIVE_TAIL_COMMANDS None s = (Ok q, s') ->
  exists iq, q = Some iq /\ trace s' = trace s ++ [Asked "bt iso quality"].
Proof. unfold LIVE_TAIL_COMMANDS. cbn [tail_commands]. rewrite String.eqb_refl. intros H. row_inv. by eexists. Qed.

Definition quality_ok (row : RowSpec) (q : option iso_quality) : Prop :=
  exists iq, q = Some iq /\ validate_iso_link_quality (Some (of_quality iq)) (stream_count row) = [].
Lemma receiver_tail_ok w row q s s' : _collect_receiver_tail w row s = (Ok q, s') -> quality_ok row q.
Proof.
  unfold _collect_receiver_tail. intros H. row_inv. bool_to_prop.
  match goal with H : tail_commands _ _ _ _ = _ |- _ => apply tail_commands_ok in H as (iq & -> & _) end. by exists iq.
Qed.

(** The stopped receiver: its verdict accepted the parsed diagnostics. *)
Definition stopped_ok (row : RowSpec) (a : active) (r : option fault_recovery) (allow : bool) (p : post_stop) : Prop :=
  exists faults, receiver_audio_faults (Client.join_lines (p_audio p)) = Some faults
    /\ validate_receiver_lifecycle_blocks (Some (of_audio faults)) (Some (a_offload a)) (Some (p_offload p)) (Some (p_handshake p))
         (profile row) (recovery_opt r) (moving (a_settle a)) allow = Ok [].
Lemma post_stop_ok w row a r allow p s s' : _collect_receiver_post_stop w row a r allow s = (Ok p, s') -> stopped_ok row a r allow p.
Proof. unfold _collect_receiver_post_stop, stopped_ok. intros H. row_inv. bool_to_prop. subst. eauto. Qed.

(** A recovery that was injected and seen through. *)
Record injected (f : string) (r : fault_recovery) : Prop := mk_injected {
  i_fault : f_fault r = f;
  i_command : dict_get f FAULT_COMMANDS = Some (f_command r);
  i_baseline : exists st, _fault_baseline_ready st f = true /\ f_baseline r = normalized_recovery_baseline st;
  i_ack : exists t, parse_fault_ack t f = Some (f_ack r);
  i_complete : _recovery_complete (f_final r) (f_baseline r) f = Ok true }.

Lemma fault_window_ok w fuel f r s s' : _run_fault_window w fuel f s = (Ok r, s') ->
  injected f r /\ exists n m text,
    trace s' = trace s ++ polls n ++ [Wrote "fault-baseline.json" Document; Asked (f_command r)] ++ polls m
                       ++ [Wrote "recovery-window.txt" (Body text); Wrote "recovery.json" Document].
Proof.
  unfold _run_fault_window. destruct (dict_get f FAULT_COMMANDS) as [command|] eqn:Hc; [|done]. intros H. row_inv.
  match goal with H : baseline_loop _ _ _ _ _ _ = (Ok ?x, _) |- _ => destruct x as [win b]; apply baseline_loop_sound in H as [(n & Hn) Hb] end.
  cbn [fst snd] in *. destruct b as [b|]; row_inv.
  match goal with H : (match parse_fault_ack ?t _ with Some _ => _ | None => _ end) _ = _ |- _ => destruct (parse_fault_ack t f) as [ack|] eqn:Hack end; row_inv.
  match goal with H : recovery_loop _ _ _ _ _ _ _ = (Ok ?x, _) |- _ => destruct x as [win2 fin]; apply recovery_loop_sound in H as [(m & Hm2) Hf] end.
  cbn [fst snd] in *. destruct fin as [[final stop]|]; row_inv. destruct Hf as [Hf _]. cbn [trace tick log] in *. split.
  - by split; eauto.
  - do 3 eexists. cbn [f_command]. rewrite Hm2. cbn [trace tick log]. rewrite Hn, <- !app_assoc. done.
Qed.

(** The snapshot a segment's verdict starts from. *)
Definition active_ok (row : RowSpec) (allow : bool) (segment : Z) (r : option fault_recovery) (a : active) : Prop :=
  match fault row with
  | Some f =>
      if segment =? 0 then exists rec, r = Some rec /\ injected f rec /\ a = mk_active (f_final rec) None
      else exists initial e, settled initial (a_offload a, e) /\ a_settle a = Some e
           /\ _validate_active_offload (Some (a_offload a)) (profile row) NoRecovery (moving (Some e)) allow = Ok []
  | None => exists initial e, settled initial (a_offload a, e) /\ a_settle a = Some e
           /\ _validate_active_offload (Some (a_offload a)) (profile row) NoRecovery (moving (Some e)) allow = Ok []
  end.

(** Everything the row keeps of one segment. *)
Definition segment_evidence (row : RowSpec) (allow : bool) (segment : Z) (r : row_result) : Prop :=
  segment ∈ source_active r
  /\ exists a q g p, dict_get segment (actives r) = Some a /\ active_ok row allow segment (row_recovery r) a
    /\ (segment, q) ∈ tails r /\ quality_ok row q
    /\ (g, p) ∈ summaries r /\ segment_ok row segment g /\ stopped_ok row a (row_recovery r) allow p.

(** What one round of the hooks adds. *)
Definition adds_segment (row : RowSpec) (allow : bool) (segment : Z) (r r' : row_result) : Prop :=
  source_active r' = source_active r ++ [segment]
  /\ row_recovery r' = (if bool_decide (is_Some (fault row)) && (segment =? 0) then row_recovery r' else row_recovery r)
  /\ exists a q g p, actives r' = dict_set segment a (actives r) /\ active_ok row allow segment (row_recovery r') a
    /\ tails r' = tails r ++ [(segment, q)] /\ quality_ok row q
    /\ summaries r' = summaries r ++ [(g, p)] /\ segment_ok row segment g /\ stopped_ok row a (row_recovery r') allow p.

Lemma collect_active_sound w fuel sfuel row allow a s s' : _collect_receiver_active_offload w fuel sfuel row allow s = (Ok a, s') ->
  exists initial e, settled initial (a_offload a, e) /\ a_settle a = Some e
    /\ _validate_active_offload (Some (a_offload a)) (profile row) NoRecovery (moving (Some e)) allow = Ok [].
Proof.
  unfold _collect_receiver_active_offload. intros H. row_inv.
  match goal with H : active_loop _ _ _ _ _ _ _ _ = _ |- _ => apply active_loop_sound in H as (i & e & Hs & He & Hv & _) end. eauto.
Qed.

Lemma run_hooks_adds w fs timeout row allow segment r r' s s' :
  run_hooks w fs timeout row allow segment r s = (Ok r', s') -> adds_segment row allow segment r r'.
Proof.
  unfold run_hooks, collect_streaming, collect_tail, collect_summary. intros H. row_inv.
  match goal with H : _collect_receiver_tail _ _ _ = _ |- _ => apply receiver_tail_ok in H end.
  match goal with H : _step_session_end _ _ _ _ _ _ _ _ = _ |- _ => apply session_end_ok in H as [? _] end.
  match goal with H : _collect_receiver_post_stop _ _ _ _ _ _ = _ |- _ => apply post_stop_ok in H end.
  cbn [actives bases tails summaries row_recovery source_active] in *.
  match goal with H : (match fault row with Some _ => _ | None => _ end) _ = (Ok ?x, _) |- _ => rename H into Hact; rename x into r1 end.
  assert (exists a, actives r1 = dict_set segment a (actives r) /\ active_ok row allow segment (row_recovery r1) a
    /\ source_active r1 = source_active r ++ [segment] /\ tails r1 = tails r /\ summaries r1 = summaries r
    /\ row_recovery r1 = (if bool_decide (is_Some (fault row)) && (segment =? 0) then row_recovery r1 else row_recovery r)) as (act & Ha & Hok & Hsrc & Htl & Hsm & Hrec).
  { unfold active_ok. destruct (fault row) as [f|]; [destruct (segment =? 0)|]; row_inv; cbn [actives row_recovery source_active tails summaries].
    - match goal with H : _run_fault_window _ _ _ _ = _ |- _ => apply fault_window_ok in H as [? _] end. by eexists; split_and!; eauto.
    - match goal with H : _collect_receiver_active_offload _ _ _ _ _ _ = _ |- _ => apply collect_active_sound in H end. by eexists; split_and!; eauto.
    - match goal with H : _collect_receiver_active_offload _ _ _ _ _ _ = _ |- _ => apply collect_active_sound in H end. by eexists; split_and!; eauto. }
  match goal with H : dict_get segment (actives r1) = Some ?x |- _ => rewrite Ha, dict_get_set_eq in H; injection H as <- end.
  unfold adds_segment. cbn [actives bases tails summaries row_recovery source_active]. rewrite Hsrc, Htl, Hsm. split; [done|]. split; [done|].
  do 4 eexists. by split_and!.
Qed.

Lemma adds_evidence row allow segment r r' : adds_segment row allow segment r r' -> segment_evidence row allow segment r'.
Proof.
  intros (Hs & _ & a & q & g & p & Ha & ? & Ht & ? & Hsm & ? & ?). split; [rewrite Hs; apply elem_of_app; right; left|].
  exists a, q, g, p. rewrite Ha, dict_get_set_eq, Ht, Hsm. split_and!; try done; apply elem_of_app; right; left.
Qed.
Lemma evidence_kept row allow segment k r r' : 0 <= k < segment -> adds_segment row allow segment r r' -> segment_evidence row allow k r -> segment_evidence row allow k r'.
Proof.
  intros Hk (Hs & Hr & a & q & g & p & Ha & _ & Ht & _ & Hsm & _) (Hsrc & a0 & q0 & g0 & p0 & ? & ? & ? & ? & ? & ? & ?).
  rewrite (proj2 (Z.eqb_neq segment 0)), andb_false_r in Hr by lia.
  split; [rewrite Hs; apply elem_of_app; by left|]. exists a0, q0, g0, p0. rewrite Ha, dict_get_set_ne, Ht, Hsm, Hr by lia.
  split_and!; try done; apply elem_of_app; by left.
Qed.

Lemma run_segments_evidence w fs timeout row allow n k r r' s s' : 0 <= k ->
  (forall j, 0 <= j < k -> segment_evidence row allow j r) ->
  run_segments w fs timeout row allow (seqZ k n) r s = (Ok r', s') -> forall j, 0 <= j < k + n -> segment_evidence row allow j r'.
Proof.
  intros Hk0. destruct (decide (n <= 0)) as [Hn|Hn].
  { rewrite (seqZ_nil k n) by lia. cbn [run_segments]. intros Hinv H. row_inv. intros j Hj. apply Hinv. lia. }
  assert (exists m, n = Z.of_nat m) as [m ->] by (exists (Z.to_nat n); lia). clear Hn.
  revert k r s Hk0. induction m as [|m IH]; intros k r s Hk0 Hinv H.
  { rewrite (seqZ_nil k) in H by lia. cbn [run_segments] in H. row_inv. intros j Hj. apply Hinv. lia. }
  rewrite seqZ_cons in H by lia. cbn [run_segments] in H. row_inv.
  match goal with H : run_hooks _ _ _ _ _ _ _ _ = _ |- _ => apply run_hooks_adds in H as Hadd end.
  replace (Z.pred (Z.of_nat (S m))) with (Z.of_nat m) in H by lia. replace (Z.succ k) with (k + 1) in H by lia.
  intros j Hj. eapply (IH (k + 1)); [lia | | exact H | lia].
  intros i Hi. destruct (decide (i = k)) as [->|]; [by eapply adds_evidence|]. eapply evidence_kept; [|exact Hadd | apply Hinv]; lia.
Qed.

(** *** The polling loops end *)

(** The clock advances by [d] at least from turn to turn. *)
Definition advances (w : world) (d : Z) : Prop := 0 < d /\ forall k, clock w k + d <= clock w (S k).
Lemma advances_by w d m n : advances w d -> (m <= n)%nat -> clock w m + d * Z.of_nat (n - m) <= clock w n.
Proof.
  intros [Hd Hw] Hmn. induction Hmn as [|n Hmn IH]; [replace (m - m)%nat with 0%nat by lia; lia|].
  specialize (Hw n). replace (S n - m)%nat with (S (n - m)) by lia. rewrite Nat2Z.inj_succ, Z.mul_succ_r. lia.
Qed.
(** Another round is paid for: three turns went by, before the deadline. *)
Lemma next_round w d deadline fuel m n : advances w d -> (m < n)%nat ->
  deadline - clock w m < d * Z.of_nat (S fuel) -> 0 < deadline - clock w n ->
  (0 < fuel)%nat /\ deadline - clock w (S (S (S n))) < d * Z.of_nat fuel.
Proof.
  intros Hw Hmn Hf Hn. pose proof Hw as [Hd _]. pose proof (advances_by w d m n Hw) as H1. pose proof (advances_by w d n (S (S (S n))) Hw) as H2.
  assert (d <= d * Z.of_nat (n - m)) by nia. rewrite Nat2Z.inj_succ, Z.mul_succ_r in Hf. split; [|lia].
  destruct fuel; [|lia]. lia.
Qed.

(** One more poll, which takes turns and may fail, but not for want of fuel. *)
Lemma ends_poll {A} w title (k : dict -> M A) (Q : A -> runner -> Prop) s :
  (forall st s1, turn s1 = S (turn s) -> wp (k (of_status st)) Q (fun e _ => e <> OutOfFuel) s1) ->
  wp (transcript ← _checked_receiver_command w "flpr offload"; append_block (block title transcript);; d ← offload_status transcript; k d)
     Q (fun e _ => e <> OutOfFuel) s.
Proof.
  intros Hk. rewrite wp_bind, wp_receiver_command. destruct (answers w _) as [t| |]; [|done..].
  destruct (scan_shell_errors t); [|done]. rewrite wp_bind, wp_append_block, wp_bind, wp_offload_status.
  destruct (receiver_offload_status t); [by apply Hk | done].
Qed.

Lemma ends_settle_loop w d fuel deadline retry initial final s : advances w d -> (0 < fuel)%nat -> deadline - clock w (turn s) < d * Z.of_nat fuel ->
  wp (settle_loop w fuel deadline retry initial final) (fun _ _ => True) (fun e _ => e <> OutOfFuel) s.
Proof.
  intros Hw. revert retry final s. induction fuel as [|fuel IH]; intros retry final s H0 Hf; [lia|]. cbn [settle_loop].
  rewrite wp_bind, wp_ask. destruct (negb _); [by rewrite wp_ret|]. rewrite wp_bind, wp_check_cancel. destruct (cancel w _); [done|].
  apply ends_poll. intros st s1 Hs1. destruct (_offload_counters_are_equal _); [by rewrite wp_ret|].
  match goal with |- wp (if ?b then _ else _) _ _ _ => destruct b end; [by rewrite wp_ret|].
  rewrite wp_bind, wp_ask. destruct (_ <=? 0) eqn:Hlate; [by rewrite wp_ret|]. bool_to_prop.
  rewrite wp_bind, wp_check_cancel. destruct (cancel w _); [done|]. rewrite wp_bind, wp_check_cancel. destruct (cancel w _); [done|].
  cbn [turn tick] in *. destruct (next_round w d deadline fuel (turn s) (turn s1)) as [? ?]; [done | lia | done | done|].
  by apply IH.
Qed.

Lemma ends_settle w d fuel row recovering initial s : advances w d -> RECEIVER_OFFLOAD_SETTLE_TIMEOUT < d * Z.of_nat fuel ->
  wp (_settle_receiver_offload w fuel row recovering initial) (fun _ _ => True) (fun e _ => e <> OutOfFuel) s.
Proof.
  intros Hw Hf. unfold _settle_receiver_offload, RECEIVER_OFFLOAD_SETTLE_TIMEOUT in *. destruct (_offload_counters_are_equal initial); [done|].
  destruct (_ || recovering); [done|]. destruct (negb _); [done|]. rewrite wp_bind, wp_ask.
  destruct Hw as [Hd Hw]. pose proof (Hw (turn s)). apply ends_settle_loop with d; [done | lia | cbn [turn tick]; lia].
Qed.

Lemma ends_active_loop w d fuel sfuel row allow deadline attempt s : advances w d -> RECEIVER_OFFLOAD_SETTLE_TIMEOUT < d * Z.of_nat sfuel ->
  (0 < fuel)%nat -> deadline - clock w (turn s) < d * Z.of_nat fuel ->
  wp (active_loop w fuel sfuel row allow deadline attempt) (fun _ _ => True) (fun e _ => e <> OutOfFuel) s.
Proof.
  intros Hw Hs. revert attempt s. induction fuel as [|fuel IH]; intros attempt s H0 Hf; [lia|]. cbn [active_loop].
  rewrite wp_bind, wp_ask. destruct (negb _); [done|]. rewrite wp_bind, wp_check_cancel. destruct (cancel w _); [done|].
  apply ends_poll. intros st s1 Hs1. match goal with |- wp (if ?b then _ else _) _ _ _ => destruct b end.
  - unfold accept_active, write_blocks, _write. rewrite wp_bind. eapply wp_mono; [by apply (ends_settle w d) | | done]. intros fe s2 _.
    rewrite wp_bind. apply wp_verdict; [|done]. intros errors _. rewrite wp_bind, wp_check. destruct (bool_decide _); [|done].
    rewrite wp_bind, wp_bind, wp_self, wp_put. by destruct (write_ok w _).
  - rewrite wp_bind, wp_ask. destruct (_ <=? 0) eqn:Hlate; [done|]. bool_to_prop.
    rewrite wp_bind, wp_check_cancel. destruct (cancel w _); [done|]. rewrite wp_bind, wp_check_cancel. destruct (cancel w _); [done|].
    cbn [turn tick] in *. destruct (next_round w d deadline fuel (turn s) (turn s1)) as [? ?]; [done | lia | done | done|].
    by apply IH.
Qed.

(** ** Theorems *)

Module CaptureTheorems.

Lemma row_has_evidence w fs timeout row allow captured r s s' :
  _step_run_row w fs timeout row allow captured s = (Ok r, s') ->
  forall segment, 0 <= segment < segment_count row -> segment_evidence row allow segment r.
Proof.
  unfold _step_run_row, start. intros H. steps_inv.
  match goal with H : run_segments _ _ _ _ _ _ _ _ = _ |- _ => rename H into Hrun end.
  intros segment Hseg. eapply run_segments_evidence in Hrun; [exact Hrun | done | intros; lia | lia].
Qed.



(** Every poll is retained, however the capture ends: with writable files its
    last event is the status file with all blocks, one per completed poll; at
    most the poll that raised has none. *)
Theorem active_polls_retained w fuel sfuel row allow s :
  (forall n, write_ok w n = true) ->
  let '(res, s') := _collect_receiver_active_offload w fuel sfuel row allow s in
  (exists before, trace s' = before ++ [Wrote "receiver-active-status.txt" (Body (blocks_text (blocks s')))])
  /\ exists k, (k <= if is_ok res then 0 else 1)%nat /\ (count is_asked (trace s') = count is_asked (trace s) + length (blocks s') + k)%nat.
Proof.
  intros Hw.
  assert (wp (_collect_receiver_active_offload w fuel sfuel row allow)
    (fun _ s' => kept_in "receiver-active-status.txt" (set_blocks [] s) 0 s') (fun _ s' => kept_in "receiver-active-status.txt" (set_blocks [] s) 1 s') s) as H.
  { unfold _collect_receiver_active_offload, new_blocks. rewrite wp_bind, wp_assign, wp_bind, wp_ask, wp_on_error.
    eapply wp_mono; [apply kept_active_loop with (s0 := set_blocks [] s); [done | exists 0%nat; split; [done | simpl; lia]] | done |].
    intros e s1 Hr. eapply wp_mono; [by apply (kept_write w _ (set_blocks [] s) 1 s1 (fun _ _ => False)) | done | done]. }
  unfold wp in H. destruct (_collect_receiver_active_offload _ _ _ _ _ _) as [[a|e] s'];
    destruct H as (before & Htr & k & Hk & Hcount); (split; [by exists before|]); exists k; simpl in *; (split; [lia|]); lia.
Qed.

(** The capture ends by itself: under a clock that advances by [d] from turn
    to turn, fuel for its 45 s and for the settle window of half a second, in
    steps of [d], is never exhausted. *)
Theorem active_capture_ends w d fuel sfuel row allow s e s' : advances w d ->
  RECEIVER_ACTIVE_OFFLOAD_TIMEOUT < d * Z.of_nat fuel -> RECEIVER_OFFLOAD_SETTLE_TIMEOUT < d * Z.of_nat sfuel ->
  _collect_receiver_active_offload w fuel sfuel row allow s = (Err e, s') -> e <> OutOfFuel.
Proof.
  intros Hw Hf Hs H. unfold RECEIVER_ACTIVE_OFFLOAD_TIMEOUT in Hf.
  assert (wp (_collect_receiver_active_offload w fuel sfuel row allow) (fun _ _ => True) (fun e _ => e <> OutOfFuel) s) as Hwp.
  { unfold _collect_receiver_active_offload, new_blocks, RECEIVER_ACTIVE_OFFLOAD_TIMEOUT, write_blocks, _write. rewrite wp_bind, wp_assign, wp_bind, wp_ask, wp_on_error.
    pose proof (proj2 Hw (turn s)). pose proof (proj1 Hw).
    eapply wp_mono; [apply ends_active_loop with d; [done | done | lia | cbn [turn tick set_blocks]; lia] | done |].
    intros e1 s1 He. rewrite wp_bind, wp_self, wp_put. by destruct (write_ok w _). }
  by eapply wp_Err in Hwp.
Qed.

(** C15. The polling predicate and the verdict agree: against a numeric baseline
    and the fault's own acknowledgement, a live status accepted by the polling
    loop is one the recovery verdict accepts, exactly when the three counters
    the loop does not look at are unchanged. *)
Theorem polled_recovery_matches_verdict (o b : dict) (hang : bool) :
  baseline_ok b -> get o "state" = StrV "ACTIVE" ->
  let fault := (if hang then "hang" else "stall")%string in
  let ack := (if hang then "FAULT_HANG_ACK" else "TIMED_STALL_ACK")%string in
  _validate_recovery o (Recovery (mk_recovery (StrV fault) (Some b) (StrV ack))) = Ok [] <->
  _recovery_complete o b fault = Ok true
  /\ int_is o "recovery_fail" (base b "recovery_fail") /\ int_is o "relapses" (base b "relapses") /\ int_is o "exhaustion" (base b "exhaustion").
Proof.
  intros Hb Hst fault ack. rewrite recovered_iff. unfold fault, ack. rewrite (recovery_complete_iff o b hang Hb). cbn [r_baseline r_fault r_ack].
  assert (recovered o b (if hang then 1 else 0) <->
    polled o b (if hang then 1 else 0) /\ int_is o "recovery_fail" (base b "recovery_fail") /\ int_is o "relapses" (base b "relapses")
    /\ int_is o "exhaustion" (base b "exhaustion")) as <-.
  { split; [intros []; by split_and!; [split | ..] | intros ([] & ? & ? & ?); by split]. }
  destruct hang; naive_solver.
Qed.

(** The fault is injected once: a window that returns asked for status, wrote
    the baseline, sent the fault's command a single time, asked for status
    again until the recovery was complete, and wrote the window and the
    result; its baseline was stable and its acknowledgement the fault's own. *)
Theorem fault_injected_once w fuel f r s s' : _run_fault_window w fuel f s = (Ok r, s') ->
  injected f r /\ exists n m text,
    trace s' = trace s ++ polls n ++ [Wrote "fault-baseline.json" Document; Asked (f_command r)] ++ polls m
                       ++ [Wrote "recovery-window.txt" (Body text); Wrote "recovery.json" Document].
Proof. apply fault_window_ok. Qed.

(** A segment ends with one summary per stream: the slots are 0, ..., n-1 in
    some order, also when they come from the raw evidence, no stream had a
    decode error, underrun or reset, and each is within the transport limits. *)
Theorem segment_end_complete w fuel lfuel timeout row segment off g s s' :
  _step_session_end w fuel lfuel timeout row segment off s = (Ok g, s') -> segment_ok row segment g.
Proof. intros H. by apply session_end_ok in H as [? _]. Qed.

(** An asked-for trace is what the log gives, without an error; its file. *)
Definition traced {A} (asked : bool) (r : result HciTrace.exn A) (errors : A -> list HciTrace.message) (o : option A) : Prop :=
  if asked then exists t, o = Some t /\ r = Ok t /\ errors t = [] else o = None.
Definition trace_files (hci sdc : bool) : list string :=
  (if hci then ["hci-remove-iso-path-trace.json"]%string else []) ++ (if sdc then ["sdc-hci-remove-iso-path-trace.json"]%string else []).
Definition scan_files (hci sdc : bool) : list string := "source-records.jsonl"%string :: trace_files hci sdc.
Definition written (names : list string) (s : runner) : runner := fold_left (fun s name => log (Wrote name Document) (tick s)) names s.
Fixpoint all_written (w : world) (names : list string) (n : nat) : Prop :=
  match names with [] => True | _ :: names => write_ok w n = true /\ all_written w names (S n) end.

Lemma put_iff w name c e s s' : put w name c e s = (Ok tt, s') <-> write_ok w (turn s) = true /\ s' = log (Wrote name c) (tick s).
Proof.
  unfold put. rewrite run_bind. simpl. destruct (write_ok w (turn s)); simpl; (split; [intros H; try discriminate H | intros [Hok ->]; try discriminate Hok]); [|done].
  by injection H as <-.
Qed.
Lemma trace_evidence_iff {A} w asked name (r : result HciTrace.exn A) o s s' :
  trace_evidence w asked name r s = (Ok o, s') <->
  (if asked then exists t, o = Some t /\ r = Ok t else o = None)
  /\ let names := if asked then [name] else [] in all_written w names (turn s) /\ s' = written names s.
Proof.
  unfold trace_evidence. destruct asked; simpl; [|split; [by intros [= <- <-] | by intros (-> & _ & ->)]].
  destruct r as [t|[]]; simpl; try (split; [done | by intros ((t & _ & [=]) & _)]). rewrite !run_bind. split.
  - cbn [mret method_ret]. rewrite run_bind. destruct (write_json_evidence w name s) as [[[]|] s1] eqn:Hp; [|done].
    apply put_iff in Hp as [? ->]. intros [= <- <-]. split; [by exists t|]. by split_and!.
  - intros ((t' & -> & [= <-]) & [Hw _] & ->). cbn [mret method_ret]. rewrite run_bind. unfold write_json_evidence.
    by rewrite (proj2 (put_iff _ _ _ _ _ _) (conj Hw eq_refl)).
Qed.
Lemma check_true (e : runner_exn) (s : runner) : check true e s = (Ok tt, s).
Proof. done. Qed.
Lemma check_trace_iff boundary errors s u s' : check_trace boundary errors s = (Ok u, s') <-> errors = [] /\ s' = s.
Proof. unfold check_trace. case_bool_decide; destruct u; simpl; split; try done; [by intros [= <-] | by intros [_ ->] | by intros [? _]]. Qed.
Lemma evidence_traced {A} w asked name (r : result HciTrace.exn A) (errors : A -> list HciTrace.message) o s s' :
  trace_evidence w asked name r s = (Ok o, s') /\ from_option errors [] o = [] <->
  traced asked r errors o /\ let names := if asked then [name] else [] in all_written w names (turn s) /\ s' = written names s.
Proof.
  rewrite trace_evidence_iff. unfold traced. destruct asked; split.
  - intros [[(t & -> & ->) H] He]. split; [by exists t | done].
  - intros [(t & -> & -> & He) H]. split; [split; [by exists t | done] | done].
  - by intros [[-> H] _].
  - by intros [-> H].
Qed.

Lemma traces_iff w hci sdc log s h c s' :
  (exists s1, trace_evidence w hci "hci-remove-iso-path-trace.json" (hci_trace_of log) s = (Ok h, s1)
     /\ trace_evidence w sdc "sdc-hci-remove-iso-path-trace.json" (sdc_trace_of log) s1 = (Ok c, s'))
  /\ from_option HciTrace.validation_errors [] h = [] /\ from_option HciTrace.Sdc.errors [] c = [] <->
  traced hci (hci_trace_of log) HciTrace.validation_errors h /\ traced sdc (sdc_trace_of log) HciTrace.Sdc.errors c
  /\ all_written w (trace_files hci sdc) (turn s) /\ s' = written (trace_files hci sdc) s.
Proof.
  split.
  - intros ((s1 & H1 & H2) & E1 & E2).
    destruct (proj1 (evidence_traced _ _ _ _ _ _ _ _) (conj H1 E1)) as (T1 & W1 & ->).
    destruct (proj1 (evidence_traced _ _ _ _ _ _ _ _) (conj H2 E2)) as (T2 & W2 & ->).
    split; [done|]. split; [done|]. unfold written in *; destruct hci, sdc; simpl in *; tauto.
  - intros (T1 & T2 & W & ->).
    assert (all_written w (if hci then ["hci-remove-iso-path-trace.json"]%string else []) (turn s)) as W1 by (destruct hci, sdc; simpl in *; tauto).
    set (s1 := written (if hci then ["hci-remove-iso-path-trace.json"]%string else []) s).
    assert (all_written w (if sdc then ["sdc-hci-remove-iso-path-trace.json"]%string else []) (turn s1)) as W2 by (destruct hci, sdc; simpl in *; tauto).
    destruct (proj2 (evidence_traced w hci "hci-remove-iso-path-trace.json" _ _ h s s1) (conj T1 (conj W1 eq_refl))) as [R1 E1].
    destruct (proj2 (evidence_traced w sdc "sdc-hci-remove-iso-path-trace.json" _ _ c s1 _) (conj T2 (conj W2 eq_refl))) as [R2 E2].
    split; [|done]. exists s1. split; [exact R1|]. rewrite R2. by destruct hci, sdc.
Qed.

(** The source log is complete and quiet. *)
Definition source_quiet (records : list (list ascii)) (source_log : file_read) : Prop :=
  exists raw, source_log = Bytes raw /\ utf8_valid raw = true /\ scan_warnings (splitlines raw) = []
  /\ Forall proper_record (List.filter is_hil1 (splitlines raw))
  /\ forall x, occurs_in x (rstrip_crs <$> List.filter is_hil1 (splitlines raw)) <= occurs_in x (rstrip_crs <$> List.filter is_hil1 records).
Definition receiver_quiet (row : RowSpec) (r : option fault_recovery) (h : option hci_payload) (log : option file_read) : Prop :=
  let v := scan_receiver row r log in without_arm_failures h (v_warnings v) = [] /\ v_shell v = [] /\ v_error v = None.

Lemma log_scan_iff w row r hci sdc records source_log receiver_log t s s' :
  _step_scan_logs w row r hci sdc records source_log receiver_log s = (Ok t, s') <->
  source_quiet records source_log
  /\ all_written w (scan_files hci sdc) (turn s) /\ s' = written (scan_files hci sdc) s
  /\ exists h c, traced hci (hci_trace_of receiver_log) HciTrace.validation_errors h
       /\ traced sdc (sdc_trace_of receiver_log) HciTrace.Sdc.errors c
       /\ receiver_quiet row r h receiver_log
       /\ t = match h with Some p => Some (HciPayload p) | None => SdcPayload <$> c end.
Proof.
  assert (forall x, 0 <= count_of (consumed_hil1 records) x) as Hpos by (intros x; unfold consumed_hil1; rewrite tally_of_count; unfold occurs_in; lia).
  unfold _step_scan_logs, _write_jsonl, source_quiet, receiver_quiet. split.
  - intros H. rewrite run_bind in H. destruct (put w _ _ _ s) as [[[]|] s1] eqn:Hput; [|done]. apply put_iff in Hput as [Hwok ->].
    destruct source_log as [raw|]; row_inv. bool_to_prop.
    match goal with H : no_problems ?p = true |- _ => destruct p; [|done] end.
    match goal with H : scan_source_lines _ _ _ = _ |- _ => apply scan_source_lines_iff in H as (-> & Hf & Hx); [|done] end.
    match goal with H : check_trace _ _ _ = _ |- _ => apply check_trace_iff in H as [E5 ->] end.
    match goal with H : check_trace _ _ _ = _ |- _ => apply check_trace_iff in H as [E4 ->] end.
    match type of Hm1 with _ ?x = _ => destruct (proj1 (traces_iff w hci sdc receiver_log x a1 a2 st1) (conj (ex_intro _ st0 (conj Hm1 Hm2)) (conj E4 E5))) as (T1 & T2 & W & ->) end.
    split; [exists raw; split_and!; try done; intros x; specialize (Hx x); unfold consumed_hil1 in Hx; by rewrite tally_of_count in Hx|].
    split; [done|]. split; [done|]. by exists a1, a2.
  - intros ((raw & -> & Hutf & Hw & Hf & Hx) & Hwok & -> & h & c & T1 & T2 & (V1 & V2 & V3) & ->).
    destruct Hwok as [Hw0 Hw1].
    destruct (proj2 (traces_iff w hci sdc receiver_log (log (Wrote "source-records.jsonl" Document) (tick s)) h c _) (conj T1 (conj T2 (conj Hw1 eq_refl)))) as ((s1 & R1 & R2) & E1 & E2).
    rewrite run_bind, (proj2 (put_iff _ _ _ _ _ _) (conj Hw0 eq_refl)).
    rewrite run_bind, run_bind, Hutf, check_true. cbn [mret method_ret]. rewrite run_bind.
    rewrite (proj2 (scan_source_lines_iff _ _ _ _ Hpos)) by (split_and!; [done | done | intros x; unfold consumed_hil1; rewrite tally_of_count; apply Hx]).
    rewrite run_bind, R1, run_bind, R2, Hw, V1, V2, V3, run_bind. change (_ && _) with true.
    rewrite check_true, run_bind, (proj2 (check_trace_iff _ _ _ tt _) (conj E1 eq_refl)), run_bind, (proj2 (check_trace_iff _ _ _ tt _) (conj E2 eq_refl)).
    done.
Qed.

End CaptureTheorems.

Module CaptureWitnesses.
Import CaptureTheorems.

(** A short mono row: one pending submission that moves, one stream. *)
Definition text_of (l : list string) : list ascii := l ≫= fun s => chars s ++ [CR; newline].
Definition demo_common : list string :=
  ["--- Audio status ---"; "  Decode errors : 0"; "  I2S underruns : 0"; "  Stream resets : 0"; "  Push failures : 0";
   "  Recovery   : attempts=0 fail=0 relapses=0 exhaustion=0"; "  Probation  : active=0 success=0 cleared=0";
   "  Faults     : timeout=0 full=0 stale=0 seq=0 frame=0 crc=0 payload=0";
   "--- ISO link quality ---";
   "  Stream[0] handle=0x0001 tx_unacked=0 tx_flushed=0 tx_last_subevent=0 retransmitted=0 crc_error=0 rx_unreceived=3 duplicate=0 iso_interval_1250us=8 nse=2 cig_sync_us=5000 cis_sync_us=4000 c_max_pdu=120 c_phy=2 c_bn=1 c_flush_1250us=2";
   "--- FLPR handshake ---"; "  Ready   : yes"; "  ACKed   : yes"; "  Healthy : yes"; "  Errors  : len=0 ver=0 unk=0 send=0";
            "  RX lost : 0"; "  RX dup  : 0"; "  RX ooo  : 0"; "  RX missed : 0"]%string.
Definition demo_live (submit success : string) : list ascii :=
  text_of (["  State      : ACTIVE / epoch=2 gen=1"; "  Counters   : submit=" +:+ submit +:+ " success=" +:+ success +:+ " fallback=0 busy=0"]%string ++ demo_common).
Definition demo_stopped : list ascii :=
  text_of (["  State      : STOPPED / epoch=2 gen=1"; "  Counters   : submit=780 success=780 fallback=0 busy=0"]%string ++ demo_common).
Definition demo_line : list ascii :=
  chars "<inf> bap: Stream[0] summary: SDUs=764 decoded=764 plc=13 decode_err=0 i2s_underrun=0 stream_reset=0 empty_sdu=0 rx_valid=751 rx_error=0 rx_lost=13 rx_unknown=0 rx_no_ts=0".
(** Answers by turn: the clock, the cancellation and the replies. *)
Definition demo_world (time : nat -> Z) (cancelled : nat -> bool) (replies : nat -> reply) : world :=
  mk_world time cancelled replies (fun _ => Line (Some demo_line)) (fun _ => false) (fun n => Z.of_nat n) (fun _ _ => [])
    (fun _ => true) (fun _ => NotStarted) (fun _ => SourceOk (IntV 0)) (fun _ => true) (fun _ => true) (fun _ => true) (fun _ => SessionRefused)
    (fun _ => true) (fun _ => true) (fun _ => None) (fun _ => None) (fun _ => true) (fun _ => true).
Definition row_replies (n : nat) : reply :=
  Transcript (if (n <? 12)%nat then demo_live "700" "699" else if (n <? 18)%nat then demo_live "701" "700" else demo_stopped).
Definition row_world : world := demo_world Z.of_nat (fun _ => false) row_replies.
Definition row_run := Eval vm_compute in _step_run_row row_world (mk_fuels 5 5 5 5 5) 60000000 RH2_ROW false false fresh_runner.

Lemma row_run_eq : _step_run_row row_world (mk_fuels 5 5 5 5 5) 60000000 RH2_ROW false false fresh_runner = row_run.
Proof. vm_compute. reflexivity. Qed.


Definition active_run := Eval vm_compute in _collect_receiver_active_offload row_world 5 5 RH2_ROW false (mk_runner [] [] 6).
Lemma active_run_eq : _collect_receiver_active_offload row_world 5 5 RH2_ROW false (mk_runner [] [] 6) = active_run.
Proof. vm_compute. reflexivity. Qed.


Lemma active_polls_retained_witness : exists before,
  trace active_run.2 = before ++ [Wrote "receiver-active-status.txt" (Body (blocks_text (blocks active_run.2)))].
Proof.
  pose proof (active_polls_retained row_world 5 5 RH2_ROW false (mk_runner [] [] 6) (fun _ => eq_refl)) as H.
  rewrite active_run_eq in H. destruct H as [H _]. exact H.
Defined.

(** A receiver that never becomes active, a second per turn. *)
Definition idle_world : world := demo_world (fun n => 1000000 * Z.of_nat n) (fun _ => false) (fun _ => Transcript demo_stopped).
Lemma idle_advances : advances idle_world 1000000.
Proof. split; [done|]. intros k. cbn [clock idle_world demo_world]. lia. Qed.
Lemma active_capture_ends_witness : exists e,
  (_collect_receiver_active_offload idle_world 46 1 RH2_ROW false fresh_runner).1 = Err e /\ e <> OutOfFuel.
Proof.
  assert (exists e s', _collect_receiver_active_offload idle_world 46 1 RH2_ROW false fresh_runner = (Err e, s')) as (e & s' & H)
    by (do 2 eexists; vm_compute; reflexivity).
  exists e. split; [by rewrite H|]. by apply (active_capture_ends idle_world 1000000 46 1 RH2_ROW false fresh_runner e s' idle_advances).
Defined.

(** A hang that is injected and recovers. *)
Definition fault_status (success restarts extra : string) : list ascii :=
  text_of ["  State      : ACTIVE / epoch=" +:+ extra +:+ " gen=1"; "  Counters   : submit=" +:+ success +:+ " success=" +:+ success +:+ " fallback=" +:+ extra +:+ " busy=0";
           "  Recovery   : attempts=" +:+ extra +:+ " fail=0 relapses=0 exhaustion=0"; "  Probation  : active=0 success=0 cleared=" +:+ extra;
           "  Runtime    : restarts=" +:+ restarts +:+ " fails=0 last_ms=5 remote_epoch=1"]%string.
Definition fault_replies (n : nat) : reply :=
  Transcript (if (n <? 5)%nat then fault_status "1200" "0" "0" else if (n <? 7)%nat then text_of ["FAULT_HANG_ACK received"]%string
              else if (n <? 9)%nat then fault_status "1200" "0" "0" else fault_status "1300" "1" "1").
Definition fault_world (cancelled : nat -> bool) : world := demo_world Z.of_nat cancelled fault_replies.
Definition fault_run := Eval vm_compute in _run_fault_window (fault_world (fun _ => false)) 5 "hang" fresh_runner.

Lemma fault_injected_once_witness : exists r, fault_run.1 = Ok r /\ f_command r = "flpr hang"%string /\ injected "hang" r.
Proof.
  assert (exists r, fault_run.1 = Ok r /\ f_command r = "flpr hang"%string /\
    _run_fault_window (fault_world (fun _ => false)) 5 "hang" fresh_runner = (Ok r, fault_run.2)) as (r & Hr & Hc & H)
    by (eexists; split; [vm_compute; reflexivity | split; vm_compute; reflexivity]).
  exists r. split; [done|]. split; [done|]. by destruct (fault_injected_once _ _ _ _ _ _ H).
Defined.

Definition demo_before : dict :=
  (fun k => (k, IntV 0)) <$> ["recovery_attempts"; "recovery_fail"; "relapses"; "exhaustion"; "probation_cleared"; "runtime_restarts"; "epoch";
                              "success"; "fallback"; "probation_active"]%string.
Definition demo_after : dict :=
  ("state"%string, StrV "ACTIVE") :: ((fun k => (k, IntV 1)) <$> ["recovery_attempts"; "probation_cleared"; "runtime_restarts"; "epoch"; "success"; "fallback"]%string)
  ++ ((fun k => (k, IntV 0)) <$> ["recovery_fail"; "relapses"; "exhaustion"; "probation_active"]%string).
Lemma polled_recovery_matches_verdict_witness : _recovery_complete demo_after demo_before "hang" = Ok true.
Proof.
  apply (polled_recovery_matches_verdict demo_after demo_before true); [| reflexivity | vm_compute; reflexivity].
  intros f Hf. exists 0. unfold BASELINE_FIELDS in Hf. rewrite !elem_of_cons, elem_of_nil in Hf.
  repeat (destruct Hf as [->|Hf]; [by vm_compute|]). done.
Defined.

Lemma segment_end_complete_witness : exists g, segment_ok RH2_ROW 0 g /\ g_raw_derived g = false.
Proof.
  assert (exists g s', _step_session_end row_world 5 5 60000000 RH2_ROW 0 0 fresh_runner = (Ok g, s') /\ g_raw_derived g = false) as (g & s' & H & Hr)
    by (do 2 eexists; split; vm_compute; reflexivity).
  exists g. split; [|exact Hr]. exact (segment_end_complete _ _ _ _ _ _ _ _ _ _ H).
Defined.

(** ** What modelling showed *)

(** A fault window that raises while it polls leaves no window behind: the
    cancellation after one completed poll loses that poll's transcript, and no
    file is written, although every shell response is to be retained. *)
Theorem fault_window_lost :
  (_run_fault_window (demo_world Z.of_nat (fun n => (3 <? n)%nat) (fun _ => Transcript demo_stopped)) 5 "hang" fresh_runner).1
    = Err (RunnerCancelled "cancelled awaiting FLPR fault baseline")
  /\ trace (_run_fault_window (demo_world Z.of_nat (fun n => (3 <? n)%nat) (fun _ => Transcript demo_stopped)) 5 "hang" fresh_runner).2
    = [Asked "flpr offload"].
Proof. split; vm_compute; reflexivity. Qed.

(** The shell-error parser is documented as one for command transcripts only;
    the log scan applies it to the whole raw receiver log, so that firmware
    prose at the start of a line fails a row. *)
Theorem firmware_prose_fails_row :
  v_shell (scan_receiver RH2_ROW None (Some (Bytes (text_of ["error: retrying advertising in 10 ms"]%string)))) <> [].
Proof. vm_compute. done. Qed.
End CaptureWitnesses.
