(* ===== verification/HilEvidence.v ===== *)
(** * Evidence finalization (scripts/hil/evidence.py)

    The run directory is a map from names to bytes, the temporary files of
    [tempfile.mkstemp] among them.  Every file operation is one step that may raise: the
    [fate] of a step says so, and whether the exception arrives before or after
    the step took effect (an interrupt can be delivered between the system call
    and the next statement).  The transaction of [finalize_evidence] is the
    code's sequence of steps and handlers. *)

From S2P Require Import Prelude PyText Json.

Abbreviation bytes := (list ascii).

(** ** The directory and its faults *)

(** [Ordinary]: an [Exception] (an [OSError]); [Interrupt]: a [BaseException]
    such as [KeyboardInterrupt]. *)
Inductive fault : Type := Ordinary | Interrupt.
Inductive fate : Type := Works | Before (f : fault) | After (f : fault).

Record world : Type := mk_world { files : gmap string bytes; clock : nat }.

Inductive raised : Type := EvidenceError | UnknownOutcome | Fault (f : fault) | FileNotFound.

Definition EVIDENCE_EXCLUDED : list string := ["SHA256SUMS"; "MANIFEST.md"]%string.
Definition RUN_OUTCOMES : list string := ["prepared"; "passed"; "failed"; "cancelled"]%string.
Definition SUMS : string := "SHA256SUMS".
Definition MANIFEST : string := "MANIFEST.md".

Section transaction.
(** [fates n] is the fate of step [n]; [sha256] is [hashlib]'s hex digest;
    [irregular] says whether the directory holds a symbolic link or another
    non-regular entry; [mkstemp_name prefix taken] is the name
    [tempfile.mkstemp] chooses. *)
Context (fates : nat -> fate) (sha256 : bytes -> string) (irregular : bool) (mkstemp_name : string -> gset string -> string).

Abbreviation M A := (method world raised A).

Definition tick (w : world) : world := mk_world (files w) (S (clock w)).

(** One step: its effect is a function of the world. *)
Definition step {A} (effect : world -> result raised A * world) : M A := fun w =>
  match fates (clock w) with
  | Works => let '(r, w') := effect w in (r, tick w')
  | Before f => (Err (Fault f), tick w)
  | After f => let '(_, w') := effect w in (Err (Fault f), tick w')
  end.

(** [try: m except E: h e], for the exceptions [h] handles. *)
Definition catching {A} (m : M A) (h : raised -> option (M A)) : M A := fun w =>
  match m w with
  | (Ok a, w') => (Ok a, w')
  | (Err e, w') => match h e with Some k => k w' | None => (Err e, w') end
  end.

(** [except BaseException: pass] *)
Definition swallow_all (m : M unit) : M unit := catching m (fun _ => Some (mret tt)).
(** [except OSError: pass] *)
Definition swallow_oserror (m : M unit) : M unit :=
  catching m (fun e => match e with Fault Ordinary | FileNotFound => Some (mret tt) | _ => None end).

(** *** Steps *)

Definition mkstemp (path : string) : M string := step (fun w =>
  let name := mkstemp_name ("." ++ path ++ ".tmp")%string (dom (files w)) in
  (Ok name, mk_world (<[name := []]> (files w)) (clock w))).
Definition write_file (name : string) (data : bytes) : M unit :=
  step (fun w => (Ok tt, mk_world (<[name := data]> (files w)) (clock w))).
Definition os_replace (tmp path : string) : M unit := step (fun w =>
  match files w !! tmp with
  | Some data => (Ok tt, mk_world (<[path := data]> (delete tmp (files w))) (clock w))
  | None => (Err FileNotFound, w)
  end).
Definition unlink (path : string) : M unit := step (fun w =>
  match files w !! path with
  | Some _ => (Ok tt, mk_world (delete path (files w)) (clock w))
  | None => (Err FileNotFound, w)
  end).
Definition read_file (path : string) : M bytes := step (fun w =>
  (match files w !! path with Some d => Ok d | None => Err FileNotFound end, w)).
Definition scandir : M (list string) := step (fun w =>
  (if irregular then Err EvidenceError else Ok (fst <$> map_to_list (files w)), w)).

(** *** Staging and restoring *)

Definition _unlink_if_exists (path : string) : M unit := swallow_oserror (unlink path).

Definition _stage_metadata (path : string) (payload : bytes) : M string :=
  t ← mkstemp path;
  catching (write_file t payload;; mret t)
    (fun e => Some (_unlink_if_exists t;; raise e)).

Definition _commit_metadata (tmp path : string) : M unit := os_replace tmp path.

Definition _atomic_write_text (path : string) (text : bytes) : M unit :=
  t ← mkstemp path;
  catching (write_file t text;; os_replace t path)
    (fun e => Some (_unlink_if_exists t;; raise e)).

Definition _snapshot_bytes (path : string) : M (option bytes) :=
  catching (d ← read_file path; mret (Some d)) (fun e => match e with FileNotFound => Some (mret None) | _ => None end).

(** [owned]: the temporary still owned when the [finally] clause runs; that
    clause is outside the handler. *)
Definition _restore_metadata (path : string) (prior : option bytes) : M unit :=
  match prior with
  | None => _unlink_if_exists path
  | Some data =>
      owned ← catching
        (t ← _stage_metadata path data;
         catching (os_replace t path;; mret None) (fun _ => Some (mret (Some t))))
        (fun _ => Some (mret None));
      match owned with Some t => _unlink_if_exists t | None => mret tt end
  end.

(** *** Hashes and the manifest *)

Definition bad_name (n : string) : bool := contains "/" n || py_in n [EmptyString; "."; ".."]%string.

Definition _enumerate_evidence : M (list string) :=
  names ← scandir;
  let kept := List.filter (fun n => negb (py_in n EVIDENCE_EXCLUDED)) names in
  check (negb (existsb bad_name kept)) EvidenceError;;
  mret (sorted_strings kept).

Definition hash_line (name : string) (data : bytes) : bytes := chars (sha256 data) ++ chars "  " ++ chars name.

Fixpoint hash_all (names : list string) : M (list bytes) :=
  match names with
  | [] => mret []
  | n :: names' => d ← read_file n; ls ← hash_all names'; mret (hash_line n d :: ls)
  end.
Definition _hash_lines : M (list bytes) := names ← _enumerate_evidence; hash_all names.

Record identity : Type := mk_identity {
  fixture_id : string; run_id : string; capture_capability : string; artifact_identity : option json;
}.

(** The keys of [artifact_identity] are already in the order of
    [sort_keys=True]. *)
Definition _manifest_text (i : identity) (outcome : string) (lines : list bytes) : bytes :=
  let artifacts := match artifact_identity i with
                   | Some a => [[]; chars "## Artifacts"; []; dump false a]
                   | None => []
                   end in
  join_with (chr 10)
    ([chars "# HIL run manifest"; []; chars "fixture_id: " ++ chars (fixture_id i); chars "run_id: " ++ chars (run_id i);
      chars "capture_capability: " ++ chars (capture_capability i); chars "outcome: " ++ chars outcome; [];
      chars "## Evidence"; []] ++ lines ++ artifacts) ++ [chr 10].

Definition sums_text (lines : list bytes) : bytes := concat ((fun l => l ++ [chr 10]) <$> lines).

(** The failed manifest of a roll-back carries no artifact identity. *)
Definition _best_effort_failed_manifest (i : identity) : M unit :=
  swallow_all (lines ← _hash_lines; _atomic_write_text MANIFEST (_manifest_text i "failed" lines)).

Definition without_artifacts (i : identity) : identity := mk_identity (fixture_id i) (run_id i) (capture_capability i) None.

(** [raise EvidenceError(...) from exc] for an [Exception]. *)
Definition reported (e : raised) : raised := match e with Fault Interrupt => Fault Interrupt | UnknownOutcome => UnknownOutcome | _ => EvidenceError end.
Definition reporting {A} (m : M A) : M A := catching m (fun e => Some (raise (reported e))).

Definition stage_both (sums manifest : bytes) : M (string * string) :=
  reporting
    (t1 ← _stage_metadata SUMS sums;
     t2 ← catching (_stage_metadata MANIFEST manifest) (fun e => Some (_unlink_if_exists t1;; raise e));
     mret (t1, t2)).

(** The handler of the commit phase, for [committed] replacements made. *)
Definition roll_back (committed : nat) (t1 t2 : string) (prior_sums prior_manifest : option bytes) (i : identity) : M unit :=
  _unlink_if_exists t1;; _unlink_if_exists t2;;
  if (1 <=? committed)%nat then
    _restore_metadata SUMS prior_sums;;
    _restore_metadata MANIFEST prior_manifest;;
    if (committed =? 1)%nat && bool_decide (prior_manifest = None)
    then _best_effort_failed_manifest (without_artifacts i) else mret tt
  else mret tt.

Definition commit_both (t1 t2 : string) (prior_sums prior_manifest : option bytes) (i : identity) : M unit :=
  let handler n := fun e => Some (roll_back n t1 t2 prior_sums prior_manifest i;; raise (reported e)) in
  catching (_commit_metadata t1 SUMS) (handler 0%nat);;
  catching (_commit_metadata t2 MANIFEST) (handler 1%nat).

Definition finalize_evidence (i : identity) (outcome : string) : M string :=
  check (py_in outcome RUN_OUTCOMES) UnknownOutcome;;
  lines ← reporting _hash_lines;
  prior_sums ← reporting (_snapshot_bytes SUMS);
  prior_manifest ← reporting (_snapshot_bytes MANIFEST);
  '(t1, t2) ← stage_both (sums_text lines) (_manifest_text i outcome lines);
  commit_both t1 t2 prior_sums prior_manifest i;;
  mret MANIFEST.
End transaction.

(** ** JUnit documents *)

(** [xml.etree.ElementTree]: tag, attributes in the order set, text, children. *)
Inductive element : Type := Element (tag : string) (attributes : list (string * string)) (text : option string) (children : list element).
Definition tag (e : element) : string := let 'Element t _ _ _ := e in t.
Definition attributes (e : element) : list (string * string) := let 'Element _ a _ _ := e in a.
Definition children (e : element) : list element := let 'Element _ _ _ c := e in c.
Definition attr (name : string) (e : element) : option string := dict_get name (attributes e).

Definition RUN_TESTCASE : string := "rh2.short_mono_48_4_1".

(** [if text:] for an optional text. *)
Definition truthy (t : option string) : option string :=
  match t with Some s => if String.eqb s EmptyString then None else Some s | None => None end.
Definition message_attr (t : option string) : list (string * string) :=
  match truthy t with Some s => [("message", s)]%string | None => [] end.
Definition flag (b : bool) : string := if b then "1" else "0".

Definition _junit_element (outcome : string) (failure_message system_out : option string) (testcase : string) : result raised element :=
  ensure (negb (String.eqb testcase EmptyString)) EvidenceError;;
  let suite := of_chars (default [] (head (split_on "."%char (chars testcase)))) in
  let state :=
    if String.eqb outcome "passed" then []
    else if String.eqb outcome "cancelled" then [Element "skipped" (message_attr failure_message) None []]
    else [Element "failure" (message_attr failure_message) (truthy failure_message) []] in
  let out := match truthy system_out with Some s => [Element "system-out" [] (Some s) []] | None => [] end in
  Ok (Element "testsuite"
        [("name", ("hil." ++ suite)%string); ("tests", "1"); ("failures", flag (String.eqb outcome "failed"));
         ("skipped", flag (String.eqb outcome "cancelled")); ("errors", "0")]%string None
        [Element "testcase" [("name", testcase); ("classname", ("hil." ++ suite)%string)]%string None (state ++ out)]).

(** How many test cases of a suite have a child with this tag. *)
Definition cases_with (t : string) (suite : element) : nat := count (fun c => existsb (fun x => String.eqb (tag x) t) (children c)) (children suite).

(** ** What a complete finalization publishes *)

(** The retained evidence: every file but the two metadata files. *)
Definition payload_names (f : gmap string bytes) : list string :=
  sorted_strings (List.filter (fun n => negb (py_in n EVIDENCE_EXCLUDED)) (fst <$> map_to_list f)).
Definition payload_lines (sha256 : bytes -> string) (f : gmap string bytes) : list bytes :=
  (fun n => hash_line sha256 n (default [] (f !! n))) <$> payload_names f.

(** The directory after a successful finalization. *)
Definition published (sha256 : bytes -> string) (i : identity) (outcome : string) (f : gmap string bytes) : gmap string bytes :=
  <[MANIFEST := _manifest_text i outcome (payload_lines sha256 f)]> (<[SUMS := sums_text (payload_lines sha256 f)]> f).

(** ** The transaction *)

Module EvidenceTheorems.

Lemma run_catching {A} (m : method world raised A) h w :
  catching m h w = match m w with
                   | (Ok a, w') => (Ok a, w')
                   | (Err e, w') => match h e with Some k => k w' | None => (Err e, w') end
                   end.
Proof. done. Qed.

(** A handler that raises again leaves only the body's own success. *)
Lemma reraise_Ok {A} (m : method world raised A) (k : raised -> method world raised unit) g a w w' :
  catching m (fun e => Some (k e;; raise (g e))) w = (Ok a, w') -> m w = (Ok a, w').
Proof.
  unfold catching. destruct (m w) as [[b|e] w1]; [done|]. intros (? & ? & _ & [=])%bind_run_Ok.
Qed.
Lemma reporting_Ok {A} (m : method world raised A) a w w' : reporting m w = (Ok a, w') -> m w = (Ok a, w').
Proof. unfold reporting, catching. by destruct (m w) as [[b|e] w1]. Qed.

Section proofs.
Context (fates : nat -> fate) (sha256 : bytes -> string) (irregular : bool) (mkstemp_name : string -> gset string -> string).
Abbreviation M A := (method world raised A).
Abbreviation step := (step fates).
Abbreviation tick := HilEvidence.tick.
Abbreviation lines := (payload_lines sha256).

Lemma step_Ok {A} (eff : world -> result raised A * world) a w w' :
  step eff w = (Ok a, w') -> exists w1, eff w = (Ok a, w1) /\ files w' = files w1.
Proof.
  unfold HilEvidence.step. destruct (fates (clock w)); destruct (eff w) as [r w1]; intros [=]; subst. by exists w1.
Qed.

(** *** Steps that only read *)

(** [reads m]: whatever fails, the directory is left as it is. *)
Definition reads {A} (m : M A) : Prop := forall w, files (m w).2 = files w /\ (clock w <= clock (m w).2)%nat.

Lemma reads_step {A} (f : world -> result raised A) : reads (step (fun w => (f w, w))).
Proof. intros w. unfold HilEvidence.step. destruct (fates (clock w)); simpl; (split; [done | lia]). Qed.
Lemma reads_ret {A} (a : A) : reads (mret a).
Proof. by intros w. Qed.
Lemma reads_raise {A} e : reads (@raise world raised A e).
Proof. by intros w. Qed.
Lemma reads_check b e : reads (check b e).
Proof. by intros w. Qed.
Lemma reads_bind {A B} (m : M A) (f : A -> M B) : reads m -> (forall a, reads (f a)) -> reads (m ≫= f).
Proof.
  intros Hm Hf w. rewrite run_bind. destruct (Hm w) as [H1 H2]. destruct (m w) as [[a|e] w1]; simpl in *; [|done].
  destruct (Hf a w1) as [H3 H4]. split; [congruence | lia].
Qed.
Lemma reads_catching {A} (m : M A) h : reads m -> (forall e k, h e = Some k -> reads k) -> reads (catching m h).
Proof.
  intros Hm Hh w. unfold catching. destruct (Hm w) as [H1 H2]. destruct (m w) as [[a|e] w1]; simpl in *; [done|].
  destruct (h e) as [k|] eqn:He; simpl; [|done]. destruct (Hh _ _ He w1). split; [congruence | lia].
Qed.
#[local] Hint Resolve reads_step reads_ret reads_raise reads_check reads_bind reads_catching : le_audio.

Lemma reads_hash_all names : reads (hash_all fates sha256 names).
Proof.
  induction names as [|n names IH]; simpl; [apply reads_ret|].
  apply reads_bind; [apply (reads_step (fun w => _))|]. intros d. apply reads_bind; [done|]. auto with le_audio.
Qed.
Lemma reads_hash_lines : reads (_hash_lines fates sha256 irregular).
Proof.
  unfold _hash_lines, _enumerate_evidence. apply reads_bind; [|apply reads_hash_all].
  apply reads_bind; [apply (reads_step (fun w => _))|]. intros. auto with le_audio.
Qed.
Lemma reads_snapshot path : reads (_snapshot_bytes fates path).
Proof.
  unfold _snapshot_bytes. apply reads_catching; [apply reads_bind; [apply (reads_step (fun w => _)) | auto with le_audio]|].
  intros [] k; intros [= <-]. auto with le_audio.
Qed.
Lemma reads_reporting {A} (m : M A) : reads m -> reads (reporting m).
Proof. intros. apply reads_catching; [done|]. intros e k [= <-]. auto with le_audio. Qed.

Lemma reads_run {A} (m : M A) w r w' : reads m -> m w = (r, w') -> files w' = files w.
Proof. intros Hm H. destruct (Hm w) as [Hf _]. by rewrite H in Hf. Qed.

(** What the preparation of a finalization has read when it returns. *)
Lemma hashed_Ok ls w w' : reporting (_hash_lines fates sha256 irregular) w = (Ok ls, w') -> files w' = files w.
Proof. apply reads_run, reads_reporting, reads_hash_lines. Qed.
Lemma snapped_files path d w w' : reporting (_snapshot_bytes fates path) w = (Ok d, w') -> files w' = files w.
Proof. apply reads_run, reads_reporting, reads_snapshot. Qed.

Lemma hash_all_Ok names ls w w' : hash_all fates sha256 names w = (Ok ls, w') ->
  ls = (fun n => hash_line sha256 n (default [] (files w !! n))) <$> names.
Proof.
  revert ls w w'. induction names as [|n names IH]; intros ls w w' H; simpl in H; [by injection H as <-|].
  pose proof (reads_step (fun w => match files w !! n with Some d => Ok d | None => Err FileNotFound end) w) as [Hf _].
  apply bind_run_Ok in H as (d & w1 & Hd & (ls' & w2 & Hr & [= <-])%bind_run_Ok).
  unfold read_file in Hd. rewrite Hd in Hf. simpl in Hf. apply IH in Hr as ->. simpl. rewrite Hf. f_equal.
  apply step_Ok in Hd as (w3 & Hd & _). destruct (files w !! n); by simplify_eq/=.
Qed.

(** The lines are those of the retained evidence. *)
Lemma hash_lines_Ok ls w w' : _hash_lines fates sha256 irregular w = (Ok ls, w') -> ls = lines (files w).
Proof.
  unfold _hash_lines, _enumerate_evidence. intros (names & w1 & (all & w2 & Hs & Hc)%bind_run_Ok & H)%bind_run_Ok.
  pose proof (reads_step (fun w => if irregular then Err EvidenceError else Ok (fst <$> map_to_list (files w))) w) as [Hf _].
  unfold scandir in Hs. rewrite Hs in Hf. simpl in Hf.
  apply step_Ok in Hs as (w3 & Hs & _). destruct irregular; [done|]. simplify_eq/=.
  apply bind_run_Ok in Hc as (u & w4 & Hu & [= <- <-]). unfold check in Hu. injection Hu as _ <-.
  apply hash_all_Ok in H as ->. by rewrite Hf.
Qed.

Lemma snapshot_Ok path d w w' : _snapshot_bytes fates path w = (Ok d, w') -> d = files w !! path.
Proof.
  unfold _snapshot_bytes, catching. rewrite run_bind. unfold read_file, HilEvidence.step.
  destruct (fates (clock w)), (files w !! path); simpl; by intros [= <-].
Qed.

(** *** Names *)

Lemma payload_elem f n : n ∈ payload_names f <-> n ∈ dom f /\ n <> SUMS /\ n <> MANIFEST.
Proof.
  unfold payload_names. rewrite sorted_strings_elem, list_elem_of_In, filter_In, <- list_elem_of_In, negb_true_iff.
  unfold py_in. rewrite bool_decide_eq_false, elem_of_dom, list_elem_of_fmap. unfold EVIDENCE_EXCLUDED.
  rewrite !elem_of_cons, elem_of_nil. split.
  - intros (([k v] & -> & Hk%elem_of_map_to_list) & Hn). split; [by eexists | naive_solver].
  - intros ((v & Hv) & H1 & H2). split; [|naive_solver]. exists (n, v). split; [done|]. by apply elem_of_map_to_list.
Qed.

Context (Hfresh : forall p X, mkstemp_name p X ∉ X) (Hprefix : forall p X, String.prefix p (mkstemp_name p X) = true).

Lemma dot_not_metadata p X : mkstemp_name ("." ++ p)%string X <> SUMS /\ mkstemp_name ("." ++ p)%string X <> MANIFEST.
Proof. pose proof (Hprefix ("." ++ p)%string X) as H. split; intros Heq; by rewrite Heq in H. Qed.

Abbreviation temp path w := (mkstemp_name ("." ++ path ++ ".tmp")%string (dom (files w))).

Lemma temp_fresh path w : files w !! temp path w = None.
Proof. apply not_elem_of_dom, Hfresh. Qed.

Lemma stage_Ok path data t w w' : _stage_metadata fates mkstemp_name path data w = (Ok t, w') ->
  t = temp path w /\ files w' = <[t := data]> (files w).
Proof.
  unfold _stage_metadata. intros (t' & w1 & H1 & H2)%bind_run_Ok.
  apply step_Ok in H1 as (w2 & [= <- <-] & Hw1). simpl in Hw1.
  apply (reraise_Ok _ (fun e => _)) in H2. apply bind_run_Ok in H2 as (u & w3 & H2 & [= <- <-]).
  apply step_Ok in H2 as (w4 & [= _ <-] & Hw3). simpl in Hw3. split; [done|].
  by rewrite Hw3, Hw1, insert_insert_eq.
Qed.

Lemma replace_Ok tmp path w w' : os_replace fates tmp path w = (Ok tt, w') ->
  exists data, files w !! tmp = Some data /\ files w' = <[path := data]> (delete tmp (files w)).
Proof.
  intros (w1 & H & Hw)%step_Ok. destruct (files w !! tmp) as [d|] eqn:Hd; [|done].
  exists d. by simplify_eq/=.
Qed.

(** The two staged temporaries are new, different, and not the metadata. *)
Record temps_ok (f : gmap string bytes) (t1 t2 : string) : Prop := mk_temps_ok {
  new1 : f !! t1 = None; new2 : f !! t2 = None; distinct : t1 <> t2;
  t1_sums : t1 <> SUMS; t1_manifest : t1 <> MANIFEST; t2_sums : t2 <> SUMS; t2_manifest : t2 <> MANIFEST;
}.

Lemma temps_made (f : gmap string bytes) d1 t1 t2 :
  t1 = mkstemp_name ("." ++ SUMS ++ ".tmp")%string (dom f) ->
  t2 = mkstemp_name ("." ++ MANIFEST ++ ".tmp")%string (dom (<[t1 := d1]> f)) -> temps_ok f t1 t2.
Proof.
  intros H1 H2. assert (<[t1 := d1]> f !! t2 = None) as Hn by (subst t2; apply not_elem_of_dom, Hfresh).
  assert (t1 <> t2) by (intros Heq; rewrite Heq, lookup_insert_eq in Hn; done).
  rewrite lookup_insert_ne in Hn by done.
  destruct (dot_not_metadata (SUMS ++ ".tmp") (dom f)) as [A1 A2].
  destruct (dot_not_metadata (MANIFEST ++ ".tmp") (dom (<[t1 := d1]> f))) as [B1 B2].
  constructor; [|done|done|by rewrite H1|by rewrite H1|by rewrite H2|by rewrite H2].
  subst t1. apply not_elem_of_dom, Hfresh.
Qed.

Abbreviation staged f t1 t2 d1 d2 := (<[t2 := d2]> (<[t1 := d1]> f)).

(** Maps that agree on every name. *)
Ltac solve_map := apply map_eq; intros k; repeat (rewrite lookup_insert || rewrite lookup_delete);
  repeat case_decide; subst; try done.

Lemma commit_publishes (f : gmap string bytes) t1 t2 (d1 d2 : bytes) : temps_ok f t1 t2 ->
  <[MANIFEST := d2]> (delete t2 (<[SUMS := d1]> (delete t1 (staged f t1 t2 d1 d2)))) = <[MANIFEST := d2]> (<[SUMS := d1]> f).
Proof. intros []. solve_map. Qed.

Lemma stage_both_Ok d1 d2 t1 t2 w w' : stage_both fates mkstemp_name d1 d2 w = (Ok (t1, t2), w') ->
  temps_ok (files w) t1 t2 /\ files w' = staged (files w) t1 t2 d1 d2.
Proof.
  unfold stage_both. intros (a & w1 & H1 & (b & w2 & H2 & [= <- <- <-])%bind_run_Ok)%reporting_Ok%bind_run_Ok.
  apply (reraise_Ok _ (fun e => _)) in H2. apply stage_Ok in H1 as [Ha Hw1]. apply stage_Ok in H2 as [Hb Hw2].
  rewrite Hw1 in Hb. split; [by eapply temps_made | by rewrite Hw2, Hw1].
Qed.

Lemma finalize_Ok i outcome p w w' :
  finalize_evidence fates sha256 irregular mkstemp_name i outcome w = (Ok p, w') ->
  p = MANIFEST /\ outcome ∈ RUN_OUTCOMES /\ files w' = published sha256 i outcome (files w).
Proof.
  unfold finalize_evidence. intros (u & w0 & Hc & H)%bind_run_Ok. unfold check in Hc. injection Hc as Hc <-.
  apply ensure_Ok, bool_decide_eq_true in Hc.
  apply bind_run_Ok in H as (ls & w1 & Hl & H). pose proof (hashed_Ok _ _ _ Hl) as Hw1.
  apply reporting_Ok, hash_lines_Ok in Hl as ->.
  apply bind_run_Ok in H as (? & w2 & Hw2%snapped_files & H). apply bind_run_Ok in H as (? & w3 & Hw3%snapped_files & H).
  apply bind_run_Ok in H as ([t1 t2] & w4 & Ht & H). apply bind_run_Ok in H as (u' & w5 & H & [= <- <-]).
  split; [done|]. split; [done|]. rewrite Hw2, Hw1 in Hw3. rewrite <- Hw3. clear Hw1 Hw2.
  apply stage_both_Ok in Ht as (Hok & Hw4). apply bind_run_Ok in H as (u1 & w6 & H1 & H2).
  apply (reraise_Ok _ (fun e => _)) in H1, H2. destruct u1, u'.
  apply replace_Ok in H1 as (e1 & He1 & Hw6). apply replace_Ok in H2 as (e2 & He2 & Hw5).
  rewrite Hw6, lookup_insert_ne, lookup_delete_ne, Hw4, lookup_insert_eq in He2 by (destruct Hok; done).
  rewrite Hw4, lookup_insert_ne, lookup_insert_eq in He1 by (destruct Hok; done). simplify_eq.
  by rewrite Hw5, Hw6, Hw4, commit_publishes, Hw3.
Qed.

(** *** After the only fault *)

(** No step from here on fails. *)
Definition quiet (w : world) : Prop := forall n, (clock w <= n)%nat -> fates n = Works.

(** Every fault of the run arrives before its step takes effect, and there is
    at most one. *)
Definition one_fault : Prop :=
  (forall n f, fates n <> After f) /\ (forall n m, fates n <> Works -> fates m <> Works -> n = m).

(** [goes m w a f]: without a fault, [m] returns [a] and leaves the files [f]. *)
Definition goes {A} (m : M A) (w : world) (a : A) (f : gmap string bytes) : Prop :=
  exists w1, m w = (Ok a, w1) /\ files w1 = f /\ quiet w1.

Lemma quiet_later w w1 : quiet w -> (clock w <= clock w1)%nat -> quiet w1.
Proof. intros Hq Hle n Hn. apply Hq. lia. Qed.

Lemma quiet_tick w f : quiet w -> quiet (tick (mk_world f (clock w))).
Proof. intros Hq. eapply quiet_later; [done | simpl; lia]. Qed.

Lemma quiet_step {A} (eff : world -> result raised A * world) w : quiet w -> step eff w = ((eff w).1, tick (eff w).2).
Proof. intros Hq. unfold HilEvidence.step. rewrite Hq by lia. by destruct (eff w). Qed.

Lemma step_cases {A} (eff : world -> result raised A * world) w : one_fault ->
  step eff w = ((eff w).1, tick (eff w).2) \/ (exists f, step eff w = (Err (Fault f), tick w) /\ quiet (tick w)).
Proof.
  intros [Hb H1]. unfold HilEvidence.step. destruct (fates (clock w)) as [|f|f] eqn:Hf.
  - left. by destruct (eff w).
  - right. exists f. split; [done|]. intros n Hn. simpl in Hn. destruct (fates n) eqn:Hn'; [done| |];
      assert (clock w = n) by (apply H1; congruence); lia.
  - by destruct (Hb _ _ Hf).
Qed.

Lemma goes_unlink t w : quiet w -> goes (_unlink_if_exists fates t) w tt (delete t (files w)).
Proof.
  intros Hq. unfold goes, _unlink_if_exists, swallow_oserror, catching, unlink. rewrite quiet_step by done.
  destruct (files w !! t) eqn:Ht; simpl; eexists; (split; [done|]); (split; [simpl|by apply quiet_tick]); [done|].
  by rewrite delete_id.
Qed.

Lemma goes_replace t path d w : quiet w -> files w !! t = Some d ->
  goes (os_replace fates t path) w tt (<[path := d]> (delete t (files w))).
Proof.
  intros Hq Ht. unfold goes, os_replace. rewrite quiet_step, Ht by done. eexists. split; [done|]. split; [done|].
  by apply quiet_tick.
Qed.

Lemma goes_bind {A B} (m : M A) (k : A -> M B) w a f b g :
  goes m w a f -> (forall w1, files w1 = f -> quiet w1 -> goes (k a) w1 b g) -> goes (m ≫= k) w b g.
Proof. intros (w1 & H1 & H2 & H3) Hk. unfold goes. rewrite run_bind, H1. by apply Hk. Qed.
Lemma goes_catching {A} (m : M A) h w a f : goes m w a f -> goes (catching m h) w a f.
Proof. intros (w1 & H1 & H2). unfold goes, catching. rewrite H1. eauto. Qed.
Lemma goes_ret {A} (a : A) w f : quiet w -> files w = f -> goes (mret a) w a f.
Proof. intros Hq. by exists w. Qed.

Lemma goes_mkstemp path w : quiet w -> goes (mkstemp fates mkstemp_name path) w (temp path w) (<[temp path w := []]> (files w)).
Proof.
  intros Hq. unfold goes, mkstemp. rewrite quiet_step by done. eexists. split; [done|]. split; [done|]. by apply quiet_tick.
Qed.
Lemma goes_write t d w : quiet w -> goes (write_file fates t d) w tt (<[t := d]> (files w)).
Proof.
  intros Hq. unfold goes, write_file. rewrite quiet_step by done. eexists. split; [done|]. split; [done|]. by apply quiet_tick.
Qed.

Lemma goes_stage path d w : quiet w ->
  goes (_stage_metadata fates mkstemp_name path d) w (temp path w) (<[temp path w := d]> (files w)).
Proof.
  intros Hq. eapply goes_bind; [by apply goes_mkstemp|]. intros w1 Hw1 Hq1. apply goes_catching.
  eapply goes_bind; [by apply goes_write|]. intros w2 Hw2 Hq2.
  apply goes_ret; [done|]. by rewrite Hw2, Hw1, insert_insert_eq.
Qed.

Lemma goes_atomic path d w : quiet w -> path = MANIFEST ->
  goes (_atomic_write_text fates mkstemp_name path d) w tt (<[path := d]> (files w)).
Proof.
  intros Hq ->. eapply goes_bind; [by apply goes_mkstemp|]. intros w1 Hw1 Hq1. apply goes_catching.
  eapply goes_bind; [by apply goes_write|]. intros w2 Hw2 Hq2. pose proof (temp_fresh MANIFEST w) as Hn.
  replace (<[MANIFEST := d]> (files w)) with (<[MANIFEST := d]> (delete (temp MANIFEST w) (files w2))).
  - apply goes_replace; [done|]. by rewrite Hw2, lookup_insert_eq.
  - by rewrite Hw2, Hw1, insert_insert_eq, delete_insert_id.
Qed.

(** A restore puts the prior bytes, or their absence, back. *)
Definition with_prior (path : string) (prior : option bytes) (f : gmap string bytes) : gmap string bytes :=
  match prior with Some d => <[path := d]> f | None => delete path f end.

Lemma goes_restore path prior w : quiet w ->
  goes (_restore_metadata fates mkstemp_name path prior) w tt (with_prior path prior (files w)).
Proof.
  intros Hq. destruct prior as [d|]; [|by apply goes_unlink]. simpl.
  pose proof (temp_fresh path w) as Hn. eapply goes_bind.
  - apply goes_catching. eapply goes_bind; [by apply goes_stage|]. intros w1 Hw1 Hq1. apply goes_catching.
    eapply goes_bind; [apply goes_replace; [done | by rewrite Hw1, lookup_insert_eq]|]. intros w2 Hw2 Hq2.
    apply goes_ret; [done|]. rewrite Hw2, Hw1. by rewrite delete_insert_id.
  - intros w3 Hw3 Hq3. by apply goes_ret.
Qed.

(** The failed manifest is written when the evidence can still be hashed. *)
Definition failed_manifest (i : identity) (f : gmap string bytes) : gmap string bytes :=
  <[MANIFEST := _manifest_text (without_artifacts i) "failed" (lines f)]> f.

Lemma goes_best_effort i w : quiet w ->
  goes (_best_effort_failed_manifest fates sha256 irregular mkstemp_name (without_artifacts i)) w tt (files w) \/
  goes (_best_effort_failed_manifest fates sha256 irregular mkstemp_name (without_artifacts i)) w tt (failed_manifest i (files w)).
Proof.
  intros Hq. unfold goes, _best_effort_failed_manifest, swallow_all, catching. rewrite run_bind.
  destruct (reads_hash_lines w) as [Hf Hc]. destruct (_hash_lines fates sha256 irregular w) as [[ls|e] w1] eqn:Hl; simpl in *.
  - right. apply hash_lines_Ok in Hl as ->.
    destruct (goes_atomic MANIFEST (_manifest_text (without_artifacts i) "failed" (lines (files w))) w1) as (w2 & H2 & Hw2 & Hq2);
      [by eapply quiet_later | done|].
    rewrite H2. exists w2. split; [done|]. split; [|done]. by rewrite Hw2, Hf.
  - left. exists w1. split; [done|]. split; [done|]. by eapply quiet_later.
Qed.

(** *** The transaction under one fault *)

Lemma stage_cases path d w : one_fault ->
  (exists w1, _stage_metadata fates mkstemp_name path d w = (Ok (temp path w), w1)) \/
  (exists e w1, _stage_metadata fates mkstemp_name path d w = (Err e, w1) /\ files w1 = files w /\ quiet w1).
Proof.
  intros H1. unfold _stage_metadata. rewrite run_bind. unfold mkstemp.
  match goal with |- context [step ?eff w] => destruct (step_cases eff w H1) as [->|(f & -> & Hq)] end.
  - simpl. unfold catching. rewrite run_bind. unfold write_file.
    match goal with |- context [step ?eff ?x] => destruct (step_cases eff x H1) as [->|(f & -> & Hq)] end; [left; simpl; by eexists|].
    right. rewrite run_bind. destruct (goes_unlink (temp path w) _ Hq) as (w2 & -> & Hw2 & Hq2).
    exists (Fault f), w2. split; [done|]. split; [|done]. rewrite Hw2. simpl. by apply delete_insert_id, temp_fresh.
  - right. by eexists _, _.
Qed.

Lemma stage_both_Err d1 d2 e w w' : one_fault -> stage_both fates mkstemp_name d1 d2 w = (Err e, w') ->
  files w' = files w /\ exists e0, e = reported e0.
Proof.
  intros H1. unfold stage_both, reporting. rewrite run_catching, run_bind.
  destruct (stage_cases SUMS d1 w H1) as [(w1 & Hs)|(e1 & w1 & -> & Hw1 & Hq)]; [|intros [= <- <-]; eauto].
  pose proof (stage_Ok _ _ _ _ _ Hs) as [_ Hw1]. rewrite Hs, run_bind, run_catching.
  destruct (stage_cases MANIFEST d2 w1 H1) as [(w2 & ->)|(e2 & w2 & -> & Hw2 & Hq)]; [done|].
  rewrite run_bind. destruct (goes_unlink (temp SUMS w) _ Hq) as (w3 & -> & Hw3 & _). intros [= <- <-].
  split; [|eauto]. rewrite Hw3, Hw2, Hw1. by apply delete_insert_id, temp_fresh.
Qed.

(** The roll-back, run without a further fault, undoes what was committed. *)
Lemma goes_roll_back n t1 t2 i f w : quiet w -> temps_ok f t1 t2 ->
  with_prior MANIFEST (f !! MANIFEST) (with_prior SUMS (f !! SUMS) (delete t2 (delete t1 (files w)))) = f ->
  (n = 0%nat -> delete t2 (delete t1 (files w)) = f) ->
  exists g, goes (roll_back fates sha256 irregular mkstemp_name n t1 t2 (f !! SUMS) (f !! MANIFEST) i) w tt g /\
    (g = f \/ f !! MANIFEST = None /\ g = failed_manifest i f).
Proof.
  intros Hq Hok Hf H0. unfold roll_back.
  destruct (goes_unlink t1 w Hq) as (w1 & E1 & F1 & Q1). destruct (goes_unlink t2 w1 Q1) as (w2 & E2 & F2 & Q2).
  unfold goes. rewrite run_bind, E1, run_bind, E2. rewrite F1 in F2. rewrite <- F2 in Hf, H0.
  destruct n as [|n]; [simpl; exists f; split; [exists w2; auto | auto]|].
  destruct (goes_restore SUMS (f !! SUMS) w2 Q2) as (w3 & E3 & F3 & Q3).
  destruct (goes_restore MANIFEST (f !! MANIFEST) w3 Q3) as (w4 & E4 & F4 & Q4).
  cbn [Nat.leb]. rewrite run_bind, E3, run_bind, E4. rewrite <- F3, <- F4 in Hf.
  destruct ((S n =? 1)%nat && bool_decide (f !! MANIFEST = None)) eqn:Hb; [|exists f; split; [by exists w4 | by left]].
  apply andb_true_iff in Hb as [_ Hb%bool_decide_eq_true].
  destruct (goes_best_effort i w4 Q4) as [Hg|Hg]; rewrite Hf in Hg; eauto.
Qed.
(** The files a failed finalization may leave. *)
Definition rolled_back (i : identity) (f g : gmap string bytes) : Prop :=
  g = f \/ f !! MANIFEST = None /\ g = failed_manifest i f.

(** A handler that rolls back and reports. *)
Lemma handled_Err {A} n t1 t2 i f e0 w : quiet w -> temps_ok f t1 t2 ->
  with_prior MANIFEST (f !! MANIFEST) (with_prior SUMS (f !! SUMS) (delete t2 (delete t1 (files w)))) = f ->
  (n = 0%nat -> delete t2 (delete t1 (files w)) = f) ->
  exists w', (roll_back fates sha256 irregular mkstemp_name n t1 t2 (f !! SUMS) (f !! MANIFEST) i;;
    @raise world raised A (reported e0)) w = (Err (reported e0), w') /\ rolled_back i f (files w').
Proof.
  intros Hq Hok Hf H0. destruct (goes_roll_back n t1 t2 i f w Hq Hok Hf H0) as (g & (w1 & E & <- & _) & Hg).
  exists w1. by rewrite run_bind, E.
Qed.

Lemma priors_id (f g : gmap string bytes) : (forall k, k <> SUMS -> k <> MANIFEST -> g !! k = f !! k) ->
  with_prior MANIFEST (f !! MANIFEST) (with_prior SUMS (f !! SUMS) g) = f.
Proof.
  intros H. assert (forall path prior (h : gmap string bytes) k,
    with_prior path prior h !! k = if decide (path = k) then prior else h !! k) as Hp.
  { intros path [d|] h k; simpl; [apply lookup_insert | apply lookup_delete]. }
  apply map_eq. intros k. rewrite !Hp. repeat case_decide; subst; auto.
Qed.

Lemma commit_both_Err t1 t2 d1 d2 i f w e w' : one_fault -> temps_ok f t1 t2 -> files w = staged f t1 t2 d1 d2 ->
  commit_both fates sha256 irregular mkstemp_name t1 t2 (f !! SUMS) (f !! MANIFEST) i w = (Err e, w') ->
  rolled_back i f (files w') /\ exists e0, e = reported e0.
Proof.
  intros H1 Hok Hw. unfold commit_both, _commit_metadata, os_replace. rewrite run_bind, run_catching.
  match goal with |- context [step ?eff w] => destruct (step_cases eff w H1) as [->|(x & -> & Hq)] end.
  - rewrite Hw, lookup_insert_ne, lookup_insert_eq by (destruct Hok; done). cbn [fst snd]. rewrite run_catching.
    match goal with |- context [step ?eff ?w1] => destruct (step_cases eff w1 H1) as [->|(x & -> & Hq)] end.
    { simpl. rewrite lookup_insert_ne, lookup_delete_ne, lookup_insert_eq by (destruct Hok; done). done. }
    destruct (@handled_Err unit 1 t1 t2 i f (Fault x) _ Hq Hok) as (w2 & -> & Hr); [|done|intros [= <- <-]; split; [done | by exists (Fault x)]].
    apply priors_id. intros k Hk1 Hk2. simpl. destruct Hok.
    repeat (rewrite lookup_insert || rewrite lookup_delete). repeat case_decide; subst; congruence.
  - assert (delete t2 (delete t1 (files (tick w))) = f) as Hf.
    { simpl. rewrite Hw. destruct Hok. solve_map; congruence. }
    destruct (@handled_Err unit 0 t1 t2 i f (Fault x) _ Hq Hok) as (w2 & -> & Hr); [|done|intros [= <- <-]; split; [done | by exists (Fault x)]].
    apply priors_id. intros k _ _. by rewrite Hf.
Qed.

(** A failure while reading leaves the directory as it was. *)
Lemma reading_Err {A} (m : M A) i e f w w' : reads m -> files w = f -> reporting m w = (Err e, w') ->
  rolled_back i f (files w') /\ exists e0, e = reported e0.
Proof.
  intros Hm <- H. split; [left; by eapply reads_run; [apply reads_reporting|]|].
  unfold reporting in H. rewrite run_catching in H. destruct (m w) as [[a|e0] w1]; [done|]. injection H as <- _. by exists e0.
Qed.

Lemma finalize_Err i outcome e w w' : one_fault ->
  finalize_evidence fates sha256 irregular mkstemp_name i outcome w = (Err e, w') ->
  rolled_back i (files w) (files w') /\ (e = UnknownOutcome \/ exists e0, e = reported e0).
Proof.
  intros H1. unfold finalize_evidence. rewrite run_bind. unfold check.
  destruct (ensure _ _) as [u|e0] eqn:Hc; [|apply ensure_Err in Hc as [_ <-]; intros [= <- <-]; split; [by left | by left]].
  rewrite run_bind. destruct (reporting (_hash_lines _ _ _) w) as [[ls|e0] w1] eqn:Hl;
    [|intros [= <- <-]; eapply reading_Err in Hl as [??]; [by eauto | apply reads_hash_lines | done]].
  apply hashed_Ok in Hl. rewrite run_bind. destruct (reporting _ w1) as [[ps|e1] w2] eqn:Hs;
    [|intros [= <- <-]; eapply reading_Err in Hs as [??]; [by eauto | apply reads_snapshot | done]].
  pose proof (snapped_files _ _ _ _ Hs) as Hw2. apply reporting_Ok, snapshot_Ok in Hs as ->.
  rewrite run_bind. destruct (reporting _ w2) as [[pm|e2] w3] eqn:Hs;
    [|intros [= <- <-]; eapply reading_Err in Hs as [??]; [by eauto | apply reads_snapshot | congruence]].
  pose proof (snapped_files _ _ _ _ Hs) as Hw3. apply reporting_Ok, snapshot_Ok in Hs as ->.
  rewrite run_bind. rewrite Hw2, Hl. rewrite Hw2, Hl in Hw3. rewrite <- Hw3.
  destruct (stage_both _ _ _ _ w3) as [[[t1 t2]|e3] w4] eqn:Ht;
    [|intros [= <- <-]; apply stage_both_Err in Ht as [Hf ?]; [split; [by left | by right] | done]].
  apply stage_both_Ok in Ht as [Hok Hw4]. rewrite run_bind.
  destruct (commit_both _ _ _ _ _ _ _ _ _ w4) as [[[]|e4] w5] eqn:Hcm; [done|].
  eapply commit_both_Err in Hcm as [??]; [|done..]. intros [= <- <-]. eauto.
Qed.

(** *** A run without faults *)

Lemma goes_read path d w : quiet w -> files w !! path = Some d -> goes (read_file fates path) w d (files w).
Proof.
  intros Hq Hp. unfold goes, read_file. rewrite quiet_step, Hp by done. eexists. split; [done|]. split; [done|].
  by apply (quiet_tick w (files w)).
Qed.

Lemma goes_hash_all names w : quiet w -> Forall (fun n => is_Some (files w !! n)) names ->
  goes (hash_all fates sha256 names) w ((fun n => hash_line sha256 n (default [] (files w !! n))) <$> names) (files w).
Proof.
  revert w. induction names as [|n names IH]; intros w Hq Hn; [by apply goes_ret|].
  apply Forall_cons in Hn as [[d Hd] Hn]. rewrite fmap_cons, Hd. cbn [hash_all]. eapply goes_bind; [by apply goes_read|]. intros w1 Hw1 Hq1.
  rewrite <- Hw1 in Hn. eapply goes_bind; [by apply IH|]. intros w2 Hw2 Hq2. rewrite Hw1 in *.
  apply goes_ret; [done|]. done.
Qed.

Lemma goes_hash_lines w : quiet w -> irregular = false -> Forall (fun n => bad_name n = false) (payload_names (files w)) ->
  goes (_hash_lines fates sha256 irregular) w (lines (files w)) (files w).
Proof.
  intros Hq Hr Hbad. unfold _hash_lines, _enumerate_evidence, payload_lines. eapply goes_bind.
  - eapply goes_bind.
    + instantiate (1 := files w). instantiate (1 := fst <$> map_to_list (files w)).
      unfold goes, scandir. rewrite quiet_step, Hr by done. eexists. split; [done|]. split; [done|]. by apply (quiet_tick w (files w)).
    + intros w1 Hw1 Hq1. eapply (goes_bind _ _ _ tt (files w)).
      * exists w1. split; [|done]. unfold check. rewrite (proj2 (ensure_Ok _ _ tt)); [done|].
        apply negb_true_iff, not_true_iff_false. intros (n & Hn & Hb)%existsb_exists.
        rewrite Forall_forall in Hbad. rewrite (Hbad n) in Hb; [done|]. unfold payload_names.
        by rewrite sorted_strings_elem, list_elem_of_In.
      * intros w2 Hw2 Hq2. by apply goes_ret.
  - intros w1 Hw1 Hq1. rewrite <- Hw1. apply goes_hash_all; [done|]. rewrite Hw1. apply Forall_forall.
    intros n Hn. change (n ∈ payload_names (files w)) in Hn. apply payload_elem in Hn as [Hn _]. by apply elem_of_dom.
Qed.

Lemma goes_snapshot path w : quiet w -> goes (_snapshot_bytes fates path) w (files w !! path) (files w).
Proof.
  intros Hq. unfold goes, _snapshot_bytes. rewrite run_catching, run_bind. unfold read_file. rewrite quiet_step by done.
  destruct (files w !! path); simpl; eexists; (split; [done|]); (split; [done|]); by apply (quiet_tick w (files w)).
Qed.

Lemma goes_stage_both d1 d2 w : quiet w ->
  exists t1 t2, goes (stage_both fates mkstemp_name d1 d2) w (t1, t2) (staged (files w) t1 t2 d1 d2).
Proof.
  intros Hq. eexists _, _. apply goes_catching. eapply goes_bind; [by apply goes_stage|]. intros w1 Hw1 Hq1.
  eapply goes_bind; [apply goes_catching; by apply goes_stage|]. intros w2 Hw2 Hq2. rewrite Hw1 in *. by apply goes_ret.
Qed.

Lemma finalize_succeeds i outcome w : quiet w -> irregular = false -> outcome ∈ RUN_OUTCOMES ->
  Forall (fun n => bad_name n = false) (payload_names (files w)) ->
  exists w', finalize_evidence fates sha256 irregular mkstemp_name i outcome w = (Ok MANIFEST, w').
Proof.
  intros Hq Hr Ho Hbad. unfold finalize_evidence. rewrite run_bind. unfold check, py_in.
  rewrite bool_decide_true by done. cbn [ensure]. rewrite run_bind.
  destruct (goes_catching _ (fun e => Some (raise (reported e))) _ _ _ (goes_hash_lines w Hq Hr Hbad)) as (w1 & H1 & Hw1 & Hq1).
  unfold reporting at 1. rewrite H1, run_bind.
  destruct (goes_catching _ (fun e => Some (raise (reported e))) _ _ _ (goes_snapshot SUMS w1 Hq1)) as (w2 & H2 & Hw2 & Hq2).
  unfold reporting at 1. rewrite H2, run_bind.
  destruct (goes_catching _ (fun e => Some (raise (reported e))) _ _ _ (goes_snapshot MANIFEST w2 Hq2)) as (w3 & H3 & Hw3 & Hq3).
  unfold reporting at 1. rewrite H3, run_bind.
  destruct (goes_stage_both (sums_text (lines (files w))) (_manifest_text i outcome (lines (files w))) w3 Hq3)
    as (t1 & t2 & w4 & H4 & Hw4 & Hq4).
  rewrite H4. apply stage_both_Ok in H4 as [Hok _]. rewrite run_bind. unfold commit_both. rewrite run_bind.
  edestruct (goes_replace t1 SUMS) as (w5 & H5 & Hw5 & Hq5); [exact Hq4 | rewrite Hw4, lookup_insert_ne, lookup_insert_eq by (destruct Hok; done); done|].
  unfold _commit_metadata. rewrite run_catching, H5, run_catching.
  edestruct (goes_replace t2 MANIFEST) as (w6 & H6 & _);
    [exact Hq5 | rewrite Hw5, lookup_insert_ne, lookup_delete_ne, Hw4, lookup_insert_eq by (destruct Hok; done); done|].
  rewrite H6. by eexists.
Qed.


(** With nothing in the way - no fault, only regular files, names that stay
    inside the directory - a legal outcome is finalized: the returned manifest
    names every retained file once, in name order, with the digest of its
    bytes, and so does SHA256SUMS; every other file is untouched. *)
Theorem finalize_publishes i outcome w : (forall n, fates n = Works) -> irregular = false -> outcome ∈ RUN_OUTCOMES ->
  Forall (fun n => bad_name n = false) (payload_names (files w)) ->
  exists w', finalize_evidence fates sha256 irregular mkstemp_name i outcome w = (Ok MANIFEST, w') /\
    files w' !! SUMS = Some (sums_text (lines (files w))) /\
    files w' !! MANIFEST = Some (_manifest_text i outcome (lines (files w))) /\
    (forall n, n <> SUMS -> n <> MANIFEST -> files w' !! n = files w !! n) /\
    StronglySorted String.le (payload_names (files w)) /\
    (forall n, n ∈ payload_names (files w) <-> n ∈ dom (files w) /\ n <> SUMS /\ n <> MANIFEST).
Proof.
  intros Hn Hr Ho Hbad. destruct (finalize_succeeds i outcome w) as (w' & H); [by intros n _|done..|].
  exists w'. split; [done|]. apply finalize_Ok in H as (_ & _ & ->). unfold published.
  split; [by rewrite lookup_insert_ne, lookup_insert_eq|]. split; [by rewrite lookup_insert_eq|].
  split; [intros n H1 H2; by rewrite !lookup_insert_ne|]. split; [apply sorted_strings_sorted | apply payload_elem].
Qed.
End proofs.
End EvidenceTheorems.

(** ** Concrete runs *)

Module EvidenceWitnesses.
Import EvidenceTheorems.

(** A chooser of temporary names: longer than every name present. *)
Fixpoint xs (n : nat) : string := match n with O => EmptyString | S k => String "x" (xs k) end.
Definition longer (p : string) (X : gset string) : string := (p ++ xs (S (max_list (String.length <$> elements X))))%string.

Lemma xs_length n : String.length (xs n) = n.
Proof. induction n as [|n IH]; [done|]. simpl. by rewrite IH. Qed.

Lemma append_length (a b : string) : String.length (a ++ b)%string = (String.length a + String.length b)%nat.
Proof. induction a as [|c a IH]; [done|]. simpl. by rewrite IH. Qed.

Lemma longer_fresh p X : longer p X ∉ X.
Proof.
  intros H%elem_of_elements. assert (String.length (longer p X) ∈ String.length <$> elements X) as Hl%max_list_elem_of_le
    by (apply list_elem_of_fmap; eauto).
  revert Hl. unfold longer at 1. rewrite append_length, xs_length. lia.
Qed.
Lemma longer_prefix p X : String.prefix p (longer p X) = true.
Proof.
  unfold longer. generalize (xs (S (max_list (String.length <$> elements X)))). intros s.
  induction p as [|c p IH]; simpl; [by destruct s|]. by destruct (ascii_dec c c).
Qed.

Definition who : identity := mk_identity "rh-fixture" "run-1" "none" None.
Definition directory : gmap string bytes := <["junit.xml" := chars "<t/>"]> (<["a.json" := chars "{}"]> ∅).
Definition before : gmap string bytes := <[SUMS := chars "old sums"]> (<[MANIFEST := chars "old manifest"]> directory).
Definition digest (d : bytes) : string := "00".
Definition failing_at (n : nat) (f : fate) : nat -> fate := fun m => if (m =? n)%nat then f else Works.

(** A first finalization publishes, and a failed second replacement restores. *)
Lemma finalize_publishes_witness :
  exists w', finalize_evidence (fun _ => Works) digest false longer who "passed" (mk_world directory 0) = (Ok MANIFEST, w') /\
    files w' !! SUMS = Some (chars "00  a.json" ++ [chr 10] ++ chars "00  junit.xml" ++ [chr 10]).
Proof.
  edestruct (finalize_publishes (fun _ => Works) digest false longer longer_fresh longer_prefix who "passed" (mk_world directory 0))
    as (w' & H & Hs & _); [done|done|vm_compute; set_solver|vm_compute; by repeat constructor|].
  exists w'. split; [exact H|]. rewrite Hs. vm_compute. reflexivity.
Defined.

Lemma one_fault_at n f : one_fault (failing_at n (Before f)).
Proof. unfold failing_at. split; [intros m g; by destruct (m =? n)%nat|]. intros m k. destruct (Nat.eqb_spec m n), (Nat.eqb_spec k n); congruence. Qed.


(** With no earlier manifest the same failure leaves a failed one. *)
Example failed_manifest_left :
  let '(r, w') := finalize_evidence (failing_at 10 (Before Ordinary)) digest false longer who "passed" (mk_world directory 0) in
  r = Err EvidenceError /\ files w' !! SUMS = None /\
  files w' !! MANIFEST = Some (_manifest_text who "failed" (payload_lines digest directory)).
Proof. by vm_compute. Qed.
End EvidenceWitnesses.

(** An interrupt delivered after the first replacement, before it is
    recorded as committed, is not rolled back: it propagates with the new
    SHA256SUMS beside the old manifest. *)
Theorem interrupt_between_replacements :
  let '(r, w') := finalize_evidence (EvidenceWitnesses.failing_at 9 (After Interrupt)) EvidenceWitnesses.digest false
    EvidenceWitnesses.longer EvidenceWitnesses.who "passed" (mk_world EvidenceWitnesses.before 0) in
  r = Err (Fault Interrupt) /\ files w' !! MANIFEST = Some (chars "old manifest") /\ files w' !! SUMS <> Some (chars "old sums").
Proof. vm_compute. split; [done|]. split; [done|]. discriminate. Qed.

(** A document of outcome [prepared], which [write_junit] accepts, has a
    [failure] element that its suite does not count. *)
Example prepared_failure_not_counted :
  exists suite, _junit_element "prepared" None None RUN_TESTCASE = Ok suite /\
    attr "failures" suite = Some "0"%string /\ cases_with "failure" suite = 1%nat.
Proof. eexists. split; [reflexivity|]. split; reflexivity. Qed.
