(* ===== verification/HilRunner.v ===== *)
(** * The row runner: one run from validation to evidence (scripts/hil/runner.py)

    [Runner.run] and the set-up steps of its body (run directory, session,
    identities, images, capture).  The steps of [HilRunnerSteps] and
    [HilRunnerCapture] run on their own state inside [run_state], which adds
    what the body assigns as it goes; the fixture, the binding, the output root
    and the lock are those of [HilModel] and [HilLifecycle].  The cleanup stack
    holds the actions the trace says were registered. *)

From S2P Require Import Prelude PyText PyRegex FlprStatus SerialIo HilReceiver HilReceiverVerdict HilRows HilRunnerSteps HilRunnerCapture.
From S2P Require Json HciTrace HilModel HilLifecycle.

Module L := HilLifecycle.
Module LockPaths := HilLifecycle.LockTheorems.
Module F := HilModel.

(** ** Inputs *)

Record artifact_set : Type := mk_artifact_set { art_board : string; art_roles : list string; art_paths : image_paths }.

(** The arguments of [run], the answers of both reads of each document, and
    what the console logs hold when they are scanned. *)
Record job : Type := mk_job {
  fixture_first : option (list ascii); binding_first : option (list ascii);
  fixture_again : option (list ascii); binding_again : option (list ascii);
  output_root : string; run_id : string; spec : RowSpec; artifacts : option artifact_set;
  qualification_path : bool; session_manifest_path : bool; expected_session_manifest : bool; allow_offload_disabled : bool;
  hci_remove_iso_path_trace : bool; sdc_hci_remove_iso_path_trace : bool;
  boot_timeout : Z; summary_timeout : Z; ready_fuel : nat; boot_fuel : nat; row_fuels : fuels;
  record_lines : list (list ascii); source_log : file_read; receiver_log : option file_read;
}.

(** The machine: files outside the evidence, digests, the lock's owner. *)
Record machine : Type := mk_machine {
  host : F.host; reads : F.reads; sha256 : list ascii -> string; sha256_text : string -> string;
  isdir : string -> bool; home : string; repo : string;
  owner : L.FixtureLock.env; escapes : string -> bool; mkdir_ok : bool;
}.

(** ** State *)

(** What the body of [run] has assigned so far. *)
Record run_state : Type := mk_state {
  row : runner; files : L.fs; lock : option L.FixtureLock.t; run_dir : option string;
  capability : option F.CaptureCapability; consoles : bool; client : bool; capturing : bool; recovery : option fault_recovery }.
Definition set_row x s := mk_state x (files s) (lock s) (run_dir s) (capability s) (consoles s) (client s) (capturing s) (recovery s).
Definition set_files f s := mk_state (row s) f (lock s) (run_dir s) (capability s) (consoles s) (client s) (capturing s) (recovery s).
Definition set_lock l s := mk_state (row s) (files s) (Some l) (run_dir s) (capability s) (consoles s) (client s) (capturing s) (recovery s).
Definition set_run_dir d s := mk_state (row s) (files s) (lock s) (Some d) (capability s) (consoles s) (client s) (capturing s) (recovery s).
Definition set_capability c s := mk_state (row s) (files s) (lock s) (run_dir s) (Some c) (consoles s) (client s) (capturing s) (recovery s).
Definition set_consoles s := mk_state (row s) (files s) (lock s) (run_dir s) (capability s) true (client s) (capturing s) (recovery s).
Definition set_client s := mk_state (row s) (files s) (lock s) (run_dir s) (capability s) (consoles s) true (capturing s) (recovery s).
Definition set_capturing b s := mk_state (row s) (files s) (lock s) (run_dir s) (capability s) (consoles s) (client s) b (recovery s).
Definition set_recovery r s := mk_state (row s) (files s) (lock s) (run_dir s) (capability s) (consoles s) (client s) (capturing s) r.
Definition fresh_run (f : L.fs) : run_state := mk_state fresh_runner f None None None false false false None.

Abbreviation R := (method run_state runner_exn).

(** A step of the runner. *)
Definition step {A} (m : M A) : R A := fun s => let '(r, x) := m (row s) in (r, set_row x s).
(** [try: m  except Exception as exc: ...] *)
Definition attempt {A} (m : M A) : R (option runner_exn) := fun s =>
  let '(r, x) := m (row s) in (Ok (match r with Ok _ => None | Err e => Some e end), set_row x s).
(** [except ... as exc: handler; raise ...] for the exceptions [f] names. *)
Definition except_ {A} (m : M A) (f : runner_exn -> option (M A)) : M A := fun s =>
  match m s with
  | (Err e, s') => match f e with Some h => h s' | None => (Err e, s') end
  | r => r
  end.

Definition of_schema {A} (r : F.sresult A) : M A := match r with Ok a => mret a | Err _ => raise (OtherError "HilSchemaError") end.
(** [OSError]s of [acquire] are not turned into lifecycle errors. *)
Definition lifecycle_exn (e : L.lifecycle_error) : runner_exn :=
  match e with L.OpenFailed | L.WriteFailed => OtherError "OSError" | _ => HilLifecycleError end.
Definition of_lifecycle {A} (r : result L.lifecycle_error A) : M A := match r with Ok a => mret a | Err e => raise (lifecycle_exn e) end.

(** [except (...) as exc: raise HilRunnerError(boundary, str(exc))] *)
Definition other_boundary (boundary : string) (names : list string) (e : runner_exn) : runner_exn :=
  match e with
  | OtherError n => if py_in n names then HilRunnerError boundary (Plain n) else e
  | e => e
  end.
Definition qualification_boundary (e : runner_exn) : runner_exn :=
  match e with QualificationError => HilRunnerError "capture qualification" (Plain "qualification") | e => other_boundary "capture qualification" ["HilSchemaError"]%string e end.
Definition session_boundary (e : runner_exn) : runner_exn :=
  match e with EvidenceError n => HilRunnerError "session" (Plain n) | e => other_boundary "session" ["HilSessionError"; "OSError"; "UnicodeDecodeError"]%string e end.
Definition capture_boundary (e : runner_exn) : runner_exn :=
  match e with HilDiscoveryError => HilRunnerError "capture identity" (Plain "discovery") | e => e end.

Section run.
Context (w : world) (k : machine) (j : job).

(** A call into another module: it returns or raises. *)
Definition call (what : string) : M unit :=
  note (Called what);; e ← ask w others; match e with None => mret tt | Some e => raise e end.
Definition agree (boundary what : string) : M unit := ok ← ask w same; check ok (HilRunnerError boundary (Plain what)).
Definition _write_bytes (name : string) : M unit := put w name Document (OtherError "OSError").

(** ** Set-up steps *)

Definition _step_validate : M (F.LogicalFixture * F.PhysicalBinding * string) :=
  fixture ← of_schema (F.load_logical_fixture (fixture_again j));
  binding ← of_schema (F.load_physical_binding (sha256 k) (host k) (reads k) (binding_again j) fixture);
  canon ← of_lifecycle (L.validate_output_root (F.realpath (host k)) (isdir k) (home k) (repo k) (output_root j));
  of_lifecycle (L.validate_run_id (run_id j));;
  mret (fixture, binding, canon).

Definition captures_nothing (fixture : F.LogicalFixture) : bool := match F.capture_capability fixture with F.NONE => true | _ => false end.
(** The qualification gate of [run]. *)
Definition check_qualification (fixture : F.LogicalFixture) : M unit :=
  let refused := HilRunnerError "capture qualification" (Plain "qualification path") in
  if captures_nothing fixture then check (negb (qualification_path j)) refused
  else
    check (qualification_path j) refused;;
    convert (call "load_qualification";; call "verify_capture_fixture_metadata";; call "validate_current_qualification") qualification_boundary.

Definition source_role (fixture : F.LogicalFixture) : M F.LogicalRole := looked_up (dict_get "source"%string (F.roles fixture)).
Definition supported_board (role : F.LogicalRole) (boundary : string) : M unit :=
  check (bool_decide (F.board role = Some F.NRF54L15_CPUAPP_BOARD)) (HilRunnerError boundary (Plain "unsupported source board")).

Definition _step_session_compatibility (fixture : F.LogicalFixture) : M bool :=
  role ← source_role fixture;
  supported_board role "session";;
  check (session_manifest_path j) (HilRunnerError "session" (Plain "nRF54L15 source fixture requires --session-manifest"));;
  mret true.

Definition _step_load_session : M unit :=
  convert
    ((if expected_session_manifest j then call "assert_unchanged" else mret tt);;
     call "load_session";;
     (if expected_session_manifest j then agree "session" "loaded session differs from expected session";; call "assert_unchanged" else mret tt);;
     _write_bytes "session-devices.json";;
     agree "session" "session manifest copy hash mismatch";;
     write_json_evidence w "session.json") session_boundary.

(** The identity of the session, or a discovery of its own. *)
Definition _step_identities (resolution : option HilRunnerSteps.resolution) : M HilRunnerSteps.resolution :=
  call "environment";;
  write_json_evidence w "environment.json";;
  r ← match resolution with
      | Some r => mret r
      | None =>
          a ← ask w session;
          match a with
          | Resolved r => mret r
          | DiscoveryRefused raw => _write_identity_raw w raw;; raise HilDiscoveryError
          | SessionRefused => raise (OtherError "HilSessionError")
          | Raises e => raise e
          end
      end;
  _write_identity_raw w (r_raw r);;
  write_json_evidence w "identity.json";;
  mret r.

Definition IMAGE_INPUTS : list (string * string) :=
  [("source-app", "build/hil-source-nrf54l15/zephyr/zephyr.hex"); ("receiver-cpuapp", "build/nrf54l15/le-audio-receiver/zephyr/zephyr.hex");
   ("receiver-flpr", "build/nrf54l15/flpr/zephyr/zephyr.hex")]%string.
(** The inputs that are missing. *)
Fixpoint hash_images (inputs : list (string * string)) : M (list string) :=
  match inputs with
  | [] => mret []
  | (_, rel) :: inputs' =>
      here ← ask w present;
      (if here : bool then call "hash" else (mret tt : M unit));;
      missing ← hash_images inputs';
      mret (if here : bool then missing else rel :: missing)
  end.
Definition _step_images (fixture : F.LogicalFixture) : M unit :=
  role ← source_role fixture;
  match artifacts j with
  | Some a =>
      supported_board role "hash images";;
      convert
        (call "validate_artifact_set";;
         check (bool_decide (Some (art_board a) = F.board role) && bool_decide (art_roles a = F.images role)) (OtherError "ArtifactError");;
         call "revalidate_artifact_set") (other_boundary "hash images" ["ArtifactError"]%string);;
      write_json_evidence w "images.json"
  | None =>
      supported_board role "hash images";;
      missing ← hash_images IMAGE_INPUTS;
      check (bool_decide (missing = [])) (HilRunnerError "hash images" (Says_markers missing));;
      write_json_evidence w "images.json"
  end.

(** The identity of the capture card, and both identity files. *)
Definition capture_identity (fixture : F.LogicalFixture) : M unit :=
  if captures_nothing fixture then mret tt
  else
    convert (call "resolve_capture_binding") capture_boundary;;
    write_json_evidence w "capture-identity.json";;
    write_json_evidence w "qualification.json".

(** ** Capture *)

Definition _write_capture_evidence (summary : bool) : M unit :=
  call "session.evidence";;
  write_json_evidence w "capture-session.json";;
  _write_bytes "capture-arecord.stdout.txt";;
  _write_bytes "capture-arecord.stderr.txt";;
  if summary then write_json_evidence w "capture-summary.json" else mret tt.

(** [qualified]: the qualification record was loaded. *)
Definition _start_capture (fixture : F.LogicalFixture) (binding : F.PhysicalBinding) (qualified : bool) : M bool :=
  if captures_nothing fixture then mret false
  else
    match dict_get "capture"%string (F.b_roles binding) with
    | Some (inr _) =>
        check qualified (HilRunnerError "capture qualification" (Plain "accepted qualification missing"));;
        agree "capture qualification" "qualification capability mismatch";;
        convert (call "verify_capture_fixture_metadata";; call "validate_current_qualification") qualification_boundary;;
        call "read fixture metadata";;
        _write_bytes "capture-fixture-metadata.json";;
        agree "capture qualification" "capture fixture metadata copy hash mismatch";;
        call "capture_session";;
        mret true
    | _ => raise (HilRunnerError "capture" (Plain "validated capture binding missing"))
    end.

Definition is_capture_failure (e : runner_exn) : bool :=
  match e with CaptureError => true | OtherError n => String.eqb n "CaptureAnalyzerError" | _ => false end.
Definition _finish_capture (capturing : bool) : M unit :=
  if capturing then
    except_ (call "session.stop";; call "analyze_capture")
      (fun e => if is_capture_failure e then Some (_write_capture_evidence true;; raise (HilRunnerError "capture" (Plain "capture"))) else None);;
    _write_bytes "capture-analysis.json";;
    _write_capture_evidence true;;
    agree "capture analyzer" "capture oracle limits failed";;
    call "session.evidence"
  else mret tt.

(** ** The body of [run] *)

Definition lock_name (fixture_id : string) : string := "fixture lock " +:+ fixture_id.
Definition acquire (canon fixture_id : string) : R unit :=
  s ← self;
  let '(r, f) := L.FixtureLock.acquire (sha256_text k) canon fixture_id (owner k) (files s) in
  assign (set_files f);;
  match r with
  | Ok l => assign (set_lock l);; step (note (Registered (lock_name fixture_id)))
  | Err e => raise (lifecycle_exn e)
  end.
Definition _step_run_dir (canon : string) : R unit :=
  s ← self;
  let '(r, f) := L.create_run_dir (escapes k) (mkdir_ok k) canon (run_id j) (files s) in
  assign (set_files f);;
  match r with
  | Ok d => assign (set_run_dir d);; step (_write_bytes "fixture.json";; _write_bytes "binding.json")
  | Err e => raise (lifecycle_exn e)
  end.

(** Up to the images: identities and evidence, nothing opened yet. *)
Definition set_up (fixture : F.LogicalFixture) : M (bool * HilRunnerSteps.resolution) :=
  session_bound ← _step_session_compatibility fixture;
  check (negb (expected_session_manifest j && negb session_bound)) (HilRunnerError "session" (Plain "expected session requires nRF54L15 source"));;
  resolution ← (if session_bound : bool then _step_load_session;; r ← _step_session_revalidate w "setup identity"; mret (Some r) else mret None);
  write_json_evidence w "row.json";;
  (if bool_decide (is_Some (artifacts j)) then write_json_evidence w "artifacts.json" else mret tt);;
  resolution ← _step_identities resolution;
  capture_identity fixture;;
  _step_images fixture;;
  (if session_bound : bool then mret tt else _step_preflight_tty w (source_path resolution));;
  mret (session_bound, resolution).

Definition board_of (fixture : F.LogicalFixture) : string :=
  default EmptyString (role ← dict_get "source"%string (F.roles fixture); F.board role).
(** From the flash to the clean state. *)
Definition prepare (fixture : F.LogicalFixture) (session_bound : bool) (paths : string * string) (resolution : HilRunnerSteps.resolution) : M identity :=
  _step_flash w (art_paths <$> artifacts j) session_bound paths resolution (board_of fixture);;
  _step_boot w (boot_fuel j) (boot_timeout j);;
  (if session_bound then
     r ← _step_session_revalidate w "row action";
     _require_session_console_paths r "row action" (Some paths.1) (Some paths.2)
   else mret tt);;
  _step_clean_state w (spec j).

Definition register_capture : M unit :=
  note (Registered "capture");;
  call "read qualification";;
  _write_bytes "qualification-accepted.json";;
  agree "capture qualification" "qualification evidence copy hash mismatch".

(** After the row: the source idles, both consoles are sound. *)
Definition wind_up : M unit :=
  convert (source_call w "idle") (source_boundary "session end");;
  _check_console_health w "receiver";;
  _check_console_health w "source";;
  _check_cancel w "cancelled after row";;
  write_json_evidence w "summary.json".

Definition row_body : R row_result :=
  '(fixture, binding, canon) ← step _step_validate;
  assign (set_capability (F.capture_capability fixture));;
  step (check_qualification fixture);;
  acquire canon (F.fixture_id fixture);;
  _step_run_dir canon;;
  '(session_bound, resolution) ← step (set_up fixture);
  paths ← step (_step_open_consoles w (ready_fuel j) resolution session_bound);
  assign set_consoles;;
  assign set_client;;
  step (prepare fixture session_bound paths resolution);;
  captured ← step (_start_capture fixture binding (qualification_path j));
  assign (set_capturing captured);;
  (if captured : bool then step register_capture else mret tt);;
  r ← step (_step_run_row w (row_fuels j) (summary_timeout j) (spec j) (allow_offload_disabled j) captured);
  assign (set_recovery (row_recovery r));;
  step (_finish_capture captured);;
  step wind_up;;
  mret r.

(** ** The verdict and its evidence *)

Record verdict : Type := mk_verdict { v_outcome : string; v_boundary : option boundary_text; v_detail : option failure_text }.
Definition passed : verdict := mk_verdict "passed" None None.
Definition cancelled (b : boundary_text) (e : runner_exn) : verdict := mk_verdict "cancelled" (Some b) (Some (SaysExn e)).
Definition failed (b : boundary_text) (e : runner_exn) : verdict := mk_verdict "failed" (Some b) (Some (SaysExn e)).
Definition is_passed (v : verdict) : bool := String.eqb (v_outcome v) "passed".

(** The [except] clauses of [run], in their order. *)
Definition classify {A} (r : result runner_exn A) : verdict :=
  match r with
  | Ok _ => passed
  | Err e =>
      match e with
      | RunnerCancelled b => cancelled (At b) e
      | CommandCancelled _ => cancelled (At "cancelled during command") e
      | SourceClientCancelled | SerialConsoleCancelled => cancelled (Said e) e
      | HilRunnerError b _ => failed (At b) e
      | HilDiscoveryError | HilLifecycleError | EvidenceError _ | SerialConsoleError => failed (At "setup") e
      | QualificationError => failed (Prefixed "capture qualification: " e) e
      | _ => failed (Prefixed "unexpected: " e) e
      end
  end.

(** The body under its [except] clauses. *)
Definition guarded {A} (m : R A) : R verdict := fun s => let '(r, s') := m s in (Ok (classify r), s').

(** *** Cleanup *)

Definition registered (t : list event) : list string := omap (fun e => match e with Registered n => Some n | _ => None end) t.
(** The lock's release works on the files; any other action is another
    module's, which returns or raises. *)
Definition callback_of (l : option L.FixtureLock.t) (name : string) : L.CleanupStack.callback (W := runner * L.fs) (E := string) :=
  fun '(x, f) =>
    let x' := log (Cleaned name) (tick x) in
    let e := cleanups w (turn x) in
    match l with
    | Some l =>
        if String.eqb name (lock_name (L.FixtureLock.fixture_id l)) then
          let '(r, f') := L.FixtureLock.release (bool_decide (e = None)) l f in
          ((x', f'), match r with Ok _ => None | Err _ => Some (default "release"%string e) end)
        else ((x', f), e)
    | None => ((x', f), e)
    end.
Definition stack_of (s : run_state) : L.CleanupStack.t (W := runner * L.fs) (E := string) :=
  L.CleanupStack.mk ((fun n => (n, callback_of (lock s) n)) <$> registered (trace (row s))) false.
Definition close_stack : R (list (string * string)) := fun s =>
  let '(_, (x, f), failures) := L.CleanupStack.close (stack_of s) (row s, files s) in
  (Ok failures, set_files f (set_row x s)).
Definition after_cleanup (v : verdict) (failures : list (string * string)) : verdict :=
  match failures with
  | [] => v
  | _ =>
      let v := if is_passed v then mk_verdict "failed" (v_boundary v) (Some (SaysCleanups failures)) else v in
      mk_verdict (v_outcome v) (Some (default (At "cleanup") (v_boundary v))) (v_detail v)
  end.

(** *** Scans and ledgers *)

(** [elif boundary is None] keeps the first boundary. *)
Definition late (v : verdict) (o : option runner_exn) (passing unnamed : runner_exn -> boundary_text) : verdict :=
  match o with
  | None => v
  | Some e =>
      if is_passed v then failed (passing e) e
      else match v_boundary v with None => mk_verdict (v_outcome v) (Some (unnamed e)) (Some (SaysExn e)) | Some _ => v end
  end.
Definition late_boundary (v : verdict) (o : option runner_exn) : verdict :=
  match o with
  | Some (HilRunnerError b d) => if is_passed v then failed (At b) (HilRunnerError b d) else v
  | _ => v
  end.

Definition capture_evidence (v : verdict) : R verdict :=
  s ← self;
  if capturing s && bool_decide (is_Some (run_dir s)) then
    o ← attempt (there ← ask w present; if there : bool then mret tt else _write_capture_evidence true);
    mret (late v o (fun _ => At "evidence capture") (Prefixed "evidence capture: "))
  else mret v.
Definition closing_health (v : verdict) : R verdict :=
  s ← self;
  if consoles s then o ← attempt (_check_console_health w "receiver";; _check_console_health w "source"); mret (late_boundary v o)
  else mret v.
(** The scan; a trace is added to the summary of a row that passed. *)
Definition scan_and_record (r : option fault_recovery) (passing : bool) : M unit :=
  trace_payload ← _step_scan_logs w (spec j) r (hci_remove_iso_path_trace j) (sdc_hci_remove_iso_path_trace j) (record_lines j) (source_log j) (receiver_log j);
  if bool_decide (is_Some trace_payload) && passing then write_json_evidence w "summary.json" else mret tt.
(** Only [HilRunnerError] is caught. *)
Definition closing_scan (v : verdict) : R verdict :=
  s ← self;
  if client s then
    o ← attempt (scan_and_record (recovery s) (is_passed v));
    match o with
    | Some (HilRunnerError b d) => mret (late_boundary v o)
    | Some e => raise e
    | None => mret v
    end
  else mret v.
Definition command_ledger (v : verdict) : R verdict :=
  s ← self;
  if bool_decide (is_Some (run_dir s)) then
    o ← attempt (_write_jsonl w "commands.jsonl"); mret (late v o (fun _ => At "evidence commands") (fun _ => At "evidence commands"))
  else mret v.
Definition late_cancel (v : verdict) : R verdict :=
  if is_passed v then
    o ← attempt (_check_cancel w "cancelled before evidence finalization");
    mret (match o with None => v | Some e => cancelled (At "cancelled before evidence finalization") e end)
  else mret v.

(** [obj.get] of a document that is no object is an [AttributeError]. *)
Definition _fixture_id_of (binding_bytes : list ascii) : result runner_exn Json.json :=
  if utf8_valid binding_bytes then
    match Json.loads_chars (E := Empty_set) Json.dict_hook binding_bytes with
    | Ok (Json.JObj d) => Ok (default (Json.JStr "unknown") (dict_get "fixture_id"%string d))
    | Ok _ => Err (OtherError "AttributeError")
    | Err _ => Ok (Json.JStr "unknown")
    end
  else Ok (Json.JStr "unknown").

(** *** Finalization *)

Definition capability_value (c : option F.CaptureCapability) : string :=
  match c with None | Some F.NONE => "none" | Some F.MONO => "mono" | Some F.STEREO => "stereo" end.
Definition _result_dict (v : verdict) (failures : list (string * string)) (capability : string) : result_doc :=
  mk_result (v_outcome v) (v_boundary v) (v_detail v) failures capability.
(** The result, then the JUnit file in the run directory and outside. *)
Definition _write_result_and_junit (r : result_doc) : M unit :=
  put w "result.json" (Decided r) (EvidenceError "result.json");;
  put w "junit.xml" (Decided r) (EvidenceError "junit.xml");;
  put w "external junit" (Decided r) (EvidenceError "junit.xml").
Definition _finalize (r : result_doc) : M unit := _write_result_and_junit r;; call "finalize_evidence".
(** [_best_effort_failed_manifest] never raises. *)
Definition _record_finalization_failure (r : result_doc) : R unit :=
  attempt (_write_result_and_junit r);; attempt (call "_best_effort_failed_manifest");; mret tt.

Definition finalize (v : verdict) (failures : list (string * string)) : R verdict :=
  s ← self;
  if bool_decide (is_Some (run_dir s)) then
    let cap := capability_value (capability s) in
    o ← attempt (_finalize (_result_dict v failures cap));
    match o with
    | None => mret v
    | Some e =>
        let v := failed (Prefixed "evidence finalization: " e) e in
        _record_finalization_failure (_result_dict v failures cap);; mret v
    end
  else mret v.

(** ** [run] *)

Record answer : Type := mk_answer { a_outcome : string; a_boundary : option boundary_text; a_failures : list (string * string) }.

(** After the body: cleanup first, evidence last. *)
Definition settle_run (binding_bytes : list ascii) (v : verdict) : R answer :=
  failures ← close_stack;
  v ← capture_evidence (after_cleanup v failures);
  v ← closing_health v;
  v ← closing_scan v;
  v ← command_ledger v;
  v ← late_cancel v;
  lift (_fixture_id_of binding_bytes);;
  v ← finalize v failures;
  mret (mk_answer (v_outcome v) (v_boundary v) failures).

(** Before the body: nothing is held yet, and exceptions leave [run]. *)
Definition read_inputs : R (list ascii) :=
  check (negb (expected_session_manifest j && negb (session_manifest_path j))) (HilRunnerError "session" (Plain "expected session requires session manifest path"));;
  check (negb (hci_remove_iso_path_trace j && sdc_hci_remove_iso_path_trace j)) (OtherError "ValueError");;
  (if bool_decide (is_Some (artifacts j)) then step (call "revalidate_artifact_set") else mret tt);;
  check (bool_decide (is_Some (fixture_first j))) (OtherError "OSError");;
  lift (result_of_option (OtherError "OSError") (binding_first j)).

Definition run : R answer :=
  binding_bytes ← read_inputs;
  v ← guarded row_body;
  settle_run binding_bytes v.
End run.

(** ** What steps leave on the trace *)

Section traces.
Context (P : event -> Prop).

Definition grows (s s' : runner) : Prop := exists es, trace s' = trace s ++ es /\ Forall P es.
#[export] Instance grows_preorder : PreOrder grows.
Proof.
  split.
  - intros s. exists []. by rewrite app_nil_r.
  - intros s1 s2 s3 (es & H1 & H2) (fs & H3 & H4). exists (es ++ fs). rewrite H3, H1, app_assoc. by split; [|apply Forall_app].
Qed.
Lemma grows_same s s' : trace s' = trace s -> grows s s'.
Proof. intros H. exists []. by rewrite H, app_nil_r. Qed.

Lemma grows_ask {A} w (f : world -> nat -> A) : keeps grows (ask w f).
Proof. intros s. by apply grows_same. Qed.
Lemma grows_note e : P e -> keeps grows (note e).
Proof. intros He s. exists [e]. by repeat constructor. Qed.
Lemma grows_convert {A} (m : M A) f : keeps grows m -> keeps grows (convert m f).
Proof. intros Hm s. specialize (Hm s). unfold convert. by destruct (m s) as [[a|e] s']. Qed.
Lemma grows_on_error {A} (m : M A) h : keeps grows m -> (forall e, keeps grows (h e)) -> keeps grows (on_error m h).
Proof.
  intros Hm Hh s. specialize (Hm s). unfold on_error. destruct (m s) as [[a|e] s']; [done|]. specialize (Hh e s').
  destruct (h e s') as [[u|e'] s'']; simpl in *; by etrans.
Qed.
Lemma grows_except {A} (m : M A) f : keeps grows m -> (forall e h, f e = Some h -> keeps grows h) -> keeps grows (except_ m f).
Proof.
  intros Hm Hh s. specialize (Hm s). unfold except_. destruct (m s) as [[a|e] s']; [done|]. destruct (f e) as [h|] eqn:Hf; [|done].
  simpl in *. etrans; [exact Hm | by eapply Hh].
Qed.
End traces.

(** Any event of the body; any event after the cleanup. *)
Definition not_cleaned (e : event) : Prop := match e with Cleaned _ => False | _ => True end.
Definition after_close (e : event) : Prop := match e with Cleaned _ | Registered _ => False | _ => True end.

Create HintDb trace discriminated.
Ltac head_of t := lazymatch t with ?f _ => head_of f | _ => t end.
(** [keeps (grows _) m], by the structure of [m]; loops are in the hint database. *)
Ltac grow :=
  cbv zeta;
  lazymatch goal with
  | |- keeps _ (mret _) => apply keeps_ret; apply _
  | |- keeps _ (raise _) => apply keeps_raise; apply _
  | |- keeps _ self => apply keeps_self; apply _
  | |- keeps _ (check _ _) => apply keeps_check; apply _
  | |- keeps _ (lift _) => apply keeps_lift; apply _
  | |- keeps _ (assign _) => apply keeps_assign; intros; by apply grows_same
  | |- keeps _ (_ ≫= _) => apply keeps_bind; [apply _ | grow | intros; grow]
  | |- keeps _ (ask _ _) => apply grows_ask
  | |- keeps _ (note _) => by apply grows_note
  | |- keeps _ (convert _ _) => apply grows_convert; grow
  | |- keeps _ (on_error _ _) => apply grows_on_error; [grow | intros; grow]
  | |- keeps _ (match ?x with _ => _ end) => destruct x; grow
  | |- keeps _ ?m => first [solve [auto with trace] | let f := head_of m in unfold f; grow]
  end.
Ltac grow_loop fuel := induction fuel; intros; simpl; grow.

Section loops.
Context (w : world).
Abbreviation quiet := (keeps (grows not_cleaned)).

Lemma grows_wait_line fuel d b : quiet (wait_line_loop w fuel d b).
Proof. grow_loop fuel. Qed.
Lemma grows_ready_loop fuel d : quiet (ready_loop w fuel d).
Proof. grow_loop fuel. Qed.
Lemma grows_boot_loop fuel d p : quiet (boot_loop w fuel d p).
Proof. revert p. grow_loop fuel. Qed.
Hint Resolve grows_wait_line grows_ready_loop grows_boot_loop : trace.
Lemma grows_settle_loop fuel d n i f : quiet (settle_loop w fuel d n i f).
Proof. revert n f. grow_loop fuel. Qed.
Hint Resolve grows_settle_loop : trace.
Lemma grows_active_loop fuel sfuel r a d n : quiet (active_loop w fuel sfuel r a d n).
Proof. revert n. grow_loop fuel. Qed.
Lemma grows_baseline_loop fuel d f b : quiet (baseline_loop w fuel d f b).
Proof. revert b. grow_loop fuel. Qed.
Lemma grows_recovery_loop fuel d f b v : quiet (recovery_loop w fuel d f b v).
Proof. revert v. grow_loop fuel. Qed.
Lemma grows_tail_commands cs q : quiet (tail_commands w cs q).
Proof. revert q. grow_loop cs. Qed.
Lemma grows_post_stop_commands cs q : quiet (post_stop_commands w cs q).
Proof. revert q. grow_loop cs. Qed.
Lemma grows_append_summaries n b ss a : quiet (append_summaries n b ss a).
Proof. revert a. grow_loop ss. Qed.
Lemma grows_check_each (f : stream_summary -> M unit) ss : (forall x, quiet (f x)) -> quiet (check_each f ss).
Proof. intros Hf. grow_loop ss. Qed.
Hint Resolve grows_active_loop grows_baseline_loop grows_recovery_loop grows_tail_commands grows_post_stop_commands grows_append_summaries : trace.
Lemma grows_summary_loop fuel lf d n o a : quiet (summary_loop w fuel lf d n o a).
Proof. revert a. induction fuel; intros; simpl; grow. Qed.
Hint Resolve grows_summary_loop : trace.
Lemma grows_session_end fuel lf t r n o : quiet (_step_session_end w fuel lf t r n o).
Proof.
  unfold _step_session_end. apply keeps_bind; [apply _ | grow | intros now]. apply keeps_bind; [apply _ | grow | intros sb].
  apply keeps_bind; [apply _ | grow | intros x]. do 2 (apply keeps_bind; [apply _ | apply grows_check_each; intros; grow | intros]). grow.
Qed.
Hint Resolve grows_session_end : trace.
Lemma grows_run_segments fs t r a segs x : quiet (run_segments w fs t r a segs x).
Proof. revert x. grow_loop segs. Qed.
Lemma grows_hash_images l : quiet (hash_images w l).
Proof. grow_loop l. Qed.
Lemma grows_scan_source ls l : keeps (grows after_close) (scan_source_lines ls l).
Proof. revert l. grow_loop ls. Qed.
End loops.
#[export] Hint Resolve grows_wait_line grows_ready_loop grows_boot_loop grows_summary_loop grows_session_end grows_run_segments grows_hash_images grows_scan_source : trace.

(** *** The same on the state of a run *)

Definition row_grows (P : event -> Prop) (s s' : run_state) : Prop := grows P (row s) (row s').
#[export] Instance row_grows_preorder P : PreOrder (row_grows P).
Proof. split; [intros s; unfold row_grows; reflexivity | intros s1 s2 s3 H1 H2; unfold row_grows in *; by etrans]. Qed.
Lemma row_grows_step P {A} (m : M A) : keeps (grows P) m -> keeps (row_grows P) (step m).
Proof. intros Hm s. specialize (Hm (row s)). unfold step, row_grows. by destruct (m (row s)). Qed.
Lemma row_grows_attempt P {A} (m : M A) : keeps (grows P) m -> keeps (row_grows P) (attempt m).
Proof. intros Hm s. specialize (Hm (row s)). unfold attempt, row_grows. by destruct (m (row s)). Qed.
Lemma row_grows_same P f : (forall s, row (f s) = row s) -> keeps (row_grows P) (assign f : R unit).
Proof. intros Hf. apply keeps_assign. intros s. unfold row_grows. by rewrite Hf. Qed.

Ltac row_grow :=
  lazymatch goal with
  | |- keeps _ (mret _) => apply keeps_ret; apply _
  | |- keeps _ (raise _) => apply keeps_raise; apply _
  | |- keeps _ self => apply keeps_self; apply _
  | |- keeps _ (check _ _) => apply keeps_check; apply _
  | |- keeps _ (lift _) => apply keeps_lift; apply _
  | |- keeps _ (assign _) => by apply row_grows_same
  | |- keeps _ (_ ≫= _) => apply keeps_bind; [apply _ | row_grow | intros; row_grow]
  | |- keeps _ (step _) => apply row_grows_step; grow
  | |- keeps _ (attempt _) => apply row_grows_attempt; grow
  | |- keeps _ (match ?x with _ => _ end) => destruct x; row_grow
  | |- keeps _ ?m => first [solve [auto with trace] | let f := head_of m in unfold f; row_grow]
  end.

Section phases.
Context (w : world) (k : machine) (j : job).

Lemma grows_finish_capture b : keeps (grows not_cleaned) (_finish_capture w b).
Proof.
  unfold _finish_capture. destruct b; [|grow]. apply keeps_bind; [apply _ | | intros; grow].
  apply grows_except; [grow|]. intros e h. destruct (is_capture_failure e); [intros [= <-]; grow | done].
Qed.
Hint Resolve grows_finish_capture : trace.

Lemma body_cleans_nothing : keeps (row_grows not_cleaned) (row_body w k j).
Proof. row_grow. Qed.
Lemma inputs_register_nothing : keeps (row_grows after_close) (read_inputs w j).
Proof. row_grow. Qed.
Lemma finalization_registers_nothing v failures bytes :
  keeps (row_grows after_close)
    (v ← capture_evidence w v; v ← closing_health w v; v ← closing_scan w j v; v ← command_ledger w v; v ← late_cancel w v;
     lift (_fixture_id_of bytes);; v ← finalize w v failures; mret (mk_answer (v_outcome v) (v_boundary v) failures)).
Proof. row_grow. Qed.
End phases.
#[export] Hint Resolve grows_finish_capture : trace.

(** *** Cleanup on the trace *)

Definition cleaned (t : list event) : list string := omap (fun e => match e with Cleaned n => Some n | _ => None end) t.

Lemma omap_nothing {A} (f : event -> option A) (P : event -> Prop) es : (forall e, P e -> f e = None) -> Forall P es -> omap f es = [].
Proof. intros Hf. induction 1 as [|e es He _ IH]; [done|]. simpl. by rewrite (Hf e He). Qed.
Lemma grows_cleaned s s' : grows not_cleaned s s' -> cleaned (trace s') = cleaned (trace s).
Proof.
  intros (es & -> & He). unfold cleaned. rewrite omap_app, (omap_nothing _ not_cleaned es); [by rewrite app_nil_r | by intros [] | done].
Qed.
Lemma grows_after s s' : grows after_close s s' -> cleaned (trace s') = cleaned (trace s) /\ registered (trace s') = registered (trace s).
Proof.
  intros (es & -> & He). unfold cleaned, registered. rewrite !omap_app, !(omap_nothing _ after_close es); try done; [by rewrite !app_nil_r | by intros []..].
Qed.

Section closing.
Context (w : world).

Lemma callback_trace l n x f : trace (callback_of w l n (x, f)).1.1 = trace x ++ [Cleaned n].
Proof. unfold callback_of. destruct l as [l|]; [destruct (String.eqb _ _); [destruct (L.FixtureLock.release _ _ _)|]|]; done. Qed.

Lemma run_callbacks_trace l names x f :
  let '((x', _), _) := L.CleanupStack.run_callbacks ((fun n => (n, callback_of w l n)) <$> names) (x, f) in
  trace x' = trace x ++ (Cleaned <$> names).
Proof.
  revert x f. induction names as [|n names IH]; intros x f; [cbn; by rewrite app_nil_r|]. rewrite !fmap_cons. cbn [L.CleanupStack.run_callbacks].
  pose proof (callback_trace l n x f) as Ht. destruct (callback_of w l n (x, f)) as [[x1 f1] e]. specialize (IH x1 f1).
  destruct (L.CleanupStack.run_callbacks _ _) as [[x2 f2] fails]. cbn [fst] in Ht. by rewrite IH, Ht, <- app_assoc.
Qed.

Lemma close_stack_trace s : trace (row (close_stack w s).2) = trace (row s) ++ (Cleaned <$> reverse (registered (trace (row s)))).
Proof.
  unfold close_stack, L.CleanupStack.close, stack_of. cbn [L.CleanupStack.closed L.CleanupStack.callbacks]. rewrite <- fmap_reverse.
  pose proof (run_callbacks_trace (lock s) (reverse (registered (trace (row s)))) (row s) (files s)) as H.
  by destruct (L.CleanupStack.run_callbacks _ _) as [[x f] fails].
Qed.
Lemma close_stack_Ok s : exists failures s', close_stack w s = (Ok failures, s').
Proof. unfold close_stack. destruct (L.CleanupStack.close _ _) as [[st [x f]] fails]. eauto. Qed.
End closing.

Lemma cleaned_events names : cleaned (Cleaned <$> names) = names /\ registered (Cleaned <$> names) = [].
Proof. induction names as [|n names [IH1 IH2]]; [done|]. rewrite fmap_cons. split; [exact (f_equal (cons n) IH1) | exact IH2]. Qed.

(** ** Returning runs *)

Lemma on_row_Ok {A} (m : M A) a s s' : step m s = (Ok a, s') -> exists x, m (row s) = (Ok a, x) /\ s' = set_row x s.
Proof. unfold step. destruct (m (row s)) as [r x]. intros [= -> <-]. eauto. Qed.
Lemma wp_step {A} (m : M A) Q X s : wp (step m) Q X s <->
  match m (row s) with (Ok a, x) => Q a (set_row x s) | (Err e, x) => X e (set_row x s) end.
Proof. unfold wp, step. by destruct (m (row s)) as [[a|e] x]. Qed.
Lemma attempt_Ok {A} (m : M A) o s s' : attempt m s = (Ok o, s') ->
  exists x, s' = set_row x s /\ match o with None => exists a, m (row s) = (Ok a, x) | Some e => m (row s) = (Err e, x) end.
Proof. unfold attempt. destruct (m (row s)) as [[a|e] x]; intros [= <- <-]; eauto. Qed.
Lemma grows_elem P s s' e : grows P s s' -> e ∈ trace s -> e ∈ trace s'.
Proof. intros (es & -> & _) He. apply elem_of_app. by left. Qed.
Section body.
Context (w : world) (k : machine) (j : job).

(** What a prepared row has been through. *)
Record prepared (x : runner) : Prop := mk_prepared {
  source_flashed : exists env o, Ran ["fw-flash-hil-source-54l15"%string] (Some env) o false ∈ trace x /\ RunnerStepTheorems.flash_ok o;
  receiver_flashed : exists env o, Ran ["fw-flash-54l15"%string] (Some env) o false ∈ trace x /\ RunnerStepTheorems.flash_ok o;
  booted : forall m, m ∈ RECEIVER_BOOT_MARKERS -> exists n l, rx_line w n = Line (Some l) /\ _receiver_boot_marker_matches m l = true;
  cleaned_state : exists from to, RunnerStepTheorems.bonds_seen w (if String.eqb (state (spec j)) "fresh" then 0 else 1) from to;
}.
Lemma prepared_mono P x x' : grows P x x' -> prepared x -> prepared x'.
Proof.
  intros Hg [(e1 & o1 & H1 & F1) (e2 & o2 & H2 & F2) Hb Hc]. split; [exists e1, o1 | exists e2, o2 | done..]; (split; [by eapply grows_elem|done]).
Qed.

Lemma prepare_Ok fixture sb paths res i s s' : prepare w j fixture sb paths res s = (Ok i, s') -> prepared s'.
Proof.
  unfold prepare. intros H. method_inv H.
  apply RunnerStepTheorems.flash_ordered in Hm as (_ & r1 & r2 & env1 & env2 & o1 & o2 & Ht & _ & _ & _ & _ & Ho1 & Ho2).
  assert (grows not_cleaned st0 st1) as G1 by (eapply keeps_after; [|exact Hm1]; grow).
  assert (grows not_cleaned st st0) as G2 by (eapply keeps_after; [|exact Hm0]; grow).
  assert (grows not_cleaned st1 s') as G3 by (eapply keeps_after; [|exact H]; grow).
  apply RunnerStepTheorems.boot_reads_markers in Hm0 as [_ Hb]. apply RunnerStepTheorems.clean_state_seen in H as (_ & Hc & _).
  assert (grows not_cleaned st s') as G by (etrans; [exact G2|]; by etrans).
  split.
  - exists env1, o1. split; [|done]. eapply grows_elem; [exact G|]. rewrite Ht. unfold RunnerStepTheorems.flashed. set_solver.
  - exists env2, o2. split; [|done]. eapply grows_elem; [exact G|]. rewrite Ht. unfold RunnerStepTheorems.flashed. set_solver.
  - intros m Hm. destruct (Hb m Hm) as (n & l & _ & ? & ?). eauto.
  - destruct Hc as [[-> Hc]|[-> Hc]]; simpl; eauto.
Qed.

Lemma run_dir_Ok canon u s s' : _step_run_dir w k j canon s = (Ok u, s') -> is_Some (run_dir s').
Proof.
  unfold _step_run_dir. intros H. method_inv H. destruct (L.create_run_dir _ _ _ _ _) as [[d|e] f]; method_inv H; apply on_row_Ok in H as (x & _ & ->); simpl; eauto.
Qed.
Lemma row_body_Ok s r s' : row_body w k j s = (Ok r, s') ->
  is_Some (run_dir s') /\ client s' = true /\ consoles s' = true /\ recovery s' = row_recovery r /\ prepared (row s')
  /\ forall segment, 0 <= segment < segment_count (spec j) -> segment_evidence (spec j) (allow_offload_disabled j) segment r.
Proof.
  unfold row_body. intros H. method_inv H. destruct a as [[fixture binding] canon]. method_inv H. destruct a3 as [bound res]. method_inv H.
  apply run_dir_Ok in Hm2. apply on_row_Ok in Hm3 as (x3 & _ & ->), Hm4 as (x4 & _ & ->), Hm5 as (x5 & Hprep & ->), Hm6 as (x6 & Hm6 & ->).
  apply prepare_Ok in Hprep.
  assert (exists x7, grows not_cleaned x6 x7 /\ st7 = set_row x7 (set_capturing a7 (set_row x6 (set_row x5 (set_client (set_consoles (set_row x4 (set_row x3 st2)))))))) as (x7 & G7 & ->).
  { destruct a7; [|method_inv Hm7; by exists x6]. apply on_row_Ok in Hm7 as (x7 & Hm7 & ->). exists x7. split; [|done].
    eapply keeps_after; [|exact Hm7]. grow. }
  apply on_row_Ok in Hm8 as (x8 & Hrow & ->), Hm9 as (x9 & Hm9 & ->), Hm10 as (x10 & Hm10 & ->). simpl in *. split_and!; try done.
  - assert (grows not_cleaned x5 x6) as G6 by (eapply keeps_after; [|exact Hm6]; grow).
    assert (grows not_cleaned x7 x8) as G8 by (eapply keeps_after; [|exact Hrow]; grow).
    assert (grows not_cleaned x8 x9) as G9 by (eapply keeps_after; [|exact Hm9]; auto with trace).
    assert (grows not_cleaned x9 x10) as G10 by (eapply keeps_after; [|exact Hm10]; grow).
    eapply prepared_mono; [|exact Hprep]. do 4 (etrans; [eassumption|]). exact G10.
  - by eapply CaptureTheorems.row_has_evidence.
Qed.
End body.

(** *** After the body *)

(** The phases after the cleanup leave what the body assigned. *)
Definition only_row (s s' : run_state) : Prop := s' = set_row (row s') s.
#[export] Instance only_row_preorder : PreOrder only_row.
Proof. split; unfold only_row; [by intros [] | intros s1 s2 s3 H1 H2; rewrite H2, H1; done]. Qed.
Lemma only_row_attempt {A} (m : M A) : keeps only_row (attempt m).
Proof. intros s. unfold attempt. by destruct (m (row s)). Qed.
Lemma only_row_phases w j v failures bytes :
  keeps only_row (capture_evidence w v) /\ keeps only_row (closing_health w v) /\ keeps only_row (closing_scan w j v)
  /\ keeps only_row (command_ledger w v) /\ keeps only_row (late_cancel w v) /\ keeps only_row (finalize w v failures)
  /\ keeps only_row (lift (_fixture_id_of bytes) : R Json.json).
Proof.
  split_and!; unfold capture_evidence, closing_health, closing_scan, command_ledger, late_cancel, finalize, _record_finalization_failure;
    repeat lazymatch goal with
    | |- keeps _ (mret _) => apply keeps_ret; apply _
    | |- keeps _ (raise _) => apply keeps_raise; apply _
    | |- keeps _ self => apply keeps_self; apply _
    | |- keeps _ (lift _) => apply keeps_lift; apply _
    | |- keeps _ (attempt _) => apply only_row_attempt
    | |- keeps _ (_ ≫= _) => apply keeps_bind; [apply _ | | intros]
    | |- keeps _ (let _ := _ in _) => cbv zeta
    | |- keeps _ (match ?x with _ => _ end) => destruct x
    end.
Qed.

Lemma passed_classify {A} (r : result runner_exn A) : is_passed (classify r) = true -> exists a, r = Ok a.
Proof. destruct r as [a|e]; [eauto|]. by destruct e. Qed.
Lemma passed_cleanup v failures : is_passed (after_cleanup v failures) = true -> is_passed v = true /\ failures = [].
Proof. destruct failures; [done|]. unfold after_cleanup. destruct (is_passed v) eqn:Hv; [done|]. unfold is_passed in *. cbn. by rewrite Hv. Qed.
Lemma passed_late v o p u : is_passed (late v o p u) = true -> v = late v o p u /\ o = None.
Proof. destruct o as [e|]; [|done]. unfold late. destruct (is_passed v) eqn:Hv; [done|]. unfold is_passed in *. destruct (v_boundary v); cbn; by rewrite Hv. Qed.

Lemma close_stack_locals w s : exists f x failures, close_stack w s = (Ok failures, set_files f (set_row x s)).
Proof. unfold close_stack. destruct (L.CleanupStack.close _ _) as [[st [x f]] fails]. eauto. Qed.
Lemma grows_weaken s s' : grows after_close s s' -> grows not_cleaned s s'.
Proof. intros (es & H & He). exists es. split; [done|]. by eapply Forall_impl; [exact He | intros []]. Qed.

Section passing.
Context (w : world) (j : job).

Lemma passed_capture v v' s s' : capture_evidence w v s = (Ok v', s') -> is_passed v' = true -> v' = v.
Proof.
  unfold capture_evidence. intros H. method_inv H. destruct (_ && _); method_inv H; [|done]. intros Hp. by destruct (passed_late _ _ _ _ Hp) as [<- _].
Qed.
Lemma passed_health v v' s s' : closing_health w v s = (Ok v', s') -> is_passed v' = true -> v' = v.
Proof.
  unfold closing_health. intros H. method_inv H. destruct (consoles _); method_inv H; [|done].
  unfold late_boundary. destruct a as [[]|]; try done. by destruct (is_passed v).
Qed.
Lemma passed_scan v v' s s' : closing_scan w j v s = (Ok v', s') -> is_passed v' = true ->
  v' = v /\ (client s = true -> exists p x x', scan_and_record w j (recovery s) p x = (Ok tt, x')).
Proof.
  unfold closing_scan. intros H. method_inv H. destruct (client _); method_inv H; [|done].
  apply attempt_Ok in Hm as (x & -> & Hx). destruct a as [e|].
  - destruct e; try done. method_inv H. unfold late_boundary. by destruct (is_passed v) eqn:Hv; intros Hp; rewrite ?Hv in Hp.
  - method_inv H. destruct Hx as ([] & Hx). intros _. split; [done|]. eauto.
Qed.
Lemma passed_ledger v v' s s' : command_ledger w v s = (Ok v', s') -> is_passed v' = true -> v' = v.
Proof.
  unfold command_ledger. intros H. method_inv H. destruct (bool_decide _); method_inv H; [|done]. intros Hp. by destruct (passed_late _ _ _ _ Hp) as [<- _].
Qed.
Lemma passed_cancel v v' s s' : late_cancel w v s = (Ok v', s') -> is_passed v' = true -> v' = v.
Proof. unfold late_cancel. destruct (is_passed v); intros H; method_inv H; [|done]. by destruct a. Qed.
Lemma published_Ok r s s' : _finalize w r s = (Ok tt, s') -> Wrote "result.json" (Decided r) ∈ trace s'.
Proof.
  unfold _finalize. intros H. method_inv H. assert (grows not_cleaned st s') as G by (eapply keeps_after; [|exact H]; grow).
  eapply grows_elem; [exact G|]. unfold _write_result_and_junit in Hm. steps_inv. simpl. set_solver.
Qed.
Lemma passed_finalize v v' failures s s' : finalize w v failures s = (Ok v', s') -> is_passed v' = true ->
  v' = v /\ (is_Some (run_dir s) -> Wrote "result.json" (Decided (_result_dict v failures (capability_value (capability s)))) ∈ trace (row s')).
Proof.
  unfold finalize. intros H. method_inv H. case_bool_decide as Hd; method_inv H; [|done].
  apply attempt_Ok in Hm as (x & -> & Hx). destruct a as [e|]; method_inv H; [done|].
  destruct Hx as ([] & Hx). intros _. split; [done|]. intros _. by apply published_Ok in Hx.
Qed.

Lemma settle_passed bytes r s b fails s' :
  settle_run w j bytes (classify (A := row_result) r) s = (Ok (mk_answer "passed" b fails), s') ->
  (exists a, r = Ok a) /\ b = None /\ fails = [] /\ grows not_cleaned (row (close_stack w s).2) (row s')
  /\ (client s = true -> exists p x x', scan_and_record w j (recovery s) p x = (Ok tt, x'))
  /\ (is_Some (run_dir s) -> exists cap, Wrote "result.json" (Decided (mk_result "passed" None None [] cap)) ∈ trace (row s')).
Proof.
  unfold settle_run. intros H. destruct (close_stack_locals w s) as (f & x & fl & Hc). rewrite run_bind, Hc in H. rewrite Hc.
  set (st := set_files f (set_row x s)) in *.
  pose proof (keeps_after _ _ _ _ _ (finalization_registers_nothing w j (after_cleanup (classify r) fl) fl bytes) H) as G. apply grows_weaken in G.
  method_inv H. injection H as Ho -> ->.
  assert (is_passed a5 = true) as Hp by (unfold is_passed; by rewrite <- Ho).
  destruct (passed_finalize _ _ _ _ _ Hm5 Hp) as [-> Hwrote]. pose proof (passed_cancel _ _ _ _ Hm3 Hp) as ->.
  pose proof (passed_ledger _ _ _ _ Hm2 Hp) as ->. destruct (passed_scan _ _ _ _ Hm1 Hp) as [-> Hscan].
  pose proof (passed_health _ _ _ _ Hm0 Hp) as ->. pose proof (passed_capture _ _ _ _ Hm Hp) as ->.
  destruct (passed_cleanup _ _ Hp) as [Hr ->]. destruct (passed_classify _ Hr) as [rr ->].
  destruct (only_row_phases w j (after_cleanup (classify (Ok rr)) []) [] bytes) as (K1 & K2 & K3 & K4 & K5 & _ & K7).
  apply (keeps_after _ _ _ _ _ K1) in Hm. apply (keeps_after _ _ _ _ _ K2) in Hm0. apply (keeps_after _ _ _ _ _ K3) in Hm1.
  apply (keeps_after _ _ _ _ _ K4) in Hm2. apply (keeps_after _ _ _ _ _ K5) in Hm3. unfold only_row in *.
  assert (client st1 = client s /\ recovery st1 = recovery s /\ run_dir st4 = run_dir s) as (E1 & E2 & E3).
  { rewrite Hm3, Hm2, Hm1, Hm0, Hm. done. }
  rewrite E1, E2 in Hscan. rewrite E3 in Hwrote. split_and!; try done; [by eexists|]. intros Hd. eexists. by apply Hwrote.
Qed.
End passing.

Section keeping.
Context (w : world) (j : job).

(** A verdict with a named boundary that is not a pass. *)
Definition named (v : verdict) : Prop := is_passed v = false /\ is_Some (v_boundary v).
Lemma named_classify {A} e : named (classify (A := A) (Err e)).
Proof. split; [by destruct e | by destruct e; eexists]. Qed.
Lemma named_cleanup v failures : named v ->
  named (after_cleanup v failures) /\ v_outcome (after_cleanup v failures) = v_outcome v /\ v_boundary (after_cleanup v failures) = v_boundary v.
Proof. intros [Hv [b Hb]]. destruct failures; [done|]. unfold after_cleanup, named, is_passed in *. rewrite Hv. cbn. by rewrite Hb. Qed.
Lemma named_late v o p u : named v -> late v o p u = v.
Proof. intros [Hv [b Hb]]. unfold late. by destruct o; rewrite ?Hv, ?Hb. Qed.
Lemma named_late_boundary v o : named v -> late_boundary v o = v.
Proof. intros [Hv _]. unfold late_boundary. destruct o as [[]|]; by rewrite ?Hv. Qed.

Lemma named_phases v v1 v2 v3 v4 v5 s s1 s2 s3 s4 s5 : named v ->
  capture_evidence w v s = (Ok v1, s1) -> closing_health w v1 s1 = (Ok v2, s2) -> closing_scan w j v2 s2 = (Ok v3, s3) ->
  command_ledger w v3 s3 = (Ok v4, s4) -> late_cancel w v4 s4 = (Ok v5, s5) -> v5 = v.
Proof.
  intros Hv H1 H2 H3 H4 H5.
  assert (v1 = v) as ->. { unfold capture_evidence in H1. method_inv H1. destruct (_ && _); method_inv H1; [by apply named_late | done]. }
  assert (v2 = v) as ->. { unfold closing_health in H2. method_inv H2. destruct (consoles _); method_inv H2; [by apply named_late_boundary | done]. }
  assert (v3 = v) as ->.
  { unfold closing_scan in H3. method_inv H3. destruct (client _); method_inv H3; [|done]. destruct a as [[]|]; try done; method_inv H3; [by apply named_late_boundary | done]. }
  assert (v4 = v) as ->. { unfold command_ledger in H4. method_inv H4. destruct (bool_decide _); method_inv H4; [by apply named_late | done]. }
  unfold late_cancel in H5. rewrite (proj1 Hv) in H5. by method_inv H5.
Qed.

Lemma finalize_keeps v v' failures s s' : finalize w v failures s = (Ok v', s') ->
  v' = v \/ exists e, v' = failed (Prefixed "evidence finalization: " e) e.
Proof.
  unfold finalize. intros H. method_inv H. destruct (bool_decide _); method_inv H; [|by left].
  destruct a as [e|]; method_inv H; [right; eauto | by left].
Qed.

(** *** Only the log scan and the fixture id let an exception out *)

Definition scan_escapes (e : runner_exn) : Prop :=
  (forall b d, e <> HilRunnerError b d)
  /\ exists r p x x', scan_and_record w j r p x = (Err e, x').

Lemma settle_escapes bytes v s e s' : settle_run w j bytes v s = (Err e, s') -> scan_escapes e \/ _fixture_id_of bytes = Err e.
Proof.
  intros H. destruct (close_stack_locals w s) as (f & x & fl & Hc).
  assert (wp (settle_run w j bytes v) (fun _ _ => True) (fun e _ => scan_escapes e \/ _fixture_id_of bytes = Err e) s) as Hwp; [|by eapply wp_Err in Hwp].
  unfold settle_run. rewrite wp_bind. unfold wp at 1. rewrite Hc.
  assert (forall A (m : M A) Q X s, (forall o s', Q o s') -> wp (attempt m) Q X s) as Hatt.
  { intros A m Q X s0 HQ. unfold wp, attempt. destruct (m (row s0)). apply HQ. }
  rewrite wp_bind. unfold capture_evidence. rewrite wp_bind, wp_self. eapply (wp_mono _ (fun _ _ => True) _ (fun _ _ => False)); [|intros v1 s1 _ | done].
  { destruct (_ && _); [rewrite wp_bind; by apply Hatt | done]. }
  rewrite wp_bind. unfold closing_health. rewrite wp_bind, wp_self. eapply (wp_mono _ (fun _ _ => True) _ (fun _ _ => False)); [|intros v2 s2 _ | done].
  { destruct (consoles _); [rewrite wp_bind; by apply Hatt | done]. }
  rewrite wp_bind. eapply (wp_mono _ (fun _ _ => True) _ (fun e _ => scan_escapes e)); [|intros v3 s3 _ | by left].
  { unfold closing_scan. rewrite wp_bind, wp_self. destruct (client _); [|done]. rewrite wp_bind. unfold wp at 1, attempt.
    destruct (scan_and_record _ _ _ _ _) as [[u|e1] x1] eqn:Hs; [done|].
    destruct e1; try (split; [done | eauto]). done. }
  rewrite wp_bind. unfold command_ledger. rewrite wp_bind, wp_self. eapply (wp_mono _ (fun _ _ => True) _ (fun _ _ => False)); [|intros v4 s4 _ | done].
  { destruct (bool_decide _); [rewrite wp_bind; by apply Hatt | done]. }
  rewrite wp_bind. unfold late_cancel. eapply (wp_mono _ (fun _ _ => True) _ (fun _ _ => False)); [|intros v5 s5 _ | done].
  { destruct (is_passed v4); [rewrite wp_bind; by apply Hatt | done]. }
  rewrite wp_bind, wp_lift. destruct (_fixture_id_of bytes) as [i|e1] eqn:Hid; [|by right].
  rewrite wp_bind. unfold finalize. rewrite wp_bind, wp_self. destruct (bool_decide _); [|done]. rewrite wp_bind. apply Hatt. intros [e1|] s6; [|done].
  rewrite wp_bind. unfold _record_finalization_failure. rewrite wp_bind. apply Hatt. intros _ s7. rewrite wp_bind. apply Hatt. intros _ s8. done.
Qed.
End keeping.

(** *** The published result *)

Definition decided (t : list event) : list result_doc :=
  omap (fun e => match e with Wrote n (Decided r) => if String.eqb n "result.json" then Some r else None | _ => None end) t.

Section publishing.
Context (w : world) (Hw : forall n, write_ok w n = true).

Lemma put_works name c e s : put w name c e s = (Ok tt, log (Wrote name c) (tick s)).
Proof. unfold put. rewrite run_bind. simpl. by rewrite Hw. Qed.
Lemma result_written r s : exists s', _write_result_and_junit w r s = (Ok tt, s') /\ decided (trace s') = decided (trace s) ++ [r].
Proof.
  unfold _write_result_and_junit. rewrite run_bind, put_works, run_bind, put_works, put_works. eexists. split; [done|].
  simpl. unfold decided. rewrite <- !app_assoc, omap_app. done.
Qed.
Lemma call_decides_nothing what s : decided (trace (call w what s).2) = decided (trace s).
Proof.
  assert (trace (call w what s).2 = trace s ++ [Called what]) as ->.
  { unfold call. rewrite run_bind. simpl. rewrite run_bind. simpl. by destruct (others w (turn s)). }
  unfold decided. by rewrite omap_app, app_nil_r.
Qed.

Lemma finalize_publishes_last v v' failures s s' : is_Some (run_dir s) -> finalize w v failures s = (Ok v', s') ->
  exists cap, last (decided (trace (row s'))) = Some (_result_dict v' failures cap).
Proof.
  intros Hd H. unfold finalize in H. method_inv H. rewrite bool_decide_eq_true_2 in H by done. method_inv H.
  set (cap := capability_value _) in *. exists cap. unfold attempt, _finalize in Hm. rewrite run_bind in Hm.
  destruct (result_written (_result_dict v failures cap) (row s)) as (x1 & Hx1 & Hl1). rewrite Hx1 in Hm.
  pose proof (call_decides_nothing "finalize_evidence" x1) as Hl2. destruct (call w "finalize_evidence" x1) as [[u|e] x2]; injection Hm as <- <-; cbn [row set_row fst snd] in *.
  - method_inv H. cbn [row set_row]. by rewrite Hl2, Hl1, last_snoc.
  - method_inv H. unfold _record_finalization_failure in Hm. method_inv Hm. set (v2 := failed _ _) in *.
    destruct (result_written (_result_dict v2 failures cap) x2) as (x3 & Hx3 & Hl3).
    unfold attempt in Hm0, Hm1. cbn [row set_row] in Hm0. rewrite Hx3 in Hm0. injection Hm0 as <- <-. cbn [row set_row] in Hm1.
    pose proof (call_decides_nothing "_best_effort_failed_manifest" x3) as Hl4. destruct (call w _ x3) as [r4 x4]. injection Hm1 as <- <-.
    cbn [row set_row snd] in *. by rewrite Hl4, Hl3, last_snoc.
Qed.
End publishing.

(** *** The fixture lock *)

Section locking.
Context (w : world) (k : machine) (j : job) (p fid : string).

(** Not acquired, or held and still readable by its owner. *)
Definition lock_ok (s : run_state) : Prop :=
  (lock s = None /\ files s !! p = None)
  \/ exists l, lock s = Some l /\ L.FixtureLock.path l = p /\ L.FixtureLock.fixture_id l = fid
       /\ L.FixtureLock.read_token l (files s) = Ok tt /\ lock_name fid ∈ registered (trace (row s)).
Definition same_lock (s s' : run_state) : Prop := files s' = files s /\ lock s' = lock s /\ grows not_cleaned (row s) (row s').
#[local] Instance same_lock_preorder : PreOrder same_lock.
Proof.
  split; [by intros s; split_and!|]. intros s1 s2 s3 (F1 & L1 & G1) (F2 & L2 & G2). split_and!; [congruence.. | by etrans].
Qed.
Lemma lock_ok_same s s' : same_lock s s' -> lock_ok s -> lock_ok s'.
Proof.
  intros (Hf & Hl & (es & Ht & _)). unfold lock_ok. rewrite Hf, Hl, Ht. intros [?|(l & ? & ? & ? & ? & Hin)]; [by left | right].
  exists l. split_and!; try done. unfold registered in *. rewrite omap_app. apply elem_of_app. by left.
Qed.
Lemma same_lock_step {A} (m : M A) : keeps (grows not_cleaned) m -> keeps same_lock (step m).
Proof. intros Hm s. specialize (Hm (row s)). unfold step, same_lock. by destruct (m (row s)). Qed.
Lemma same_lock_assign f : (forall s, files (f s) = files s /\ lock (f s) = lock s /\ row (f s) = row s) -> keeps same_lock (assign f : R unit).
Proof. intros Hf. apply keeps_assign. intros s. unfold same_lock. destruct (Hf s) as (-> & -> & ->). by split_and!. Qed.
Ltac same_lock_tac :=
  lazymatch goal with
  | |- keeps _ (mret _) => apply keeps_ret; apply _
  | |- keeps _ (_ ≫= _) => apply keeps_bind; [apply _ | same_lock_tac | intros; same_lock_tac]
  | |- keeps _ (step _) => apply same_lock_step; grow
  | |- keeps _ (assign _) => by apply same_lock_assign
  | |- keeps _ (match ?x with _ => _ end) => destruct x; same_lock_tac
  end.

Lemma lock_ok_wp {A} (m : R A) s : keeps same_lock m -> lock_ok s -> wp m (fun _ => lock_ok) (fun _ => lock_ok) s.
Proof. intros Hm Hs. specialize (Hm s). unfold wp. destruct (m s) as [[a|e] s']; by eapply lock_ok_same. Qed.

Lemma lock_free_wp {A} (m : R A) s : keeps same_lock m -> lock s = None -> files s !! p = None ->
  wp m (fun _ s' => lock s' = None /\ files s' !! p = None) (fun _ s' => lock s' = None /\ files s' !! p = None) s.
Proof. intros Hm Hl Hf. specialize (Hm s). unfold wp. destruct (m s) as [[a|e] s']; destruct Hm as (Hf1 & Hl1 & _); simpl in *; by rewrite Hf1, Hl1. Qed.

Lemma acquire_lock_ok canon s : p = L.FixtureLock.lock_path (sha256_text k) canon fid -> L.FixtureLock.plain_owner (owner k) fid ->
  L.FixtureLock.unlink_ok (owner k) = true -> lock s = None -> files s !! p = None ->
  wp (acquire k canon fid) (fun _ => lock_ok) (fun _ => lock_ok) s.
Proof.
  intros Hp [Ha Hpid] Hu Hl Hf. unfold acquire. rewrite wp_bind, wp_self.
  assert (p <> L.FixtureLock.lock_dir canon) as Hne by (subst p; apply LockPaths.lock_path_ne).
  unfold L.FixtureLock.acquire. rewrite <- Hp. destruct (L.FixtureLock.ensure_lock_dir _ _ _) as [f1|e] eqn:Hd.
  2:{ left. by split. }
  apply LockPaths.ensure_lock_dir_ok in Hd as [_ Hd].
  assert (f1 !! p = None) as Hf1 by (destruct Hd as [[_ ->]|[_ ->]]; [done | by rewrite lookup_insert_ne]).
  unfold L.FixtureLock.open_excl, L.lexists. rewrite Hf1. simpl. destruct (L.FixtureLock.open_ok _); simpl; [|by left].
  destruct (L.FixtureLock.write_ok (owner k)).
  - right. eexists. split; [done|]. split; [done|]. split; [done|]. split.
    + unfold L.FixtureLock.read_token. simpl. rewrite lookup_insert_eq. by apply (LockPaths.payload_ok _ fid).
    + unfold registered. cbn [row set_lock set_files step note assign trace log set_row]. rewrite omap_app. apply elem_of_app. right. left.
  - rewrite Hu. left. simpl. split; [done|]. by rewrite lookup_delete_eq.
Qed.

Lemma acquire_locked canon u s s' : acquire k canon fid s = (Ok u, s') -> is_Some (lock s').
Proof.
  unfold acquire. intros H. method_inv H. destruct (L.FixtureLock.acquire _ _ _ _ _) as [[l|e] f]; method_inv H. apply on_row_Ok in H as (x & _ & ->). by eexists.
Qed.
Lemma run_dir_lock_ok canon s : lock_ok s -> is_Some (lock s) -> wp (_step_run_dir w k j canon) (fun _ => lock_ok) (fun _ => lock_ok) s.
Proof.
  intros Hs [l0 Hl0]. unfold _step_run_dir. rewrite wp_bind, wp_self. destruct Hs as [[Hn _]|(l & Hl & Hp & Hfid & Hread & Hin)]; [congruence|].
  unfold L.create_run_dir. match goal with |- context [match ?c with Ok _ => (Ok ?d, _) | Err _ => _ end] => destruct c as [u|e] eqn:He end.
  - rewrite !wp_bind, wp_assign, wp_bind, wp_assign. apply lock_ok_wp; [apply same_lock_step; grow|]. right. exists l. simpl. split_and!; try done.
    result_inv He. unfold L.FixtureLock.read_token in *.
    rewrite lookup_insert_ne; [done|]. intros Hpd. rewrite Hpd in *. unfold L.lexists in *. by destruct (files s !! L.FixtureLock.path l).
  - rewrite wp_bind, wp_assign. right. by exists l.
Qed.

Lemma row_body_lock_ok s fx b canon : _step_validate k j (row s) = (Ok (fx, b, canon), row s) -> F.fixture_id fx = fid ->
  p = L.FixtureLock.lock_path (sha256_text k) canon fid -> L.FixtureLock.plain_owner (owner k) fid -> L.FixtureLock.unlink_ok (owner k) = true ->
  lock s = None -> files s !! p = None -> wp (row_body w k j) (fun _ => lock_ok) (fun _ => lock_ok) s.
Proof.
  intros Hv Hfid Hp Ho Hu Hl Hf. unfold row_body. rewrite wp_bind, wp_step, Hv.
  rewrite wp_bind, wp_assign, wp_bind. set (s1 := set_capability _ _).
  assert (lock s1 = None /\ files s1 !! p = None) as [Hl1 Hf1] by done.
  assert (keeps same_lock (step (check_qualification w j fx))) as Hq by (apply same_lock_step; grow).
  eapply wp_mono; [by apply (lock_free_wp _ s1)| | by intros e s2 [? ?]; left]. intros u s2 [Hl2 Hf2].
  pose proof (acquire_lock_ok canon s2 Hp Ho Hu Hl2 Hf2) as Hacq.
  assert (wp (acquire k canon fid) (fun _ s' => lock_ok s' /\ is_Some (lock s')) (fun _ => lock_ok) s2) as Hboth.
  { unfold wp in Hacq |- *. destruct (acquire k canon fid s2) as [[u2|e] s3] eqn:Ha; [|done]. split; [done|]. by eapply acquire_locked. }
  rewrite wp_bind, Hfid. eapply wp_mono; [exact Hboth | | done]. intros u2 s3 [H3 Hl3].
  rewrite wp_bind. eapply wp_mono; [by apply run_dir_lock_ok | | done].
  intros u3 s4 H4. apply lock_ok_wp; [|done]. same_lock_tac.
Qed.

(** Closing the stack frees the lock. *)
Lemma run_callbacks_free l names x f : (forall n, cleanups w n = None) -> L.FixtureLock.path l = p -> L.FixtureLock.fixture_id l = fid ->
  f !! p = None \/ L.FixtureLock.read_token l f = Ok tt ->
  let '((_, f'), _) := L.CleanupStack.run_callbacks ((fun n => (n, callback_of w (Some l) n)) <$> names) (x, f) in
  f !! p = None \/ lock_name fid ∈ names -> f' !! p = None.
Proof.
  intros Hc Hp Hfid. revert x f. induction names as [|n names IH]; intros x f Hf; [cbn; by intros [?|?%not_elem_of_nil]|].
  rewrite !fmap_cons. cbn [L.CleanupStack.run_callbacks]. unfold callback_of at 1. rewrite Hc, Hfid, bool_decide_eq_true_2 by done.
  destruct (String.eqb n (lock_name fid)) eqn:Hn.
  - assert (exists r f1, L.FixtureLock.release true l f = (r, f1) /\ f1 !! p = None) as (r & f1 & -> & Hf1).
    { unfold L.FixtureLock.release. destruct (L.FixtureLock.read_token l f) as [[]|e] eqn:Hr; [do 2 eexists; split; [done|]; subst p; apply lookup_delete_eq|].
      do 2 eexists; split; [done|]. by destruct Hf. }
    specialize (IH (log (Cleaned n) (tick x)) f1 (or_introl Hf1)). destruct (L.CleanupStack.run_callbacks _ _) as [[x2 f2] fails].
    intros _. apply IH. by left.
  - specialize (IH (log (Cleaned n) (tick x)) f Hf). destruct (L.CleanupStack.run_callbacks _ _) as [[x2 f2] fails].
    intros [Hn'|[Heq|Hin]%elem_of_cons]; apply IH; [by left | | by right]. subst n. by rewrite String.eqb_refl in Hn.
Qed.
Lemma run_callbacks_none names x f :
  let '((_, f'), _) := L.CleanupStack.run_callbacks ((fun n => (n, callback_of w None n)) <$> names) (x, f) in f' = f.
Proof.
  revert x f. induction names as [|n names IH]; intros x f; [done|]. rewrite !fmap_cons. cbn [L.CleanupStack.run_callbacks]. unfold callback_of at 1.
  specialize (IH (log (Cleaned n) (tick x)) f). by destruct (L.CleanupStack.run_callbacks _ _) as [[x2 f2] fails].
Qed.
Lemma close_stack_frees s : (forall n, cleanups w n = None) -> lock_ok s -> files (close_stack w s).2 !! p = None.
Proof.
  intros Hc Hs. unfold close_stack, L.CleanupStack.close, stack_of. cbn [L.CleanupStack.closed L.CleanupStack.callbacks]. rewrite <- fmap_reverse.
  destruct Hs as [[Hl Hf]|(l & Hl & Hp & Hfid & Hread & Hin)]; rewrite Hl.
  - pose proof (run_callbacks_none (reverse (registered (trace (row s)))) (row s) (files s)) as Hr.
    destruct (L.CleanupStack.run_callbacks _ _) as [[x f] fails]. simpl. by rewrite Hr.
  - pose proof (run_callbacks_free l (reverse (registered (trace (row s)))) (row s) (files s) Hc Hp Hfid (or_intror Hread)) as Hr.
    destruct (L.CleanupStack.run_callbacks _ _) as [[x f] fails]. simpl. apply Hr. right. by apply elem_of_reverse.
Qed.
End locking.

(** Validation reads no answer of the world. *)
Lemma validate_pure k j v x : (_step_validate k j fresh_runner).1 = Ok v -> _step_validate k j x = (Ok v, x).
Proof.
  unfold _step_validate, of_schema, of_lifecycle. rewrite !run_bind. destruct (F.load_logical_fixture _) as [fx|]; [|done]. simpl. rewrite !run_bind.
  destruct (F.load_physical_binding _ _ _ _ _) as [b|]; [|done]. simpl. rewrite !run_bind.
  destruct (L.validate_output_root _ _ _ _ _) as [c|]; [|done]. simpl. rewrite !run_bind.
  destruct (L.validate_run_id _) as [u|]; [|done]. simpl. by intros [= ->].
Qed.
Lemma inputs_keep_lock w j : keeps same_lock (read_inputs w j).
Proof.
  unfold read_inputs. repeat first [apply keeps_bind; [apply same_lock_preorder | | intros]
    | apply keeps_check; apply same_lock_preorder | apply keeps_lift; apply same_lock_preorder | apply keeps_ret; apply same_lock_preorder].
  destruct (bool_decide _); [apply same_lock_step; grow | apply keeps_ret; apply same_lock_preorder].
Qed.
Lemma finalization_keeps_files w j v failures bytes :
  keeps only_row
    (v ← capture_evidence w v; v ← closing_health w v; v ← closing_scan w j v; v ← command_ledger w v; v ← late_cancel w v;
     lift (_fixture_id_of bytes);; v ← finalize w v failures; mret (mk_answer (v_outcome v) (v_boundary v) failures)).
Proof.
  repeat (apply keeps_bind; [apply _ | first [apply (only_row_phases w j passed failures bytes) | apply (only_row_phases w j _ failures bytes)] | intros]). apply keeps_ret; apply _.
Qed.

(** ** Theorems *)

Module RunTheorems.

(** C6. Whatever is registered is undone, whatever happens: when [run] returns a
    verdict or an exception leaves it, exactly the registered actions have
    run, each once, the last registered first. *)
Theorem registered_actions_run w k j f :
  let s' := (run w k j (fresh_run f)).2 in
  cleaned (trace (row s')) = reverse (registered (trace (row s'))).
Proof.
  unfold run. rewrite run_bind. pose proof (inputs_register_nothing w j (fresh_run f)) as Hin.
  destruct (read_inputs w j (fresh_run f)) as [[bytes|e] s0]; apply grows_after in Hin as [Hc0 Hr0]; simpl in *.
  2:{ by rewrite Hc0, Hr0. }
  rewrite run_bind. unfold guarded. pose proof (body_cleans_nothing w k j s0) as Hbody.
  destruct (row_body w k j s0) as [res s1]. apply grows_cleaned in Hbody. simpl in *. unfold settle_run. rewrite run_bind.
  pose proof (close_stack_trace w s1) as Ht. destruct (close_stack_Ok w s1) as (failures & s2 & Hclose). rewrite Hclose in *. simpl in *.
  pose proof (finalization_registers_nothing w j (after_cleanup (classify res) failures) failures bytes s2) as Hlate.
    match goal with |- context [(?m s2).2] => set (s3 := (m s2).2) in * end.
    apply grows_after in Hlate as [Hc Hr]. rewrite Hc, Hr, Ht. unfold cleaned, registered. rewrite !omap_app.
    fold (cleaned (trace (row s1))) (registered (trace (row s1))). rewrite Hbody, Hc0. simpl.
    destruct (cleaned_events (reverse (registered (trace (row s1))))) as [E1 E2]. unfold cleaned, registered in E1, E2 |- *. by rewrite E1, E2, app_nil_r.
Qed.
(** Both console logs were complete and quiet, and a trace that was asked for
    is in the receiver log: the callback-timed one without an error, the direct
    one that of complete calls. *)
Definition quiet_logs (j : job) (r : option fault_recovery) : Prop :=
  CaptureTheorems.source_quiet (record_lines j) (source_log j)
  /\ (exists h, CaptureTheorems.receiver_quiet (spec j) r h (receiver_log j)
       /\ if hci_remove_iso_path_trace j then exists p, h = Some p /\ hci_trace_of (receiver_log j) = Ok p /\ HciTrace.validation_errors p = [] else h = None)
  /\ (sdc_hci_remove_iso_path_trace j = true ->
      exists raw t, receiver_log j = Some (Bytes raw) /\ HciTrace.Sdc.parse_sdc_hci_remove_iso_path_trace (Some raw) = Ok t
        /\ HciTrace.TraceTheorems.accepted (HciTrace.Sdc.filed t) (HciTrace.Sdc.receive_disposition_outcome t)).
Lemma empty_trace_refused log t : sdc_trace_of log = Ok t -> HciTrace.Sdc.errors t = [] ->
  exists raw, log = Some (Bytes raw) /\ HciTrace.Sdc.parse_sdc_hci_remove_iso_path_trace (Some raw) = Ok t.
Proof.
  assert (match HciTrace.Sdc.parse_sdc_hci_remove_iso_path_trace (Some []) with Ok t => negb (bool_decide (HciTrace.Sdc.errors t = [])) | Err _ => true end = true) as Hno
    by (vm_compute; reflexivity).
  unfold sdc_trace_of, trace_of_log. destruct log as [[raw|]|]; [by exists raw | ..]; destruct (HciTrace.Sdc.parse_sdc_hci_remove_iso_path_trace (Some [])) as [t0|]; try done.
  - cbn [mbind result_bind]. intros [= <-]. cbn [HciTrace.Sdc.errors sdc_unread]. by destruct (HciTrace.Sdc.errors t0).
  - intros [= <-] He. by rewrite bool_decide_eq_true_2 in Hno.
Qed.
Lemma scanned_quiet w j r p x x' : scan_and_record w j r p x = (Ok tt, x') -> quiet_logs j r.
Proof.
  unfold scan_and_record. intros H. method_inv H. apply CaptureTheorems.log_scan_iff in Hm as (Hs & _ & _ & h & c & Hh & Hc & Hr & _).
  split; [done|]. split; [by exists h|]. intros E. unfold CaptureTheorems.traced in Hc. rewrite E in Hc. destruct Hc as (t & _ & Ht & He).
  destruct (empty_trace_refused _ _ Ht He) as (raw & -> & Hp). exists raw, t. split; [done|]. split; [done|].
  by destruct (HciTrace.TraceTheorems.sdc_trace_accepted_in _ _ Hp He) as (_ & _ & _ & ?).
Qed.


(** C8. The first failure names the run: when the body ended with an exception,
    the answer has its outcome and boundary, whatever the cleanup, the scans
    and the ledger report later; only a failed finalization overrides it. *)
Theorem first_failure_kept w k j f bytes s0 e s1 a s' :
  read_inputs w j (fresh_run f) = (Ok bytes, s0) -> row_body w k j s0 = (Err e, s1) -> run w k j (fresh_run f) = (Ok a, s') ->
  let v := classify (A := row_result) (Err e) in
  (a_outcome a = v_outcome v /\ a_boundary a = v_boundary v) \/
  (exists e', a_outcome a = "failed"%string /\ a_boundary a = Some (Prefixed "evidence finalization: " e')).
Proof.
  intros Hin Hbody H. unfold run in H. rewrite run_bind, Hin, run_bind in H. unfold guarded in H. rewrite Hbody in H. intros v.
  unfold settle_run in H. method_inv H.
  match goal with H : capture_evidence _ (after_cleanup _ ?fl) _ = _ |- _ => destruct (named_cleanup v fl (named_classify e)) as (Hn & Ho & Hb) end.
  pose proof (named_phases _ _ _ _ _ _ _ _ _ _ _ _ _ _ Hn Hm0 Hm1 Hm2 Hm3 Hm4) as ->.
  destruct (finalize_keeps _ _ _ _ _ _ Hm6) as [->|[e' ->]]; [left | right; exists e'; done]. simpl. by rewrite Ho, Hb.
Qed.

(** [run] always answers once it holds something: an exception leaves it only
    before the body (nothing registered yet), out of the log scan when it is
    not the runner's own, or out of [_fixture_id_of]. *)
Theorem run_escapes_only w k j f e s' : run w k j (fresh_run f) = (Err e, s') ->
  registered (trace (row s')) = [] \/ scan_escapes w j e
  \/ exists bytes, binding_first j = Some bytes /\ _fixture_id_of bytes = Err e.
Proof.
  unfold run. rewrite run_bind. pose proof (inputs_register_nothing w j (fresh_run f)) as Hin.
  destruct (read_inputs w j (fresh_run f)) as [[bytes|e0] s0] eqn:Hread.
  - rewrite run_bind. unfold guarded. destruct (row_body w k j s0) as [res s1]. intros H. right.
    destruct (settle_escapes _ _ _ _ _ _ _ H) as [?|Hid]; [by left | right]. exists bytes. split; [|done].
    unfold read_inputs in Hread. method_inv Hread. by destruct (binding_first j); simplify_eq/=.
  - intros [= <- <-]. left. apply grows_after in Hin as [_ Hr]. exact Hr.
Qed.

(** C13. The last result written is the answer: with writable files, whatever the
    finalization did, the last [result.json] carries the outcome, the boundary
    and the cleanup failures that [run] returns. *)
Theorem published_is_answered w k j f a s' : (forall n, write_ok w n = true) ->
  run w k j (fresh_run f) = (Ok a, s') -> is_Some (run_dir s') ->
  exists r, last (decided (trace (row s'))) = Some r
    /\ outcome r = a_outcome a /\ first_failed_boundary r = a_boundary a /\ cleanup_failures r = a_failures a.
Proof.
  intros Hw H Hd. unfold run in H. method_inv H. unfold settle_run in H. method_inv H.
  match goal with H : finalize _ ?v ?fl ?s = _ |- _ => destruct (only_row_phases w j v fl []) as (_ & _ & _ & _ & _ & K & _); pose proof (keeps_after _ _ _ _ _ K H) as Ho end.
  unfold only_row in Ho. rewrite Ho in Hd.
  match goal with H : finalize _ _ _ ?s6 = _ |- _ => destruct (finalize_publishes_last w Hw _ _ _ s6 _ Hd H) as [cap Hl] end.
  eexists. split; [exact Hl | done].
Qed.

End RunTheorems.

Module RunWitnesses.
Import RunTheorems RunnerStepWitnesses CaptureWitnesses Json.

Definition demo_fixture : F.LogicalFixture := F.mk_fixture 1 "lab-1" F.NONE [
  ("receiver", F.mk_role F.ZEPHYR_KIND (Some F.NRF54L15_CPUAPP_BOARD) ["receiver"] None);
  ("source", F.mk_role F.ZEPHYR_KIND (Some F.NRF54L15_CPUAPP_BOARD) ["source"] None)]%string.
Definition fixture_bytes : list ascii := Eval vm_compute in dump true (F.FixtureTheorems.fixture_json demo_fixture).
Definition binding_bytes : list ascii := Eval vm_compute in dump true (JObj [
  ("schema_version", JInt 1); ("fixture_id", JStr "lab-1");
  ("roles", JObj [("receiver", F.ModelWitnesses.zephyr_json); ("source", F.ModelWitnesses.zephyr_json)])]%string).
Definition demo_machine : machine :=
  mk_machine F.ModelWitnesses.demo_host (F.ModelWitnesses.still "a") F.ModelWitnesses.demo_sha (fun _ => "9f86d081"%string) (fun _ => true)
    "/home/user" "/home/user/repo" L.LifecycleWitnesses.demo_owner (fun _ => false) true.
Definition demo_files : L.fs := {[ "/var/out"%string := L.Dir ]}.
Definition job_with (binding : list ascii) : job :=
  mk_job (Some fixture_bytes) (Some binding) (Some fixture_bytes) (Some binding) "/var/out" "run-1" RH2_ROW None
    false true false false false false 90000000 60000000 20 60 (mk_fuels 5 5 5 5 5) [] (Bytes []) (Some (Bytes [])).
Definition demo_job : job := job_with binding_bytes.
(** The direct trace asked for, and what the receiver logged. *)
Definition trace_job (log : list ascii) : job :=
  mk_job (Some fixture_bytes) (Some binding_bytes) (Some fixture_bytes) (Some binding_bytes) "/var/out" "run-1" RH2_ROW None
    false true false false false true 90000000 60000000 20 60 (mk_fuels 5 5 5 5 5) [] (Bytes []) (Some (Bytes log)).

(** A lab in which a mono row goes well: [lsof] finds nothing before turn 38
    and the helpers succeed after it, the receiver boots, is live and stops.
    [status] is the helpers' exit status. *)
Definition lab (status : Z) (writes : nat -> bool) (cleanup : nat -> option string) : world :=
  mk_world Z.of_nat (fun _ => false)
    (fun n => Transcript (if (n <? 120)%nat then clean_text else if (n <? 125)%nat then demo_live "700" "699"
                          else if (n <? 132)%nat then demo_live "701" "700" else demo_stopped))
    (fun n => if (n <? 130)%nat then boot_lines (n mod 40) else Line (Some demo_line)) (fun _ => false) (fun n => Z.of_nat n) (fun _ _ => [])
    writes (fun n => Finished (mk_output (Some (if (n <? 38)%nat then 1 else status)) [] [])) (fun _ => SourceOk (IntV 0))
    (fun _ => true) (fun _ => true) (fun _ => true)
    (fun _ => Resolved (mk_resolution "/dev/ttyACM1" "/dev/ttyACM0" "0011" "0022" (mk_raw None (fun _ => []) (fun _ => None))))
    (fun _ => true) (fun _ => true) cleanup (fun _ => None) (fun _ => true) (fun _ => true).
Definition writable (n : nat) : bool := true.
Definition no_failure (n : nat) : option string := None.
Definition good_lab : world := lab 0 writable no_failure.
Definition good_run := Eval vm_compute in run good_lab demo_machine demo_job (fresh_run demo_files).
Lemma good_run_eq : run good_lab demo_machine demo_job (fresh_run demo_files) = good_run.
Proof. vm_compute. reflexivity. Qed.
Lemma good_run_passes : good_run = (Ok (mk_answer "passed" None []), good_run.2).
Proof. vm_compute. reflexivity. Qed.

(** A run with the direct trace passes and adds it to its summary. *)
Example traced_run_passes :
  let s' := run good_lab demo_machine (trace_job HciTrace.TraceWitnesses.demo_raw) (fresh_run demo_files) in
  s'.1 = Ok (mk_answer "passed" None [])
  /\ List.filter (String.eqb "summary.json") (omap (fun e => match e with Wrote n _ => Some n | _ => None end) (trace (row s'.2))) = ["summary.json"; "summary.json"]%string.
Proof. split; vm_compute; reflexivity. Qed.


Lemma good_run_dir : is_Some (run_dir good_run.2).
Proof. eexists. vm_compute. reflexivity. Qed.
Lemma published_is_answered_witness : exists r, last (decided (trace (row good_run.2))) = Some r /\ outcome r = "passed"%string.
Proof.
  pose proof good_run_passes as H. rewrite <- good_run_eq in H at 1.
  destruct (published_is_answered good_lab demo_machine demo_job demo_files (mk_answer "passed" None []) good_run.2 (fun _ => eq_refl) H good_run_dir) as (r & Hl & Ho & _).
  exists r. split; [exact Hl | exact Ho].
Defined.


(** A helper that fails while two cleanup actions fail too. *)
Definition bad_lab : world := lab 2 writable (fun n => Some "stuck"%string).
Definition bad_inputs := Eval vm_compute in read_inputs bad_lab demo_job (fresh_run demo_files).
Definition bad_body := Eval vm_compute in row_body bad_lab demo_machine demo_job bad_inputs.2.
Definition bad_run := Eval vm_compute in run bad_lab demo_machine demo_job (fresh_run demo_files).
Lemma bad_inputs_eq : read_inputs bad_lab demo_job (fresh_run demo_files) = (Ok binding_bytes, bad_inputs.2).
Proof. vm_compute. reflexivity. Qed.
Definition flash_error : runner_exn := Eval vm_compute in match bad_body.1 with Err e => e | Ok _ => OutOfFuel end.
Lemma bad_body_eq : row_body bad_lab demo_machine demo_job bad_inputs.2 = (Err flash_error, bad_body.2).
Proof. vm_compute. reflexivity. Qed.
Definition bad_answer : answer := Eval vm_compute in match bad_run.1 with Ok a => a | Err _ => mk_answer EmptyString None [] end.
Lemma bad_run_eq : run bad_lab demo_machine demo_job (fresh_run demo_files) = (Ok bad_answer, bad_run.2).
Proof. vm_compute. reflexivity. Qed.
Lemma first_failure_kept_witness : a_boundary bad_answer = Some (At "flash source") /\ length (a_failures bad_answer) = 3%nat.
Proof.
  split; [|reflexivity].
  destruct (first_failure_kept bad_lab demo_machine demo_job demo_files _ _ _ _ _ _ bad_inputs_eq bad_body_eq bad_run_eq) as [[_ Hk]|(e' & _ & Hk)];
    [exact Hk | discriminate Hk].
Defined.

Definition scan_turn : nat := 165.
Definition full_disk : world := lab 0 (fun n => negb (n =? scan_turn)%nat) no_failure.
Definition full_run := Eval vm_compute in run full_disk demo_machine demo_job (fresh_run demo_files).
Lemma full_run_eq : run full_disk demo_machine demo_job (fresh_run demo_files) = (Err (OtherError "OSError"), full_run.2).
Proof. vm_compute. reflexivity. Qed.
Lemma run_escapes_only_witness : scan_escapes full_disk demo_job (OtherError "OSError").
Proof.
  destruct (run_escapes_only full_disk demo_machine demo_job demo_files _ _ full_run_eq) as [Hn|[Hs|(bytes & Hb & Hi)]];
    [vm_compute in Hn; discriminate Hn | exact Hs | injection Hb as <-; vm_compute in Hi; discriminate Hi].
Defined.

(** ** What modelling showed *)

Definition untyped_raw : list ascii := HciTrace.TraceWitnesses.untyped_raw.
Definition file_of (e : event) : option string := match e with Wrote n _ => Some n | _ => None end.
(** The evidence of a finished row can be lost: the log scan writes the source
    records first, and [run] catches only its own errors there.  Here the row
    went well and its summary is written, that one write fails, the [OSError]
    leaves [run], and no result, JUnit file or command ledger is written. *)
Theorem records_write_escapes :
  let s' := (run full_disk demo_machine demo_job (fresh_run demo_files)).2 in
  (run full_disk demo_machine demo_job (fresh_run demo_files)).1 = Err (OtherError "OSError")
  /\ let files := omap file_of (trace (row s')) in
     py_in "summary.json"%string files = true
     /\ py_in "result.json"%string files = false /\ py_in "junit.xml"%string files = false /\ py_in "commands.jsonl"%string files = false.
Proof. rewrite full_run_eq. cbn [fst snd]. split; [reflexivity|]. vm_compute. done. Qed.

(** The same loss, caused by the receiver: one trace line that reports a
    successful fetch without a message type, and an allocation after it, make
    the trace parser raise [TypeError], which leaves [run] before the result. *)
Theorem untyped_fetch_loses_evidence :
  let s' := run good_lab demo_machine (trace_job untyped_raw) (fresh_run demo_files) in
  s'.1 = Err (OtherError "TypeError") /\ py_in "result.json"%string (omap file_of (trace (row s'.2))) = false.
Proof. split; vm_compute; reflexivity. Qed.

(** "Best-effort fixture id when validation failed early": a binding document
    that is a JSON array is refused by the validation, and then [obj.get]
    raises, so [run] ends in an [AttributeError] instead of a verdict. *)
Theorem binding_array_escapes : forall w f,
  (run w demo_machine (job_with (chars "[]")) (fresh_run f)).1 = Err (OtherError "AttributeError")
  /\ (row_body w demo_machine (job_with (chars "[]")) (fresh_run f)).1 = Err (OtherError "HilSchemaError").
Proof. intros w f. split; vm_compute; reflexivity. Qed.
End RunWitnesses.
