(* ===== verification/HilMatrix.v ===== *)
(** * The two-pass matrix (scripts/hil/matrix.py)

    Child run ids, the schedule, one child's outcome, the loop over the fixed
    schedule, the aggregate result and the aggregate JUnit tree.  Every answer
    from outside - the row runner's return value, cancellation, clocks, files,
    write errors - is an input, one [turn] per schedule entry; exception texts
    are strings. *)

From S2P Require Import Prelude PyText PyPath PyRegex Json HilRows HilModel HilLifecycle HilEvidence.

(** ** Child identities *)

Section identities.
(** [hashlib.sha256(...).hexdigest()] *)
Context (sha256_hex : list ascii -> list ascii).

Definition digest12 (data : list ascii) : list ascii := take 12 (sha256_hex data).

(** [re.sub(r"[^A-Za-z0-9._-]", "-", name)[:24]] *)
Definition _safe_row_label (name : string) : list ascii :=
  take 24 ((fun c => if is_run_id_char c then c else "-"%char) <$> chars name).

Definition nul : ascii := chr 0.

Definition child_suffix (matrix_run_id : string) (pass_index row_index : Z) (r : RowSpec) : list ascii :=
  chars ".p" ++ chars (dec pass_index) ++ chars ".r" ++ chars (dec row_index) ++ chars "." ++ _safe_row_label (name r) ++ chars "." ++
  digest12 (chars matrix_run_id ++ [nul] ++ chars (dec pass_index) ++ [nul] ++ chars (dec row_index) ++ [nul] ++ chars (name r)).

(** [matrix_run_id[: 64 - len(suffix)] + suffix]; no suffix is longer than 64. *)
Definition with_suffix (matrix_run_id : string) (suffix : list ascii) : string :=
  of_chars (take (64 - length suffix) (chars matrix_run_id) ++ suffix).

Definition child_run_id (matrix_run_id : string) (pass_index row_index : Z) (r : RowSpec) : string :=
  with_suffix matrix_run_id (child_suffix matrix_run_id pass_index row_index r).

Definition children_suffix (matrix_run_id : string) : list ascii :=
  chars ".children." ++ digest12 (chars matrix_run_id ++ [nul] ++ chars "children").
Definition _children_root_id (matrix_run_id : string) : string := with_suffix matrix_run_id (children_suffix matrix_run_id).

(** [escapes]: [realpath(p) != normpath(p)]. *)
Definition _validate_child_root (escapes : string -> bool) (root matrix_run_id : string) (f : fs) : result lifecycle_error (string * string) :=
  let id := _children_root_id matrix_run_id in
  validate_run_id id;;
  let p := join root id in
  ensure (negb (islink p f)) RunDirSymlink;;
  ensure (negb (lexists p f)) RunDirExists;;
  ensure (negb (escapes p)) RunDirEscapes;;
  Ok (id, p).

(** *** [_external_junit_path] *)

Inductive junit_path_error : Type :=
| JunitNotAbsolute | JunitParentMissing | JunitNoName | JunitInRepo | JunitInMatrix | JunitInChildren | JunitExists.

Definition in_or_under (p root : string) : bool := String.eqb p root || under p root.

Definition _external_junit_path (realpath : string -> string) (f : fs) (repo path root matrix_run_id child_root : string)
    : result junit_path_error string :=
  ensure (startswith "/" path) JunitNotAbsolute;;
  let parent := realpath (dirname path) in
  ensure (isdir parent f) JunitParentMissing;;
  let name := basename path in
  ensure (negb (py_in name [EmptyString; "."; ".."]%string)) JunitNoName;;
  let canonical_path := if String.eqb parent "/" then (parent ++ name)%string else join parent name in
  ensure (negb (in_or_under canonical_path (realpath repo))) JunitInRepo;;
  ensure (negb (in_or_under canonical_path (join root matrix_run_id))) JunitInMatrix;;
  ensure (negb (in_or_under canonical_path child_root)) JunitInChildren;;
  ensure (negb (lexists canonical_path f)) JunitExists;;
  Ok canonical_path.

(** *** The schedule *)

Record entry : Type := mk_entry {
  e_pass : Z; e_row : Z; e_name : string; e_testcase : string; e_child_run_id : string; e_evidence : string; e_junit : string;
  e_spec : RowSpec;
}.

Definition schedule_entry (matrix_run_id child_root : string) (x : Z * Z * RowSpec) : entry :=
  let '(pass_index, row_index, r) := x in
  let run_id := child_run_id matrix_run_id pass_index row_index r in
  mk_entry pass_index row_index (name r) ("pass" ++ dec pass_index ++ "." ++ name r)%string run_id
    (join child_root run_id) (join child_root (run_id ++ ".junit.xml")%string) r.
Definition _schedule (matrix_run_id child_root : string) : list entry := schedule_entry matrix_run_id child_root <$> rh3_schedule.
End identities.

(** ** One child *)

(** What the row runner did; [Returned None] is a value that is not a tuple of
    three.  A tuple and a list are the same [json] array. *)
Inductive child_call : Type :=
| NotCallable
| Returned (v : option (json * json * json))
| RaisedCancelled (text : string)
| RaisedException (text : string).

(** The answers of the world around one schedule entry; [Err text] is an
    exception. *)
Record turn : Type := mk_turn {
  inputs_before : result string unit; cancelled : result string bool;
  t_start : result string string; call : child_call; t_files : fs; t_end : result string string; t_duration : string;
  inputs_after : result string unit; jsonl : result string unit;
}.

Record child_record : Type := mk_record {
  pass_index : Z; row_index : Z; row_name : string; run_id : string; outcome : string; first_failed_boundary : option string;
  cleanup_failures : list (string * string); evidence_path : string; junit_path : string;
  start_utc : string; end_utc : string; duration : string;
}.

Definition text_of (v : json) : option string := match v with JStr s => Some s | _ => None end.

Definition normalize_item (item : json) : result string (string * string) :=
  '(n, e) ← match item with
            | JObj d => Ok (default JNull (dict_get "name"%string d), default JNull (dict_get "error"%string d))
            | JArr [n; e] => Ok (n, e)
            | _ => Err "child cleanup failure has invalid shape"%string
            end;
  match text_of n, text_of e with
  | Some n, Some e => Ok (n, e)
  | _, _ => Err "child cleanup failure must contain text name and error"%string
  end.

Definition _normalize_cleanup (cleanup : json) : result string (list (string * string)) :=
  match cleanup with
  | JNull => Ok []
  | JArr items => result_mapM normalize_item items
  | _ => Err "child cleanup failures must be a list"%string
  end.

Section child.
(** [os_error p]: the text of the exception when [p] cannot be read or is not
    JSON; [repr]: the text of [repr(outcome)]. *)
Context (os_error : string -> string) (repr : json -> string).

(** [not os.path.islink(p) and os.path.isfile(p)] *)
Definition isfile (p : string) (f : fs) : bool := match f !! p with Some (File _) => true | _ => false end.

(** [with open(p, encoding="utf-8") as fh: json.load(fh)] *)
Definition json_load (p : string) (f : fs) : option json :=
  match f !! p with
  | Some (File text) =>
      if utf8_valid text then match loads_chars (E := Empty_set) dict_hook text with Ok v => Some v | Err _ => None end else None
  | _ => None
  end.

Fixpoint require_files (what : string) (paths : list string) (f : fs) : result string unit :=
  match paths with
  | [] => Ok tt
  | p :: ps => ensure (isfile p f) (what ++ p)%string;; require_files what ps f
  end.

Definition member (key : string) (v : json) : json := match v with JObj d => default JNull (dict_get key d) | _ => JNull end.
Definition is_text (v : json) : bool := match v with JStr _ => true | _ => false end.
Definition reports_passed (v : json) : bool := bool_decide (text_of (member "outcome" v) = Some "passed"%string).

Definition load_or (what : string) (p : string) (f : fs) : result string json :=
  match json_load p f with Some v => Ok v | None => Err (what ++ os_error p)%string end.

Definition _validate_child_evidence (e : entry) (require_capture : bool) (f : fs) : result string unit :=
  let at_ n := join (e_evidence e) n in
  ensure (isdir (e_evidence e) f) ("passed child evidence directory missing: " ++ e_evidence e)%string;;
  require_files "passed child evidence missing: " (at_ <$> ["result.json"; "junit.xml"; "MANIFEST.md"; "SHA256SUMS"]%string) f;;
  ensure (isfile (e_junit e) f) ("passed child external JUnit missing: " ++ e_junit e)%string;;
  res ← load_or "passed child result unreadable: " (at_ "result.json"%string) f;
  ensure (reports_passed res) "passed child result does not report passed"%string;;
  if negb require_capture then Ok tt else
  require_files "passed capture child evidence missing: "
    (at_ <$> ["capture-analysis.json"; "capture-session.json"; "capture-summary.json"; "capture.wav"]%string) f;;
  analysis ← load_or "passed capture child evidence unreadable: " (at_ "capture-analysis.json"%string) f;
  sess ← load_or "passed capture child evidence unreadable: " (at_ "capture-session.json"%string) f;
  summary ← load_or "passed capture child evidence unreadable: " (at_ "capture-summary.json"%string) f;
  ensure (reports_passed analysis) "passed capture child analysis does not report passed"%string;;
  ensure (is_text (member "wav_sha256" sess)) "passed capture child session lacks WAV SHA-256"%string;;
  ensure (reports_passed summary) "passed capture child summary does not report passed"%string.

(** The body of the [try] once the runner has returned. *)
Definition judge_result (e : entry) (require_capture : bool) (f : fs) (v : option (json * json * json))
    : result string (string * option string * list (string * string)) :=
  '(o, b, c) ← result_of_option "row runner returned invalid result"%string v;
  o ← match o with
      | JStr s => ensure (py_in s ["passed"; "failed"; "cancelled"]%string) ("row runner returned unknown outcome " ++ repr (JStr s))%string;; Ok s
      | _ => Err ("row runner returned unknown outcome " ++ repr o)%string
      end;
  b ← match b with JNull => Ok None | JStr s => Ok (Some s) | _ => Err "row runner boundary must be text or None"%string end;
  c ← _normalize_cleanup c;
  let b := match c, b with _ :: _, None => Some "cleanup"%string | _, _ => b end in
  let o := match c with _ :: _ => "failed"%string | [] => o end in
  (if String.eqb o "passed" then _validate_child_evidence e require_capture f else Ok tt);;
  Ok (o, b, c).

Definition judge (e : entry) (require_capture : bool) (t : turn) : string * option string * list (string * string) :=
  let invocation text := ("failed"%string, Some ("row invocation: " ++ text)%string, []) in
  match call t with
  | NotCallable => invocation "row runner factory did not return a callable"%string
  | RaisedCancelled text => ("cancelled"%string, Some text, [])
  | RaisedException text => invocation text
  | Returned v => match judge_result e require_capture (t_files t) v with Ok r => r | Err text => invocation text end
  end.

Definition _invoke_child (e : entry) (require_capture : bool) (t : turn) : result string child_record :=
  start ← t_start t;
  let '(o, b, c) := judge e require_capture t in
  stop ← t_end t;
  Ok (mk_record (e_pass e) (e_row e) (e_name e) (e_child_run_id e) o b c (e_evidence e) (e_junit e) start stop (t_duration t)).

(** ** The loop over the schedule *)

Definition row_label (p r : Z) (n : string) : string := ("pass" ++ dec p ++ " row" ++ dec r ++ " " ++ n)%string.

Definition _stop_reason (o : string) (boundary : option string) (record : option child_record) : string :=
  match record with
  | Some x =>
      (row_label (pass_index x) (row_index x) (row_name x) ++ " stopped matrix: " ++
       default (outcome x) (truthy (first_failed_boundary x)))%string
  | None => match truthy boundary with Some b => b | None => ("matrix " ++ o ++ " before child execution")%string end
  end.

Definition verdict : Type := string * option string.

(** One iteration: the record it appends, and how it leaves the loop. *)
Definition run_entry (require_capture : bool) (e : entry) (t : turn) : option child_record * option (result string verdict) :=
  match inputs_before t, cancelled t with
  | Err x, _ => (None, Some (Err x))
  | Ok _, Err x => (None, Some (Err x))
  | Ok _, Ok true => (None, Some (Ok ("cancelled"%string, Some ("cancelled before " ++ row_label (e_pass e) (e_row e) (e_name e))%string)))
  | Ok _, Ok false =>
      match _invoke_child e require_capture t with
      | Err x => (None, Some (Err x))
      | Ok r =>
          (Some r,
           match inputs_after t, jsonl t with
           | Err x, _ => Some (Err x)
           | Ok _, Err x => Some (Ok ("failed"%string, Some ("evidence children: " ++ x)%string))
           | Ok _, Ok _ =>
               if String.eqb (outcome r) "passed" then None
               else Some (Ok (outcome r, Some (_stop_reason (outcome r) (first_failed_boundary r) (Some r))))
           end)
      end
  end.

(** [turns n] are the answers around the entry at position [n]. *)
Fixpoint run_entries (require_capture : bool) (turns : nat -> turn) (n : nat) (entries : list entry) (records : list child_record)
    : result string verdict * list child_record :=
  match entries with
  | [] => (Ok ("passed"%string, None), records)
  | e :: entries' =>
      let '(r, stop) := run_entry require_capture e (turns n) in
      let records := records ++ match r with Some x => [x] | None => [] end in
      match stop with
      | Some v => (v, records)
      | None => run_entries require_capture turns (S n) entries' records
      end
  end.

(** The answers around the loop: the setup, which returns the directory made
    for the children, the last cancellation check and the finalization. *)
Record around : Type := mk_around { setup : result string string; cancelled_at_end : result string bool; finalized : result string unit }.

(** The [try] of [run] up to the finalization. *)
Definition attempt (require_capture : bool) (child_root : string) (entries : list entry) (a : around) (turns : nat -> turn)
    : result string verdict * list child_record :=
  match setup a with
  | Err x => (Err x, [])
  | Ok made =>
      if negb (String.eqb made child_root) then (Err "child output root changed after schedule creation"%string, []) else
      let '(r, records) := run_entries require_capture turns 0 entries [] in
      match r with
      | Ok ("passed"%string, b) =>
          match cancelled_at_end a with
          | Err x => (Err x, records)
          | Ok true => (Ok ("cancelled"%string, Some "cancelled before matrix finalization"%string), records)
          | Ok false => (Ok ("passed"%string, b), records)
          end
      | _ => (r, records)
      end
  end.

(** What [run] leaves: the outcome and boundary it returns, the records, and
    the verdicts it published as result and JUnit, in order. *)
Record aggregate : Type := mk_aggregate { a_verdict : verdict; a_records : list child_record; published_verdicts : list verdict }.

Definition run (require_capture : bool) (child_root : string) (entries : list entry) (a : around) (turns : nat -> turn) : aggregate :=
  let '(r, records) := attempt require_capture child_root entries a turns in
  let v := match r with Ok v => v | Err x => ("failed"%string, Some ("matrix setup: " ++ x)%string) end in
  match finalized a with
  | Ok _ => mk_aggregate v records [v]
  | Err x =>
      let v' := ("failed"%string, Some ("evidence finalization: " ++ x)%string) in
      mk_aggregate v' records [v; v']
  end.
End child.

(** ** Aggregate evidence *)

Definition _matrix_cleanup_failures (records : list child_record) : list (Z * Z * string * (string * string)) :=
  r ← records; (fun f => (pass_index r, row_index r, row_name r, f)) <$> cleanup_failures r.

Definition with_outcome (o : string) (records : list child_record) : nat := count (fun r => String.eqb (outcome r) o) records.

Definition capability_value (c : CaptureCapability) : string :=
  match c with NONE => "none" | MONO => "mono" | STEREO => "stereo" end.

Definition nat_json (n : nat) : json := JInt (Z.of_nat n).
Definition cleanup_json (x : Z * Z * string * (string * string)) : json :=
  let '(p, r, n, (name, error)) := x in
  JObj [("pass_index", JInt p); ("row_index", JInt r); ("row_name", JStr n); ("name", JStr name); ("error", JStr error)]%string.

Definition _result_dict (fx : LogicalFixture) (matrix_run_id o : string) (boundary : option string) (entries : list entry)
    (records : list child_record) (artifacts : option json) (capture_verdict : string) : list (string * json) :=
  [("schema_version", JInt 1); ("fixture_id", JStr (HilModel.fixture_id fx)); ("run_id", JStr matrix_run_id); ("outcome", JStr o);
   ("first_failed_boundary", match boundary with Some b => JStr b | None => JNull end);
   ("scheduled_child_count", nat_json (length entries)); ("attempted_child_count", nat_json (length records));
   ("passed_child_count", nat_json (with_outcome "passed" records)); ("failed_child_count", nat_json (with_outcome "failed" records));
   ("cancelled_child_count", nat_json (with_outcome "cancelled" records));
   ("cleanup_failures", JArr (cleanup_json <$> _matrix_cleanup_failures records));
   ("schedule_path", JStr "schedule.json"); ("children_path", JStr "children.jsonl")]%string ++
  (if bool_decide (HilModel.capture_capability fx = NONE) then []
   else [("verdict", JStr (if String.eqb o "passed" then capture_verdict else "none"))]%string) ++
  match artifacts with Some a => [("artifacts", a)]%string | None => [] end.

(** *** The gate before anything is created *)

Inductive gate_error : Type :=
| NoSourceRole | UnsupportedSourceBoard | NoSessionManifest | NoneCannotQualify | QualificationRequired | UnknownVerdict | VerdictMismatch
| QualificationRefused.

(** [qualified]: [qualification.load_qualification] returned. *)
Definition capture_gate (fx : LogicalFixture) (session_manifest_path qualification_path : option string) (capture_verdict : string)
    (qualified : bool) : result gate_error unit :=
  role ← result_of_option NoSourceRole (dict_get "source"%string (roles fx));
  ensure (bool_decide (board role = Some NRF54L15_CPUAPP_BOARD)) UnsupportedSourceBoard;;
  ensure (bool_decide (is_Some (truthy session_manifest_path))) NoSessionManifest;;
  match HilModel.capture_capability fx with
  | NONE => ensure (bool_decide (qualification_path = None) && String.eqb capture_verdict "none") NoneCannotQualify
  | capability =>
      ensure (bool_decide (is_Some qualification_path)) QualificationRequired;;
      ensure (py_in capture_verdict ["MONO_OUTPUT_SMOKE_ACCEPTED"; "STEREO_OUTPUT_ACCEPTED"]%string) UnknownVerdict;;
      let expected_verdict := if bool_decide (capability = MONO) then "MONO_OUTPUT_SMOKE_ACCEPTED"%string else "STEREO_OUTPUT_ACCEPTED"%string in
      ensure (String.eqb capture_verdict expected_verdict) VerdictMismatch;;
      ensure qualified QualificationRefused
  end.

(** [records_by_key.get(...)]: the last record with the key. *)
Definition record_of (records : list child_record) (e : entry) : option child_record :=
  last (List.filter (fun r => (pass_index r =? e_pass e) && (row_index r =? e_row e)) records).

Definition message (m : string) : list (string * string) := [("message", m)]%string.

(** The child of a test case, for the record of its entry. *)
Definition case_node (stop_reason : string) (record : option child_record) : list element :=
  match record with
  | None => [Element "skipped" (message ("not attempted: " ++ stop_reason)) None []]
  | Some r =>
      if String.eqb (outcome r) "failed" then
        let m := default "child failed"%string (truthy (first_failed_boundary r)) in [Element "failure" (message m) (Some m) []]
      else if String.eqb (outcome r) "cancelled" then
        [Element "skipped" (message (default "child cancelled"%string (truthy (first_failed_boundary r)))) None []]
      else []
  end.
Definition junit_case (stop_reason : string) (records : list child_record) (e : entry) : element :=
  Element "testcase" [("name", e_testcase e); ("classname", "hil.rh3")]%string None (case_node stop_reason (record_of records e)).

Definition nat_dec (n : nat) : string := dec (Z.of_nat n).

Definition _junit_tree (entries : list entry) (records : list child_record) (o : string) (boundary : option string) : element :=
  let failures := with_outcome "failed" records in
  let skipped := (with_outcome "cancelled" records + (length entries - length records))%nat in
  let matrix_error := String.eqb o "failed" && (failures =? 0)%nat in
  let errors := if matrix_error then 1%nat else 0%nat in
  let m := ("matrix failure: " ++ default "evidence failure" (truthy boundary))%string in
  Element "testsuite"
    [("name", "hil.rh3.matrix"); ("tests", nat_dec (length entries + errors)); ("failures", nat_dec failures);
     ("skipped", nat_dec skipped); ("errors", nat_dec errors)]%string None
    ((junit_case (_stop_reason o boundary None) records <$> entries) ++
     (if matrix_error
      then [Element "testcase" [("name", "matrix.orchestration"); ("classname", "hil.rh3")]%string None
              [Element "error" (message m) (Some m) []]]
      else [])).

(** ** The loop *)

Module MatrixTheorems.

Section proofs.
Context (os_error : string -> string) (repr : json -> string) (require_capture : bool).
Abbreviation invoke := (_invoke_child os_error repr).
Abbreviation OUTCOMES := (["passed"; "failed"; "cancelled"]%string).

(** Entry [e] was run to the end in turn [t] and gave the record [r]. *)
Definition completed (e : entry) (t : turn) (r : child_record) : Prop :=
  inputs_before t = Ok tt /\ cancelled t = Ok false /\ invoke e require_capture t = Ok r /\ inputs_after t = Ok tt.

(** What the retained files of a passed child must show. *)
Record evidence_ok (e : entry) (f : fs) : Prop := mk_evidence_ok {
  ev_dir : isdir (e_evidence e) f = true;
  ev_files : Forall (fun n => isfile (join (e_evidence e) n) f = true) ["result.json"; "junit.xml"; "MANIFEST.md"; "SHA256SUMS"]%string;
  ev_junit : isfile (e_junit e) f = true;
  ev_result : exists v, json_load (join (e_evidence e) "result.json") f = Some v /\ text_of (member "outcome" v) = Some "passed"%string;
  ev_capture : require_capture = true ->
    exists a s w, json_load (join (e_evidence e) "capture-analysis.json") f = Some a /\ text_of (member "outcome" a) = Some "passed"%string /\
      json_load (join (e_evidence e) "capture-session.json") f = Some s /\ is_text (member "wav_sha256" s) = true /\
      json_load (join (e_evidence e) "capture-summary.json") f = Some w /\ text_of (member "outcome" w) = Some "passed"%string /\
      isfile (join (e_evidence e) "capture.wav") f = true;
}.

Lemma require_files_Ok what ps f : require_files what ps f = Ok tt -> Forall (fun p => isfile p f = true) ps.
Proof.
  induction ps as [|p ps IH]; simpl; [constructor|]. intros (u & Hu%ensure_Ok & H)%bind_Ok. constructor; auto.
Qed.

Lemma load_or_Ok what p f v : load_or os_error what p f = Ok v -> json_load p f = Some v.
Proof. unfold load_or. destruct (json_load p f); naive_solver. Qed.

Lemma evidence_validated e f : _validate_child_evidence os_error e require_capture f = Ok tt -> evidence_ok e f.
Proof.
  unfold _validate_child_evidence. intros (? & Hd%ensure_Ok & H)%bind_Ok. apply bind_Ok in H as ([] & Hfs%require_files_Ok & H).
  apply bind_Ok in H as (? & Hj%ensure_Ok & H). apply bind_Ok in H as (v & Hv%load_or_Ok & H).
  apply bind_Ok in H as (? & Hp%ensure_Ok%bool_decide_eq_true & H).
  constructor; [done | by apply Forall_fmap in Hfs | done | by exists v|]. intros Hc. rewrite Hc in H. simpl negb in H.
  apply bind_Ok in H as ([] & Hcf%require_files_Ok & H). apply bind_Ok in H as (a & Ha%load_or_Ok & H).
  apply bind_Ok in H as (s & Hs%load_or_Ok & H). apply bind_Ok in H as (w & Hw%load_or_Ok & H).
  apply bind_Ok in H as (? & Hpa%ensure_Ok%bool_decide_eq_true & H). apply bind_Ok in H as (? & Hps%ensure_Ok & H).
  apply ensure_Ok, bool_decide_eq_true in H. exists a, s, w. split_and!; try done.
  apply Forall_fmap in Hcf. rewrite !Forall_cons in Hcf. apply Hcf.
Qed.

(** A passed record comes from a runner that returned [passed] without
    cleanup failures and from complete evidence. *)
Lemma judge_passed e t b c : judge os_error repr e require_capture t = ("passed"%string, b, c) ->
  c = [] /\ (exists jb jc, call t = Returned (Some (JStr "passed", jb, jc)) /\ _normalize_cleanup jc = Ok []) /\ evidence_ok e (t_files t).
Proof.
  unfold judge. destruct (call t) as [|v| |] eqn:Hc; try done.
  destruct (judge_result _ _ _ _ _ v) as [r|x] eqn:Hr; [|done]. intros [= ->]. unfold judge_result in Hr.
  apply bind_Ok in Hr as ([[o jb] jc] & Hv%result_of_option_Ok & Hr). subst v.
  apply bind_Ok in Hr as (o' & Ho & Hr). apply bind_Ok in Hr as (b' & Hb & Hr). apply bind_Ok in Hr as (c' & Hcl & Hr).
  apply bind_Ok in Hr as (? & Hev & [= Ho' _ ->]). destruct c as [|y c]; [|done]. subst o'.
  destruct o as [| | | |s| |]; try done. apply bind_Ok in Ho as (? & _ & [= ->]). simpl in Hev. destruct x.
  split; [done|]. split; [by eexists _, _ | by apply evidence_validated].
Qed.

Lemma judge_outcome e t o b c : judge os_error repr e require_capture t = (o, b, c) -> o ∈ OUTCOMES.
Proof.
  unfold judge. destruct (call t) as [|v| |]; try (intros [= <- _ _]; by rewrite !elem_of_cons; auto).
  destruct (judge_result _ _ _ _ _ v) as [r|x] eqn:Hr; [|intros [= <- _ _]; by rewrite !elem_of_cons; auto].
  intros [= ->]. unfold judge_result in Hr. apply bind_Ok in Hr as ([[o' jb] jc] & _ & Hr).
  apply bind_Ok in Hr as (o2 & Ho & Hr). apply bind_Ok in Hr as (b' & _ & Hr). apply bind_Ok in Hr as (c' & _ & Hr).
  apply bind_Ok in Hr as (? & _ & [= <- _ _]). destruct c'; [|by rewrite !elem_of_cons; auto].
  destruct o' as [| | | |s| |]; try done. by apply bind_Ok in Ho as (? & Hin%ensure_Ok%bool_decide_eq_true & [= <-]).
Qed.

(** A record belongs to its entry. *)
Definition record_for (e : entry) (r : child_record) : Prop :=
  pass_index r = e_pass e /\ row_index r = e_row e /\ row_name r = e_name e /\ run_id r = e_child_run_id e /\
  evidence_path r = e_evidence e /\ junit_path r = e_junit e /\ outcome r ∈ OUTCOMES.

Lemma invoke_Ok e t r : invoke e require_capture t = Ok r ->
  record_for e r /\ judge os_error repr e require_capture t = (outcome r, first_failed_boundary r, cleanup_failures r).
Proof.
  unfold _invoke_child. intros (? & _ & H)%bind_Ok. destruct (judge _ _ _ _ _) as [[o b] c] eqn:Hj.
  apply bind_Ok in H as (? & _ & [= <-]). apply judge_outcome in Hj as Ho. by split.
Qed.

(** A verdict that is not a pass names a boundary. *)
Definition stopped (v : result string verdict) : Prop :=
  forall o b, v = Ok (o, b) -> o ∈ ["failed"; "cancelled"]%string /\ is_Some b.

Lemma run_entry_spec e t :
  match run_entry os_error repr require_capture e t with
  | (Some r, None) => completed e t r /\ jsonl t = Ok tt /\ outcome r = "passed"%string
  | (Some r, Some v) => invoke e require_capture t = Ok r /\ stopped v
  | (None, Some v) => stopped v
  | (None, None) => False
  end.
Proof.
  unfold run_entry, completed, stopped. destruct (inputs_before t) as [[]|x]; [|done]. destruct (cancelled t) as [[|]|x]; [| |done].
  { intros o b [= <- <-]. rewrite !elem_of_cons. eauto. }
  destruct (invoke e require_capture t) as [r|x] eqn:Hr; [|done].
  destruct (inputs_after t) as [[]|x]; [|done]. destruct (jsonl t) as [[]|x].
  - destruct (String.eqb_spec (outcome r) "passed") as [Ho|Ho]; [done|]. split; [done|]. intros o b [= <- <-].
    split; [|by eexists]. apply invoke_Ok in Hr as [(_ & _ & _ & _ & _ & _ & Hin) _].
    rewrite !elem_of_cons in Hin. rewrite !elem_of_cons. naive_solver.
  - split; [done|]. intros o b [= <- <-]. rewrite !elem_of_cons. eauto.
Qed.

(** The records [new] of the entries from position [n] on: in schedule order,
    every one but the last passed. *)
Record ran (turns : nat -> turn) (n : nat) (entries : list entry) (new : list child_record) : Prop := mk_ran {
  ran_length : (length new <= length entries)%nat;
  ran_each : forall i r, new !! i = Some r -> exists e, entries !! i = Some e /\ invoke e require_capture (turns (n + i)%nat) = Ok r;
  ran_passed : forall i r, new !! i = Some r -> (S i < length new)%nat -> outcome r = "passed"%string;
}.

(** Every entry was run, and passed. *)
Definition all_passed (turns : nat -> turn) (n : nat) (entries : list entry) (new : list child_record) : Prop :=
  length new = length entries /\
  forall i e, entries !! i = Some e -> exists r, new !! i = Some r /\ completed e (turns (n + i)%nat) r /\
    jsonl (turns (n + i)%nat) = Ok tt /\ outcome r = "passed"%string.

Lemma ran_nil turns n entries : ran turns n entries [].
Proof. split; [simpl; lia | done | done]. Qed.
Lemma ran_one turns n e entries r : invoke e require_capture (turns n) = Ok r -> ran turns n (e :: entries) [r].
Proof.
  intros H. split; [simpl; lia| |].
  - intros [|i] r' Hi; [|done]. injection Hi as <-. exists e. by rewrite Nat.add_0_r.
  - intros [|i] r' Hi; [simpl; lia | done].
Qed.
Lemma ran_cons turns n e entries r new :
  invoke e require_capture (turns n) = Ok r -> outcome r = "passed"%string -> ran turns (S n) entries new -> ran turns n (e :: entries) (r :: new).
Proof.
  intros H Ho [H1 H2 H3]. split; [simpl; lia| |].
  - intros [|i] r' Hi; simpl in Hi; [injection Hi as <-; exists e; by rewrite Nat.add_0_r|].
    replace (n + S i)%nat with (S n + i)%nat by lia. by apply H2.
  - intros [|i] r' Hi Hl; simpl in Hi, Hl; [by injection Hi as <-|]. apply (H3 i); [done | lia].
Qed.
Lemma all_passed_cons turns n e entries r new :
  completed e (turns n) r -> jsonl (turns n) = Ok tt -> outcome r = "passed"%string -> all_passed turns (S n) entries new ->
  all_passed turns n (e :: entries) (r :: new).
Proof.
  intros H Hj Ho [H1 H2]. split; [simpl; lia|]. intros [|i] e' Hi; simpl in Hi.
  - injection Hi as <-. exists r. by rewrite Nat.add_0_r.
  - replace (n + S i)%nat with (S n + i)%nat by lia. by apply H2.
Qed.

Lemma run_entries_spec turns n entries records res records' :
  run_entries os_error repr require_capture turns n entries records = (res, records') ->
  exists new, records' = records ++ new /\ ran turns n entries new /\
    ((res = Ok ("passed"%string, None) /\ all_passed turns n entries new) \/ stopped res).
Proof.
  revert n records. induction entries as [|e entries IH]; intros n records; cbn [run_entries].
  - intros [= <- <-]. exists []. rewrite app_nil_r. split; [done|]. split; [apply ran_nil|]. left. split; [done|]. by split.
  - pose proof (run_entry_spec e (turns n)) as He. destruct (run_entry _ _ _ _ _) as [[r|] [v|]]; try done.
    + destruct He as [Hr Hv]. intros [= <- <-]. exists [r]. split; [done|]. split; [by apply ran_one | by right].
    + destruct He as (Hc & Hj & Ho). intros (new & -> & Hran & Hres)%IH. exists (r :: new).
      split; [by rewrite <- app_assoc|]. split; [apply ran_cons; [apply Hc | done..]|].
      destruct Hres as [[-> Hall]|Hs]; [left; split; [done | by apply all_passed_cons] | by right].
    + intros [= <- <-]. exists []. split; [done|]. split; [apply ran_nil | by right].
Qed.

(** Conversely, a schedule in which everything passes is run to its end. *)
Lemma run_entries_complete turns n entries records :
  (forall i e, entries !! i = Some e -> exists r, completed e (turns (n + i)%nat) r /\ jsonl (turns (n + i)%nat) = Ok tt /\ outcome r = "passed"%string) ->
  exists new, run_entries os_error repr require_capture turns n entries records = (Ok ("passed"%string, None), records ++ new).
Proof.
  revert n records. induction entries as [|e entries IH]; intros n records H; cbn [run_entries].
  - exists []. by rewrite app_nil_r.
  - destruct (H 0%nat e eq_refl) as (r & (H1 & H2 & H3 & H4) & Hj & Ho). rewrite Nat.add_0_r in *.
    unfold run_entry. rewrite H1, H2, H3, H4, Hj, Ho. cbn [String.eqb Ascii.eqb Bool.eqb].
    destruct (IH (S n) (records ++ [r])) as [new ->].
    + intros i e' Hi. replace (S n + i)%nat with (n + S i)%nat by lia. by apply H.
    + exists (r :: new). by rewrite <- app_assoc.
Qed.

(** *** The whole run *)

(** What [attempt] leaves. *)
Lemma attempt_spec root entries a turns res records :
  attempt os_error repr require_capture root entries a turns = (res, records) ->
  ran turns 0 entries records /\
  ((res = Ok ("passed"%string, None) /\ setup a = Ok root /\ cancelled_at_end a = Ok false /\ all_passed turns 0 entries records) \/ stopped res).
Proof.
  unfold attempt. destruct (setup a) as [made|x]; [|intros [= <- <-]; split; [apply ran_nil | by right]].
  destruct (String.eqb_spec made root) as [->|]; simpl; [|intros [= <- <-]; split; [apply ran_nil | by right]].
  destruct (run_entries _ _ _ _ _ _ _) as [r rs] eqn:Hr. apply run_entries_spec in Hr as (new & -> & Hran & Hres).
  destruct Hres as [[-> Hall]|Hs].
  - destruct (cancelled_at_end a) as [[|]|x]; intros [= <- <-]; (split; [done|]).
    + right. intros o b [= <- <-]. rewrite !elem_of_cons. eauto.
    + by left.
    + by right.
  - destruct r as [[o b]|x]; [|intros [= <- <-]; split; [done | by right]].
    destruct (Hs o b eq_refl) as [Ho Hb]. destruct (decide (o = "passed"%string)) as [->|Hne].
    { rewrite !elem_of_cons, elem_of_nil in Ho. by destruct Ho as [|[|]]. }
    intros H. split; [|right].
    + repeat case_match; simplify_eq; done.
    + repeat case_match; simplify_eq; done.
Qed.

Abbreviation run := (run os_error repr require_capture).

(** What a run returns, in terms of its attempt. *)
Lemma run_spec root entries a turns :
  exists res, attempt os_error repr require_capture root entries a turns = (res, a_records (run root entries a turns)) /\
    last (published_verdicts (run root entries a turns)) = Some (a_verdict (run root entries a turns)) /\
    ((a_verdict (run root entries a turns) = ("passed"%string, None) /\ res = Ok ("passed"%string, None) /\ finalized a = Ok tt) \/
     ((a_verdict (run root entries a turns)).1 ∈ ["failed"; "cancelled"]%string /\ is_Some (a_verdict (run root entries a turns)).2 /\
      (stopped res \/ exists x, finalized a = Err x))).
Proof.
  unfold HilMatrix.run. destruct (attempt _ _ _ _ _ _ _) as [res records] eqn:Ha. exists res.
  apply attempt_spec in Ha as [_ Hres]. destruct (finalized a) as [[]|x]; simpl; (split; [done|]); (split; [done|]).
  - destruct Hres as [(-> & _)|Hs]; [by left|]. right. destruct res as [[o b]|x]; simpl.
    + destruct (Hs o b eq_refl) as [??]. auto.
    + rewrite !elem_of_cons. eauto 6.
  - right. rewrite !elem_of_cons. eauto 6.
Qed.


(** The records of a run follow the schedule: record [i] is what the runner
    gave for entry [i], nothing runs after the first entry that did not pass,
    a run that did not pass names its first failed boundary, and the
    verdict published last is the one returned. *)
Theorem matrix_stops_at_first_failure root entries a turns :
  let agg := run root entries a turns in
  ran turns 0 entries (a_records agg) /\
  (forall i r, a_records agg !! i = Some r -> exists e, entries !! i = Some e /\ record_for e r) /\
  ((a_verdict agg).1 ∈ OUTCOMES) /\
  ((a_verdict agg).1 = "passed"%string <-> (a_verdict agg).2 = None) /\
  ((a_verdict agg).1 = "passed"%string -> length (a_records agg) = length entries) /\
  last (published_verdicts agg) = Some (a_verdict agg).
Proof.
  intros agg. subst agg. destruct (run_spec root entries a turns) as (res & Ha & Hl & Hv).
  apply attempt_spec in Ha as [Hran Hres]. split; [done|]. split.
  { intros i r Hi. destruct (ran_each _ _ _ _ Hran i r Hi) as (e & He & [Hf _]%invoke_Ok). eauto. }
  destruct Hv as [(Hv & -> & _)|(Ho & [b Hb] & _)].
  - rewrite Hv in *. split_and!; [by rewrite !elem_of_cons; auto | done | | done].
    intros _. destruct Hres as [(_ & _ & _ & Hlen & _)|Hs]; [done|].
    destruct (Hs _ _ eq_refl) as [Ho _]. rewrite !elem_of_cons, elem_of_nil in Ho. by destruct Ho as [|[|]].
  - rewrite !elem_of_cons, elem_of_nil in Ho. rewrite !elem_of_cons. rewrite Hb.
    split_and!; [naive_solver | split; [|done] | | done]; intros Hp; rewrite Hp in Ho; naive_solver.
Qed.
End proofs.

(** *** Aggregate JUnit *)

Definition key (e : entry) : Z * Z := (e_pass e, e_row e).
Definition in_order (entries : list entry) (records : list child_record) : Prop :=
  (length records <= length entries)%nat /\ forall i r, records !! i = Some r -> exists e, entries !! i = Some e /\ record_for e r.

Lemma record_of_lookup entries records i e :
  NoDup (key <$> entries) -> in_order entries records -> entries !! i = Some e -> record_of records e = records !! i.
Proof.
  intros Hnd [_ Hord] He. unfold record_of.
  set (f := fun r => (pass_index r =? e_pass e) && (row_index r =? e_row e)).
  assert (forall r, r ∈ List.filter f records <-> records !! i = Some r) as Hin.
  { intros r. rewrite list_elem_of_In, filter_In, <- list_elem_of_In, list_elem_of_lookup. unfold f. split.
    - intros [[j Hj] Hf]. destruct (Hord j r Hj) as (e' & He' & H1 & H2 & _). bool_to_prop.
      assert (j = i) as ->; [|done]. eapply NoDup_lookup; [exact Hnd | rewrite list_lookup_fmap, He' | rewrite list_lookup_fmap, He]; [done|].
      simpl. unfold key. congruence.
    - intros Hr. split; [by exists i|]. destruct (Hord i r Hr) as (e' & He' & H1 & H2 & _). simplify_eq.
      rewrite H1, H2, !Z.eqb_refl. done. }
  destruct (last (List.filter f records)) as [r|] eqn:Hl.
  - symmetry. apply Hin. apply last_Some in Hl as [l ->]. apply elem_of_app. right. by apply list_elem_of_singleton.
  - apply last_None in Hl. destruct (records !! i) as [r|]; [|done]. destruct (Hin r) as [_ H]. rewrite Hl in H.
    specialize (H eq_refl). by apply elem_of_nil in H.
Qed.

Lemma records_padded entries records : NoDup (key <$> entries) -> in_order entries records ->
  record_of records <$> entries = (Some <$> records) ++ replicate (length entries - length records) None.
Proof.
  intros Hnd Hord. apply list_eq. intros i. rewrite list_lookup_fmap, lookup_app, list_lookup_fmap, length_fmap.
  destruct (entries !! i) as [e|] eqn:He; simpl.
  - rewrite (record_of_lookup _ _ _ _ Hnd Hord He). destruct (records !! i) as [r|] eqn:Hr; [done|]. simpl.
    symmetry. apply lookup_replicate. apply lookup_ge_None in Hr. apply lookup_lt_Some in He. split; [done|lia].
  - apply lookup_ge_None in He. destruct Hord as [Hlen _]. rewrite (proj2 (lookup_ge_None records i)) by lia. simpl.
    symmetry. apply lookup_replicate_None. lia.
Qed.

Definition has_tag (t : string) (l : list element) : bool := existsb (fun x => String.eqb (tag x) t) l.

(** The cases with a given child, counted on the records. *)
Lemma cases_counted t entries records o b : NoDup (key <$> entries) -> in_order entries records ->
  cases_with t (_junit_tree entries records o b) =
    (count (fun r => has_tag t (case_node (_stop_reason o b None) (Some r))) records +
     (if has_tag t (case_node (_stop_reason o b None) None) then length entries - length records else 0) +
     (if String.eqb o "failed" && (with_outcome "failed" records =? 0)%nat then (if String.eqb "error" t then 1 else 0) else 0))%nat.
Proof.
  intros Hnd Hord. unfold cases_with, _junit_tree. cbn [children]. rewrite count_app, count_fmap. f_equal.
  - transitivity (count (fun x => has_tag t (case_node (_stop_reason o b None) x)) (record_of records <$> entries)).
    { by rewrite count_fmap. }
    rewrite (records_padded _ _ Hnd Hord). autorewrite with le_audio_rw. done.
  - destruct (_ && _); [|done]. unfold count. cbn [List.filter existsb tag children]. by destruct (String.eqb "error" t).
Qed.

Lemma count_records t o (f : child_record -> list element) records :
  Forall (fun r => outcome r ∈ ["passed"; "failed"; "cancelled"]%string) records ->
  (forall r, outcome r ∈ ["passed"; "failed"; "cancelled"]%string -> has_tag t (f r) = String.eqb (outcome r) o) ->
  count (fun r => has_tag t (f r)) records = with_outcome o records.
Proof. rewrite Forall_forall. intros Hr Hf. apply count_ext. intros r Hin. apply Hf. by apply Hr. Qed.

Lemma outcome_cases o : o ∈ ["passed"; "failed"; "cancelled"]%string -> o = "passed"%string \/ o = "failed"%string \/ o = "cancelled"%string.
Proof. rewrite !elem_of_cons, elem_of_nil. tauto. Qed.

Ltac by_outcome := intros r Hr; unfold case_node; destruct (outcome_cases _ Hr) as [-> | [-> | ->]]; reflexivity.

(** The attributes of the suite are its contents. *)
Lemma junit_attributes entries records o b : NoDup (key <$> entries) -> in_order entries records ->
  Forall (fun r => outcome r ∈ ["passed"; "failed"; "cancelled"]%string) records ->
  let suite := _junit_tree entries records o b in
  attr "tests" suite = Some (nat_dec (length (children suite))) /\
  attr "failures" suite = Some (nat_dec (cases_with "failure" suite)) /\
  attr "skipped" suite = Some (nat_dec (cases_with "skipped" suite)) /\
  attr "errors" suite = Some (nat_dec (cases_with "error" suite)).
Proof.
  intros Hnd Hord Ho suite. subst suite. rewrite !cases_counted by done. unfold attr. cbn [_junit_tree attributes children].
  rewrite length_app, length_fmap.
  rewrite (count_records "failure" "failed" _ _ Ho), (count_records "skipped" "cancelled" _ _ Ho) by by_outcome.
  assert (count (fun r => has_tag "error" (case_node (_stop_reason o b None) (Some r))) records = 0%nat) as ->.
  { apply count_zero. rewrite Forall_forall in Ho. intros r Hr%Ho. revert r Hr. by_outcome. }
  cbn [dict_get]. repeat (rewrite decide_False by done; cbn [dict_get]). repeat (rewrite decide_True by done).
  destruct (String.eqb o "failed" && _); simpl; rewrite ?Nat.add_0_r; done.
Qed.

(** No failure, error or skip in the document. *)
Definition green (suite : element) : Prop :=
  cases_with "failure" suite = 0%nat /\ cases_with "skipped" suite = 0%nat /\ cases_with "error" suite = 0%nat.

Lemma junit_green entries records o b : NoDup (key <$> entries) -> in_order entries records ->
  Forall (fun r => outcome r ∈ ["passed"; "failed"; "cancelled"]%string) records ->
  (green (_junit_tree entries records o b) <->
   o <> "failed"%string /\ length records = length entries /\ Forall (fun r => outcome r = "passed"%string) records).
Proof.
  intros Hnd Hord Ho. unfold green. rewrite !cases_counted by done.
  rewrite (count_records "failure" "failed" _ _ Ho), (count_records "skipped" "cancelled" _ _ Ho) by by_outcome.
  assert (count (fun r => has_tag "error" (case_node (_stop_reason o b None) (Some r))) records = 0%nat) as ->.
  { apply count_zero. rewrite Forall_forall in Ho. intros r Hr%Ho. revert r Hr. by_outcome. }
  assert (Forall (fun r => outcome r = "passed"%string) records <-> with_outcome "failed" records = 0%nat /\ with_outcome "cancelled" records = 0%nat) as ->.
  { unfold with_outcome. rewrite !count_zero, Forall_forall. rewrite Forall_forall in Ho. split.
    - intros H. split; intros r Hr%H; by rewrite Hr.
    - intros [Hf Hc] r Hr. pose proof (Hf r Hr). pose proof (Hc r Hr). apply Ho, outcome_cases in Hr as [Hr | [Hr | Hr]]; [done|..];
        by rewrite Hr in *. }
  destruct Hord as [Hlen _]. cbn [has_tag case_node existsb tag]. simpl (String.eqb "skipped" _). simpl (String.eqb "error" _).
  destruct (String.eqb_spec o "failed") as [->|Hne]; simpl.
  - destruct (Nat.eqb_spec (with_outcome "failed" records) 0); simpl; split; [lia | by intros [? _] | lia | by intros [? _]].
  - split; [intros (? & ? & ?); repeat split; [done|lia..] | intros (_ & ? & ? & ?); lia].
Qed.

Lemma schedule_positions : NoDup ((fun x : Z * Z * RowSpec => (x.1.1, x.1.2)) <$> rh3_schedule).
Proof. apply (bool_decide_unpack _). vm_compute. exact I. Qed.

Lemma schedule_keys sha id root : NoDup (key <$> _schedule sha id root).
Proof.
  unfold _schedule. rewrite <- list_fmap_compose.
  rewrite (list_fmap_ext _ (fun x => (x.1.1, x.1.2))) by by intros ? [[??]?].
  exact schedule_positions.
Qed.

Section junit.
Context (os_error : string -> string) (repr : json -> string) (require_capture : bool) (sha : list ascii -> list ascii).

Lemma run_in_order root entries a turns : in_order entries (a_records (run os_error repr require_capture root entries a turns)) /\
  Forall (fun r => outcome r ∈ ["passed"; "failed"; "cancelled"]%string) (a_records (run os_error repr require_capture root entries a turns)).
Proof.
  destruct (run_spec os_error repr require_capture root entries a turns) as (res & Ha & _). apply attempt_spec in Ha as [Hran _].
  assert (forall i r, a_records (run os_error repr require_capture root entries a turns) !! i = Some r ->
    exists e, entries !! i = Some e /\ record_for e r) as Hrec.
  { intros i r Hi. destruct (ran_each _ _ _ _ _ _ _ Hran i r Hi) as (e & He & [Hf _]%invoke_Ok). eauto. }
  split; [split; [apply Hran | done]|]. apply Forall_lookup. intros i r Hi. destruct (Hrec i r Hi) as (e & _ & H). apply H.
Qed.

(** The aggregate JUnit document of a run over the schedule lists the
    scheduled test cases once each, in order (and one more for a failure of the
    orchestration itself); its four counts are what it contains; and it is
    free of failures, errors and skips exactly when every child passed and the
    run did not fail. *)
Theorem junit_matches_run id root a turns :
  let entries := _schedule sha id root in
  let agg := run os_error repr require_capture root entries a turns in
  let suite := _junit_tree entries (a_records agg) (a_verdict agg).1 (a_verdict agg).2 in
  attr "name" <$> take (length entries) (children suite) = (fun e => Some (e_testcase e)) <$> entries /\
  attr "tests" suite = Some (nat_dec (length (children suite))) /\
  attr "failures" suite = Some (nat_dec (cases_with "failure" suite)) /\
  attr "skipped" suite = Some (nat_dec (cases_with "skipped" suite)) /\
  attr "errors" suite = Some (nat_dec (cases_with "error" suite)) /\
  (green suite <-> (a_verdict agg).1 <> "failed"%string /\ length (a_records agg) = length entries /\
     Forall (fun r => outcome r = "passed"%string) (a_records agg)).
Proof.
  intros entries agg suite. destruct (run_in_order root entries a turns) as [Hord Ho].
  pose proof (schedule_keys sha id root : NoDup (key <$> entries)) as Hnd. clearbody entries. split.
  { subst suite. cbn [_junit_tree children]. rewrite take_app_length' by by rewrite length_fmap. by rewrite <- list_fmap_compose. }
  destruct (junit_attributes entries _ (a_verdict agg).1 (a_verdict agg).2 Hnd Hord Ho) as (H1 & H2 & H3 & H4).
  exact (conj H1 (conj H2 (conj H3 (conj H4 (junit_green _ _ _ _ Hnd Hord Ho))))).
Qed.
End junit.

(** *** Child run ids *)

Section ids.
Context (sha : list ascii -> list ascii).

(** The suffix of a child id without its digest. *)
Definition stem (x : Z * Z * RowSpec) : list ascii :=
  chars ".p" ++ chars (dec x.1.1) ++ chars ".r" ++ chars (dec x.1.2) ++ chars "." ++ _safe_row_label (name x.2) ++ chars ".".

Lemma child_suffix_stem id x : exists d, child_suffix sha id x.1.1 x.1.2 x.2 = stem x ++ digest12 sha d.
Proof. unfold child_suffix, stem. eexists. by rewrite <- !app_assoc. Qed.

Definition stems : list (list ascii) := stem <$> rh3_schedule.

Lemma stems_shape : Forall (fun l => (10 <= length l <= 51)%nat /\ forallb is_run_id_char l = true) stems.
Proof. apply (bool_decide_unpack _). vm_compute. exact I. Qed.

(** No stem ends in another one. *)
Definition apart (l : list (list ascii)) : bool :=
  forallb (fun x => forallb (fun y => (x.1 =? y.1)%nat || negb (bool_decide (x.2 `suffix_of` y.2))) (imap pair l)) (imap pair l).
Lemma stems_apart : apart stems = true.
Proof. vm_compute. reflexivity. Qed.

Lemma apart_spec l i j a b : apart l = true -> l !! i = Some a -> l !! j = Some b -> a `suffix_of` b -> i = j.
Proof.
  unfold apart. rewrite forallb_forall. intros H Hi Hj Hs.
  assert (forall k x, l !! k = Some x -> In (k, x) (imap pair l)) as Hin.
  { intros k x Hk. apply list_elem_of_In, list_elem_of_lookup. exists k. by rewrite list_lookup_imap, Hk. }
  pose proof (H _ (Hin _ _ Hi)) as H1. rewrite forallb_forall in H1. specialize (H1 _ (Hin _ _ Hj)). simpl in H1.
  apply orb_true_iff in H1 as [H1|H1]; [by apply Nat.eqb_eq | by apply negb_true_iff, bool_decide_eq_false in H1].
Qed.

Lemma app_suffix {A} (a b c d : list A) : a ++ b = c ++ d -> b `suffix_of` d \/ d `suffix_of` b.
Proof.
  intros [(k & -> & ->)|(k & -> & ->)]%app_eq_inv; [left | right]; by apply suffix_app_r.
Qed.

Context (Hlen : forall d, length (digest12 sha d) = 12%nat) (Hhex : forall d, forallb is_run_id_char (digest12 sha d) = true).

Lemma child_id_stem id root x :
  e_child_run_id (schedule_entry sha id root x) = with_suffix id (child_suffix sha id x.1.1 x.1.2 x.2).
Proof. by destruct x as [[p r] row]. Qed.

Lemma with_suffix_chars id suffix : chars (with_suffix id suffix) = take (64 - length suffix) (chars id) ++ suffix.
Proof. unfold with_suffix. by rewrite chars_of_chars. Qed.

(** The characters of a valid id whose last one is not a newline. *)
Lemma valid_chars s l c : validate_run_id s = Ok tt -> chars s = l ++ [c] -> c <> newline ->
  forallb is_run_id_char (chars s) = true /\ exists h t, chars s = h :: t /\ is_alnum h = true.
Proof.
  intros Hv Hs Hc. apply PathTheorems.validate_run_id_spec in Hv as (h & u & tail & He & Hh & Hu & _ & Ht).
  destruct Ht as [-> | ->].
  - rewrite He, app_nil_r. split; [|eauto]. simpl. unfold is_run_id_char at 1. by rewrite Hh, Hu.
  - rewrite Hs in He. assert (last (l ++ [c]) = last (h :: u ++ [newline])) as Hl by by rewrite He.
    rewrite last_snoc in Hl. change (h :: u ++ [newline]) with ((h :: u) ++ [newline]) in Hl. rewrite last_snoc in Hl. congruence.
Qed.

Lemma digest_last d : exists l c, digest12 sha d = l ++ [c] /\ is_run_id_char c = true.
Proof.
  pose proof (Hlen d) as Hl. pose proof (Hhex d) as Hh. destruct (digest12 sha d) as [|c l] using rev_ind; [done|].
  exists l, c. rewrite forallb_app in Hh. simpl in Hh. bool_to_prop. done.
Qed.

(** A prefix of a valid id with a suffix of valid characters is valid. *)
Lemma with_suffix_valid id suffix h t k : chars id = h :: t -> is_alnum h = true -> forallb is_run_id_char (take k (chars id)) = true ->
  forallb is_run_id_char suffix = true -> (1 <= 64 - length suffix <= k)%nat -> validate_run_id (with_suffix id suffix) = Ok tt.
Proof.
  intros Hs Hh Hk Hx Hl. apply PathTheorems.validate_run_id_spec.
  exists h, (take (63 - length suffix) t ++ suffix), []. rewrite with_suffix_chars, Hs, app_nil_r.
  replace (64 - length suffix)%nat with (S (63 - length suffix)) by lia. split; [done|]. split; [done|].
  split; [|split; [|by left]].
  - rewrite forallb_app, Hx, andb_true_r. rewrite Hs in Hk. destruct k as [|k]; [lia|]. simpl in Hk.
    apply andb_true_iff in Hk as [_ Hk]. rewrite forallb_forall in Hk. apply forallb_forall. intros c Hc. apply Hk.
    apply list_elem_of_In. apply list_elem_of_In in Hc.
    replace (take (63 - length suffix) t) with (take (63 - length suffix) (take k t)) in Hc by (rewrite take_take; f_equal; lia).
    apply list_elem_of_lookup in Hc as [i Hi]. apply lookup_take_Some in Hi as [Hi _]. apply list_elem_of_lookup. by exists i.
  - rewrite length_app, length_take. lia.
Qed.

(** Once the matrix has accepted its run id and the id of its child root,
    every child of the schedule gets a valid run id of at most 64 characters,
    and no two children share one - whatever the digests are. *)
Theorem child_ids_valid_and_distinct id root :
  validate_run_id (_children_root_id sha id) = Ok tt ->
  Forall (fun e => validate_run_id (e_child_run_id e) = Ok tt /\ (length (chars (e_child_run_id e)) <= 64)%nat) (_schedule sha id root) /\
  NoDup (e_child_run_id <$> _schedule sha id root).
Proof.
  intros Hroot.
  assert (length (children_suffix sha id) = 22%nat) as Hl22 by (unfold children_suffix; rewrite length_app, Hlen; done).
  assert (forallb is_run_id_char (take 42 (chars id)) = true /\ exists h t, chars id = h :: t /\ is_alnum h = true) as [Hid (h & t & Hs & Hh)].
  { unfold _children_root_id in Hroot. destruct (digest_last (chars id ++ [nul] ++ chars "children")) as (l & c & Hd & Hc).
    eapply valid_chars in Hroot as [Hall (h & t & He & Hh)];
      [| rewrite with_suffix_chars; unfold children_suffix at 2; rewrite Hd, !app_assoc; reflexivity | by intros ->].
    rewrite with_suffix_chars, Hl22 in Hall, He. rewrite forallb_app in Hall. apply andb_true_iff in Hall as [Hall _].
    split; [done|]. destruct (chars id) as [|h' t'] eqn:Hids.
    - unfold children_suffix in He. injection He as <- _. done.
    - injection He as -> _. eauto. }
  split.
  - apply Forall_fmap. pose proof stems_shape as Hst. apply Forall_fmap in Hst. eapply Forall_impl; [exact Hst|].
    intros x [Hb Hc]. unfold compose in *. rewrite !child_id_stem. destruct (child_suffix_stem id x) as [d Hd].
    assert (length (child_suffix sha id x.1.1 x.1.2 x.2) = (length (stem x) + 12)%nat) as Hlx by by rewrite Hd, length_app, Hlen.
    split.
    + eapply (with_suffix_valid id _ h t 42); [done | done | done | | lia]. by rewrite Hd, forallb_app, Hhex, Hc.
    + rewrite with_suffix_chars, length_app, length_take. lia.
  - apply NoDup_alt. intros i j y. unfold _schedule. rewrite <- list_fmap_compose, !list_lookup_fmap, !fmap_Some.
    intros (x1 & H1 & ->) (x2 & H2 & He). unfold compose in He. rewrite !child_id_stem in He. apply (f_equal chars) in He.
    rewrite !with_suffix_chars in He. destruct (child_suffix_stem id x1) as [d1 E1], (child_suffix_stem id x2) as [d2 E2].
    rewrite E1, E2, !app_assoc in He. apply app_inj_2 in He as [He _]; [|by rewrite !Hlen].
    assert (stems !! i = Some (stem x1)) as S1 by (unfold stems; by rewrite list_lookup_fmap, H1).
    assert (stems !! j = Some (stem x2)) as S2 by (unfold stems; by rewrite list_lookup_fmap, H2).
    apply app_suffix in He as [Hsf|Hsf]; [|symmetry]; by eapply apart_spec; [apply stems_apart|..].
Qed.
End ids.
End MatrixTheorems.

(** The capture verdict published with a result is the one of the fixture's
    capability, and only a passed matrix carries it. *)
Theorem verdict_is_earned fx session q v ok id o b entries records artifacts :
  capture_gate fx session q v ok = Ok tt ->
  dict_get "verdict"%string (_result_dict fx id o b entries records artifacts v) =
    match HilModel.capture_capability fx with
    | NONE => None
    | MONO => Some (JStr (if String.eqb o "passed" then "MONO_OUTPUT_SMOKE_ACCEPTED" else "none"))
    | STEREO => Some (JStr (if String.eqb o "passed" then "STEREO_OUTPUT_ACCEPTED" else "none"))
    end /\ (HilModel.capture_capability fx <> NONE -> ok = true /\ is_Some q).
Proof.
  unfold capture_gate. intros (? & _ & H)%bind_Ok. apply bind_Ok in H as (? & _ & H). apply bind_Ok in H as (? & _ & H).
  unfold _result_dict. destruct (HilModel.capture_capability fx).
  - split; [|done]. by destruct artifacts.
  - apply bind_Ok in H as (? & Hq%ensure_Ok%bool_decide_eq_true & H). apply bind_Ok in H as (? & _ & H).
    apply bind_Ok in H as (? & Hv%ensure_Ok%String.eqb_eq & H%ensure_Ok). rewrite Hv. done.
  - apply bind_Ok in H as (? & Hq%ensure_Ok%bool_decide_eq_true & H). apply bind_Ok in H as (? & _ & H).
    apply bind_Ok in H as (? & Hv%ensure_Ok%String.eqb_eq & H%ensure_Ok). rewrite Hv. done.
Qed.

(** ** Concrete runs *)

Module MatrixWitnesses.
Import MatrixTheorems.

Definition demo_sha (_ : list ascii) : list ascii := replicate 64 "a"%char.
Definition demo_entries : list entry := _schedule demo_sha "matrix-1" "/out/children".
Definition passed_json : list ascii := dump false (JObj [("outcome", JStr "passed")]%string).
Definition demo_files (e : entry) : fs :=
  <[e_evidence e := Dir]> (<[e_junit e := File []]> (<[join (e_evidence e) "result.json" := File passed_json]>
    (<[join (e_evidence e) "junit.xml" := File []]> (<[join (e_evidence e) "MANIFEST.md" := File []]>
      {[join (e_evidence e) "SHA256SUMS" := File []]})))).
Definition good_turn (f : fs) : turn :=
  mk_turn (Ok tt) (Ok false) (Ok "t0"%string) (Returned (Some (JStr "passed", JNull, JArr []))) f (Ok "t1"%string) "1.0" (Ok tt) (Ok tt).
Definition demo_turns (n : nat) : turn := match demo_entries !! n with Some e => good_turn (demo_files e) | None => good_turn ∅ end.
Definition demo_run (a : around) : aggregate := run (fun p => p) (fun _ => EmptyString) false "/out/children" demo_entries a demo_turns.

Example demo_passes : a_verdict (demo_run (mk_around (Ok "/out/children"%string) (Ok false) (Ok tt))) = ("passed"%string, None).
Proof. vm_compute. reflexivity. Qed.

Lemma child_ids_valid_and_distinct_witness : NoDup (e_child_run_id <$> demo_entries).
Proof.
  apply (child_ids_valid_and_distinct demo_sha); [reflexivity | reflexivity | vm_compute; reflexivity].
Defined.
End MatrixWitnesses.

(** A matrix cancelled after its last child passed publishes an aggregate
    JUnit document without any failure, error or skip, although the result it
    returns is [cancelled]. *)
Theorem cancelled_matrix_is_green :
  let agg := MatrixWitnesses.demo_run (mk_around (Ok "/out/children"%string) (Ok true) (Ok tt)) in
  (a_verdict agg).1 = "cancelled"%string /\
  MatrixTheorems.green (_junit_tree MatrixWitnesses.demo_entries (a_records agg) (a_verdict agg).1 (a_verdict agg).2).
Proof. vm_compute. repeat split. Qed.
