(* ===== verification/GuestOwners.v ===== *)
(** * Guest-side ownership (scripts/bluez_guest_acquire.py, bluez_guest_limits.py)

    [AcquireOwner] owns the descriptors of asynchronous Acquire replies;
    [EventLedger] is the bounded evidence list.  Each method runs under the
    object's lock, so a method is one step and the histories are sequences of
    calls. *)

From S2P Require Import Prelude PyText Json.

(** ** Acquire ownership *)

Module AcquireOwner.

(** A PendingCall handle: whether it can be cancelled, and whether the cancel
    raises. *)
Record handle : Type := mk_handle { has_cancel : bool; cancel_raises : bool }.

Inductive reply_error : Type := InvalidFdOrMtu | Failure (message : string).

Record request : Type := mk_request {
  path : string; role : string;
  fd : option Z; read_mtu : option Z; write_mtu : option Z;
  pending : option handle; replied : bool; error : option reply_error; taken : bool;
}.

(** Lines of [_errors], and what the methods raise. *)
Inductive logged : Type :=
| UnknownReplyToken | LateReply (path : string) | DuplicateReply (path : string) | DuplicateFailure (path : string)
| CancelFailed (path : string) | CloseFailed (path : string).
Inductive owner_error : Type :=
| KeyError | InvalidRegistration | InvalidPendingCall | ReplyUnknown | ReplyLateOrDuplicate | ReplyInvalid
| NotReady (path : string).

(** [os_closed] records every [os.close]; [handed] every descriptor [take]
    returned. *)
Record t : Type := mk {
  requests : list (nat * request);
  next_token : nat;
  closing : bool;
  finished : bool;
  errors : list logged;
  os_closed : list Z;
  handed : list Z;
}.
Definition init : t := mk [] 0 false false [] [] [].

Definition set_request (tok : nat) (r : request) (s : t) : t :=
  mk (dict_set tok r (requests s)) (next_token s) (closing s) (finished s) (errors s) (os_closed s) (handed s).
Definition log (e : logged) (s : t) : t :=
  mk (requests s) (next_token s) (closing s) (finished s) (errors s ++ [e]) (os_closed s) (handed s).
(** [os.close(fd)]; a failure is logged under [who]. *)
Definition close_fd (ok : Z -> bool) (who : string) (f : Z) (s : t) : t :=
  let s := mk (requests s) (next_token s) (closing s) (finished s) (errors s) (os_closed s ++ [f]) (handed s) in
  if ok f then s else log (CloseFailed who) s.

(** [path] is [None] when the argument is not a [str]. *)
Definition register (p : option string) (r : string) (s : t) : result owner_error nat * t :=
  match p with
  | Some p =>
      if negb (closing s) && negb (String.eqb p EmptyString) && py_in r ["source"; "sink"]%string &&
         (length (requests s) <? 2)%nat &&
         forallb (fun x => negb (String.eqb (path x.2) p || String.eqb (role x.2) r)) (requests s)
      then (Ok (next_token s),
            mk (dict_set (next_token s) (mk_request p r None None None None false None false) (requests s))
               (S (next_token s)) (closing s) (finished s) (errors s) (os_closed s) (handed s))
      else (Err InvalidRegistration, s)
  | None => (Err InvalidRegistration, s)
  end.

Definition with_pending (h : handle) (r : request) : request :=
  mk_request (path r) (role r) (fd r) (read_mtu r) (write_mtu r) (Some h) (replied r) (error r) (taken r).

Definition bind (tok : nat) (h : handle) (s : t) : result owner_error unit * t :=
  match dict_get tok (requests s) with
  | None => (Err KeyError, s)
  | Some r =>
      if negb (has_cancel h) || match pending r with Some _ => true | None => false end then (Err InvalidPendingCall, s)
      else if negb (finished s) then (Ok tt, set_request tok (with_pending h r) s)
      else (Ok tt, if cancel_raises h then log (CancelFailed (path r)) s else s)
  end.

Definition with_reply (f rm wm : Z) (r : request) : request :=
  mk_request (path r) (role r) (Some f) (Some rm) (Some wm) (pending r) true (error r) (taken r).
Definition with_error (e : reply_error) (r : request) : request :=
  mk_request (path r) (role r) (fd r) (read_mtu r) (write_mtu r) (pending r) true (Some e) (taken r).

(** [type(value) is int and value >= 0]; [None] is not an [int]. *)
Definition nonneg (v : option Z) : bool := match v with Some z => 0 <=? z | None => false end.

Definition close_refused (ok : Z -> bool) (who : string) (f : option Z) (s : t) : t :=
  match f with Some z => if 0 <=? z then close_fd ok who z s else s | None => s end.

Definition received (ok : Z -> bool) (tok : nat) (f rm wm : option Z) (s : t) : result owner_error unit * t :=
  match dict_get tok (requests s) with
  | None => (Err ReplyUnknown, close_refused ok "unknown" f (log UnknownReplyToken s))
  | Some r =>
      if closing s || replied r then
        (Err ReplyLateOrDuplicate,
         close_refused ok (path r) f (log (if closing s then LateReply (path r) else DuplicateReply (path r)) s))
      else match f, rm, wm with
      | Some f', Some rm', Some wm' =>
          if (0 <=? f') && (0 <=? rm') && (0 <=? wm') then (Ok tt, set_request tok (with_reply f' rm' wm' r) s)
          else (Err ReplyInvalid, close_refused ok (path r) f (set_request tok (with_error InvalidFdOrMtu r) s))
      | _, _, _ => (Err ReplyInvalid, close_refused ok (path r) f (set_request tok (with_error InvalidFdOrMtu r) s))
      end
  end.

Definition failed (tok : nat) (message : string) (s : t) : result owner_error unit * t :=
  match dict_get tok (requests s) with
  | None => (Err KeyError, s)
  | Some r =>
      if replied r then (Ok tt, log (DuplicateFailure (path r)) s)
      else (Ok tt, set_request tok (with_error (Failure message) r) s)
  end.

Record lease : Type := mk_lease { l_path : string; l_role : string; l_read_mtu : option Z; l_write_mtu : option Z; l_fd : Z }.

Definition with_taken (r : request) : request :=
  mk_request (path r) (role r) None (read_mtu r) (write_mtu r) (pending r) (replied r) (error r) true.

Definition take_fd (tok : nat) (s : t) : result owner_error lease * t :=
  match dict_get tok (requests s) with
  | None => (Err KeyError, s)
  | Some r =>
      match fd r with
      | Some f =>
          if closing s || negb (replied r) || match error r with Some _ => true | None => false end || taken r
          then (Err (NotReady (path r)), s)
          else (Ok (mk_lease (path r) (role r) (read_mtu r) (write_mtu r) f),
                let s := set_request tok (with_taken r) s in
                mk (requests s) (next_token s) (closing s) (finished s) (errors s) (os_closed s) (handed s ++ [f]))
      | None => (Err (NotReady (path r)), s)
      end
  end.

(** Sources before sinks, then by path. *)
Definition cleanup_key_lt (a b : nat * string * string) : bool :=
  let key x := negb (String.eqb x.2 "source") in
  if Bool.eqb (key a) (key b) then String.ltb a.1.2 b.1.2 else negb (key a).
Fixpoint insert_item (x : nat * string * string) (l : list (nat * string * string)) : list (nat * string * string) :=
  match l with [] => [x] | y :: l' => if cleanup_key_lt x y then x :: l else y :: insert_item x l' end.

Definition begin_cleanup (s : t) : list (nat * string * string) * t :=
  (fold_left (fun acc x => insert_item x acc)
     (omap (fun x => if taken x.2 then None else Some (x.1, path x.2, role x.2)) (requests s)) [],
   mk (requests s) (next_token s) true (finished s) (errors s) (os_closed s) (handed s)).

Definition without_fd (r : request) : request :=
  mk_request (path r) (role r) None (read_mtu r) (write_mtu r) (pending r) (replied r) (error r) (taken r).

(** The descriptors the requests hold, with their paths. *)
Definition held_items (rs : list (nat * request)) : list (string * Z) :=
  omap (fun x => f ← fd x.2; Some (path x.2, f)) rs.

Definition finish_cleanup (ok : Z -> bool) (s : t) : list logged * t :=
  if finished s then ([], s)
  else
    let pendings := omap (fun x => h ← pending x.2; Some (path x.2, h)) (requests s) in
    let fds := held_items (requests s) in
    let errs := omap (fun x => if cancel_raises x.2 then Some (CancelFailed x.1) else None) pendings ++
                omap (fun x => if ok x.2 then None else Some (CloseFailed x.1)) fds in
    (errs, mk ((fun x => (x.1, without_fd x.2)) <$> requests s) (next_token s) true true (errors s ++ errs)
              (os_closed s ++ fds.*2) (handed s)).

(** Histories of calls. *)
Inductive call : Type :=
| Register (p : option string) (r : string) | Bind (tok : nat) (h : handle)
| Received (tok : nat) (f rm wm : option Z) | Failed (tok : nat) (message : string)
| Take (tok : nat) | BeginCleanup | FinishCleanup.

Definition perform (ok : Z -> bool) (c : call) (s : t) : t :=
  match c with
  | Register p r => (register p r s).2
  | Bind tok h => (bind tok h s).2
  | Received tok f rm wm => (received ok tok f rm wm s).2
  | Failed tok m => (failed tok m s).2
  | Take tok => (take_fd tok s).2
  | BeginCleanup => (begin_cleanup s).2
  | FinishCleanup => (finish_cleanup ok s).2
  end.
Definition perform_all (ok : Z -> bool) (cs : list call) (s : t) : t := fold_left (fun s c => perform ok c s) cs s.

End AcquireOwner.

(** ** Bounded evidence *)

Module Limits.

Inductive limit_error : Type :=
| LimitNotPositive | NotSerializable | QuotaExceeded | ReloadFailed | OpenFailed | NotRegularOrOversized | ExceedsLimit.

(** [_limit(value)]: [None] is not an [int]. *)
Definition _limit (v : option Z) : result limit_error Z :=
  match v with Some z => ensure (0 <? z) LimitNotPositive;; Ok z | None => Err LimitNotPositive end.

(** What the file system answers to [read_bounded]. *)
Record file_answer : Type := mk_file { open_ok : bool; regular : bool; st_size : Z; data : list Z }.

Definition read_bounded (f : file_answer) (limit : option Z) : result limit_error (list Z) :=
  n ← _limit limit;
  ensure (open_ok f) OpenFailed;;
  ensure (regular f && (st_size f <=? n)) NotRegularOrOversized;;
  let got := take (Z.to_nat (n + 1)) (data f) in
  ensure (Z.of_nat (length got) <=? n) ExceedsLimit;;
  Ok got.

(** [allow_nan=False] refuses these literals. *)
Fixpoint finite (v : json) : bool :=
  match v with
  | JFloat lit => negb (py_in lit ["NaN"; "Infinity"; "-Infinity"]%string)
  | JArr l => forallb finite l
  | JObj d => forallb (fun '(_, x) => finite x) d
  | _ => true
  end.

Record ledger : Type := mk_ledger {
  items : list json; max_events : Z; max_bytes : Z; bytes : Z; first_error : option limit_error;
}.

Definition append (v : json) (s : ledger) : result limit_error unit * ledger :=
  let fail e := (Err e, mk_ledger (items s) (max_events s) (max_bytes s) (bytes s)
                          (match first_error s with None => Some e | old => old end)) in
  if negb (finite v) then fail NotSerializable
  else
    let encoded := dump true v in
    let n := Z.of_nat (length encoded) in
    if (max_events s <=? Z.of_nat (length (items s))) || (max_bytes s <? bytes s + n) then fail QuotaExceeded
    else match loads_chars (E := Empty_set) dict_hook encoded with
    | Ok copy => (Ok tt, mk_ledger (items s ++ [copy]) (max_events s) (max_bytes s) (bytes s + n) (first_error s))
    | Err _ => fail ReloadFailed
    end.

Definition safe_append (v : json) (s : ledger) : bool * ledger :=
  match append v s with
  | (Ok _, s) => (true, s)
  | (Err e, s) =>
      (false, mk_ledger (items s) (max_events s) (max_bytes s) (bytes s)
                (match first_error s with None => Some e | old => old end))
  end.

(** The constructor appends the initial items; the first failure raises. *)
Definition new_ledger (iterable : list json) (events size : option Z) : result limit_error ledger :=
  e ← _limit events; b ← _limit size;
  fold_left (fun s v => s ← s; match append v s with (Ok _, s) => Ok s | (Err x, _) => Err x end) iterable
    (Ok (mk_ledger [] e b 0 None)).

End Limits.

(** ** Ownership of the descriptors *)

Module OwnerTheorems.
Import AcquireOwner.

Definition held (s : t) : list Z := (held_items (requests s)).*2.

(** The descriptors a call, and a history, delivers. *)
Definition incoming (f : option Z) : list Z := match f with Some z => if 0 <=? z then [z] else [] | None => [] end.
Definition delivered_by (c : call) : list Z := match c with Received _ f _ _ => incoming f | _ => [] end.
Definition delivered (cs : list call) : list Z := concat (delivered_by <$> cs).

Lemma dict_set_split {V} (k : nat) (v : V) d :
  dict_get k d = Some v -> exists l1 l2, d = l1 ++ (k, v) :: l2 /\ forall v', dict_set k v' d = l1 ++ (k, v') :: l2.
Proof.
  induction d as [|[k' w] d IH]; [done|]. simpl. case_decide as Hk.
  - intros [= ->]. subst. exists [], d. split; [done|]. done.
  - intros (l1 & l2 & -> & H)%IH. exists ((k', w) :: l1), l2. split; [done|]. intros v'. simpl. by rewrite H.
Qed.

Lemma held_items_app l k : held_items (l ++ k) = held_items l ++ held_items k.
Proof. apply omap_app. Qed.

(** The bookkeeping: every descriptor is closed, handed out or held, and a
    request without a reply holds none. *)
Record owned (all : list Z) (s : t) : Prop := mk_owned {
  owned_fds : os_closed s ++ handed s ++ held s ≡ₚ all;
  owned_unreplied : forall x, x ∈ requests s -> replied x.2 = false -> fd x.2 = None;
  owned_finished : finished s = true -> held s = [] /\ closing s = true;
  owned_tokens : forall x, x ∈ requests s -> (x.1 < next_token s)%nat;
}.

Lemma owned_log all e s : owned all s -> owned all (log e s).
Proof. by intros []. Qed.

Lemma owned_close all ok who f s : owned all s -> owned (f :: all) (close_fd ok who f s).
Proof.
  intros [H1 H2 H3 H4]. unfold close_fd. destruct (ok f); constructor; simpl; try done;
    unfold held in *; simpl; rewrite <- app_assoc; simpl; rewrite <- H1; symmetry; apply Permutation_middle.
Qed.

Lemma owned_refused all ok who f s : owned all s -> owned (incoming f ++ all) (close_refused ok who f s).
Proof. intros HI. destruct f as [z|]; [|done]. simpl. destruct (0 <=? z); [by apply owned_close | done]. Qed.

(** Replacing a request keeps the others. *)
Lemma set_request_in tok r r' s x :
  dict_get tok (requests s) = Some r -> x ∈ requests (set_request tok r' s) -> x = (tok, r') \/ x ∈ requests s.
Proof.
  intros Hg. destruct (dict_set_split tok r _ Hg) as (l1 & l2 & Hl & Hs). simpl. rewrite Hs, Hl.
  rewrite !elem_of_app, !elem_of_cons. naive_solver.
Qed.

Lemma owned_set all tok r r' s :
  dict_get tok (requests s) = Some r -> (replied r' = false -> fd r' = None) ->
  os_closed s ++ handed s ++ held (set_request tok r' s) ≡ₚ all ->
  (finished s = true -> held (set_request tok r' s) = [] /\ closing s = true) ->
  (forall x, x ∈ requests s -> replied x.2 = false -> fd x.2 = None) ->
  (forall x, x ∈ requests s -> (x.1 < next_token s)%nat) ->
  owned all (set_request tok r' s).
Proof.
  intros Hg Hr H1 H3 H2 H4. constructor; simpl; try done.
  - intros x [->|Hx]%(set_request_in tok r r' s x Hg); [done | by apply H2].
  - intros x [->|Hx]%(set_request_in tok r r' s x Hg); [|by apply H4].
    apply (H4 (tok, r)). by apply dict_get_elem.
Qed.

(** The descriptors held after replacing a request. *)
Lemma held_set tok r r' s :
  dict_get tok (requests s) = Some r ->
  option_list (fd r) ++ held (set_request tok r' s) ≡ₚ option_list (fd r') ++ held s.
Proof.
  intros Hg. destruct (dict_set_split tok r _ Hg) as (l1 & l2 & Hl & Hs).
  unfold held, set_request. simpl. rewrite Hs, Hl, !held_items_app, !fmap_app. simpl.
  destruct (fd r) as [f|], (fd r') as [f'|]; simpl; try done.
  - rewrite !(Permutation_app_comm (held_items l1).*2). simpl. apply perm_swap.
  - by rewrite <- Permutation_middle.
  - by rewrite <- Permutation_middle.
Qed.

(** Replacing a request by one that holds the same descriptor. *)
Lemma owned_set_same all tok r r' s :
  dict_get tok (requests s) = Some r -> fd r' = fd r -> (replied r' = false -> fd r' = None) ->
  owned all s -> owned all (set_request tok r' s).
Proof.
  intros Hg Hf Hr [H1 H2 H3 H4]. pose proof (held_set tok r r' s Hg) as Hh. rewrite Hf in Hh.
  apply Permutation_app_inv_l in Hh. apply (owned_set all tok r); try done.
  - by rewrite Hh.
  - intros Hfin. destruct (H3 Hfin) as [He Hc]. rewrite He in Hh. by apply Permutation_nil_r in Hh.
Qed.

Lemma owned_reply all tok r f rm wm s :
  dict_get tok (requests s) = Some r -> replied r = false -> closing s = false ->
  owned all s -> owned (f :: all) (set_request tok (with_reply f rm wm r) s).
Proof.
  intros Hg Hr Hcl [H1 H2 H3 H4]. pose proof (held_set tok r (with_reply f rm wm r) s Hg) as Hh.
  assert (fd r = None) as Hn by (apply (H2 (tok, r)); [by apply dict_get_elem | done]).
  rewrite Hn in Hh. simpl in Hh.
  apply (owned_set _ tok r); try done.
  - rewrite Hh, <- H1, !app_assoc. symmetry. apply Permutation_middle.
  - intros Hfin. destruct (H3 Hfin). congruence.
Qed.

Lemma owned_take all tok s : owned all s -> owned all (take_fd tok s).2.
Proof.
  intros HI. unfold take_fd. destruct (dict_get tok (requests s)) as [r|] eqn:Hg; [|done].
  destruct (fd r) as [f|] eqn:Hf; [|done]. destruct (_ || _) eqn:Hb; [done|]. simpl.
  destruct HI as [H1 H2 H3 H4]. pose proof (held_set tok r (with_taken r) s Hg) as Hh. rewrite Hf in Hh. simpl in Hh.
  assert (owned (os_closed s ++ handed s ++ held (set_request tok (with_taken r) s)) (set_request tok (with_taken r) s)) as [_ G2 G3 G4].
  { apply (owned_set _ tok r); try done. intros Hfin. destruct (H3 Hfin) as [He _]. rewrite He in Hh.
    by apply Permutation_nil_r in Hh. }
  constructor; try done. cbn [os_closed handed]. rewrite <- H1, <- Hh. rewrite <- app_assoc.
  unfold held at 1. simpl. done.
Qed.

Lemma owned_register all p r s : owned all s -> owned all (register p r s).2.
Proof.
  intros [H1 H2 H3 H4]. unfold register. destruct p as [p|]; [|done]. destruct (_ && _) eqn:Hb; [|done]. simpl.
  assert (dict_has (next_token s) (requests s) = false) as Hfresh.
  { destruct (dict_has _ _) eqn:Hh; [|done]. apply dict_has_spec, list_elem_of_fmap in Hh as (x & Hx & Hin).
    apply H4 in Hin. lia. }
  assert (forall (v : request) d, dict_has (next_token s) d = false -> dict_set (next_token s) v d = d ++ [(next_token s, v)]) as Hset.
  { clear. intros v d. unfold dict_has. induction d as [|[k w] d IH]; [done|]. simpl. case_decide; [done|].
    intros Hd. by rewrite IH. }
  rewrite Hset by done.
  assert (closing s = false) as Hc by (by destruct (closing s)).
  constructor; simpl.
  - unfold held in *. simpl. rewrite held_items_app, fmap_app. simpl. by rewrite app_nil_r.
  - intros x [Hx|Hx%list_elem_of_singleton]%elem_of_app; [by apply H2 | by subst x].
  - intros Hfin. destruct (H3 Hfin). congruence.
  - intros x [Hx%H4|Hx%list_elem_of_singleton]%elem_of_app; [|subst x]; simpl; lia.
Qed.

Lemma held_without rs : held_items ((fun x => (x.1, without_fd x.2)) <$> rs) = [].
Proof. induction rs as [|x rs IH]; [done|]. simpl. exact IH. Qed.

Lemma owned_finish all ok s : owned all s -> owned all (finish_cleanup ok s).2.
Proof.
  intros HI. unfold finish_cleanup. destruct (finished s) eqn:Hf; [exact HI|]. destruct HI as [H1 H2 H3 H4].
  constructor; simpl.
  - unfold held. simpl. rewrite held_without. simpl. rewrite app_nil_r, <- H1. unfold held.
    rewrite <- app_assoc. apply Permutation_app_head, Permutation_app_comm.
  - intros x (y & -> & Hy)%list_elem_of_fmap. done.
  - intros _. split; [unfold held; simpl; by rewrite held_without | done].
  - intros x (y & -> & Hy)%list_elem_of_fmap. simpl. by apply H4.
Qed.

Lemma owned_received all ok tok f rm wm s :
  owned all s -> owned (incoming f ++ all) (received ok tok f rm wm s).2.
Proof.
  intros HI. unfold received. destruct (dict_get tok (requests s)) as [r|] eqn:Hg;
    [|by apply owned_refused, owned_log].
  destruct (closing s || replied r) eqn:Hb; [by apply owned_refused, owned_log|].
  apply orb_false_iff in Hb as [Hclo Hrep].
  assert (fd r = None) as Hn by (apply (owned_unreplied _ _ HI (tok, r)); [by apply dict_get_elem | done]).
  assert (owned all (set_request tok (with_error InvalidFdOrMtu r) s)) as He by by apply (owned_set_same _ _ r).
  destruct f as [f|]; [|by apply owned_refused]. destruct rm as [rm|]; [|by apply owned_refused].
  destruct wm as [wm|]; [|by apply owned_refused]. destruct (_ && _) eqn:Hc; [|by apply owned_refused]. simpl.
  assert ((0 <=? f) = true) as -> by (by apply andb_true_iff in Hc as [[? ?]%andb_true_iff _]).
  by apply owned_reply.
Qed.

Lemma owned_perform all ok c s : owned all s -> owned (delivered_by c ++ all) (perform ok c s).
Proof.
  intros HI. destruct c as [p r|tok h|tok f rm wm|tok m|tok| |]; simpl.
  - by apply owned_register.
  - unfold bind. destruct (dict_get tok (requests s)) as [r|] eqn:Hg; [|done].
    destruct (_ || _); [done|]. destruct (finished s); simpl; [destruct (cancel_raises h); [by apply owned_log | done]|].
    apply (owned_set_same _ _ r); try done. intros Hr. apply (owned_unreplied _ _ HI (tok, r)); [by apply dict_get_elem | done].
  - by apply owned_received.
  - unfold failed. destruct (dict_get tok (requests s)) as [r|] eqn:Hg; [|done].
    destruct (replied r); [by apply owned_log|]. by apply (owned_set_same _ _ r).
  - by apply owned_take.
  - destruct HI as [H1 H2 H3 H4]. constructor; try done. intros Hf. by destruct (H3 Hf).
  - by apply owned_finish.
Qed.

Lemma finished_kept ok c s : finished s = true -> finished (perform ok c s) = true.
Proof.
  intros H. destruct c as [p r|tok h|tok f rm wm|tok m|tok| |]; simpl.
  - unfold register. destruct p; [|done]. by destruct (_ && _).
  - unfold bind. repeat case_match; done.
  - unfold received, close_refused, close_fd. repeat (case_match; simpl); done.
  - unfold failed. repeat case_match; done.
  - unfold take_fd. repeat case_match; done.
  - done.
  - unfold finish_cleanup. by rewrite H.
Qed.

(** C27. Linear ownership of descriptors: over every history of calls each
    delivered descriptor is closed, handed to a caller by [take], or held, and
    exactly once in all; once [finish_cleanup] has run none is held, so every
    descriptor the service ever delivers has been closed or handed out. *)
Theorem descriptors_owned_once ok cs :
  let s := perform_all ok cs init in
  os_closed s ++ handed s ++ held s ≡ₚ delivered cs /\
  (FinishCleanup ∈ cs -> held s = [] /\ os_closed s ++ handed s ≡ₚ delivered cs).
Proof.
  intros s.
  assert (forall cs s0 all, owned all s0 -> owned (delivered cs ++ all) (perform_all ok cs s0)) as Hall.
  { clear. unfold perform_all. induction cs as [|c cs IH]; intros s0 all HI; [done|]. simpl fold_left.
    pose proof (IH _ _ (owned_perform all ok c s0 HI)) as [H1 H2 H3 H4]. constructor; try done.
    rewrite H1. change (delivered (c :: cs)) with (delivered_by c ++ delivered cs).
    rewrite !app_assoc. apply Permutation_app_tail, Permutation_app_comm. }
  assert (owned (delivered cs) s) as [H1 H2 H3 H4].
  { pose proof (Hall cs init []) as H. rewrite app_nil_r in H. apply H. constructor; try done; by intros x ?%elem_of_nil. }
  split; [done|]. intros Hf. assert (finished s = true) as Hfin.
  { subst s. clear -Hf. unfold perform_all.
    assert (forall cs s0, finished s0 = true -> finished (fold_left (fun s c => perform ok c s) cs s0) = true) as Hkeep.
    { induction cs0 as [|c cs0 IH]; intros s0 H; [done|]. simpl. apply IH. by apply finished_kept. }
    generalize init. induction cs as [|c cs IH]; intros s0; [by apply elem_of_nil in Hf|]. simpl.
    apply elem_of_cons in Hf as [<-|Hf]; [|by apply IH]. apply Hkeep. simpl. unfold finish_cleanup.
    by destruct (finished s0) eqn:Hs0. }
  destruct (H3 Hfin) as [Hh _]. split; [done|]. by rewrite <- H1, Hh, app_nil_r.
Qed.
End OwnerTheorems.

(** ** The evidence stays within its quota *)

Module LedgerTheorems.
Import Limits.

Definition encoded_size (v : json) : Z := Z.of_nat (length (dump true v)).
Definition total_size (vs : list json) : Z := foldr (fun v n => encoded_size v + n) 0 vs.
Definition append_all (vs : list json) (s : ledger) : ledger := fold_left (fun s v => (append v s).2) vs s.
Definition empty (e b : Z) : ledger := mk_ledger [] e b 0 None.

Lemma total_size_snoc vs v : total_size (vs ++ [v]) = total_size vs + encoded_size v.
Proof. induction vs as [|w vs IH]; simpl; [lia|]. rewrite IH. lia. Qed.

Lemma json_ok_finite v : json_ok v = true -> finite v = true.
Proof.
  induction v as [| | | | |l IH|d IH] using json_ind'; try done; simpl; intros H.
  - revert H. rewrite !forallb_forall. intros H x Hx. rewrite List.Forall_forall in IH. by apply IH, H.
  - apply andb_true_iff in H as [_ H]. revert H. rewrite !forallb_forall. intros H [k x] Hx.
    rewrite List.Forall_forall in IH. pose proof (IH _ Hx) as G. simpl in G. apply G. by apply (H (k, x)).
Qed.

(** Within the quota a value is stored as it is; past it, only the error slot
    changes, and the first error stays. *)
Lemma append_spec v s :
  json_ok v = true ->
  append v s =
    if (Z.of_nat (length (items s)) <? max_events s) && (bytes s + encoded_size v <=? max_bytes s)
    then (Ok tt, mk_ledger (items s ++ [v]) (max_events s) (max_bytes s) (bytes s + encoded_size v) (first_error s))
    else (Err QuotaExceeded, mk_ledger (items s) (max_events s) (max_bytes s) (bytes s)
                               (match first_error s with None => Some QuotaExceeded | old => old end)).
Proof.
  intros Hv. unfold append. rewrite (json_ok_finite _ Hv). simpl negb. cbv iota. unfold encoded_size.
  rewrite loads_chars_dump; [|by intros; apply dict_hook_id | done].
  destruct (Z.ltb_spec (Z.of_nat (length (items s))) (max_events s)), (Z.leb_spec (max_events s) (Z.of_nat (length (items s))));
    try lia; simpl; [|done].
  by destruct (Z.leb_spec (bytes s + Z.of_nat (length (dump true v))) (max_bytes s)),
    (Z.ltb_spec (max_bytes s) (bytes s + Z.of_nat (length (dump true v)))); try lia.
Qed.

Record within (e b : Z) (seen : list json) (s : ledger) : Prop := mk_within {
  w_events : max_events s = e; w_size : max_bytes s = b;
  w_count : Z.of_nat (length (items s)) <= e;
  w_bytes : bytes s = total_size (items s) /\ bytes s <= b;
  w_order : items s `sublist_of` seen;
  w_error : first_error s = None <-> items s = seen;
}.

Lemma within_append e b seen v s :
  json_ok v = true -> within e b seen s -> within e b (seen ++ [v]) (append v s).2.
Proof.
  intros Hv [<- <- Hc [Hb Hm] Ho He]. rewrite append_spec by done. destruct (_ && _) eqn:Hq; simpl.
  - apply andb_true_iff in Hq as [H1%Z.ltb_lt H2%Z.leb_le]. constructor; simpl; try done.
    + rewrite length_app. simpl. lia.
    + rewrite total_size_snoc. lia.
    + by apply sublist_app.
    + rewrite He. split; [by intros -> | intros H; by apply app_inj_tail in H as [H _]].
  - assert (items s `sublist_of` seen ++ [v]) as Ho' by by apply sublist_inserts_r.
    constructor; simpl; try done. split; [by destruct (first_error s)|].
    intros H. apply sublist_length in Ho. rewrite H, length_app in Ho. simpl in Ho. lia.
Qed.

(** The evidence ledger: whatever is appended, it holds at most
    [max_events] values whose encodings add up to [_bytes <= max_bytes]; it
    holds the accepted values unchanged and in order, and [error] is empty
    exactly when nothing was dropped. *)
Theorem ledger_keeps_quota e b vs :
  0 < e -> 0 < b -> forallb json_ok vs = true ->
  let s := append_all vs (empty e b) in
  Z.of_nat (length (items s)) <= e /\ bytes s = total_size (items s) /\ bytes s <= b /\
  items s `sublist_of` vs /\ (first_error s = None <-> items s = vs).
Proof.
  intros Hp Hq Hvs s.
  assert (forall vs seen s0, forallb json_ok vs = true -> within e b seen s0 -> within e b (seen ++ vs) (append_all vs s0)) as Hall.
  { clear. unfold append_all. induction vs as [|v vs IH]; intros seen s0 Hvs HI; simpl; [by rewrite app_nil_r|].
    simpl in Hvs. apply andb_true_iff in Hvs as [Hv Hvs].
    rewrite (cons_middle v seen vs), app_assoc. apply IH; [done|]. by apply within_append. }
  assert (within e b vs s) as [_ _ Hc [Hb Hm] Ho He].
  { apply (Hall vs [] (empty e b) Hvs). constructor; simpl; try done; lia. }
  by repeat split; try apply He.
Qed.

(** [read_bounded] never returns a cut file: what it returns is the whole
    content of a regular file, at most [limit] bytes long. *)
Theorem read_bounded_whole f n d :
  read_bounded f (Some n) = Ok d ->
  open_ok f = true /\ regular f = true /\ d = data f /\ Z.of_nat (length d) <= n.
Proof.
  unfold read_bounded. intros H. result_inv H. bool_to_prop. simpl in Ha. result_inv Ha. subst a. bool_to_prop.
  split; [done|]. split; [done|]. subst d. split; [|done]. apply firstn_all2. rewrite length_firstn in *. lia.
Qed.
End LedgerTheorems.

(** ** Concrete runs *)

Module OwnerWitnesses.
Import AcquireOwner.

Definition run_calls : list call :=
  [Register (Some "/a"%string) "source"; Register (Some "/b"%string) "sink"; Received 0%nat (Some 7) (Some 40) (Some 40);
   Bind 0%nat (mk_handle true true); Take 0%nat; Received 0%nat (Some 8) (Some 40) (Some 40); BeginCleanup;
   Received 1%nat (Some 9) (Some 40) (Some 40); FinishCleanup; Received 5%nat (Some 10) None None].

(** One descriptor handed out, three refused and closed. *)
Lemma descriptors_owned_once_witness :
  OwnerTheorems.delivered run_calls = [7; 8; 9; 10] /\
  handed (perform_all (fun _ => true) run_calls init) = [7] /\
  os_closed (perform_all (fun _ => true) run_calls init) = [8; 9; 10] /\
  OwnerTheorems.held (perform_all (fun _ => true) run_calls init) = [].
Proof.
  split; [reflexivity|]. split; [reflexivity|]. split; [reflexivity|].
  apply (OwnerTheorems.descriptors_owned_once (fun _ => true) run_calls). apply list_elem_of_In. simpl. tauto.
Defined.

Definition events : list json := [JStr "abc"; JInt 12; JObj [("k"%string, JBool true)]; JNull].

Lemma ledger_keeps_quota_witness :
  let s := LedgerTheorems.append_all events (LedgerTheorems.empty 3 10) in
  Limits.items s = [JStr "abc"; JInt 12] /\ Limits.first_error s <> None /\ Limits.bytes s <= 10.
Proof.
  intros s. split; [vm_compute; reflexivity|]. split; [vm_compute; discriminate|].
  apply (LedgerTheorems.ledger_keeps_quota 3 10 events); [lia | lia | vm_compute; reflexivity].
Defined.

Lemma read_bounded_whole_witness :
  Limits.read_bounded (Limits.mk_file true true 2 [104; 105]) (Some 2) = Ok [104; 105] /\ Z.of_nat (length [104; 105]) <= 2.
Proof.
  split; [reflexivity|]. apply (LedgerTheorems.read_bounded_whole (Limits.mk_file true true 2 [104; 105]) 2 [104; 105]). reflexivity.
Defined.
End OwnerWitnesses.
