(* ===== verification/HciPacket.v ===== *)
(** * Raw HCI packets (scripts/hci_raw_connect.py, parsers and builders)

    A Python [bytes] object is the list of its octets ([Z], 0..255).  Reading
    past the end ([IndexError], [struct.error]) is the value [OutOfRange], so
    that its absence is a theorem and not an artefact of the model. *)

From S2P Require Import Prelude PyText.

(** ** Constants *)

Definition HCI_COMMAND_PKT : Z := 0x01.
Definition HCI_ACLDATA_PKT : Z := 0x02.
Definition HCI_EVENT_PKT : Z := 0x04.
Definition EVT_CMD_STATUS : Z := 0x0F.
Definition EVT_CMD_COMPLETE : Z := 0x0E.
Definition EVT_LE_META_EVENT : Z := 0x3E.
Definition EVT_DISCONN_COMPLETE : Z := 0x05.
Definition LE_SUBEVT_CONN_COMPLETE : Z := 0x01.
Definition LE_SUBEVT_ENH_CONN_COMPLETE : Z := 0x0A.
Definition OP_LE_SET_RANDOM_ADDR : Z := 0x2005.
Definition OP_LE_EXT_CREATE_CONN : Z := 0x2043.
Definition OP_LE_CREATE_CONN_CANCEL : Z := 0x200E.
Definition OWN_ADDR_PUBLIC : Z := 0x00.
Definition OWN_ADDR_RANDOM : Z := 0x01.
Definition FATAL_CMD_STATUS_CODES : list Z := [0x01; 0x03; 0x11; 0x12; 0x1E].

(** ** Octets *)

Definition is_byte (b : Z) : bool := (0 <=? b) && (b <? 256).
Definition is_bytes (l : list Z) : Prop := Forall (fun b => 0 <= b < 256) l.

(** [struct.unpack_from("<H", p, i)[0]] *)
Definition u16_at (p : list Z) (i : nat) : option Z :=
  lo ← p !! i; hi ← p !! S i; Some (lo + 256 * hi).

(** [struct.pack("<H", v)], [struct.pack("<B", v)], [struct.pack("<I", v)]:
    [None] is [struct.error]. *)
Definition pack_B (v : Z) : option (list Z) := if is_byte v then Some [v] else None.
Definition pack_H (v : Z) : option (list Z) :=
  if (0 <=? v) && (v <? 65536) then Some [v mod 256; v / 256] else None.
Definition pack_I (v : Z) : option (list Z) :=
  if (0 <=? v) && (v <? 4294967296)
  then Some [v mod 256; (v / 256) mod 256; (v / 65536) mod 256; v / 16777216] else None.

(** ** Packets *)

Inductive hci_error : Type :=
| EmptyPacket | TruncatedEventHeader | EventLengthMismatch (declared got : Z)
| TruncatedCommandHeader | CommandLengthMismatch (declared got : Z)
| TruncatedAclHeader | AclLengthMismatch (declared got : Z)
| UnknownPacketType (ptype : Z)
| TruncatedEventBody | TruncatedCommandStatus | TruncatedCommandComplete
| TruncatedDisconnect | TruncatedLeMeta | TruncatedLeConn | TruncatedLeEnhConn
| OutOfRange.

Definition zlen {A} (l : list A) : Z := Z.of_nat (length l).

(** [p[i]] *)
Definition byte_at (p : list Z) (i : nat) : result hci_error Z :=
  result_of_option OutOfRange (p !! i).
Definition word_at (p : list Z) (i : nat) : result hci_error Z :=
  result_of_option OutOfRange (u16_at p i).

Definition parse_hci_packet (buf : list Z) : result hci_error (Z * list Z) :=
  match buf with
  | [] => Err EmptyPacket
  | ptype :: body =>
      if ptype =? HCI_EVENT_PKT then
        ensure (negb (zlen body <? 2)) TruncatedEventHeader;;
        plen ← byte_at body 1;
        ensure (zlen body =? 2 + plen) (EventLengthMismatch plen (zlen body - 2));;
        Ok (ptype, body)
      else if ptype =? HCI_COMMAND_PKT then
        ensure (negb (zlen body <? 3)) TruncatedCommandHeader;;
        plen ← byte_at body 2;
        ensure (zlen body =? 3 + plen) (CommandLengthMismatch plen (zlen body - 3));;
        Ok (ptype, body)
      else if ptype =? HCI_ACLDATA_PKT then
        ensure (negb (zlen body <? 4)) TruncatedAclHeader;;
        dlen ← word_at body 2;
        ensure (zlen body =? 4 + dlen) (AclLengthMismatch dlen (zlen body - 4));;
        Ok (ptype, body)
      else Err (UnknownPacketType ptype)
  end.

(** ** Events *)

Record le_conn : Type := mk_le_conn {
  subevent : Z; status : Z; handle : Z; role : Z; peer_addr_type : Z;
  peer_addr : list Z; interval : Z; latency : Z; supv_timeout : Z; clock_accuracy : Z;
}.

Inductive event : Type :=
| cmd_status (opcode status : Z)
| cmd_complete (opcode : Z)
| le_conn_complete (c : le_conn)
| disconn_complete (handle reason : Z)
| unknown_evt (code : Z)
| unknown_le_meta (subevent : Z).

(** The connection-complete branch: [p] is the event payload. *)
Definition parse_conn_complete (sub : Z) (p : list Z) : result hci_error event :=
  ensure (negb (zlen p <? 19)) TruncatedLeConn;;
  status ← byte_at p 1;
  handle ← word_at p 2;
  role ← byte_at p 4;
  peer_type ← byte_at p 5;
  let peer := take 6 (drop 6 p) in
  if sub =? LE_SUBEVT_ENH_CONN_COMPLETE then
    ensure (negb (zlen p <? 31)) TruncatedLeEnhConn;;
    interval ← word_at p 24;
    latency ← word_at p 26;
    supv ← word_at p 28;
    clock ← byte_at p 30;
    Ok (le_conn_complete (mk_le_conn sub status handle role peer_type peer interval latency supv clock))
  else
    interval ← word_at p 12;
    latency ← word_at p 14;
    supv ← word_at p 16;
    clock ← byte_at p 18;
    Ok (le_conn_complete (mk_le_conn sub status handle role peer_type peer interval latency supv clock)).

Definition parse_event (body : list Z) : result hci_error event :=
  ensure (negb (zlen body <? 2)) TruncatedEventBody;;
  code ← byte_at body 0;
  plen ← byte_at body 1;
  ensure (plen =? zlen body - 2) (EventLengthMismatch plen (zlen body - 2));;
  let p := drop 2 body in
  if code =? EVT_CMD_STATUS then
    ensure (negb (zlen p <? 4)) TruncatedCommandStatus;;
    st ← byte_at p 0;
    op ← word_at p 2;
    Ok (cmd_status op st)
  else if code =? EVT_CMD_COMPLETE then
    ensure (negb (zlen p <? 3)) TruncatedCommandComplete;;
    op ← word_at p 1;
    Ok (cmd_complete op)
  else if code =? EVT_DISCONN_COMPLETE then
    ensure (negb (zlen p <? 4)) TruncatedDisconnect;;
    h ← word_at p 1;
    r ← byte_at p 3;
    Ok (disconn_complete h r)
  else if code =? EVT_LE_META_EVENT then
    ensure (negb (zlen p <? 1)) TruncatedLeMeta;;
    sub ← byte_at p 0;
    if py_in sub [LE_SUBEVT_CONN_COMPLETE; LE_SUBEVT_ENH_CONN_COMPLETE] then parse_conn_complete sub p
    else Ok (unknown_le_meta sub)
  else Ok (unknown_evt code).

(** ** Addresses *)

Inductive addr_error : Type := NonHexAddress | NotSixOctets.

Definition hex_nibble (c : ascii) : option Z :=
  if is_digit c then Some (code c - 48)
  else if between 97 102 c then Some (code c - 87)
  else if between 65 70 c then Some (code c - 55)
  else None.

(** The white space [bytes.fromhex] skips between two octets. *)
Definition c_space (c : ascii) : bool := (code c =? 32) || between 9 13 c.

(** [bytes.fromhex]: pairs of hex digits, white space between pairs. *)
Fixpoint fromhex (l : list ascii) : option (list Z) :=
  match l with
  | [] => Some []
  | c :: l1 =>
      if c_space c then fromhex l1
      else match l1 with
      | d :: l2 => hi ← hex_nibble c; lo ← hex_nibble d; r ← fromhex l2; Some (hi * 16 + lo :: r)
      | [] => None
      end
  end.

(** [addr_str.replace(":", "")] *)
Definition remove_colons (l : list ascii) : list ascii := filter (fun c => c <> ":"%char) l.

Definition parse_peer (addr_str : string) : result addr_error (list Z) :=
  match fromhex (remove_colons (chars addr_str)) with
  | None => Err NonHexAddress
  | Some raw => ensure (zlen raw =? 6) NotSixOctets;; Ok (reverse raw)
  end.

Definition hex_upper (d : Z) : ascii := if d <? 10 then chr (48 + d) else chr (55 + d).
Definition hex_lower (d : Z) : ascii := if d <? 10 then chr (48 + d) else chr (87 + d).

(** ["%02X" % b] for an octet *)
Definition fmt_02X (b : Z) : list ascii := [hex_upper (b / 16); hex_upper (b mod 16)].

Definition format_peer (addr_le : list Z) : string :=
  of_chars (join_with ":" (fmt_02X <$> reverse addr_le)).

(** ** Command builders: [None] is [struct.error] or [ValueError] *)

Definition build_ext_create_conn (own_addr_type : Z) (peer_addr_le : list Z) (peer_addr_type : Z) : option (list Z) :=
  own ← pack_B own_addr_type;
  ptype ← pack_B peer_addr_type;
  tail ← mapM pack_H [0x60; 0x60; 0x18; 0x28; 0; 0x64; 0; 0];
  Some ([0x00] ++ own ++ ptype ++ peer_addr_le ++ [0x01] ++ concat tail).

Definition build_hci_filter : option (list Z) :=
  m ← pack_I (Z.shiftl 1 4); a ← pack_I 0xFFFFFFFF; b ← pack_I 0xFFFFFFFF; o ← pack_H 0;
  Some (m ++ a ++ b ++ o ++ [0; 0]).

Definition cmd (opcode : Z) (params : list Z) : option (list Z) :=
  h ← pack_H opcode; n ← pack_B (zlen params); Some (h ++ n ++ params).

(** ** Lemmas *)

Lemma ensure_negb_lt {E} (n m : Z) (e : E) : m <= n -> ensure (negb (n <? m)) e = Ok tt.
Proof. intros H. by destruct (Z.ltb_spec n m); [lia|]. Qed.

Lemma zlen_cons {A} (x : A) l : zlen (x :: l) = 1 + zlen l.
Proof. unfold zlen. rewrite length_cons. lia. Qed.
Lemma zlen_nonneg {A} (l : list A) : 0 <= zlen l.
Proof. unfold zlen. lia. Qed.
Lemma zlen_app {A} (l k : list A) : zlen (l ++ k) = zlen l + zlen k.
Proof. unfold zlen. rewrite length_app. lia. Qed.
#[export] Hint Rewrite @zlen_cons @zlen_app : le_audio_rw.

(** Reads inside the bounds that were checked succeed. *)
Lemma byte_at_in p i : Z.of_nat i < zlen p -> exists b, byte_at p i = Ok b.
Proof.
  unfold zlen, byte_at. intros H. destruct (p !! i) as [b|] eqn:Hp; [by exists b|].
  apply lookup_ge_None in Hp. lia.
Qed.

Lemma word_at_in p i : Z.of_nat i + 1 < zlen p -> exists w, word_at p i = Ok w.
Proof.
  unfold zlen, word_at, u16_at. intros H.
  destruct (p !! i) as [lo|] eqn:Hl; [|apply lookup_ge_None in Hl; lia].
  destruct (p !! S i) as [hi|] eqn:Hh; [|apply lookup_ge_None in Hh; lia].
  simpl. eauto.
Qed.

(** A parser that never reads past its input. *)
Definition in_range {A} (r : result hci_error A) : Prop := r <> Err OutOfRange.

Lemma in_range_bind {A B} (m : result hci_error A) (f : A -> result hci_error B) :
  in_range m -> (forall a, m = Ok a -> in_range (f a)) -> in_range (m ≫= f).
Proof. intros Hm Hf [H|(a & Ha & H)]%bind_Err; [by apply Hm | by eapply Hf]. Qed.

Lemma in_range_ensure b e : e <> OutOfRange -> in_range (ensure b e).
Proof. destruct b; [done|]. intros ? [=]. done. Qed.

Lemma in_range_byte p i : Z.of_nat i < zlen p -> in_range (byte_at p i).
Proof. intros [b Hb]%byte_at_in. by unfold in_range; rewrite Hb. Qed.
Lemma in_range_word p i : Z.of_nat i + 1 < zlen p -> in_range (word_at p i).
Proof. intros [b Hb]%word_at_in. by unfold in_range; rewrite Hb. Qed.

Lemma ensure_negb_ge {E} (n m : Z) (e : E) u : ensure (negb (n <? m)) e = Ok u -> m <= n.
Proof. rewrite ensure_Ok, negb_true_iff, Z.ltb_ge. done. Qed.

Lemma zlen_drop {A} n (l : list A) : zlen (drop n l) = Z.max 0 (zlen l - Z.of_nat n).
Proof. unfold zlen. rewrite length_drop. lia. Qed.

(** Chains of guards and reads: each read is inside the last length guard. *)
Ltac solve_in_range :=
  repeat match goal with
  | |- in_range (ensure _ _ ≫= _) =>
      apply in_range_bind; [apply in_range_ensure; done|];
      let H := fresh in intros ? H; try apply ensure_negb_ge in H
  | |- in_range (byte_at _ _ ≫= _) => apply in_range_bind; [apply in_range_byte; lia | intros ? _]
  | |- in_range (word_at _ _ ≫= _) => apply in_range_bind; [apply in_range_word; lia | intros ? _]
  | |- in_range (if _ then _ else _) => case_match
  | |- in_range (Ok _) => done
  | |- in_range (Err _) => done
  end.

Lemma parse_conn_complete_in_range sub p : in_range (parse_conn_complete sub p).
Proof. unfold parse_conn_complete. solve_in_range. Qed.

(** ** Properties *)

(** The packet and event parsers never read outside the buffer: every
    [bytes] value is parsed or rejected by one of the checks, never by an
    [IndexError] or [struct.error]. *)
Theorem parsers_in_range buf : in_range (parse_hci_packet buf) /\ in_range (parse_event buf).
Proof.
  split.
  - unfold parse_hci_packet. destruct buf as [|t body]; [done|]. solve_in_range.
  - unfold parse_event. solve_in_range; apply parse_conn_complete_in_range.
Qed.

(** The framing of the three packet types. *)
Inductive framed : Z -> list Z -> Prop :=
| framed_event code payload : framed HCI_EVENT_PKT (code :: zlen payload :: payload)
| framed_command o1 o2 params : framed HCI_COMMAND_PKT (o1 :: o2 :: zlen params :: params)
| framed_acl h1 h2 lo hi payload : zlen payload = lo + 256 * hi ->
    framed HCI_ACLDATA_PKT (h1 :: h2 :: lo :: hi :: payload).

(** [parse_hci_packet] accepts exactly the packets whose declared length
    is the length of their payload, and returns their type and body. *)
Theorem parse_hci_packet_framing buf t body :
  parse_hci_packet buf = Ok (t, body) <-> buf = t :: body /\ framed t body.
Proof.
  split.
  - destruct buf as [|t' body']; [done|]. unfold parse_hci_packet. intros H.
    destruct (Z.eqb_spec t' HCI_EVENT_PKT) as [->|_].
    { result_inv H. simplify_eq. split; [done|]. bool_to_prop.
      destruct body as [|c [|n p]]; simpl in *; try done. unfold byte_at in *. simplify_eq/=.
      replace a0 with (zlen p) by (autorewrite with le_audio_rw in *; lia). constructor. }
    destruct (Z.eqb_spec t' HCI_COMMAND_PKT) as [->|_].
    { result_inv H. simplify_eq. split; [done|]. bool_to_prop.
      destruct body as [|c [|d [|n p]]]; simpl in *; try done. unfold byte_at in *. simplify_eq/=.
      replace a0 with (zlen p) by (autorewrite with le_audio_rw in *; lia). constructor. }
    destruct (Z.eqb_spec t' HCI_ACLDATA_PKT) as [->|_]; [|done].
    result_inv H. simplify_eq. split; [done|]. bool_to_prop.
    destruct body as [|c [|d [|lo [|hi p]]]]; simpl in *; try done. unfold word_at in *. simplify_eq/=.
    constructor. autorewrite with le_audio_rw in *. lia.
  - intros [-> H]. destruct H as [c p|o1 o2 p|h1 h2 lo hi p Hl]; pose proof (zlen_nonneg p);
      unfold parse_hci_packet; rewrite ?Z.eqb_refl;
      change (HCI_COMMAND_PKT =? HCI_EVENT_PKT) with false; change (HCI_ACLDATA_PKT =? HCI_EVENT_PKT) with false;
      change (HCI_ACLDATA_PKT =? HCI_COMMAND_PKT) with false; cbv iota;
      rewrite bind_ensure by (rewrite negb_true_iff, Z.ltb_ge; autorewrite with le_audio_rw; lia);
      cbn [byte_at word_at u16_at lookup list_lookup result_of_option mbind result_bind option_bind];
      by rewrite bind_ensure by (apply Z.eqb_eq; autorewrite with le_audio_rw; lia).
Qed.

Lemma le16_word v : 0 <= v -> v mod 256 + 256 * (v / 256) = v.
Proof. intros Hv. rewrite (Z.div_mod v 256) at 3 by lia. lia. Qed.

Lemma cmd_word opcode params body : cmd opcode params = Some body -> u16_at body 0 = Some opcode.
Proof.
  unfold cmd, pack_H. intros (h & Hh & (n & Hn & [= <-])%bind_Some)%bind_Some.
  destruct (_ && _) eqn:Ho in Hh; [|done]. injection Hh as <-. bool_to_prop.
  unfold u16_at. simpl. by rewrite le16_word.
Qed.

(** A command built by [cmd] is a well-framed packet that carries the
    opcode and the parameters; [cmd] succeeds exactly for a 16-bit opcode and
    at most 255 octets of parameters. *)
Theorem cmd_frame opcode params :
  (is_Some (cmd opcode params) <-> 0 <= opcode < 65536 /\ zlen params < 256) /\
  (forall body, cmd opcode params = Some body ->
    parse_hci_packet (HCI_COMMAND_PKT :: body) = Ok (HCI_COMMAND_PKT, body) /\
    u16_at body 0 = Some opcode /\ drop 3 body = params).
Proof.
  unfold cmd, pack_H, pack_B, is_byte. pose proof (zlen_nonneg params). split.
  - destruct (Z.leb_spec 0 opcode), (Z.ltb_spec opcode 65536), (Z.leb_spec 0 (zlen params)),
      (Z.ltb_spec (zlen params) 256); simpl; split; intros Hx; try (by destruct Hx); try lia; eauto.
  - intros body Hb. apply bind_Some in Hb as (h & Hh & (n & Hn & [= <-])%bind_Some).
    destruct (_ && _) eqn:Ho in Hh; [|done]. injection Hh as <-.
    destruct (_ && _) in Hn; [|done]. injection Hn as <-. bool_to_prop.
    split_and!; [|unfold u16_at; simpl; f_equal; rewrite (Z.div_mod opcode 256) at 3 by lia; lia | done].
    apply parse_hci_packet_framing. split; [done|]. constructor.
Qed.

(** The little-endian layout of the two connection-complete events. *)
Definition le16 (v : Z) : list Z := [v mod 256; v / 256].
Definition encode_conn (c : le_conn) : list Z :=
  let head := [subevent c; status c] ++ le16 (handle c) ++ [role c; peer_addr_type c] ++ peer_addr c in
  let tail := le16 (interval c) ++ le16 (latency c) ++ le16 (supv_timeout c) ++ [clock_accuracy c] in
  let p := if subevent c =? LE_SUBEVT_ENH_CONN_COMPLETE then head ++ repeat 0 12 ++ tail else head ++ tail in
  [EVT_LE_META_EVENT; zlen p] ++ p.

(** Both connection-complete layouts are decoded field by field: parsing
    the encoding of a connection gives the connection back. *)
Theorem conn_complete_roundtrip c :
  py_in (subevent c) [LE_SUBEVT_CONN_COMPLETE; LE_SUBEVT_ENH_CONN_COMPLETE] = true ->
  length (peer_addr c) = 6%nat ->
  0 <= handle c -> 0 <= interval c -> 0 <= latency c -> 0 <= supv_timeout c ->
  parse_event (encode_conn c) = Ok (le_conn_complete c).
Proof.
  destruct c as [sub st h r pt peer iv lt sv cl]; simpl. intros Hsub Hlen Hh Hi Hl Hs.
  destruct peer as [|a [|b [|c [|d [|e [|f [|]]]]]]]; try done.
  unfold py_in in Hsub. apply bool_decide_eq_true in Hsub. rewrite !elem_of_cons in Hsub.
  destruct Hsub as [->|[->|Hsub]]; [..|by apply elem_of_nil in Hsub];
    cbv -[Z.modulo Z.div Z.add Z.mul]; by rewrite !le16_word.
Qed.

Lemma hex_upper_inv d : 0 <= d < 16 ->
  hex_nibble (hex_upper d) = Some d /\ c_space (hex_upper d) = false /\ hex_upper d <> ":"%char.
Proof.
  intros Hd. assert (Hin : d ∈ [0;1;2;3;4;5;6;7;8;9;10;11;12;13;14;15]).
  { assert (d = Z.of_nat (Z.to_nat d)) as -> by lia.
    apply (list_elem_of_lookup_2 _ (Z.to_nat d)). remember (Z.to_nat d) as n.
    do 16 (destruct n; [done|]). lia. }
  rewrite !elem_of_cons in Hin. repeat (destruct Hin as [->|Hin]; [by vm_compute|]).
  by apply elem_of_nil in Hin.
Qed.

Lemma fromhex_fmt b r : 0 <= b < 256 -> fromhex (fmt_02X b ++ r) = (t ← fromhex r; Some (b :: t)).
Proof.
  intros Hb. unfold fmt_02X.
  destruct (hex_upper_inv (b / 16)) as (H1 & H2 & _); [split; [apply Z.div_pos | apply Z.div_lt_upper_bound]; lia|].
  destruct (hex_upper_inv (b mod 16)) as (H3 & _ & _); [apply Z.mod_pos_bound; lia|].
  simpl. rewrite H1, H2, H3. simpl. destruct (fromhex r); simpl; [|done].
  do 2 f_equal. rewrite (Z.div_mod b 16) at 3 by lia. lia.
Qed.

Lemma remove_colons_app l k : remove_colons (l ++ k) = remove_colons l ++ remove_colons k.
Proof. apply filter_app. Qed.

Lemma remove_colons_fmt b : 0 <= b < 256 -> remove_colons (fmt_02X b) = fmt_02X b.
Proof.
  intros Hb. unfold fmt_02X, remove_colons.
  destruct (hex_upper_inv (b / 16)) as (_ & _ & H1); [split; [apply Z.div_pos | apply Z.div_lt_upper_bound]; lia|].
  destruct (hex_upper_inv (b mod 16)) as (_ & _ & H2); [apply Z.mod_pos_bound; lia|].
  by rewrite !filter_cons_True, filter_nil by done.
Qed.

Lemma fromhex_join l : is_bytes l -> fromhex (remove_colons (join_with ":" (fmt_02X <$> l))) = Some l.
Proof.
  induction 1 as [|b [|b' l] Hb Hl IH]; [done| |].
  - simpl. by rewrite remove_colons_fmt, <- (app_nil_r (fmt_02X b)), fromhex_fmt by done.
  - change (join_with ":" (fmt_02X <$> b :: b' :: l))
      with (fmt_02X b ++ ":"%char :: join_with ":" (fmt_02X <$> b' :: l)).
    rewrite remove_colons_app, remove_colons_fmt by done.
    unfold remove_colons in *. rewrite filter_cons_False by (by intros []).
    by rewrite fromhex_fmt, IH by done.
Qed.

(** Printing then parsing an address is the identity on six octets, and
    whatever text is accepted yields six octets. *)
Theorem peer_address_roundtrip :
  (forall a, is_bytes a -> length a = 6%nat -> parse_peer (format_peer a) = Ok a) /\
  (forall s a, parse_peer s = Ok a -> length a = 6%nat).
Proof.
  split.
  - intros a Ha Hlen. unfold parse_peer, format_peer. rewrite chars_of_chars, fromhex_join.
    + unfold zlen. rewrite length_reverse, Hlen. simpl. by rewrite reverse_involutive.
    + unfold is_bytes. by apply Forall_reverse.
  - intros s a. unfold parse_peer. destruct (fromhex _) as [raw|]; [|done]. intros H. result_inv H.
    subst. bool_to_prop. unfold zlen in *. rewrite length_reverse. lia.
Qed.

(** The LE Extended Create Connection command is always buildable for a
    parsed peer: 26 octets of parameters with the address types and the peer
    in their places, so sending it raises no [struct.error]. *)
Theorem ext_create_conn_layout own peer ptype :
  own = OWN_ADDR_PUBLIC \/ own = OWN_ADDR_RANDOM -> ptype = OWN_ADDR_PUBLIC \/ ptype = OWN_ADDR_RANDOM ->
  length peer = 6%nat ->
  exists params, build_ext_create_conn own peer ptype = Some params /\ zlen params = 26 /\
    params !! 1%nat = Some own /\ params !! 2%nat = Some ptype /\ take 6 (drop 3 params) = peer /\
    is_Some (cmd OP_LE_EXT_CREATE_CONN params).
Proof.
  intros Ho Hp Hlen. destruct peer as [|a [|b [|c [|d [|e [|f [|]]]]]]]; try done.
  destruct Ho as [->| ->], Hp as [->| ->]; eexists; split_and!; try reflexivity; by eexists.
Qed.

(** ** Witnesses *)

Module PacketWitnesses.
Lemma conn_complete_roundtrip_witness :
  let c := mk_le_conn LE_SUBEVT_ENH_CONN_COMPLETE 0 64 0 1 [1; 2; 3; 4; 5; 6] 24 0 100 0 in
  parse_event (encode_conn c) = Ok (le_conn_complete c).
Proof. intros c. by apply conn_complete_roundtrip. Defined.

Lemma ext_create_conn_layout_witness :
  exists params, build_ext_create_conn OWN_ADDR_RANDOM [1; 2; 3; 4; 5; 6] OWN_ADDR_PUBLIC = Some params /\
    zlen params = 26.
Proof.
  destruct (ext_create_conn_layout OWN_ADDR_RANDOM [1; 2; 3; 4; 5; 6] OWN_ADDR_PUBLIC)
    as (params & H1 & H2 & _); [by right | by left | done |]. by exists params.
Defined.
End PacketWitnesses.
