(* ===== verification/HciConnect.v ===== *)
(** * Raw HCI connect helper (scripts/hci_raw_connect.py, session and main)

    [ConnectSession] is the pure state machine; [Main] is [main] over an
    explicit environment: every clock reading, [select] answer and [recv]
    result is an input of the run, every command sent, event received and
    line printed is appended to a log.  Clocks are integers in microseconds.
    The loops are structural on the list of their iterations' inputs:
    [Running] is a run whose inputs are exhausted before it returned. *)

From S2P Require Import Prelude PyText HciPacket.

(** ** The state machine *)

Module ConnectSession.

Inductive cstate : Type := idle | pending_status | in_progress | cancel_sent | connected.
#[global] Instance cstate_eq : EqDecision cstate.
Proof. solve_decision. Defined.

Inductive cresult : Type :=
| r_success (handle : Z) | r_fatal_status (status : Z) | r_link_down (handle reason : Z).

Inductive action : Type :=
| send_cmd (opcode : Z) | failed_attempt (status : Z) | fatal_status (status : Z)
| cancelled | cancel_timeout | success (handle : Z) | link_down (handle reason : Z).

Record t : Type := mk {
  peer_addr_le : list Z;
  peer_type : Z;
  attempt_timeout_us : Z;
  state : cstate;
  attempt : Z;
  last_status : option Z;
  result : option cresult;
  attempt_started : Z;
  cancel_started : Z;
}.

Definition init (peer : list Z) (ptype timeout_us : Z) : t :=
  mk peer ptype timeout_us idle 0 None None 0 0.

Definition with_state (st : cstate) (s : t) : t :=
  mk (peer_addr_le s) (peer_type s) (attempt_timeout_us s) st (attempt s) (last_status s) (result s)
     (attempt_started s) (cancel_started s).
Definition with_last_status (v : Z) (s : t) : t :=
  mk (peer_addr_le s) (peer_type s) (attempt_timeout_us s) (state s) (attempt s) (Some v) (result s)
     (attempt_started s) (cancel_started s).
Definition with_result (r : cresult) (s : t) : t :=
  mk (peer_addr_le s) (peer_type s) (attempt_timeout_us s) (state s) (attempt s) (last_status s) (Some r)
     (attempt_started s) (cancel_started s).
Definition with_cancel_started (now : Z) (s : t) : t :=
  mk (peer_addr_le s) (peer_type s) (attempt_timeout_us s) (state s) (attempt s) (last_status s) (result s)
     (attempt_started s) now.

Definition is_done (s : t) : bool := match result s with Some _ => true | None => false end.

(** [clock] is the reading [begin_attempt] takes itself. *)
Definition begin_attempt (clock : Z) (s : t) : t * action :=
  (mk (peer_addr_le s) (peer_type s) (attempt_timeout_us s) pending_status (attempt s + 1)
      (last_status s) (result s) clock (cancel_started s),
   send_cmd OP_LE_EXT_CREATE_CONN).

(** [result[1]] *)
Definition result_1 (r : cresult) : Z :=
  match r with r_success h => h | r_fatal_status st => st | r_link_down h _ => h end.

Definition peer_ok (s : t) (c : le_conn) : bool :=
  bool_decide (peer_addr c = peer_addr_le s) && (peer_addr_type c =? peer_type s).

Definition on_pending_status (evt : event) (s : t) : t * list action :=
  match evt with
  | cmd_status opcode st =>
      if opcode =? OP_LE_EXT_CREATE_CONN then
        if st =? 0 then (with_state in_progress s, [])
        else
          let s := with_state idle (with_last_status st s) in
          if py_in st FATAL_CMD_STATUS_CODES then (with_result (r_fatal_status st) s, [fatal_status st])
          else (s, [failed_attempt st])
      else (s, [])
  | _ => (s, [])
  end.

Definition on_in_progress (evt : event) (s : t) : t * list action :=
  match evt with
  | le_conn_complete c =>
      if peer_ok s c then
        if status c =? 0 then
          (with_result (r_success (handle c)) (with_state connected s), [success (handle c)])
        else (with_state idle (with_last_status (status c) s), [failed_attempt (status c)])
      else (s, [])
  | _ => (s, [])
  end.

Definition on_cancel_sent (evt : event) (s : t) : t * list action :=
  match evt with
  | cmd_status opcode _ | cmd_complete opcode =>
      if opcode =? OP_LE_CREATE_CONN_CANCEL then (with_state idle s, [cancelled]) else (s, [])
  | _ => (s, [])
  end.

Definition on_connected (evt : event) (s : t) : t * list action :=
  match evt, result s with
  | disconn_complete h reason, Some r =>
      if result_1 r =? h then (with_result (r_link_down h reason) s, [link_down h reason]) else (s, [])
  | _, _ => (s, [])
  end.

Definition handle_event (evt : event) (s : t) : t * list action :=
  match state s with
  | pending_status => on_pending_status evt s
  | in_progress => on_in_progress evt s
  | cancel_sent => on_cancel_sent evt s
  | connected => on_connected evt s
  | idle => (s, [])
  end.

(** [now - since if now >= since else now] *)
Definition elapsed (now since : Z) : Z := if since <=? now then now - since else now.

Definition send_cancel (now : Z) (s : t) : t * list action :=
  (with_cancel_started now (with_state cancel_sent s), [send_cmd OP_LE_CREATE_CONN_CANCEL]).

Definition handle_timeout (now : Z) (s : t) : t * list action :=
  match state s with
  | pending_status | in_progress =>
      if attempt_timeout_us s <=? elapsed now (attempt_started s) then send_cancel now s else (s, [])
  | cancel_sent =>
      if 2000000 <=? elapsed now (cancel_started s) then (with_state idle s, [cancel_timeout]) else (s, [])
  | idle | connected => (s, [])
  end.

Definition in_flight (s : t) : bool :=
  match state s with pending_status | in_progress => true | _ => false end.

Definition force_cancel (now : Z) (s : t) : t * list action :=
  if in_flight s then send_cancel now s else (s, []).

End ConnectSession.

(** ** Lines the caller parses *)

Inductive fail_reason : Type :=
| socket_error | fr_cancel_timeout | fr_cmd_status (st : Z) | fr_conn_complete (st : Z)
| fr_fatal_cmd_status (st : Z) | fr_timeout.

Inductive line : Type :=
| READY (peer : list Z) (addr_type handle : Z)
| LINK_DOWN (handle reason : Z)
| FAIL (reason : fail_reason) (attempts : Z) (last_status : option Z).

Fixpoint nibbles (n : nat) (v : Z) : list ascii :=
  match n with O => [] | S n' => nibbles n' (v / 16) ++ [hex_lower (v mod 16)] end.

(** ["0x%02x"] and ["0x%04x"] for values of that width *)
Definition x02 (v : Z) : list ascii := chars "0x" ++ nibbles 2 v.
Definition x04 (v : Z) : list ascii := chars "0x" ++ nibbles 4 v.

Definition fail_reason_text (r : fail_reason) : list ascii :=
  match r with
  | socket_error => chars "socket_error"
  | fr_cancel_timeout => chars "cancel_timeout"
  | fr_cmd_status st => chars "cmd_status_" ++ x02 st
  | fr_conn_complete st => chars "conn_complete_" ++ x02 st
  | fr_fatal_cmd_status st => chars "fatal_cmd_status_" ++ x02 st
  | fr_timeout => chars "timeout"
  end.

Definition render_line (l : line) : list ascii :=
  match l with
  | READY peer addr_type handle =>
      chars "HCI_CONNECT_READY peer=" ++ chars (format_peer peer) ++ chars " addr_type=" ++
      chars (dec addr_type) ++ chars " handle=" ++ x04 handle
  | LINK_DOWN handle reason => chars "HCI_LINK_DOWN handle=" ++ x04 handle ++ chars " reason=" ++ x02 reason
  | FAIL reason attempts last =>
      chars "HCI_CONNECT_FAIL reason=" ++ fail_reason_text reason ++ chars " attempts=" ++ chars (dec attempts) ++
      chars " last_status=" ++ match last with None => chars "none" | Some st => x02 st end
  end.

(** ** The program *)

Module Main.
Import ConnectSession.

(** The parsed command line; [addr_random] is [--addr-type random]. *)
Record args : Type := mk_args {
  arg_peer : string;
  arg_hold : Z;
  addr_random : bool;
  own_addr : string;
  peer_addr_random : bool;
  connect_deadline : Z;
  arg_backoff : Z;
  arg_attempt_timeout : Z;
}.

Inductive recv_answer : Type := RecvError | Data (bytes : list Z).
Inductive select_answer : Type := SelectError | NotReady | Readable (r : recv_answer).

(** One iteration of the connect loop: the four clock readings it may take
    and what the socket answers.  Cancel and hold iterations read the clock
    once. *)
Record tick : Type := mk_tick {
  t_test : Z; t_now : Z; t_begin : Z; t_wait : Z; answer : select_answer;
}.

Record env : Type := mk_env {
  open_ok : bool;             (** [socket] and [bind] *)
  filter_ok : bool;           (** [setsockopt] *)
  send_ok : nat -> bool;      (** the n-th [send] *)
  t_start : Z;
  ticks : list tick;
  t_cancel : Z;
  t_cancel_wait : Z;
  cancel_ticks : list (Z * select_answer);
  t_hold : Z;
  hold_ticks : list (Z * select_answer);
}.

Inductive diagnostic : Type :=
| InvalidPeer (s : string) (e : addr_error) | InvalidOwn (s : string) (e : addr_error)
| OwnAddressSet (s : string) | UsingPublic | FilterNotSet | ConnectingTo (s : string) (hold : Z)
| MalformedPacket (e : hci_error) | MalformedEvent (e : hci_error).

Inductive io : Type :=
| Sent (packet : list Z)
| Select (wait : Z)
| Got (evt : event)
| Out (l : line)
| Info (d : diagnostic).

Inductive exit_status : Type := Exit (code : Z) | Crashed.

(** The part of the process that [main] reads after the start: the session,
    [last_fail] and the log. *)
Record proc : Type := mk_proc {
  sess : ConnectSession.t;
  last_fail : option fail_reason;
  log : list io;
}.

Definition emit (x : io) (p : proc) : proc := mk_proc (sess p) (last_fail p) (log p ++ [x]).
Definition with_sess (s : ConnectSession.t) (p : proc) : proc := mk_proc s (last_fail p) (log p).

(** Statements of [main] either go on or leave the program. *)
Definition flow : Type := proc + (exit_status * proc).
Definition Next (p : proc) : flow := inl p.
Definition Stop (e : exit_status) (p : proc) : flow := inr (e, p).
Definition andthen (m : flow) (k : proc -> flow) : flow :=
  match m with inl p => k p | inr r => inr r end.

Definition is_sent (x : io) : bool := match x with Sent _ => true | _ => false end.

Section main.
Variable a : args.
Variable e : env.

Definition peer_addr_type : Z := if peer_addr_random a then OWN_ADDR_RANDOM else OWN_ADDR_PUBLIC.
Definition own_addr_type : Z := if addr_random a then OWN_ADDR_RANDOM else OWN_ADDR_PUBLIC.

(** [s.send(packet)]: [None] is an exception while building the packet; a
    failing [send] is an [OSError] no handler catches. *)
Definition transmit (packet : option (list Z)) (p : proc) : flow :=
  match packet with
  | Some b => if send_ok e (count is_sent (log p)) then Next (emit (Sent b) p) else Stop Crashed p
  | None => Stop Crashed p
  end.

Definition _send (peer : list Z) (opcode : Z) (p : proc) : flow :=
  transmit
    (params ← (if opcode =? OP_LE_EXT_CREATE_CONN
               then build_ext_create_conn own_addr_type peer peer_addr_type else Some []);
     c ← cmd opcode params;
     Some (HCI_COMMAND_PKT :: c)) p.

Definition dispatch_one (peer : list Z) (act : action) (p : proc) : flow :=
  match act with
  | send_cmd opcode => _send peer opcode p
  | success h => Next (emit (Out (READY peer peer_addr_type h)) p)
  | link_down h r => Next (emit (Out (LINK_DOWN h r)) p)
  | failed_attempt _ | fatal_status _ | cancelled | cancel_timeout => Next p
  end.

Fixpoint _dispatch (peer : list Z) (acts : list action) (p : proc) : flow :=
  match acts with
  | [] => Next p
  | act :: acts' => andthen (dispatch_one peer act p) (_dispatch peer acts')
  end.

Definition fail_line (r : fail_reason) (p : proc) : proc :=
  emit (Out (FAIL r (attempt (sess p)) (last_status (sess p)))) p.

(** The [for action in actions] of the connect loop. *)
Definition note_failure (prev : cstate) (act : action) (p : proc) : proc :=
  match act with
  | failed_attempt st =>
      mk_proc (sess p)
        (Some (if decide (prev = pending_status) then fr_cmd_status st else fr_conn_complete st)) (log p)
  | fatal_status st => mk_proc (sess p) (Some (fr_fatal_cmd_status st)) (log p)
  | _ => p
  end.

Fixpoint run_actions (peer : list Z) (prev : cstate) (acts : list action) (p : proc) : flow :=
  match acts with
  | [] => Next p
  | act :: acts' => andthen (_dispatch peer [act] (note_failure prev act p)) (run_actions peer prev acts')
  end.

(** A received buffer, in the connect loop. *)
Definition on_data (peer : list Z) (data : list Z) (p : proc) : flow :=
  match data with
  | [] => Next p
  | _ =>
      match parse_hci_packet data with
      | Err x => Next (emit (Info (MalformedPacket x)) p)
      | Ok (ptype, body) =>
          if ptype =? HCI_EVENT_PKT then
            match parse_event body with
            | Err x => Next (emit (Info (MalformedEvent x)) p)
            | Ok evt =>
                let prev := state (sess p) in
                let '(s', acts) := handle_event evt (sess p) in
                run_actions peer prev acts (with_sess s' (emit (Got evt) p))
            end
          else Next p
      end
  end.

Definition wait_us (deadline now : Z) : Z := Z.min 200000 (Z.max 0 (deadline - now)).

(** The timeout of the attempt and the next attempt. *)
Definition tick_timeout (peer : list Z) (t : tick) (p : proc) : flow :=
  let '(s', acts) := handle_timeout (t_now t) (sess p) in
  _dispatch peer acts (with_sess s' p).

Definition backoff_until : Z := 0.

Definition tick_begin (peer : list Z) (t : tick) (p : proc) : flow :=
  if bool_decide (state (sess p) = idle) && negb (is_done (sess p)) && (backoff_until <=? t_now t) then
    let '(s', act) := begin_attempt (t_begin t) (sess p) in
    _dispatch peer [act] (with_sess s' p)
  else Next p.

Definition tick_receive (peer : list Z) (ans : select_answer) (p : proc) : flow :=
  match ans with
  | SelectError => Stop (Exit 1) (fail_line socket_error p)
  | NotReady => Next p
  | Readable RecvError => Stop (Exit 1) (fail_line socket_error p)
  | Readable (Data data) => on_data peer data p
  end.

Definition connect_tick (peer : list Z) (deadline : Z) (t : tick) (p : proc) : flow :=
  andthen (tick_timeout peer t p) (fun p =>
  andthen (tick_begin peer t p) (fun p =>
  tick_receive peer (answer t) (emit (Select (wait_us deadline (t_wait t))) p))).

(** [None]: the inputs are exhausted and the loop is still running. *)
Fixpoint connect_loop (peer : list Z) (deadline : Z) (ts : list tick) (p : proc) : option flow :=
  match ts with
  | [] => None
  | t :: ts' =>
      if (t_test t <? deadline) && negb (is_done (sess p)) then
        match connect_tick peer deadline t p with
        | inl p' => connect_loop peer deadline ts' p'
        | stop => Some stop
        end
      else Some (Next p)
  end.

(** An event of the cancel phase: every error is ignored. *)
Definition cancel_receive (data : list Z) (p : proc) : proc :=
  match parse_hci_packet data with
  | Err _ => p
  | Ok (ptype, body) =>
      if ptype =? HCI_EVENT_PKT then
        match parse_event body with
        | Err _ => p
        | Ok evt => with_sess (handle_event evt (sess p)).1 (emit (Got evt) p)
        end
      else p
  end.

Fixpoint cancel_loop (cancel_wait : Z) (ts : list (Z * select_answer)) (p : proc) : option proc :=
  match ts with
  | [] => None
  | (now, ans) :: ts' =>
      if (now <? cancel_wait) && bool_decide (state (sess p) = cancel_sent) then
        match ans with
        | SelectError => Some p
        | NotReady | Readable RecvError => cancel_loop cancel_wait ts' p
        | Readable (Data data) => cancel_loop cancel_wait ts' (cancel_receive data p)
        end
      else Some p
  end.

Definition final_reason (p : proc) : fail_reason :=
  if bool_decide (state (sess p) = cancel_sent) then fr_cancel_timeout
  else match last_fail p with Some r => r | None => fr_timeout end.

Definition fail_phase (peer : list Z) (p : proc) : option flow :=
  let finish p := Stop (Exit 1) (fail_line (final_reason p) p) in
  if in_flight (sess p) then
    let '(s', acts) := force_cancel (t_cancel e) (sess p) in
    match _dispatch peer acts (with_sess s' p) with
    | inl p => finish <$> cancel_loop (t_cancel_wait e + 2000000) (cancel_ticks e) p
    | stop => Some stop
    end
  else Some (finish p).

(** The hold phase returns at the first [link_down]. *)
Definition hold_receive (peer : list Z) (data : list Z) (p : proc) : flow :=
  match data with
  | [] => Next p
  | _ =>
      match parse_hci_packet data with
      | Err _ => Next p
      | Ok (ptype, body) =>
          if ptype =? HCI_EVENT_PKT then
            match parse_event body with
            | Err _ => Next p
            | Ok evt =>
                let '(s', acts) := handle_event evt (sess p) in
                let p := with_sess s' (emit (Got evt) p) in
                match List.find (fun x => match x with link_down _ _ => true | _ => false end) acts with
                | Some act => andthen (_dispatch peer [act] p) (Stop (Exit 0))
                | None => Next p
                end
            end
          else Next p
      end
  end.

Fixpoint hold_loop (peer : list Z) (hold_until : Z) (ts : list (Z * select_answer)) (p : proc) : option flow :=
  match ts with
  | [] => None
  | (now, ans) :: ts' =>
      if now <? hold_until then
        match ans with
        | SelectError | Readable RecvError => Some (Stop (Exit 0) p)
        | NotReady => hold_loop peer hold_until ts' p
        | Readable (Data data) =>
            match hold_receive peer data p with
            | inl p' => hold_loop peer hold_until ts' p'
            | stop => Some stop
            end
        end
      else Some (Stop (Exit 0) p)
  end.

Definition is_success (s : ConnectSession.t) : bool :=
  match result s with Some (r_success _) => true | _ => false end.

(** The commands before the first attempt. *)
Definition setup_address (p : proc) : flow :=
  if addr_random a then
    match parse_peer (own_addr a) with
    | Err x => Stop (Exit 1) (emit (Info (InvalidOwn (own_addr a) x)) p)
    | Ok own =>
        andthen (transmit (c ← cmd OP_LE_SET_RANDOM_ADDR own; Some (HCI_COMMAND_PKT :: c)) p)
                (fun p => Next (emit (Info (OwnAddressSet (own_addr a))) p))
    end
  else Next (emit (Info UsingPublic) p).

(** A filter the kernel refuses is only reported. *)
Definition set_filter (p : proc) : flow :=
  match build_hci_filter with
  | Some _ => Next (if filter_ok e then p else emit (Info FilterNotSet) p)
  | None => Stop Crashed p
  end.

Definition setup (p : proc) : flow :=
  if open_ok e then
    andthen (setup_address p) (fun p =>
    andthen (set_filter p) (fun p =>
    andthen (transmit (c ← cmd 0x2042 [0; 0; 0; 0; 0; 0]; Some (HCI_COMMAND_PKT :: c)) p) (fun p =>
    andthen (transmit (c ← cmd 0x202D [0]; Some (HCI_COMMAND_PKT :: c)) p) (fun p =>
    Next (emit (Info (ConnectingTo (arg_peer a) (arg_hold a))) p)))))
  else Stop Crashed p.

Definition finish (f : flow) : option (exit_status * proc) :=
  match f with inl _ => None | inr r => Some r end.

(** [main]; [None] while the inputs do not reach its return. *)
Definition connect (peer : list Z) (p : proc) : option (exit_status * proc) :=
  match connect_loop peer (t_start e + connect_deadline a) (ticks e) p with
  | None => None
  | Some (inr r) => Some r
  | Some (inl p) =>
      if is_success (sess p)
      then hold_loop peer (t_hold e + arg_hold a) (hold_ticks e) p ≫= finish
      else fail_phase peer p ≫= finish
  end.

Definition main : option (exit_status * proc) :=
  let s0 peer := init peer peer_addr_type (arg_attempt_timeout a) in
  match parse_peer (arg_peer a) with
  | Err x => Some (Exit 1, mk_proc (s0 []) None [Info (InvalidPeer (arg_peer a) x)])
  | Ok peer =>
      match setup (mk_proc (s0 peer) None []) with
      | inl p => connect peer p
      | inr r => Some r
      end
  end.
End main.
End Main.

(** ** What the log records *)

Module Log.
Import ConnectSession Main.

(** A command packet with this opcode. *)
Definition is_cmd (opcode : Z) (x : io) : bool :=
  match x with Sent b => bool_decide (u16_at b 1 = Some opcode) | _ => false end.
Definition is_create : io -> bool := is_cmd OP_LE_EXT_CREATE_CONN.
Definition is_ready (x : io) : bool := match x with Out (READY _ _ _) => true | _ => false end.
Definition is_fail (x : io) : bool := match x with Out (FAIL _ _ _) => true | _ => false end.
Definition is_down (x : io) : bool := match x with Out (LINK_DOWN _ _) => true | _ => false end.

Section peer.
Variable peer : list Z.
Variable ptype : Z.

Definition for_peer (c : le_conn) : bool :=
  bool_decide (HciPacket.peer_addr c = peer) && (HciPacket.peer_addr_type c =? ptype).

(** Is a create-connection command unresolved at the controller?  A Create
    makes it so; a Cancel, an error status or the completion for the peer
    ends it. *)
Definition resolve (o : bool) (x : io) : bool :=
  match x with
  | Sent _ => if is_create x then true else if is_cmd OP_LE_CREATE_CONN_CANCEL x then false else o
  | Got (cmd_status op st) => if (op =? OP_LE_EXT_CREATE_CONN) && negb (st =? 0) then false else o
  | Got (le_conn_complete c) => if for_peer c then false else o
  | _ => o
  end.
Definition outstanding (l : list io) : bool := fold_left resolve l false.

(** Has the last Create been accepted by a status of 0? *)
Definition ack (o : bool) (x : io) : bool :=
  match x with
  | Sent _ => if is_create x then false else o
  | Got (cmd_status op st) => if (op =? OP_LE_EXT_CREATE_CONN) && (st =? 0) then true else o
  | _ => o
  end.
Definition acked (l : list io) : bool := fold_left ack l false.

(** Every Create is sent when none is outstanding. *)
Definition spaced (l : list io) : Prop :=
  forall l1 x l2, l = l1 ++ x :: l2 -> is_create x = true -> outstanding l1 = false.

(** The READY line follows a successful completion for the peer, of an
    accepted Create, and carries its handle. *)
Definition ready_evidence (l : list io) (h : Z) : Prop :=
  exists l1 c l2, l = l1 ++ Got (le_conn_complete c) :: Out (READY peer ptype h) :: l2 /\
    for_peer c = true /\ status c = 0 /\ handle c = h /\ acked l1 = true.

Lemma outstanding_snoc l x : outstanding (l ++ [x]) = resolve (outstanding l) x.
Proof. unfold outstanding. by rewrite fold_left_app. Qed.
Lemma acked_snoc l x : acked (l ++ [x]) = ack (acked l) x.
Proof. unfold acked. by rewrite fold_left_app. Qed.

Lemma spaced_nil : spaced [].
Proof. by intros [|y l1] x l2 H. Qed.

Lemma spaced_snoc l x : spaced l -> (is_create x = true -> outstanding l = false) -> spaced (l ++ [x]).
Proof.
  intros Hl Hx l1 y l2 Heq Hy. destruct l2 as [|z l2] using rev_ind.
  - apply app_inj_tail in Heq as [-> ->]. by apply Hx.
  - rewrite app_comm_cons, app_assoc in Heq. apply app_inj_tail in Heq as [-> ->]. by eapply Hl.
Qed.

Lemma ready_evidence_snoc l h x : ready_evidence l h -> ready_evidence (l ++ [x]) h.
Proof.
  intros (l1 & c & l2 & -> & H). exists l1, c, (l2 ++ [x]). split; [|done]. by rewrite <- app_assoc.
Qed.
End peer.

#[export] Hint Rewrite outstanding_snoc acked_snoc : le_audio_rw.
#[export] Hint Resolve spaced_nil spaced_snoc ready_evidence_snoc : le_audio.
End Log.

(** ** The invariant of the run *)

Module Facts.
Import ConnectSession Main Log.

Section facts.
Variable a : args.
Variable e : env.
Variable peer : list Z.
Abbreviation ptype := (peer_addr_type a).
Abbreviation outstanding := (outstanding peer ptype).

Definition result_of_state (s : ConnectSession.t) : Prop :=
  match state s with
  | connected => exists h, result s = Some (r_success h)
  | idle => forall h r, result s <> Some (r_success h) /\ result s <> Some (r_link_down h r)
  | _ => result s = None
  end.

Record Inv (p : proc) : Prop := mk_Inv {
  inv_peer : ConnectSession.peer_addr_le (sess p) = peer /\ peer_type (sess p) = ptype;
  inv_result : result_of_state (sess p);
  inv_ready : count is_ready (log p) = if decide (state (sess p) = connected) then 1%nat else 0%nat;
  inv_fail : count is_fail (log p) = 0%nat;
  inv_down : count is_down (log p) = 0%nat;
  inv_creates : Z.of_nat (count is_create (log p)) = attempt (sess p);
  inv_outstanding : outstanding (log p) = true -> in_flight (sess p) = true;
  inv_acked : state (sess p) = in_progress -> acked (log p) = true;
  inv_spaced : spaced peer ptype (log p);
  inv_evidence : forall h, result (sess p) = Some (r_success h) -> ready_evidence peer ptype (log p) h;
}.

(** What every exit of the program guarantees. *)
Definition linked (p : proc) : Prop :=
  count is_ready (log p) = 1%nat /\ count is_fail (log p) = 0%nat /\ (count is_down (log p) <= 1)%nat /\
  outstanding (log p) = false /\ exists h, ready_evidence peer ptype (log p) h.

Definition failed (p : proc) : Prop :=
  count is_ready (log p) = 0%nat /\ count is_fail (log p) = 1%nat /\ count is_down (log p) = 0%nat /\
  exists l r, log p = l ++ [Out (FAIL r (Z.of_nat (count is_create (log p))) (last_status (sess p)))] /\
    (r <> socket_error -> outstanding (log p) = false).

Definition ended (st : exit_status) (p : proc) : Prop :=
  match st with
  | Exit 0 => linked p
  | Exit 1 => failed p
  | Exit _ => False
  | Crashed => True
  end /\ spaced peer ptype (log p).

Definition flow_ok (I : proc -> Prop) (m : flow) : Prop :=
  match m with inl p => I p | inr (st, p) => ended st p end.

Lemma andthen_ok (I J : proc -> Prop) m k :
  flow_ok I m -> (forall p, I p -> flow_ok J (k p)) -> flow_ok J (andthen m k).
Proof. destruct m as [p|[st p]]; simpl; auto. Qed.

Lemma flow_ok_mono (I J : proc -> Prop) m : flow_ok I m -> (forall p, I p -> J p) -> flow_ok J m.
Proof. destruct m as [p|[st p]]; simpl; auto. Qed.

(** The two commands of the session can be built, and are recognised. *)
Lemma send_spec opcode p (J : proc -> Prop) :
  opcode = OP_LE_EXT_CREATE_CONN \/ opcode = OP_LE_CREATE_CONN_CANCEL ->
  spaced peer ptype (log p) ->
  (forall b, u16_at b 1 = Some opcode -> J (emit (Sent b) p)) ->
  flow_ok J (_send a e peer opcode p).
Proof.
  intros Hop Hs HJ. unfold _send, transmit.
  destruct (_ ≫= _) as [b|] eqn:Hb; [|by simpl; split]. destruct (send_ok _ _); [|by simpl; split]. apply HJ.
  apply bind_Some in Hb as (ps & _ & (c & Hc & [= <-])%bind_Some).
  apply cmd_word in Hc. by rewrite <- Hc.
Qed.

(** Restore the invariant after one step, field by field. *)
Ltac inv_step :=
  constructor; cbn [sess log last_fail emit with_sess ConnectSession.peer_addr_le peer_type state result attempt
    with_state with_last_status with_result with_cancel_started result_of_state in_flight] in *;
  autorewrite with le_audio_rw; cbn [is_ready is_fail is_down is_create is_cmd resolve ack decide]; eauto with le_audio.

Lemma inv_inert x p :
  match x with Select _ | Info _ => True | _ => False end -> Inv p -> Inv (emit x p).
Proof.
  intros Hx [].
  destruct x; try done; inv_step; try (by rewrite Nat.add_0_r); try (by apply spaced_snoc).
Qed.

Lemma fail_line_ended r p :
  Inv p -> is_done (sess p) = false \/ state (sess p) <> connected ->
  (r <> socket_error -> outstanding (log p) = false) ->
  ended (Exit 1) (fail_line r p).
Proof.
  intros [] Hd Hr. assert (state (sess p) <> connected) as Hc.
  { destruct Hd as [Hd|?]; [|done]. unfold result_of_state, is_done in *. intros Hc.
    rewrite Hc in inv_result0. destruct inv_result0 as [h Hh]. by rewrite Hh in Hd. }
  rewrite decide_False in inv_ready0 by done.
  split; [|by apply spaced_snoc]. unfold failed, fail_line; simpl. autorewrite with le_audio_rw. simpl.
  split_and!; try lia. exists (log p), r. split.
  - do 3 f_equal. unfold is_create in *. simpl. by rewrite Nat.add_0_r, inv_creates0.
  - simpl. done.
Qed.

(** In the loop nothing is decided yet. *)
Definition InvN (p : proc) : Prop := Inv p /\ is_done (sess p) = false.

Lemma not_done s : is_done s = false <-> result s = None.
Proof. unfold is_done. destruct (result s); naive_solver. Qed.

Lemma cancel_cmds b :
  u16_at b 1 = Some OP_LE_CREATE_CONN_CANCEL ->
  is_create (Sent b) = false /\ is_cmd OP_LE_CREATE_CONN_CANCEL (Sent b) = true.
Proof. unfold is_create, is_cmd. intros ->. by split. Qed.

(** Sending the Cancel of an attempt in flight. *)
Lemma send_cancel_ok now p :
  InvN p -> in_flight (sess p) = true ->
  flow_ok (fun q => InvN q /\ outstanding (log q) = false /\ state (sess q) = cancel_sent)
    (_dispatch a e peer (send_cancel now (sess p)).2 (with_sess (send_cancel now (sess p)).1 p)).
Proof.
  intros [[] Hd] Hf. simpl. eapply andthen_ok; [apply send_spec; [by right | done |] | intros q Hq; exact Hq].
  intros b Hb. pose proof (cancel_cmds b Hb) as [H1 H2]. rewrite not_done in Hd.
  assert (state (sess p) <> connected) by (unfold in_flight in Hf; by destruct (state (sess p))).
  rewrite decide_False in inv_ready0 by done.
  unfold with_sess, emit in *. simpl in *. autorewrite with le_audio_rw. simpl.
  split; [split|split]; [|by apply not_done|by rewrite H1, H2|done].
  inv_step; rewrite ?H1, ?H2; try done; try lia.
  - rewrite decide_False by done. lia.
  - apply spaced_snoc; [done|]. unfold is_create, is_cmd. by rewrite H1.
Qed.

Lemma tick_timeout_ok t p : InvN p -> flow_ok InvN (tick_timeout a e peer t p).
Proof.
  intros HI. unfold tick_timeout, handle_timeout.
  destruct (state (sess p)) eqn:Hs; try (destruct HI; destruct p; done).
  1,2: destruct (_ <=? _); [|by destruct p];
    eapply flow_ok_mono; [apply send_cancel_ok; [done | by unfold in_flight; rewrite Hs] | by intros q (? & _)].
  destruct (_ <=? _); [|by destruct p]. simpl. destruct HI as [[] Hd]. rewrite not_done in Hd. split; [|by apply not_done].
  unfold result_of_state, in_flight in *. rewrite Hs in *. inv_step; try done. by rewrite Hd.
Qed.

Lemma tick_begin_ok t p : InvN p -> flow_ok InvN (tick_begin a e peer t p).
Proof.
  intros HI. unfold tick_begin. destruct (_ && _) eqn:Hb; [|done].
  destruct HI as [[] Hd]. rewrite not_done in Hd. bool_to_prop. unfold result_of_state, in_flight in *.
  destruct (state (sess p)) eqn:Hs; try done.
  simpl. eapply andthen_ok; [apply send_spec; [by left | done |] | intros q Hq; exact Hq].
  intros b Hc. assert (is_create (Sent b) = true) as Hcr by (unfold is_create, is_cmd; by rewrite Hc).
  assert (outstanding (log p) = false) as Ho by (destruct (outstanding (log p)) eqn:?; naive_solver).
  split; [|by apply not_done].
  inv_step; rewrite ?Hcr; try done; try lia.
  - by rewrite inv_ready0.
  - rewrite bool_decide_true by done. lia.
Qed.

(** A received event in the connect loop: one lemma per state. *)
Definition received (evt : event) (p : proc) : flow :=
  let '(s', acts) := handle_event evt (sess p) in
  run_actions a e peer (state (sess p)) acts (with_sess s' (emit (Got evt) p)).

(** Receiving an event never makes a Create outstanding nor un-accepts one. *)
Lemma resolve_got o evt : resolve peer ptype o (Got evt) = true -> o = true.
Proof. destruct evt; simpl; repeat case_match; done. Qed.
Lemma ack_got o evt : o = true -> ack o (Got evt) = true.
Proof. intros ->. destruct evt; simpl; repeat case_match; done. Qed.

Lemma inv_ignored evt p : Inv p -> Inv (with_sess (sess p) (emit (Got evt) p)).
Proof.
  intros []. inv_step; rewrite ?Nat.add_0_r; try done.
  - intros ?%resolve_got. auto.
  - intros Hs. apply ack_got. auto.
  - by apply spaced_snoc.
Qed.

(** An event that moves the session to [s'], with no action the dispatcher
    performs. *)
Lemma inv_move evt s' lf p :
  InvN p ->
  ConnectSession.peer_addr_le s' = ConnectSession.peer_addr_le (sess p) ->
  peer_type s' = peer_type (sess p) -> attempt s' = attempt (sess p) ->
  state (sess p) <> connected -> state s' <> connected -> result_of_state s' ->
  (resolve peer ptype (outstanding (log p)) (Got evt) = true -> in_flight s' = true) ->
  (state s' = in_progress -> ack (acked (log p)) (Got evt) = true) ->
  Inv (mk_proc s' lf (log p ++ [Got evt])).
Proof.
  intros [[] Hd] Hp1 Hp2 Ha Hc0 Hc Hr Ho Hk. rewrite decide_False in inv_ready0 by done.
  inv_step; rewrite ?Nat.add_0_r; try done; try congruence.
  - by rewrite decide_False.
  - by apply spaced_snoc.
  - intros h Hh. unfold result_of_state in Hr. exfalso. destruct (state s'); try congruence. by destruct (Hr h 0).
Qed.

Lemma on_pending_status_ok evt p : InvN p -> state (sess p) = pending_status -> flow_ok Inv (received evt p).
Proof.
  intros HI Hs. unfold received, handle_event. rewrite Hs. unfold on_pending_status.
  destruct evt as [op st| | | | |]; try by apply inv_ignored, HI.
  destruct (op =? _) eqn:Hop; [|by apply inv_ignored, HI].
  pose proof HI as [[] Hd]. rewrite not_done in Hd.
  destruct (st =? 0) eqn:Hst; [|destruct (py_in st _)]; simpl; apply inv_move; simpl;
    rewrite ?Hs, ?Hop, ?Hst; try done; unfold result_of_state; simpl; intros; try done; by rewrite Hd.
Qed.

Lemma on_cancel_sent_ok evt p : InvN p -> state (sess p) = cancel_sent -> flow_ok Inv (received evt p).
Proof.
  intros HI Hs. unfold received, handle_event. rewrite Hs. unfold on_cancel_sent.
  pose proof HI as [[] Hd]. rewrite not_done in Hd.
  assert (outstanding (log p) <> true) as Ho.
  { intros Ho. apply inv_outstanding0 in Ho. unfold in_flight in Ho. by rewrite Hs in Ho. }
  destruct evt as [op st|op| | | |]; try by apply inv_ignored, HI.
  all: destruct (op =? _) eqn:Hop; [|by apply inv_ignored, HI].
  all: simpl; apply inv_move; simpl; rewrite ?Hs; try done; unfold result_of_state; simpl; intros; try done;
    try by rewrite Hd.
  by destruct (_ && _) in H.
Qed.

Lemma on_in_progress_ok evt p : InvN p -> state (sess p) = in_progress -> flow_ok Inv (received evt p).
Proof.
  intros HI Hs. unfold received, handle_event. rewrite Hs. unfold on_in_progress.
  destruct evt as [| |c| | |]; try by apply inv_ignored, HI.
  destruct (peer_ok (sess p) c) eqn:Hpo; [|by apply inv_ignored, HI].
  pose proof HI as [[] Hd]. rewrite not_done in Hd. destruct inv_peer0 as [Hp1 Hp2].
  assert (for_peer peer ptype c = true) as Hfor by (unfold peer_ok in Hpo; by rewrite Hp1, Hp2 in Hpo).
  destruct (status c =? 0) eqn:Hst; simpl.
  - rewrite Hs in inv_ready0. simpl in inv_ready0.
    unfold in_flight in inv_outstanding0. rewrite Hs in inv_outstanding0.
    inv_step; rewrite ?Nat.add_0_r, ?Hfor; try done; try lia.
    + rewrite inv_ready0. done.
    + repeat apply spaced_snoc; done.
    + intros h [= <-]. exists (log p), c, []. bool_to_prop. split_and!; try done; [by rewrite <- app_assoc | auto].
  - apply inv_move; simpl; rewrite ?Hs, ?Hfor; try done.
    unfold result_of_state; simpl; intros; by rewrite Hd.
Qed.

Lemma received_ok evt p : InvN p -> flow_ok Inv (received evt p).
Proof.
  intros HI. destruct (state (sess p)) eqn:Hs.
  - unfold received, handle_event. rewrite Hs. by apply inv_ignored, HI.
  - by apply on_pending_status_ok.
  - by apply on_in_progress_ok.
  - by apply on_cancel_sent_ok.
  - destruct HI as [[] Hd]. rewrite not_done in Hd. unfold result_of_state in *. rewrite Hs in *. naive_solver.
Qed.

Lemma inv_got_inert x p :
  match x with Select _ | Info _ => True | _ => False end -> InvN p -> InvN (emit x p).
Proof. intros Hx [HI Hd]. split; [by apply inv_inert | done]. Qed.

Lemma invN_inv p : InvN p -> Inv p.
Proof. by intros []. Qed.

Lemma on_data_ok data p : InvN p -> flow_ok Inv (on_data a e peer data p).
Proof.
  intros HI. pose proof (invN_inv _ HI). unfold on_data. destruct data as [|d ds]; [done|].
  destruct (parse_hci_packet _) as [[t body]|x]; [|by apply inv_inert].
  destruct (t =? _); [|done]. destruct (parse_event body) as [evt|x]; [|by apply inv_inert].
  by apply received_ok.
Qed.

Lemma not_connected p : InvN p -> state (sess p) <> connected.
Proof.
  intros [[] Hd] Hs. rewrite not_done in Hd. unfold result_of_state in *. rewrite Hs in *. naive_solver.
Qed.

Lemma tick_receive_ok ans p : InvN p -> flow_ok Inv (tick_receive a e peer ans p).
Proof.
  intros HI. pose proof HI as [HI' Hd]. unfold tick_receive.
  destruct ans as [| |[|data]]; try by apply on_data_ok.
  1,3: apply fail_line_ended; [done | by left | done].
  done.
Qed.

Lemma connect_tick_ok deadline t p : InvN p -> flow_ok Inv (connect_tick a e peer deadline t p).
Proof.
  intros HI. unfold connect_tick.
  eapply andthen_ok; [by apply tick_timeout_ok|]. intros p1 H1.
  eapply andthen_ok; [by apply tick_begin_ok|]. intros p2 H2.
  apply tick_receive_ok. by apply inv_got_inert.
Qed.

Lemma connect_loop_ok deadline ts p m :
  Inv p -> connect_loop a e peer deadline ts p = Some m -> flow_ok Inv m.
Proof.
  revert p. induction ts as [|t ts IH]; intros p HI; simpl; [done|].
  destruct (_ && _) eqn:Hb; [|by intros [= <-]].
  apply andb_true_iff in Hb as [_ Hd]. apply negb_true_iff in Hd.
  pose proof (connect_tick_ok deadline t p (conj HI Hd)) as Ht.
  destruct (connect_tick _ _ _ _ _ _) as [q|r]; [by apply IH | by intros [= <-]].
Qed.

(** The cancel phase: nothing is outstanding any more. *)
Definition InvC (p : proc) : Prop := InvN p /\ outstanding (log p) = false /\ in_flight (sess p) = false.

Lemma cancel_receive_ok data p : InvC p -> InvC (cancel_receive data p).
Proof.
  intros HC. pose proof HC as (HI & Ho & Hf). unfold cancel_receive.
  destruct (parse_hci_packet _) as [[t body]|x]; [|done].
  destruct (t =? _); [|done]. destruct (parse_event body) as [evt|x]; [|done].
  assert (outstanding (log p ++ [Got evt]) = false) as Ho'.
  { autorewrite with le_audio_rw. destruct (resolve _ _ _ _) eqn:Hr; [|done].
    apply resolve_got in Hr. congruence. }
  destruct (state (sess p)) eqn:Hs; try (unfold in_flight in Hf; rewrite Hs in Hf; done).
  - unfold handle_event. rewrite Hs. simpl. split_and!; try done.
    split; [by apply inv_ignored, HI | by destruct HI].
  - pose proof (on_cancel_sent_ok evt p HI Hs) as Hr. unfold received in Hr.
    unfold handle_event in *. rewrite Hs in *. unfold on_cancel_sent in *.
    destruct evt as [op st|op| | | |]; simpl in *; try destruct (op =? _); simpl in *;
      (split; [split; [done | by destruct HI] | done]).
  - by apply not_connected in HI.
Qed.

Lemma cancel_loop_ok w ts p q : InvC p -> cancel_loop w ts p = Some q -> InvC q.
Proof.
  revert p. induction ts as [|[now ans] ts IH]; intros p HC; simpl; [done|].
  destruct (_ && _); [|by intros [= <-]].
  destruct ans as [| |[|data]]; try (by apply IH); [by intros [= <-]|].
  apply IH. by apply cancel_receive_ok.
Qed.

Lemma finish_ended p : InvC p -> ended (Exit 1) (fail_line (final_reason p) p).
Proof. intros ([HI Hd] & Ho & Hf). by apply fail_line_ended; [| left |]. Qed.

(** A session that ends the connect loop without a link. *)
Lemma fail_phase_ok p m :
  Inv p -> is_success (sess p) = false -> fail_phase a e peer p = Some m -> flow_ok (fun _ => False) m.
Proof.
  intros HI Hs. unfold fail_phase. destruct (in_flight (sess p)) eqn:Hf.
  - assert (InvN p) as HN.
    { split; [done|]. destruct HI. apply not_done. unfold result_of_state, in_flight in *.
      by destruct (state (sess p)). }
    unfold force_cancel. rewrite Hf.
    pose proof (send_cancel_ok (t_cancel e) p HN Hf) as Hc.
    destruct (send_cancel _ _) as [s' acts]. simpl in Hc.
    destruct (_dispatch _ _ _ _ _) as [q|[st q]]; [|by intros [= <-]].
    destruct Hc as (HN' & Ho & Hst). intros Hm. apply fmap_Some in Hm as (q' & Hq & ->).
    apply finish_ended. eapply cancel_loop_ok; [|done]. split_and!; try done.
    unfold in_flight. by rewrite Hst.
  - intros [= <-]. simpl. apply fail_line_ended; [done | |].
    + right. intros Hc. destruct HI. unfold result_of_state, is_success in *. rewrite Hc in *.
      destruct inv_result0 as [h Hh]. by rewrite Hh in Hs.
    + intros _. destruct HI. destruct (outstanding (log p)); [|done]. specialize (inv_outstanding0 eq_refl). congruence.
Qed.

(** The hold phase: the link is up. *)
Definition InvH (p : proc) : Prop := Inv p /\ is_success (sess p) = true.

Lemma held p : InvH p ->
  state (sess p) = connected /\ (exists h, result (sess p) = Some (r_success h)) /\ linked p.
Proof.
  intros [[] Hs]. unfold is_success in Hs. destruct (result (sess p)) as [[h| |]|] eqn:Hr; try done.
  assert (state (sess p) = connected) as Hc.
  { unfold result_of_state in *. destruct (state (sess p)); try congruence. by destruct (inv_result0 h 0). }
  rewrite decide_True in inv_ready0 by done.
  unfold in_flight in inv_outstanding0. rewrite Hc in inv_outstanding0.
  split_and!; [done | by exists h |].
  split_and!; [done | done | lia | destruct (outstanding (log p)); naive_solver |]. exists h. by apply inv_evidence0.
Qed.

Lemma held_ended p : InvH p -> ended (Exit 0) p.
Proof. intros H. split; [by apply held | by destruct H as [[] _]]. Qed.

Lemma hold_receive_ok data p : InvH p -> flow_ok InvH (hold_receive a e peer data p).
Proof.
  intros HI. unfold hold_receive. destruct data as [|d ds]; [done|].
  destruct (parse_hci_packet _) as [[t body]|x]; [|done].
  destruct (t =? _); [|done]. destruct (parse_event body) as [evt|x]; [|done].
  destruct (held p HI) as (Hs & [h Hh] & (Hl1 & Hl2 & Hl3 & Hl4 & Hl5)). pose proof HI as [[] Hsc].
  assert (InvH (with_sess (sess p) (emit (Got evt) p))) as Hig.
  { split; [by apply inv_ignored, HI | done]. }
  unfold handle_event. rewrite Hs. unfold on_connected. rewrite Hh.
  destruct evt as [| | |h' r| |]; try done. destruct (_ =? _); [|done].
  simpl. split; [|by repeat apply spaced_snoc].
  unfold linked. simpl. autorewrite with le_audio_rw. simpl. split_and!; try done; try lia.
  destruct Hl5 as [h0 Hh0]. exists h0. by repeat apply ready_evidence_snoc.
Qed.

Lemma hold_loop_ok w ts p m : InvH p -> hold_loop a e peer w ts p = Some m -> flow_ok (fun _ => False) m.
Proof.
  revert p. induction ts as [|[now ans] ts IH]; intros p HI; simpl; [done|].
  destruct (now <? w); [|intros [= <-]; by apply held_ended].
  destruct ans as [| |[|data]]; try (intros [= <-]; by apply held_ended); [by apply IH|].
  pose proof (hold_receive_ok data p HI) as Hr.
  destruct (hold_receive _ _ _ _ _) as [q|r]; [by apply IH | by intros [= <-]].
Qed.

Lemma finish_ok m r : flow_ok (fun _ => False) m -> finish m = Some r -> ended r.1 r.2.
Proof. destruct m as [p|[st p]]; [done|]. by intros H [= <-]. Qed.

Lemma connect_ok p r : Inv p -> connect a e peer p = Some r -> ended r.1 r.2.
Proof.
  intros HI. unfold connect. destruct (connect_loop _ _ _ _ _ _) as [m|] eqn:Hm; [|done].
  apply connect_loop_ok in Hm; [|done]. destruct m as [q|[st q]]; [|by intros [= <-]].
  simpl in Hm. destruct (is_success (sess q)) eqn:Hs.
  - intros (m & Hh & Hf)%bind_Some. eapply finish_ok; [|done]. by eapply hold_loop_ok; [|done].
  - intros (m & Hh & Hf)%bind_Some. eapply finish_ok; [|done]. by eapply fail_phase_ok; [..|done].
Qed.

(** The setup phase sends no Create and prints no line. *)
Definition is_setup (x : io) : bool :=
  match x with Sent _ => negb (is_create x) && negb (is_cmd OP_LE_CREATE_CONN_CANCEL x) | Info _ => true | _ => false end.
Definition InvS (s : ConnectSession.t) (p : proc) : Prop :=
  sess p = s /\ last_fail p = None /\ Forall (fun x => is_setup x = true) (log p).

Definition flow_setup (s : ConnectSession.t) (m : flow) : Prop :=
  match m with inl p => InvS s p | inr (st, p) => InvS s p /\ (st = Crashed \/ st = Exit 1) end.

Lemma andthen_setup s m k :
  flow_setup s m -> (forall p, InvS s p -> flow_setup s (k p)) -> flow_setup s (andthen m k).
Proof. destruct m as [p|[st p]]; simpl; auto. Qed.

Lemma emit_setup s x p : is_setup x = true -> InvS s p -> InvS s (emit x p).
Proof. intros Hx (H1 & H2 & H3). split_and!; try done. simpl. apply Forall_app. split; [done | by constructor]. Qed.

Lemma transmit_setup s opcode params p :
  opcode <> OP_LE_EXT_CREATE_CONN -> opcode <> OP_LE_CREATE_CONN_CANCEL -> InvS s p ->
  flow_setup s (transmit e (c ← cmd opcode params; Some (HCI_COMMAND_PKT :: c)) p).
Proof.
  intros H1 H2 HI. unfold transmit. destruct (cmd opcode params) as [c|] eqn:Hc; simpl; [|by split; [|left]].
  destruct (send_ok _ _); simpl; [|by split; [|left]].
  apply emit_setup; [|done]. apply cmd_word in Hc. unfold is_setup, is_create, is_cmd.
  change (u16_at (HCI_COMMAND_PKT :: c) 1) with (u16_at c 0). rewrite Hc.
  rewrite !bool_decide_false by congruence. done.
Qed.

Lemma setup_ok s p : InvS s p -> flow_setup s (setup a e p).
Proof.
  intros HI. unfold setup. destruct (open_ok e); [|by split; [|left]].
  apply andthen_setup.
  { unfold setup_address. destruct (addr_random a); [|by apply emit_setup].
    destruct (parse_peer _); [|split; [by apply emit_setup | by right]].
    apply andthen_setup; [by apply transmit_setup|]. intros q Hq. by apply emit_setup. }
  intros p1 H1. apply andthen_setup.
  { unfold set_filter. simpl. destruct (filter_ok e); [done | by apply emit_setup]. }
  intros p2 H2. apply andthen_setup; [by apply transmit_setup|].
  intros p3 H3. apply andthen_setup; [by apply transmit_setup|].
  intros p4 H4. by apply emit_setup.
Qed.

Lemma count_setup f l :
  Forall (fun x => is_setup x = true) l -> (forall x, is_setup x = true -> f x = false) -> count f l = 0%nat.
Proof.
  intros Hl Hf. induction Hl as [|x l Hx Hl IH]; [done|].
  unfold count in *. simpl. by rewrite Hf.
Qed.

Lemma outstanding_setup l : Forall (fun x => is_setup x = true) l -> outstanding l = false.
Proof.
  induction l as [|x l IH] using rev_ind; [done|]. intros [Hl Hx]%Forall_app. apply Forall_cons in Hx as [Hx _].
  autorewrite with le_audio_rw. rewrite IH by done. destruct x; try done.
  simpl in *. unfold is_create in *. apply andb_true_iff in Hx as [H1 H2].
  apply negb_true_iff in H1, H2. simpl in *. by rewrite H1, H2.
Qed.

Lemma spaced_setup l : Forall (fun x => is_setup x = true) l -> spaced peer ptype l.
Proof.
  intros Hl l1 x l2 -> _. apply Forall_app in Hl as [Hl _]. by apply outstanding_setup.
Qed.

Lemma setup_inv p : InvS (init peer ptype (arg_attempt_timeout a)) p -> Inv p.
Proof.
  intros (Hs & Hf & Hl). constructor; rewrite ?Hs; try done.
  - apply count_setup; [done|]. by intros [].
  - apply count_setup; [done|]. by intros [].
  - apply count_setup; [done|]. by intros [].
  - rewrite count_setup; [done | done |]. intros x Hx. unfold is_setup in Hx. destruct x; try done. by destruct (is_create _).
  - by rewrite outstanding_setup.
  - by apply spaced_setup.
Qed.
End facts.
End Facts.

(** ** Properties *)

Module ConnectTheorems.
Import ConnectSession Main Log Facts.

(** Either the address phase ended the program, or the invariant holds at
    the end. *)
Lemma main_ended a e st p :
  main a e = Some (st, p) ->
  (exists peer, parse_peer (arg_peer a) = Ok peer /\ ended a peer st p) \/
  ((st = Crashed \/ st = Exit 1) /\ Forall (fun x => is_setup x = true) (log p)).
Proof.
  unfold main. destruct (parse_peer _) as [peer|x] eqn:Hp.
  - set (s0 := init _ _ _).
    assert (InvS s0 (mk_proc s0 None [])) as H0 by (split_and!; constructor).
    apply (setup_ok a e) in H0. destruct (setup _ _ _) as [q|[st' q]]; simpl in H0.
    + intros Hc. left. exists peer. split; [done|]. apply (connect_ok a e peer q (st, p)); [|done]. by apply setup_inv.
    + intros [= <- <-]. right. by destruct H0 as [(_ & _ & H) ?].
  - intros [= <- <-]. right. split; [by right | by repeat constructor].
Qed.

(** C10. Exit status 0 means a confirmed link: exactly one READY line and no
    FAIL line was printed, the READY line directly follows a successful
    connection completion for the exact peer and address type, carries its
    handle, and answers a Create whose command status was 0. *)
Theorem exit_zero_means_linked a e p :
  main a e = Some (Exit 0, p) ->
  exists peer h, parse_peer (arg_peer a) = Ok peer /\
    ready_evidence peer (peer_addr_type a) (log p) h /\
    count is_ready (log p) = 1%nat /\ count is_fail (log p) = 0%nat /\ (count is_down (log p) <= 1)%nat.
Proof.
  intros [(peer & Hp & (H1 & H2 & H3 & _ & [h H5]) & _)|[[?|?] _]]%main_ended; [|done..].
  by exists peer, h.
Qed.

(** Exit status 1 never comes with a READY line; once a Create was sent
    it comes with exactly one FAIL line, the last output, which counts the
    Creates sent; and unless the socket failed no Create is left unresolved
    at the controller. *)
Theorem exit_one_is_clean a e p :
  main a e = Some (Exit 1, p) ->
  count is_ready (log p) = 0%nat /\
  (count is_create (log p) <> 0%nat -> exists peer l r last,
    parse_peer (arg_peer a) = Ok peer /\
    log p = l ++ [Out (FAIL r (Z.of_nat (count is_create (log p))) last)] /\ count is_fail l = 0%nat /\
    (r <> socket_error -> outstanding peer (peer_addr_type a) (log p) = false)).
Proof.
  intros [(peer & Hp & (H1 & H2 & H3 & (l & r & Hl & Hr)) & _)|[_ Hs]]%main_ended.
  - split; [done|]. intros _. exists peer, l, r, (last_status (sess p)). split_and!; try done.
    rewrite Hl in H2. autorewrite with le_audio_rw in H2. simpl in H2. lia.
  - split; [apply count_setup; [done | by intros []]|]. intros Hc. exfalso. apply Hc.
    apply count_setup; [done|]. intros x Hx. unfold is_setup in Hx. destruct x; try done. by destruct (is_create _).
Qed.

(** On every run, finished or crashed, a Create is only sent when the
    previous one was cancelled, refused, or completed for the peer. *)
Theorem creates_never_overlap a e st p :
  main a e = Some (st, p) -> exists peer, spaced peer (peer_addr_type a) (log p).
Proof.
  intros [(peer & Hp & _ & H)|[_ Hs]]%main_ended; [by exists peer | exists []; by apply spaced_setup].
Qed.

Lemma connect_loop_returns a e peer deadline ts p :
  Exists (fun t => deadline <= t_test t) ts -> is_Some (connect_loop a e peer deadline ts p).
Proof.
  intros H. revert p. induction H as [t ts Ht|t ts H IH]; intros p; simpl.
  - by destruct (Z.ltb_spec (t_test t) deadline); [lia|].
  - destruct (_ && _); [|by eexists]. destruct (connect_tick _ _ _ _ _ _); [apply IH | by eexists].
Qed.

Lemma cancel_loop_returns w ts p :
  Exists (fun x => w <= x.1) ts -> is_Some (cancel_loop w ts p).
Proof.
  intros H. revert p. induction H as [[now ans] ts Ht|[now ans] ts H IH]; intros p; simpl in *.
  - by destruct (Z.ltb_spec now w); [lia|].
  - destruct (_ && _); [|by eexists]. destruct ans as [| |[|data]]; eauto.
Qed.

Lemma hold_loop_returns a e peer w ts p :
  Exists (fun x => w <= x.1) ts -> is_Some (hold_loop a e peer w ts p).
Proof.
  intros H. revert p. induction H as [[now ans] ts Ht|[now ans] ts H IH]; intros p; simpl in *.
  - by destruct (Z.ltb_spec now w); [lia|].
  - destruct (_ <? _); [|by eexists]. destruct ans as [| |[|data]]; eauto.
    destruct (hold_receive _ _ _ _ _); eauto.
Qed.

Lemma hold_loop_stops a e peer w ts p q : hold_loop a e peer w ts p <> Some (inl q).
Proof.
  revert p. induction ts as [|[now ans] ts IH]; intros p; simpl; [done|].
  unfold Stop. destruct (_ <? _); [|done]. destruct ans as [| |[|data]]; [done | apply IH | done |].
  destruct (hold_receive _ _ _ _ _); [apply IH | done].
Qed.

Lemma fail_phase_returns a e peer p :
  Exists (fun x => t_cancel_wait e + 2000000 <= x.1) (cancel_ticks e) ->
  is_Some (fail_phase a e peer p ≫= finish).
Proof.
  intros H. unfold fail_phase. destruct (in_flight _); [|by eexists].
  destruct (force_cancel _ _) as [s' acts]. destruct (_dispatch _ _ _ _ _) as [q|r]; [|by eexists].
  destruct (cancel_loop_returns _ _ q H) as [q' ->]. by eexists.
Qed.

(** The program returns: whatever the controller sends, each phase ends
    as soon as its clock reaches the phase's limit. *)
Theorem main_returns a e :
  Exists (fun t => t_start e + connect_deadline a <= t_test t) (ticks e) ->
  Exists (fun x => t_cancel_wait e + 2000000 <= x.1) (cancel_ticks e) ->
  Exists (fun x => t_hold e + arg_hold a <= x.1) (hold_ticks e) ->
  is_Some (main a e).
Proof.
  intros H1 H2 H3. unfold main. destruct (parse_peer _) as [peer|x]; [|by eexists].
  destruct (setup _ _ _) as [p|r]; [|by eexists]. unfold connect.
  destruct (connect_loop_returns a e peer _ _ p H1) as [[q|r] ->]; [|by eexists].
  destruct (is_success _); [|by apply fail_phase_returns].
  destruct (hold_loop_returns a e peer _ _ q H3) as [[q'|r] Hr]; rewrite Hr; [|by eexists].
  by apply hold_loop_stops in Hr.
Qed.

(** A failed attempt is retried at the very next iteration of the loop,
    whatever the clock says and whatever [--backoff] is: the option has no
    effect. *)
Theorem retry_ignores_backoff a e peer deadline t p backoff :
  state (sess p) = idle -> is_done (sess p) = false -> 0 <= t_now t ->
  let a' := mk_args (arg_peer a) (arg_hold a) (addr_random a) (own_addr a) (peer_addr_random a)
              (connect_deadline a) backoff (arg_attempt_timeout a) in
  connect_tick a' e peer deadline t p =
    andthen (_send a e peer OP_LE_EXT_CREATE_CONN (with_sess (begin_attempt (t_begin t) (sess p)).1 p)) (fun p =>
      tick_receive a e peer (answer t) (emit (Select (wait_us deadline (t_wait t))) p)).
Proof.
  intros Hs Hd Ht. unfold connect_tick, tick_timeout, handle_timeout. rewrite Hs. simpl.
  unfold tick_begin. simpl. rewrite bool_decide_true, Hd by done. simpl.
  rewrite (proj2 (Z.leb_le _ _)) by done. simpl. destruct p as [s lf lg]. simpl.
  by destruct (_send _ _ _ _ _).
Qed.

(** Runs on concrete inputs. *)
Definition demo_args : args := mk_args "DB:A6:0C:05:A2:AA" 500000 false "C0:AA:BB:CC:DD:EE" true 3000000 1000000 1000000.
Definition demo_peer : list Z := [0xAA; 0xA2; 0x05; 0x0C; 0xA6; 0xDB].
Definition demo_conn : le_conn := mk_le_conn LE_SUBEVT_CONN_COMPLETE 0 64 0 OWN_ADDR_RANDOM demo_peer 24 0 100 0.
Definition create_ok : list Z := [HCI_EVENT_PKT; EVT_CMD_STATUS; 4; 0; 1; 0x43; 0x20].
Definition cancel_ok : list Z := [HCI_EVENT_PKT; EVT_CMD_COMPLETE; 4; 1; 0x0E; 0x20; 0].
Definition link_gone : list Z := [HCI_EVENT_PKT; EVT_DISCONN_COMPLETE; 4; 0; 64; 0; 0x13].
Definition demo_tick (now : Z) (ans : select_answer) : tick := mk_tick now now now now ans.
Definition received_data (d : list Z) : select_answer := Readable (Data d).
Definition demo_env (ts : list tick) (cs hs : list (Z * select_answer)) : env :=
  mk_env true true (fun _ => true) 0 ts 3000000 3000000 cs 200000 hs.

(** A link that comes up, then drops during the hold. *)
Definition demo_link : env := demo_env
  [demo_tick 1000 (received_data create_ok);
   demo_tick 2000 (received_data (HCI_EVENT_PKT :: encode_conn demo_conn));
   demo_tick 3000000 NotReady]
  [(5000000, NotReady)] [(300000, NotReady); (400000, received_data link_gone); (700000, NotReady)].

(** The completion crosses the Cancel of the attempt's timeout. *)
Definition demo_late : env := demo_env
  [demo_tick 1000 (received_data create_ok);
   demo_tick 1001000 (received_data (HCI_EVENT_PKT :: encode_conn demo_conn));
   demo_tick 3000000 NotReady]
  [(5000000, NotReady)] [(700000, NotReady)].

(** A successful completion for the exact peer that crosses the Cancel
    of the attempt's timeout is lost: the link is up, no READY line is
    printed, and the program ends with a FAIL line and exit status 1. *)
Theorem late_completion_is_lost :
  exists p, main demo_args demo_late = Some (Exit 1, p) /\
    parse_peer (arg_peer demo_args) = Ok demo_peer /\
    for_peer demo_peer (peer_addr_type demo_args) demo_conn = true /\ status demo_conn = 0 /\
    Got (le_conn_complete demo_conn) ∈ log p /\ acked (log p) = true /\ count is_ready (log p) = 0%nat.
Proof.
  eexists. split; [vm_compute; reflexivity|]. split_and!; try (vm_compute; reflexivity).
  cbn [log]. repeat (apply list_elem_of_here || apply list_elem_of_further).
Qed.
End ConnectTheorems.

Module ConnectWitnesses.
Import ConnectSession Main Log Facts ConnectTheorems.

Lemma exit_zero_means_linked_witness :
  exists p peer h, main demo_args demo_link = Some (Exit 0, p) /\
    ready_evidence peer (peer_addr_type demo_args) (log p) h /\
    of_chars (render_line (READY peer (peer_addr_type demo_args) 64)) =
      "HCI_CONNECT_READY peer=DB:A6:0C:05:A2:AA addr_type=1 handle=0x0040"%string.
Proof.
  assert (exists p, main demo_args demo_link = Some (Exit 0, p)) as [p Hp]
    by (eexists; vm_compute; reflexivity).
  destruct (exit_zero_means_linked _ _ _ Hp) as (peer & h & Hpeer & He & _).
  exists p, peer, h. split_and!; [done..|]. vm_compute in Hpeer. injection Hpeer as <-. reflexivity.
Defined.

Lemma exit_one_is_clean_witness :
  exists p, main demo_args demo_late = Some (Exit 1, p) /\ count is_ready (log p) = 0%nat.
Proof.
  assert (exists p, main demo_args demo_late = Some (Exit 1, p)) as [p Hp]
    by (eexists; vm_compute; reflexivity).
  exists p. split; [done|]. by apply (exit_one_is_clean demo_args demo_late).
Defined.

Lemma creates_never_overlap_witness :
  exists p peer, main demo_args demo_late = Some (Exit 1, p) /\ spaced peer (peer_addr_type demo_args) (log p).
Proof.
  assert (exists p, main demo_args demo_late = Some (Exit 1, p)) as [p Hp]
    by (eexists; vm_compute; reflexivity).
  destruct (creates_never_overlap _ _ _ _ Hp) as [peer H]. by exists p, peer.
Defined.

Lemma main_returns_witness : is_Some (main demo_args demo_link).
Proof.
  apply main_returns.
  - apply list.Exists_exists. eexists. split; [apply list_elem_of_further, list_elem_of_further, list_elem_of_here | vm_compute; discriminate].
  - apply list.Exists_exists. eexists. split; [apply list_elem_of_here | vm_compute; discriminate].
  - apply list.Exists_exists. eexists. split; [apply list_elem_of_further, list_elem_of_further, list_elem_of_here | vm_compute; discriminate].
Defined.

Lemma retry_ignores_backoff_witness :
  let p := mk_proc (init demo_peer 1 1000000) None [] in
  state (sess p) = idle /\ is_done (sess p) = false /\
  exists q, connect_tick demo_args demo_link demo_peer 3000000 (demo_tick 0 NotReady) p = Next q.
Proof.
  intros p. split_and!; [done..|].
  pose proof (retry_ignores_backoff demo_args demo_link demo_peer 3000000 (demo_tick 0 NotReady) p 1000000
    eq_refl eq_refl ltac:(done)) as H. cbv zeta in H.
  eexists. etransitivity; [apply H|]. reflexivity.
Defined.
End ConnectWitnesses.
