(* ===== verification/BapEndpoint.v ===== *)
(** * BAP source endpoint (scripts/bap_central_endpoint.py)

    [Endpoint] is [BAPSourceEndpoint] with its four D-Bus methods;
    [acquire_transports] and [release_transports] follow.  Python list objects
    that are shared (the endpoint's [transports] is also the list the caller
    of [acquire_transports] keeps) live in a heap of lists; [os.close] calls
    are recorded in order, so that "each descriptor is closed exactly once" is
    a statement about that log. *)

From S2P Require Import Prelude PyText HciPacket.

(** ** Constants *)

Definition LC3_CAPS : list Z := [0x03; 0x01; 0x80; 0x00; 0x02; 0x02; 0x03; 0x02; 0x03; 0x01; 0x05; 0x04; 0x78; 0x00; 0xF0; 0x00].
Definition LC3_CAPS_STEREO : list Z := [0x03; 0x01; 0x80; 0x00; 0x02; 0x02; 0x03; 0x02; 0x03; 0x02; 0x05; 0x04; 0x78; 0x00; 0xF0; 0x00].
Definition LC3_CONFIG_MONO : list Z := [0x02; 0x01; 0x08; 0x02; 0x02; 0x01; 0x03; 0x04; 0x78; 0x00].
Definition LC3_CONFIG_STEREO : list Z := [0x02; 0x01; 0x08; 0x02; 0x02; 0x01; 0x03; 0x04; 0x78; 0x00; 0x05; 0x03; 0x03; 0x00; 0x00; 0x00].
Definition FRAME_BYTES : Z := 120.

(** ** The endpoint object *)

Module Endpoint.

(** A transport record; [fd] and [write_mtu] are present once acquired. *)
Record transport : Type := mk_transport {
  path : string; fd : option Z; write_mtu : option Z; channel_alloc : Z;
}.
#[global] Instance transport_eq : EqDecision transport.
Proof. solve_decision. Defined.

(** The endpoint and what it shares: [transports] is a reference into
    [lists]; [closed] is every argument of [os.close], in order. *)
Record t : Type := mk {
  stereo : bool;
  mono : bool;
  mono_selected_channel : option Z;
  transports : nat;
  pending_transports : list transport;
  config_done : bool;
  lists : gmap nat (list transport);
  next_list : nat;
  closed : list Z;
}.

Inductive init_error : Type := MutuallyExclusive.

Definition init (stereo mono : bool) : result init_error t :=
  if stereo && mono then Err MutuallyExclusive
  else Ok (mk stereo mono None 0 [] false {[ 0%nat := [] ]} 1 []).

Definition get_list (l : nat) (s : t) : list transport := default [] (lists s !! l).
Definition the_transports (s : t) : list transport := get_list (transports s) s.

Definition set_list (l : nat) (v : list transport) (s : t) : t :=
  mk (stereo s) (mono s) (mono_selected_channel s) (transports s) (pending_transports s) (config_done s)
     (<[l := v]> (lists s)) (next_list s) (closed s).
(** [self.transports = v] for a new list object. *)
Definition rebind_transports (v : list transport) (s : t) : t :=
  mk (stereo s) (mono s) (mono_selected_channel s) (next_list s) (pending_transports s) (config_done s)
     (<[next_list s := v]> (lists s)) (S (next_list s)) (closed s).
Definition set_pending (v : list transport) (s : t) : t :=
  mk (stereo s) (mono s) (mono_selected_channel s) (transports s) v (config_done s) (lists s) (next_list s) (closed s).
Definition set_selected (v : option Z) (s : t) : t :=
  mk (stereo s) (mono s) v (transports s) (pending_transports s) (config_done s) (lists s) (next_list s) (closed s).
Definition set_config_done (v : bool) (s : t) : t :=
  mk (stereo s) (mono s) (mono_selected_channel s) (transports s) (pending_transports s) v (lists s) (next_list s) (closed s).
(** [try: os.close(fd) except OSError: pass] *)
Definition close_fd (f : option Z) (s : t) : t :=
  mk (stereo s) (mono s) (mono_selected_channel s) (transports s) (pending_transports s) (config_done s) (lists s)
     (next_list s) (closed s ++ option_list f).

Definition close_all (ts : list transport) (s : t) : t := fold_left (fun s t => close_fd (fd t) s) ts s.

Definition Release (s : t) : t :=
  let s := close_all (the_transports s ++ pending_transports s) s in
  set_selected None (set_config_done false (set_pending [] (rebind_transports [] s))).

(** [list.remove] of the first equal element, when there is one. *)
Fixpoint remove (x : transport) (l : list transport) : list transport :=
  match l with [] => [] | y :: l' => if decide (x = y) then l' else y :: remove x l' end.

Definition ClearConfiguration (tp : string) (s : t) : t :=
  match List.find (fun x => bool_decide (path x = tp)) (the_transports s ++ pending_transports s) with
  | None => s
  | Some x =>
      let s := close_fd (fd x) s in
      let s := set_list (transports s) (remove x (the_transports s)) s in
      set_pending (remove x (pending_transports s)) s
  end.

(** The D-Bus error both admission methods raise. *)
Inductive rejected : Type := TransportLimit | RequiresFlOrFr | ReservationMismatch.

Record selection : Type := mk_selection {
  capabilities : list Z; framing : Z; phy : Z; interval_us : Z; sdu : Z; retransmissions : Z; latency_ms : Z;
  presentation_delay_us : Z; target_latency : Z;
}.

Definition admitted (s : t) : nat := (length (pending_transports s) + length (the_transports s))%nat.
Definition is_fl_or_fr (c : Z) : bool := py_in c [0x01; 0x02].

Definition mono_config (channels : Z) : list Z :=
  [0x02; 0x01; 0x08; 0x02; 0x02; 0x01; 0x03; 0x04; 0x78; 0x00; 0x05; 0x03; Z.land channels 0xFF; 0x00; 0x00; 0x00].

Definition select_config (channels : Z) : list Z * Z :=
  if channels =? 0x03 then (LC3_CONFIG_STEREO, 240) else (mono_config channels, 120).

(** [channels] is [int(props.get("ChannelAllocation", 0))]. *)
Definition SelectProperties (channels : Z) : method t rejected selection :=
  s ← self;
  check (negb (mono s && ((1 <=? admitted s)%nat ||
           match mono_selected_channel s with Some c => negb (c =? channels) | None => false end))) TransportLimit;;
  check (negb (mono s && negb (is_fl_or_fr channels))) RequiresFlOrFr;;
  let '(caps, sdu) := select_config channels in
  assign (if mono s then set_selected (Some channels) else id);;
  mret (mk_selection caps 0 0x02 10000 sdu 5 20 40000 0x02).

(** [b[i+2] | b[i+3] << 8 | b[i+4] << 16 | b[i+5] << 24] *)
Definition le32_at (b : list Z) (i : nat) : option Z :=
  b0 ← b !! i; b1 ← b !! (i + 1)%nat; b2 ← b !! (i + 2)%nat; b3 ← b !! (i + 3)%nat;
  Some (Z.lor b0 (Z.lor (Z.shiftl b1 8) (Z.lor (Z.shiftl b2 16) (Z.shiftl b3 24)))).

(** The [while i + 1 < len(b)] scan; every iteration advances [i], so
    [length b] iterations are enough. *)
Fixpoint ltv_scan (fuel : nat) (b : list Z) (i : nat) : Z :=
  match fuel with
  | O => 0x03
  | S fuel' =>
      match b !! i, b !! S i with
      | Some ltv_len, Some ltv_type =>
          match (if (ltv_type =? 0x03) && (ltv_len =? 5) then le32_at b (i + 2) else None) with
          | Some v => v
          | None => ltv_scan fuel' b (i + (if (0 <? ltv_len)%Z then Z.to_nat ltv_len else 1))%nat
          end
      | _, _ => 0x03
      end
  end.

(** [props.get("Configuration", [])] as octets. *)
Definition parse_channel_alloc (caps : list Z) : Z := ltv_scan (length caps) caps 0.

Definition SetConfiguration (tp : string) (caps : list Z) : method t rejected unit :=
  s ← self;
  check (negb (mono s && (1 <=? admitted s)%nat)) TransportLimit;;
  let alloc := parse_channel_alloc caps in
  check (negb (mono s && negb (is_fl_or_fr alloc))) RequiresFlOrFr;;
  check (negb (mono s && match mono_selected_channel s with Some c => negb (alloc =? c) | None => false end))
        ReservationMismatch;;
  assign (fun s => set_config_done true (set_pending (pending_transports s ++ [mk_transport tp None None alloc]) s));;
  assign (if mono s then set_selected None else id).

(** What the D-Bus main loop may call; a rejection is an error reply. *)
Inductive callback : Type :=
| CbSelect (channels : Z) | CbSet (tp : string) (caps : list Z) | CbClear (tp : string) | CbRelease.

Definition run_callback (c : callback) (s : t) : t :=
  match c with
  | CbSelect ch => (SelectProperties ch s).2
  | CbSet tp caps => (SetConfiguration tp caps s).2
  | CbClear tp => ClearConfiguration tp s
  | CbRelease => Release s
  end.
Definition run_callbacks (cs : list callback) (s : t) : t := fold_left (fun s c => run_callback c s) cs s.

End Endpoint.

(** ** Registration *)

Definition PAC_SOURCE_UUID : string := "00002bcb-0000-1000-8000-00805f9b34fb".
Definition LC3_CODEC : Z := 0x06.

Record registration : Type := mk_registration { reg_uuid : string; reg_codec : Z; reg_caps : list Z }.

(** The object and the properties [RegisterEndpoint] is called with. *)
Definition register_endpoint (stereo mono : bool) : result Endpoint.init_error (Endpoint.t * registration) :=
  ep ← Endpoint.init stereo mono;
  Ok (ep, mk_registration PAC_SOURCE_UUID LC3_CODEC (if stereo then LC3_CAPS_STEREO else LC3_CAPS)).

(** ** Acquire: all or nothing *)

Module Acquire.
Import Endpoint.

Inductive central_error : Type :=
| SetConfigurationTimeout | NoPendingTransports | AcquireTimedOut | AllOrNothing | NoTransports.

Inductive stream_mode : Type := StereoB | StereoA | MonoMode.

(** Replies to the Acquire calls; the handlers close over the path and the
    channel of the pending transport [i]. *)
Inductive reply : Type := ReplyOk (i : nat) (fd mtu : Z) | ReplyErr (i : nat).
Inductive message : Type := Callback (c : callback) | Reply (r : reply).

(** One [MainContext.iteration]: the clock reading of the loop test, then the
    messages dispatched. *)
Definition tick (A : Type) : Type := (Z * list A)%type.

(** Wait loops; [None] while their inputs last. *)
Fixpoint wait_config (deadline : Z) (ts : list (tick callback)) (s : t) : option t :=
  if config_done s then Some s
  else match ts with
  | [] => None
  | (now, cs) :: ts' => if now <? deadline then wait_config deadline ts' (run_callbacks cs s) else Some s
  end.

Fixpoint wait_grace (deadline : Z) (ts : list (tick callback)) (s : t) : option t :=
  match ts with
  | [] => None
  | (now, cs) :: ts' => if now <? deadline then wait_grace deadline ts' (run_callbacks cs s) else Some s
  end.

Record acq : Type := mk_acq { acquired : list transport; errors : list string }.

Definition on_reply (snapshot : list transport) (r : reply) (q : acq) : acq :=
  match r with
  | ReplyOk i fd mtu =>
      match snapshot !! i with
      | Some p => mk_acq (acquired q ++ [mk_transport (path p) (Some fd) (Some mtu) (channel_alloc p)]) (errors q)
      | None => q
      end
  | ReplyErr i =>
      match snapshot !! i with
      | Some p => mk_acq (acquired q) (errors q ++ [path p])
      | None => q
      end
  end.

Definition acquire_done (n_pending : nat) (q : acq) : bool :=
  (n_pending <=? length (acquired q) + length (errors q))%nat.

Definition on_message (snapshot : list transport) (m : message) (sq : t * acq) : t * acq :=
  match m with
  | Callback c => (run_callback c sq.1, sq.2)
  | Reply r => (sq.1, on_reply snapshot r sq.2)
  end.
Definition on_messages (snapshot : list transport) (ms : list message) (sq : t * acq) : t * acq :=
  fold_left (fun sq m => on_message snapshot m sq) ms sq.

Fixpoint wait_acquire (snapshot : list transport) (deadline : Z) (ts : list (tick message)) (sq : t * acq)
    : option (t * acq) :=
  if acquire_done (length snapshot) sq.2 then Some sq
  else match ts with
  | [] => None
  | (now, ms) :: ts' =>
      if now <? deadline then wait_acquire snapshot deadline ts' (on_messages snapshot ms sq) else Some sq
  end.

Definition infer_mode (ts : list transport) : stream_mode * Z :=
  match ts with
  | [x] => if channel_alloc x =? 0x03 then (StereoB, FRAME_BYTES * 2) else (MonoMode, FRAME_BYTES)
  | [_; _] => (StereoA, FRAME_BYTES)
  | _ => (MonoMode, FRAME_BYTES)
  end.

(** After the replies: [inl] is [CentralError]; on success the endpoint and
    the caller share the list [acquired]. *)
Definition conclude (n_pending : nat) (s : t) (q : acq) : (central_error + (nat * stream_mode * Z)) * t :=
  if negb (acquire_done n_pending q) then (inl AcquireTimedOut, close_all (acquired q) s)
  else if negb (bool_decide (errors q = [])) || negb (length (acquired q) =? n_pending)%nat
  then (inl AllOrNothing, close_all (acquired q) s)
  else if bool_decide (acquired q = []) then (inl NoTransports, s)
  else
    let s := rebind_transports (acquired q) s in
    let '(mode, sdu) := infer_mode (the_transports s) in
    (inr (transports s, mode, sdu), s).

Record inputs : Type := mk_inputs {
  t_config : Z; config_timeout : Z; config_ticks : list (tick callback);
  t_grace : Z; grace : Z; grace_ticks : list (tick callback);
  t_acquire : Z; acquire_timeout : Z; acquire_ticks : list (tick message);
}.

Definition acquire_transports (e : inputs) (s : t) : option ((central_error + (nat * stream_mode * Z)) * t) :=
  s ← wait_config (t_config e + config_timeout e) (config_ticks e) s;
  if negb (config_done s) then Some (inl SetConfigurationTimeout, s)
  else if bool_decide (pending_transports s = []) then Some (inl NoPendingTransports, s)
  else
    s ← (if (length (pending_transports s) =? 1)%nat
         then wait_grace (t_grace e + grace e) (grace_ticks e) s else Some s);
    let snapshot := pending_transports s in
    '(s, q) ← wait_acquire snapshot (t_acquire e + acquire_timeout e) (acquire_ticks e) (s, mk_acq [] []);
    Some (conclude (length snapshot) s q).

(** [release_transports]: [l] is the caller's list object. *)
Definition release_transports (l : nat) (s : t) : t :=
  rebind_transports [] (close_all (get_list l s) s).

End Acquire.

(** ** Lemmas *)

Module EndpointFacts.
Import Endpoint Acquire.

Definition fds (ts : list transport) : list Z := ts ≫= (fun x => option_list (fd x)).

#[global] Instance fds_perm : Proper ((≡ₚ) ==> (≡ₚ)) fds.
Proof.
  induction 1 as [|x l k _ IH|x y l|l k m _ IH1 _ IH2]; unfold fds in *; rewrite ?bind_cons; [done | by rewrite IH | | by rewrite IH1].
  rewrite !app_assoc. apply Permutation_app_tail, Permutation_app_comm.
Qed.

Lemma fds_none ts : Forall (fun x => fd x = None) ts -> fds ts = [].
Proof. unfold fds. induction 1 as [|x ts Hx _ IH]; [done|]. by rewrite bind_cons, Hx. Qed.

Lemma close_all_closed ts s : closed (close_all ts s) = closed s ++ fds ts.
Proof.
  revert s; induction ts as [|x ts IH]; intros s; [by simpl; rewrite app_nil_r|].
  change (close_all (x :: ts) s) with (close_all ts (close_fd (fd x) s)).
  rewrite IH. unfold fds. rewrite bind_cons. simpl. by rewrite app_assoc.
Qed.

Lemma close_all_other ts s :
  lists (close_all ts s) = lists s /\ transports (close_all ts s) = transports s /\
  pending_transports (close_all ts s) = pending_transports s /\ next_list (close_all ts s) = next_list s /\
  mono (close_all ts s) = mono s /\ mono_selected_channel (close_all ts s) = mono_selected_channel s.
Proof. revert s; induction ts as [|x ts IH]; intros s; [done|]. apply (IH (close_fd (fd x) s)). Qed.

Lemma remove_perm x l : x ∈ l -> l ≡ₚ x :: remove x l.
Proof.
  induction l as [|y l IH]; [by intros ?%elem_of_nil|]. simpl. intros Hx.
  case_decide as Hd; [by subst|]. apply elem_of_cons in Hx as [?|Hx]; [done|].
  rewrite (IH Hx) at 1. constructor.
Qed.

Lemma remove_not_in x l : x ∉ l -> remove x l = l.
Proof.
  induction l as [|y l IH]; [done|]. rewrite not_elem_of_cons. intros [H1 H2]. simpl.
  by rewrite decide_False, IH.
Qed.

Lemma remove_sub x y l : y ∈ remove x l -> y ∈ l.
Proof.
  induction l as [|z l IH]; [done|]. simpl. case_decide; [by right|]. rewrite !elem_of_cons. naive_solver.
Qed.

Lemma remove_length x l : (length (remove x l) <= length l)%nat.
Proof. induction l as [|y l IH]; simpl; [done|]. case_decide; simpl; lia. Qed.

Lemma find_in {A} (f : A -> bool) l x : List.find f l = Some x -> x ∈ l /\ f x = true.
Proof. intros H. apply List.find_some in H as [H1 H2]. by rewrite list_elem_of_In. Qed.

Lemma ClearConfiguration_ok tp s :
  let s' := ClearConfiguration tp s in
  match List.find (fun x => bool_decide (path x = tp)) (the_transports s ++ pending_transports s) with
  | None => s' = s
  | Some x =>
      pending_transports s' = remove x (pending_transports s) /\ the_transports s' = remove x (the_transports s) /\
      closed s' = closed s ++ option_list (fd x) /\ mono_selected_channel s' = mono_selected_channel s /\
      transports s' = transports s /\ mono s' = mono s
  end.
Proof.
  unfold ClearConfiguration. destruct (List.find _ _) as [x|]; [|done].
  split_and!; try done. unfold the_transports at 1, get_list. simpl. by rewrite lookup_insert_eq.
Qed.

Lemma rebind_the_transports v s : the_transports (rebind_transports v s) = v.
Proof. unfold the_transports, get_list. simpl. by rewrite lookup_insert_eq. Qed.
End EndpointFacts.


(** ** What an acquisition did *)

Module AcquireFacts.
Import Endpoint Acquire EndpointFacts.

Lemma run_callbacks_app cs ds s : run_callbacks (cs ++ ds) s = run_callbacks ds (run_callbacks cs s).
Proof. apply fold_left_app. Qed.

Lemma wait_config_runs d ts s s' : wait_config d ts s = Some s' -> exists cs, s' = run_callbacks cs s.
Proof.
  revert s. induction ts as [|[now cs] ts IH]; intros s; simpl; (destruct (config_done s); [intros [= <-]; by exists []|]).
  { done. }
  destruct (now <? d); [|intros [= <-]; by exists []].
  intros [cs' ->]%IH. exists (cs ++ cs'). by rewrite run_callbacks_app.
Qed.

Lemma wait_grace_runs d ts s s' : wait_grace d ts s = Some s' -> exists cs, s' = run_callbacks cs s.
Proof.
  revert s. induction ts as [|[now cs] ts IH]; intros s; simpl; [done|].
  destruct (now <? d); [|intros [= <-]; by exists []].
  intros [cs' ->]%IH. exists (cs ++ cs'). by rewrite run_callbacks_app.
Qed.

Definition callbacks_of (ms : list message) : list callback :=
  omap (fun m => match m with Callback c => Some c | Reply _ => None end) ms.
Definition replies_of (ms : list message) : list reply :=
  omap (fun m => match m with Reply r => Some r | Callback _ => None end) ms.
Definition on_replies (snapshot : list transport) (rs : list reply) (q : acq) : acq :=
  fold_left (fun q r => on_reply snapshot r q) rs q.

Lemma on_messages_split snapshot ms s q :
  on_messages snapshot ms (s, q) = (run_callbacks (callbacks_of ms) s, on_replies snapshot (replies_of ms) q).
Proof.
  revert s q. induction ms as [|m ms IH]; intros s q; [done|].
  change (on_messages snapshot (m :: ms) (s, q)) with (on_messages snapshot ms (on_message snapshot m (s, q))).
  destruct m; simpl; by rewrite IH.
Qed.

Lemma wait_acquire_runs sn d ts s q r :
  wait_acquire sn d ts (s, q) = Some r ->
  exists cs rs, rs `prefix_of` (ts ≫= (fun t => replies_of t.2)) /\ r = (run_callbacks cs s, on_replies sn rs q).
Proof.
  revert s q. induction ts as [|[now ms] ts IH]; intros s q; simpl;
    (destruct (acquire_done _ q); [intros [= <-]; exists [], []; split; [apply prefix_nil | done]|]).
  { done. }
  destruct (now <? d); [|intros [= <-]; exists [], []; split; [apply prefix_nil | done]].
  rewrite on_messages_split. intros (cs & rs & Hp & ->)%IH.
  exists (callbacks_of ms ++ cs), (replies_of ms ++ rs). split.
  - by apply prefix_app.
  - unfold on_replies. by rewrite run_callbacks_app, fold_left_app.
Qed.

(** Every acquisition runs some callbacks; unless it fails before asking, it
    then concludes on the replies to the transports pending at that point. *)
Lemma acquire_runs e s r s' :
  acquire_transports e s = Some (r, s') ->
  exists cs, let s1 := run_callbacks cs s in
  (exists x, r = inl x /\ s' = s1) \/
  exists ds rs, let sn := pending_transports s1 in
    rs `prefix_of` (acquire_ticks e ≫= (fun t => replies_of t.2)) /\
    (r, s') = conclude (length sn) (run_callbacks ds s1) (on_replies sn rs (mk_acq [] [])).
Proof.
  unfold acquire_transports. intros (s1 & [cs ->]%wait_config_runs & H)%bind_Some.
  destruct (negb _); [injection H as <- <-; exists cs; left; by eexists|].
  case_bool_decide as Hp; [injection H as <- <-; exists cs; left; by eexists|].
  apply bind_Some in H as (s2 & H2 & ([s3 q] & H3 & [= H])%bind_Some).
  assert (exists ds, s2 = run_callbacks ds (run_callbacks cs s)) as [ds ->].
  { destruct (_ =? _)%nat; [by apply wait_grace_runs in H2 | injection H2 as <-; by exists []]. }
  rewrite <- run_callbacks_app in *.
  apply wait_acquire_runs in H3 as (ds' & rs & Hpre & [= -> ->]).
  exists (cs ++ ds). right. by exists ds', rs.
Qed.

(** The record of a reply. *)
Definition taken (snapshot : list transport) (r : reply) : option transport :=
  match r with
  | ReplyOk i fd mtu => p ← snapshot !! i; Some (mk_transport (path p) (Some fd) (Some mtu) (channel_alloc p))
  | ReplyErr _ => None
  end.

Lemma on_replies_acquired sn rs q : acquired (on_replies sn rs q) = acquired q ++ omap (taken sn) rs.
Proof.
  revert q. induction rs as [|r rs IH]; intros q; simpl; [by rewrite app_nil_r|].
  unfold on_replies in *. rewrite IH. destruct r as [i f m|i]; simpl; destruct (sn !! i); simpl; try done.
  by rewrite <- app_assoc.
Qed.

Lemma taken_channel sn (rs : list reply) x : x ∈ omap (taken sn) rs -> exists p, p ∈ sn /\ channel_alloc p = channel_alloc x /\ is_Some (fd x).
Proof.
  intros (r & _ & Hr)%list_elem_of_omap. destruct r as [i f m|i]; simpl in Hr; [|done].
  apply bind_Some in Hr as (p & Hp & [= <-]). exists p. split_and!; [by eapply list_elem_of_lookup_2 | done | by eexists].
Qed.

(** The two ways an acquisition concludes. *)
Lemma conclude_spec n s q r s' :
  conclude n s q = (r, s') ->
  mono s' = mono s /\ pending_transports s' = pending_transports s /\
  mono_selected_channel s' = mono_selected_channel s /\
  ((exists x, r = inl x) /\ closed s' = closed s ++ fds (acquired q) /\ the_transports s' = the_transports s \/
   exists l, r = inr (l, (infer_mode (acquired q)).1, (infer_mode (acquired q)).2) /\
     closed s' = closed s /\ transports s' = l /\ the_transports s' = acquired q /\
     length (acquired q) = n /\ errors q = [] /\ acquired q <> []).
Proof.
  unfold conclude.
  assert (forall ts, let s1 := close_all ts s in mono s1 = mono s /\ pending_transports s1 = pending_transports s /\
    mono_selected_channel s1 = mono_selected_channel s /\ closed s1 = closed s ++ fds ts /\ the_transports s1 = the_transports s) as Hc.
  { intros ts s1. unfold the_transports, get_list. subst s1. rewrite close_all_closed.
    destruct (close_all_other ts s) as (-> & -> & -> & _ & -> & ->). done. }
  destruct (negb (acquire_done n q)); [intros [= <- <-]; naive_solver|].
  destruct (negb (bool_decide (errors q = []))) eqn:He; simpl; [intros [= <- <-]; naive_solver|].
  destruct (length (acquired q) =? n)%nat eqn:Hn; simpl; [|intros [= <- <-]; naive_solver].
  destruct (decide (acquired q = [])) as [Ha|Ha].
  { rewrite bool_decide_true by done. intros Heq. simplify_eq. split_and!; try done. left.
    split_and!; [by eexists | rewrite Ha; simpl; by rewrite app_nil_r | done]. }
  rewrite bool_decide_false by done.
  rewrite rebind_the_transports. destruct (infer_mode _) as [m z] eqn:Hm. intros Heq. simplify_eq.
  split_and!; try done. right. exists (next_list s). apply Nat.eqb_eq in Hn.
  apply negb_false_iff, bool_decide_eq_true in He.
  split_and!; try done. apply rebind_the_transports.
Qed.
End AcquireFacts.

(** ** Properties *)

Module EndpointTheorems.
Import Endpoint Acquire EndpointFacts AcquireFacts.

(** The channel the endpoint selects is the channel it reads back from
    the configuration: FL|FR for a stereo selection, otherwise the low octet
    of the requested allocation. *)
Theorem select_set_roundtrip ch :
  parse_channel_alloc (select_config ch).1 = (if ch =? 0x03 then 0x03 else Z.land ch 0xFF).
Proof.
  unfold select_config. destruct (Z.eqb_spec ch 3) as [->|Hn]; [done|].
  unfold parse_channel_alloc, mono_config. simpl. by rewrite !Z.lor_0_r.
Qed.

(** Admission errors are atomic: a rejected SelectProperties or
    SetConfiguration leaves the endpoint as it was, and only a [--mono]
    endpoint rejects. *)
Theorem rejected_is_atomic s :
  (forall ch e s', SelectProperties ch s = (Err e, s') -> s' = s /\ mono s = true) /\
  (forall tp caps e s', SetConfiguration tp caps s = (Err e, s') -> s' = s /\ mono s = true).
Proof.
  split.
  - intros ch e s'. unfold SelectProperties, check, ensure, mbind, method_bind, self.
    destruct (mono s); simpl; repeat case_match; intros; simplify_eq/=; done.
  - intros tp caps e s'. unfold SetConfiguration, check, ensure, mbind, method_bind, self, assign.
    destruct (mono s); simpl; repeat case_match; intros; simplify_eq/=; done.
Qed.

(** The admission invariant of a [--mono] endpoint. *)
Record mono_ok (s : t) : Prop := mk_mono_ok {
  mono_pending : (length (pending_transports s) <= 1)%nat;
  mono_transports : (length (the_transports s) <= 1)%nat;
  mono_channels : Forall (fun x => is_fl_or_fr (channel_alloc x) = true) (pending_transports s ++ the_transports s);
  mono_reserved : forall c, mono_selected_channel s = Some c -> is_fl_or_fr c = true;
}.

Lemma mono_ok_Release s : mono_ok s -> mono_ok (Release s).
Proof.
  intros _. unfold Release. constructor; simpl; try done; try lia;
    unfold the_transports, get_list; simpl; by rewrite lookup_insert_eq; simpl; try constructor.
Qed.

Lemma mono_ok_Clear tp s : mono_ok s -> mono_ok (ClearConfiguration tp s).
Proof.
  intros [H1 H2 H3 H4]. pose proof (ClearConfiguration_ok tp s) as HC. cbv zeta in HC.
  destruct (List.find _ _) as [x|]; [|by rewrite HC]. destruct HC as (Hp & Ht & _ & Hm & _).
  pose proof (remove_length x (pending_transports s)). pose proof (remove_length x (the_transports s)).
  constructor; rewrite ?Hp, ?Ht, ?Hm; try lia; try done.
  rewrite Forall_app in H3 |- *. destruct H3 as [H3 H3'].
  rewrite Forall_forall in H3. rewrite Forall_forall in H3'.
  split; apply Forall_forall; intros y Hy%remove_sub; auto.
Qed.

Lemma SelectProperties_ok ch s sel s' :
  SelectProperties ch s = (Ok sel, s') ->
  s' = (if mono s then set_selected (Some ch) s else s) /\
  (capabilities sel, sdu sel) = select_config ch /\
  (mono s = true -> admitted s = 0%nat /\ is_fl_or_fr ch = true).
Proof.
  unfold SelectProperties, check, ensure, mbind, method_bind, self, assign, mret, method_ret, id.
  destruct (select_config ch) as [caps sz]. destruct (mono s); simpl; [|by intros [= <- <-]].
  destruct (admitted s) as [|n]; simpl; [|done].
  destruct (negb (negb (is_fl_or_fr ch))) eqn:Hf; [|by case_match].
  rewrite negb_involutive in Hf. destruct (negb _); [|done]. by intros [= <- <-].
Qed.

Lemma mono_ok_Select ch s : mono s = true -> mono_ok s -> mono_ok (SelectProperties ch s).2.
Proof.
  intros Hm HI. destruct (SelectProperties ch s) as [[sel|e] s'] eqn:H; simpl.
  - apply SelectProperties_ok in H as (-> & _ & Hc). rewrite Hm. destruct (Hc Hm) as [_ Hf].
    destruct HI. constructor; try done. by intros c [= <-].
  - by apply (proj1 (rejected_is_atomic s)) in H as [-> _].
Qed.

Lemma SetConfiguration_ok tp caps s s' :
  SetConfiguration tp caps s = (Ok tt, s') ->
  let alloc := parse_channel_alloc caps in
  pending_transports s' = pending_transports s ++ [mk_transport tp None None alloc] /\
  the_transports s' = the_transports s /\ config_done s' = true /\ closed s' = closed s /\ mono s' = mono s /\
  (mono s = true -> admitted s = 0%nat /\ is_fl_or_fr alloc = true /\ mono_selected_channel s' = None).
Proof.
  unfold SetConfiguration, check, ensure, mbind, method_bind, self, assign, id.
  destruct (mono s) eqn:Hm; simpl; [|by intros [= <-]].
  destruct (admitted s) as [|n]; simpl; [|done].
  destruct (is_fl_or_fr _) eqn:Hf; simpl; [|done]. destruct (negb _); [|done]. by intros [= <-].
Qed.

Lemma SetConfiguration_keeps tp caps s : transports (SetConfiguration tp caps s).2 = transports s.
Proof.
  unfold SetConfiguration, check, ensure, mbind, method_bind, self, assign, id.
  destruct (mono s); simpl; repeat (case_match; simpl); by simplify_eq/=.
Qed.

Lemma mono_ok_Set tp caps s : mono s = true -> mono_ok s -> mono_ok (SetConfiguration tp caps s).2.
Proof.
  intros Hm HI. destruct (SetConfiguration tp caps s) as [[[]|e] s'] eqn:H; simpl.
  - apply SetConfiguration_ok in H as (Hp & Ht & _ & _ & _ & Hc). destruct (Hc Hm) as (Ha & Hf & Hs).
    destruct HI as [H1 H2 H3 H4]. unfold admitted in Ha. constructor; rewrite ?Hp, ?Ht, ?Hs; try done.
    + rewrite length_app. simpl. lia.
    + rewrite !Forall_app in H3 |- *. destruct H3. split; [|done]. apply Forall_app. split; [done | by constructor].
  - by apply (proj2 (rejected_is_atomic s)) in H as [-> _].
Qed.

Lemma run_callback_mono c s : mono s = true -> mono (run_callback c s) = true.
Proof.
  intros Hm. destruct c as [ch|tp caps|tp|]; simpl.
  - destruct (SelectProperties ch s) as [[sel|e] s'] eqn:H; simpl.
    + apply SelectProperties_ok in H as [-> _]. by rewrite Hm.
    + by apply (proj1 (rejected_is_atomic s)) in H as [-> _].
  - destruct (SetConfiguration tp caps s) as [[[]|e] s'] eqn:H; simpl.
    + apply SetConfiguration_ok in H as (_ & _ & _ & _ & -> & _). done.
    + by apply (proj2 (rejected_is_atomic s)) in H as [-> _].
  - pose proof (ClearConfiguration_ok tp s) as H. cbv zeta in H. destruct (List.find _ _); [|by rewrite H].
    destruct H as (_ & _ & _ & _ & _ & ->). done.
  - unfold Release. simpl. by destruct (close_all_other (the_transports s ++ pending_transports s) s) as (_ & _ & _ & _ & -> & _).
Qed.

Lemma run_callback_mono_ok c s : mono s = true -> mono_ok s -> mono_ok (run_callback c s).
Proof.
  intros Hm HI. destruct c; simpl.
  - by apply mono_ok_Select.
  - by apply mono_ok_Set.
  - by apply mono_ok_Clear.
  - by apply mono_ok_Release.
Qed.

Definition MonoInv (s : t) : Prop := mono s = true /\ mono_ok s.
Lemma run_callbacks_inv cs s : MonoInv s -> MonoInv (run_callbacks cs s).
Proof.
  unfold run_callbacks. revert s. induction cs as [|c cs IH]; intros s H; [done|]. simpl. apply IH.
  destruct H. split; [by apply run_callback_mono | by apply run_callback_mono_ok].
Qed.

Lemma acquire_mono_inv e s r s' : acquire_transports e s = Some (r, s') -> MonoInv s -> MonoInv s'.
Proof.
  intros H HI. apply acquire_runs in H as [cs H]. cbv zeta in H.
  pose proof (run_callbacks_inv cs s HI) as H1.
  destruct H as [(x & _ & ->)|(ds & rs & _ & Hc)]; [done|].
  pose proof (run_callbacks_inv ds _ H1) as H2. symmetry in Hc.
  apply conclude_spec in Hc as (Hm & Hp & Hs & Hr). destruct H2 as [Hm2 [I1 I2 I3 I4]]. split; [by rewrite Hm|].
  destruct Hr as [(_ & _ & Ht)|(l & _ & _ & _ & Ht & Hl & _ & _)]; constructor; rewrite ?Hp, ?Ht, ?Hs; try done.
  - rewrite Hl. by destruct H1 as [_ []].
  - apply Forall_app in I3 as [I3 _]. apply Forall_app. split; [done|].
    apply Forall_forall. intros x Hx. rewrite on_replies_acquired in Hx. simpl in Hx.
    apply taken_channel in Hx as (p & Hin & <- & _). destruct H1 as [_ [_ _ J3 _]].
    apply Forall_app in J3 as [J3 _]. rewrite Forall_forall in J3. by apply J3.
Qed.

(** What the process does with the endpoint. *)
Inductive step : t -> t -> Prop :=
| step_callback c s : step s (run_callback c s)
| step_acquire e s r s' : acquire_transports e s = Some (r, s') -> step s s'
| step_release l s : step s (release_transports l s).

Lemma step_inv s s' : step s s' -> MonoInv s -> MonoInv s'.
Proof.
  intros [c s1|e s1 r s2 H|l s1] HI.
  - by apply (run_callbacks_inv [c]).
  - by eapply acquire_mono_inv.
  - destruct HI as [Hm [I1 I2 I3 I4]]. unfold release_transports.
    destruct (close_all_other (get_list l s1) s1) as (_ & _ & Hp & _ & Hmo & Hs).
    split; [by simpl; rewrite Hmo|].
    constructor; rewrite ?rebind_the_transports; simpl; rewrite ?Hp, ?Hs; try done; try lia.
    rewrite app_nil_r. by apply Forall_app in I3 as [I3 _].
Qed.

(** Only an acquisition fills [transports]. *)
Lemma callbacks_no_transport cs s : the_transports s = [] -> the_transports (run_callbacks cs s) = [].
Proof.
  unfold run_callbacks. revert s. induction cs as [|c cs IH]; intros s Ht; [done|]. simpl. apply IH.
  destruct c as [ch|tp caps|tp|]; simpl.
  - destruct (SelectProperties ch s) as [[sel|e] s'] eqn:H; simpl.
    + apply SelectProperties_ok in H as [-> _]. by destruct (mono s).
    + by apply (proj1 (rejected_is_atomic s)) in H as [-> _].
  - destruct (SetConfiguration tp caps s) as [[[]|e] s'] eqn:H; simpl.
    + apply SetConfiguration_ok in H as (_ & -> & _). done.
    + by apply (proj2 (rejected_is_atomic s)) in H as [-> _].
  - pose proof (ClearConfiguration_ok tp s) as H. cbv zeta in H. destruct (List.find _ _); [|by rewrite H].
    destruct H as (_ & -> & _). by rewrite Ht.
  - unfold Release. apply rebind_the_transports.
Qed.

(** C24. A [--mono] endpoint never holds more than one queued and one acquired
    transport, each on FL or FR, whatever BlueZ calls and in whatever order,
    acquisitions and releases included; until the first acquisition it admits
    at most one transport in all. *)
Theorem mono_admission s0 :
  init false true = Ok s0 ->
  (forall cs, (admitted (run_callbacks cs s0) <= 1)%nat) /\
  (forall s, rtc step s0 s ->
    (length (pending_transports s) <= 1)%nat /\ (length (the_transports s) <= 1)%nat /\
    Forall (fun x => is_fl_or_fr (channel_alloc x) = true) (pending_transports s ++ the_transports s)).
Proof.
  intros [= <-]. set (s0 := mk _ _ _ _ _ _ _ _ _).
  assert (MonoInv s0) as H0 by (split; [done|]; constructor; vm_compute; try lia; try done; constructor).
  split.
  - intros cs. pose proof (run_callbacks_inv cs s0 H0) as [_ [Hp _ _ _]].
    assert (the_transports (run_callbacks cs s0) = []) as Ht.
    { by apply callbacks_no_transport. }
    unfold admitted. rewrite Ht. simpl. lia.
  - intros s Hs. assert (MonoInv s) as [_ []]; [|done].
    clearbody s0. induction Hs as [|s1 s2 s3 Hstep _ IH]; [done|]. apply IH. by eapply step_inv.
Qed.


(** The bookkeeping of descriptors while the link is used. *)
Record owned (l : nat) (all : list Z) (s : t) : Prop := mk_owned {
  owned_list : transports s = l;
  owned_pending : Forall (fun x => fd x = None) (pending_transports s);
  owned_fds : closed s ++ fds (the_transports s) ≡ₚ all;
}.

Lemma owned_Clear l all tp s : owned l all s -> owned l all (ClearConfiguration tp s).
Proof.
  intros [H1 H2 H3]. pose proof (ClearConfiguration_ok tp s) as HC. cbv zeta in HC.
  destruct (List.find _ _) as [x|] eqn:Hf; [|by rewrite HC]. destruct HC as (Hp & Ht & Hc & _ & Hl & _).
  constructor; [congruence | |].
  - rewrite Hp. rewrite Forall_forall in H2 |- *. intros y Hy%remove_sub. auto.
  - rewrite Hc, Ht, <- app_assoc, <- H3. apply Permutation_app_head.
    apply find_in in Hf as [Hin _]. destruct (decide (x ∈ the_transports s)) as [Hx|Hx].
    + rewrite (remove_perm x (the_transports s)) at 2 by done. unfold fds. by rewrite bind_cons.
    + rewrite remove_not_in by done. apply elem_of_app in Hin as [?|Hin]; [done|].
      rewrite Forall_forall in H2. by rewrite (H2 _ Hin).
Qed.

Lemma owned_callback l all c s : c <> CbRelease -> owned l all s -> owned l all (run_callback c s).
Proof.
  intros Hc HI. destruct c as [ch|tp caps|tp|]; simpl; [..|done].
  - destruct (SelectProperties ch s) as [[sel|e] s'] eqn:H; simpl.
    + apply SelectProperties_ok in H as [-> _]. destruct HI. by destruct (mono s).
    + by apply (proj1 (rejected_is_atomic s)) in H as [-> _].
  - destruct (SetConfiguration tp caps s) as [[[]|e] s'] eqn:H; simpl.
    + pose proof (SetConfiguration_keeps tp caps s) as Hk. rewrite H in Hk. simpl in Hk.
      apply SetConfiguration_ok in H as (Hp & Ht & _ & Hcl & _). destruct HI as [H1 H2 H3].
      constructor; [congruence | rewrite Hp; apply Forall_app; split; [done | by constructor] | by rewrite Hcl, Ht].
    + by apply (proj2 (rejected_is_atomic s)) in H as [-> _].
  - by apply owned_Clear.
Qed.

(** As long as BlueZ does not release the endpoint itself, every acquired
    descriptor is closed exactly once: by ClearConfiguration or by the final
    [release_transports], in whatever order the other callbacks come. *)
Theorem descriptors_closed_once s l cs :
  transports s = l -> Forall (fun x => fd x = None) (pending_transports s) -> CbRelease ∉ cs ->
  closed (release_transports l (run_callbacks cs s)) ≡ₚ closed s ++ fds (get_list l s).
Proof.
  intros Hl Hp Hcs.
  assert (owned l (closed s ++ fds (get_list l s)) (run_callbacks cs s)) as [H1 _ H3].
  { assert (owned l (closed s ++ fds (get_list l s)) s) as HI
      by (constructor; [done | done | unfold the_transports; by rewrite Hl]).
    revert HI Hcs. generalize (closed s ++ fds (get_list l s)). clear Hl Hp. unfold run_callbacks.
    revert s. induction cs as [|c cs IH]; intros s all HI Hcs; [done|].
    apply not_elem_of_cons in Hcs as [Hc Hcs]. simpl. apply IH; [|done]. by apply owned_callback. }
  unfold release_transports. simpl. rewrite close_all_closed, <- H3. unfold the_transports. by rewrite H1.
Qed.

(** When BlueZ does release the endpoint first, the caller's list still
    holds the closed descriptors and [release_transports] closes every one of
    them a second time; so does a second [release_transports]. *)
Theorem released_descriptors_closed_twice s l :
  transports s = l -> (l < next_list s)%nat -> Forall (fun x => fd x = None) (pending_transports s) ->
  closed (release_transports l (Release s)) = closed s ++ fds (get_list l s) ++ fds (get_list l s) /\
  closed (release_transports l (release_transports l s)) = closed s ++ fds (get_list l s) ++ fds (get_list l s).
Proof.
  intros Hl Hn Hp.
  assert (forall s, l <> next_list s -> get_list l (rebind_transports [] s) = get_list l s) as Hr
    by (intros s1 Hne; unfold get_list; simpl; by rewrite lookup_insert_ne).
  assert (forall ts, get_list l (close_all ts s) = get_list l s) as Hg
    by (intros ts; unfold get_list; by destruct (close_all_other ts s) as [-> _]).
  assert (forall ts, l <> next_list (close_all ts s)) as Hx
    by (intros ts; destruct (close_all_other ts s) as (_ & _ & _ & -> & _); lia).
  split.
  - unfold release_transports, Release. simpl. rewrite close_all_closed. simpl. rewrite close_all_closed.
    change (get_list l (set_selected _ _)) with (get_list l (rebind_transports [] (close_all (the_transports s ++ pending_transports s) s))).
    rewrite Hr, Hg, <- app_assoc by done. f_equal. f_equal. unfold the_transports. rewrite Hl.
    unfold fds at 1. rewrite bind_app. fold (fds (get_list l s)) (fds (pending_transports s)).
    by rewrite (fds_none (pending_transports s)), app_nil_r.
  - unfold release_transports. simpl. rewrite close_all_closed. simpl. rewrite close_all_closed.
    by rewrite Hr, Hg, <- app_assoc by done.
Qed.

(** Capacity is not restored after an acquisition: the queued record
    stays queued, so once the acquired transport is cleared a [--mono]
    endpoint still counts it and rejects every further selection. *)
Theorem capacity_not_restored s x p tp :
  mono s = true -> the_transports s = [x] -> is_Some (fd x) -> path x = tp ->
  pending_transports s = [p] -> fd p = None ->
  the_transports (ClearConfiguration tp s) = [] /\
  forall ch, (SelectProperties ch (ClearConfiguration tp s)).1 = Err TransportLimit.
Proof.
  intros Hm Ht [f Hf] Hpath Hp Hpf. pose proof (ClearConfiguration_ok tp s) as HC. cbv zeta in HC.
  rewrite Ht, Hp in HC. simpl in HC. rewrite bool_decide_true in HC by done.
  destruct HC as (Hp' & Ht' & _ & _ & _ & Hm').
  rewrite (decide_False (P := x = p)) in Hp' by congruence. rewrite decide_True in Ht' by done.
  split; [done|]. intros ch. unfold SelectProperties, check, ensure, mbind, method_bind, self.
  rewrite Hm', Hm. unfold admitted. by rewrite Hp', Ht'.
Qed.

(** An LTV structure: length octet, type, value. *)
Definition encode_ltv (entries : list (Z * list Z)) : list Z :=
  entries ≫= (fun e => zlen e.2 + 1 :: e.1 :: e.2).

(** The configuration scan steps over [ltv_len] octets instead of
    [ltv_len + 1]: on a well-formed configuration that puts the channel
    allocation second it finds none and assumes FL|FR. *)
Theorem ltv_scan_misses_allocation :
  exists entries, (0x03, [0x01; 0x00; 0x00; 0x00]) ∈ entries /\
    parse_channel_alloc (encode_ltv entries) = 0x03.
Proof.
  exists [(0x01, [0x08]); (0x03, [0x01; 0x00; 0x00; 0x00])].
  split; [apply list_elem_of_further, list_elem_of_here | reflexivity].
Qed.
End EndpointTheorems.

Module EndpointWitnesses.
Import Endpoint Acquire EndpointFacts AcquireFacts EndpointTheorems.

(** A mono session: selection, configuration, acquisition. *)
Definition fl_config : list Z := (select_config 0x01).1.
Definition demo_endpoint : t := mk false true None 0 [] false {[ 0%nat := [] ]} 1 [].
Definition demo_inputs : inputs :=
  mk_inputs 0 30000 [(10, [CbSelect 0x01; CbSet "/fd0" fl_config])] 20 2000 [(30, []); (2020, [])]
    2100 35000 [(2200, [Reply (ReplyOk 0 7 120)])].

Definition demo_outcome : option ((central_error + (nat * stream_mode * Z)) * t) :=
  acquire_transports demo_inputs demo_endpoint.

Lemma demo_acquired :
  exists s, demo_outcome = Some (inr (1%nat, MonoMode, 120), s) /\ mono s = true /\ transports s = 1%nat /\
    next_list s = 2%nat /\ closed s = [] /\
    the_transports s = [mk_transport "/fd0" (Some 7) (Some 120) 0x01] /\
    pending_transports s = [mk_transport "/fd0" None None 0x01].
Proof. eexists. split; [vm_compute; reflexivity|]. by vm_compute. Qed.

Lemma mono_admission_witness :
  init false true = Ok demo_endpoint /\
  (admitted (run_callbacks [CbSelect 0x01; CbSelect 0x02; CbSet "/fd0" fl_config; CbSet "/fd1" fl_config] demo_endpoint) <= 1)%nat.
Proof. split; [done|]. by apply (proj1 (mono_admission demo_endpoint eq_refl)). Defined.


Lemma descriptors_closed_once_witness :
  exists s, closed (release_transports 1 (run_callbacks [CbClear "/fd0"; CbSelect 0x01] s)) ≡ₚ [7].
Proof.
  destruct demo_acquired as (s & _ & _ & Ht & _ & Hc & Hl & Hp). exists s.
  etransitivity; [apply (descriptors_closed_once s 1); [done | rewrite Hp; by repeat constructor |]|].
  - intros H. repeat (apply elem_of_cons in H as [?|H]; [done|]). by apply elem_of_nil in H.
  - unfold the_transports in Hl. rewrite Ht in Hl. by rewrite Hc, Hl.
Defined.

Lemma released_descriptors_closed_twice_witness :
  exists s, closed (release_transports 1 (Release s)) = [7; 7].
Proof.
  destruct demo_acquired as (s & _ & _ & Ht & Hn & Hc & Hl & Hp). exists s.
  etransitivity; [apply (released_descriptors_closed_twice s 1); [done | lia | rewrite Hp; by repeat constructor]|].
  unfold the_transports in Hl. rewrite Ht in Hl. by rewrite Hc, Hl.
Defined.

Lemma capacity_not_restored_witness :
  exists s, demo_outcome = Some (inr (1%nat, MonoMode, 120), s) /\
    (SelectProperties 0x01 (ClearConfiguration "/fd0" s)).1 = Err TransportLimit.
Proof.
  destruct demo_acquired as (s & H & Hm & Ht & Hn & Hc & Hl & Hp). exists s. split; [done|].
  eapply capacity_not_restored; [done | exact Hl | by eexists | done | exact Hp | done].
Defined.
End EndpointWitnesses.
