(* ===== verification/BapStream.v ===== *)
(** * Streaming side of the BAP central

    [Policy] is scripts/bap_central_policy.py, [Writer] the paced writer
    thread of scripts/bap_central_writer.py, [Session] the stream session of
    scripts/bap_central_session.py and [Device] the device resolution of
    scripts/bap_central_device.py.  Clocks are integers in microseconds; the
    LC3 library is a parameter. *)

From S2P Require Import Prelude PyText HciPacket BapEndpoint.

(** ** Decisions of --preserve-bond *)

Module Policy.

Inductive strategy : Type := bluez_connect (detail : string) | strategy_fail (detail : string) | raw_hci.
Inductive pairing : Type := pair | skip (detail : string) | pair_fail (detail : string).
Inductive outcome : Type := outcome_error | outcome_ok | outcome_timeout.

Definition connection_strategy (preserve_bond already_paired : bool) : strategy :=
  if negb preserve_bond then raw_hci
  else if already_paired then bluez_connect "--preserve-bond: host bond present, using BlueZ Device1.Connect()"
  else strategy_fail "--preserve-bond: host bond missing (device not paired)".

Definition is_bluez (s : strategy) : bool := match s with bluez_connect _ => true | _ => false end.
Definition should_connect (already_connected : bool) (s : strategy) : bool := is_bluez s && negb already_connected.
Definition needs_fresh_reconnect (already_connected : bool) (s : strategy) : bool := is_bluez s && already_connected.

Definition connect_outcome {E} (reply_ok : bool) (error : option E) : outcome :=
  match error with Some _ => outcome_error | None => if reply_ok then outcome_ok else outcome_timeout end.

Definition pair_action (preserve_bond already_paired : bool) : pairing :=
  if negb preserve_bond then pair
  else if already_paired then skip "--preserve-bond: host bond exists, skipping Pair()"
  else pair_fail "--preserve-bond: host bond missing (device not paired)".

Definition require_secure_state (preserve_bond paired connected : bool) : bool * string :=
  if negb preserve_bond then (true, EmptyString)
  else if negb connected then (false, "--preserve-bond: device not connected"%string)
  else if negb paired then (false, "--preserve-bond: device not paired"%string)
  else (true, EmptyString).

End Policy.

(** ** The paced writer *)

Module Writer.

Definition FRAME_INTERVAL_US : Z := 10000.

(** What one iteration of [_run] reads: the stop flag, the encoder's answer
    ([None]: it raised), which descriptors accept a write, the clock at the
    deadline test, at the pacing computation and at its reset, and the answer
    of [Event.wait]. *)
Record iteration : Type := mk_iteration {
  stop_set : bool;
  frame : option (list (Z * list Z));
  write_ok : Z -> bool;
  t_deadline : Z; t_pace : Z; t_reset : Z;
  wait_stopped : bool;
}.

Record t : Type := mk { frames : Z; tail_frames : Z; error : bool; stopped_by_fd : bool; written : list (Z * list Z) }.
Definition init : t := mk 0 0 false false [].

(** The writes of a frame that reach their descriptor. *)
Definition write_frame (ok : Z -> bool) (fr : list (Z * list Z)) : list (Z * list Z) :=
  List.filter (fun x => ok x.1) fr.

Definition count_frame (on_time : bool) (out : list (Z * list Z)) (w : t) : t :=
  mk (if on_time then frames w + 1 else frames w) (if on_time then tail_frames w else tail_frames w + 1)
     (error w) (stopped_by_fd w) (written w ++ out).

(** Pacing: the next timestamp, and whether the writer waits for it. *)
Definition pace (interval next_ts : Z) (i : iteration) : Z * bool :=
  let next_ts := next_ts + interval in
  if 0 <? next_ts - t_pace i then (next_ts, true) else (t_reset i, false).

(** [_run] from the loop head; [None] while the thread runs. *)
Fixpoint run_loop (interval deadline next_ts : Z) (its : list iteration) (w : t) : option t :=
  match its with
  | [] => None
  | i :: its' =>
      if stop_set i then Some w
      else match frame i with
      | None => Some (mk (frames w) (tail_frames w) true (stopped_by_fd w) (written w))
      | Some fr =>
          match write_frame (write_ok i) fr with
          | [] => Some (mk (frames w) (tail_frames w) (error w) true (written w))
          | out =>
              let w := count_frame (t_deadline i <? deadline) out w in
              let '(next_ts, waits) := pace interval next_ts i in
              if waits && wait_stopped i then Some w else run_loop interval deadline next_ts its' w
          end
      end
  end.

Definition _run (start duration interval : Z) (its : list iteration) : option t :=
  run_loop interval (start + duration) start its init.

End Writer.

(** ** The stream session *)

Module Session.
Import Endpoint Acquire.

Definition DT_US : Z := 10000.
Definition SR_HZ : Z := 48000.
Definition FRAME_SAMPLES : nat := 480.

Section session.
(** liblc3: an encoder's state, its creation ([None]: [lc3_setup_encoder]
    returns null) and [lc3_encode], which gives a return code and fills a
    buffer of the frame size. *)
Context {encoder : Type}.
Variable lc3_setup_encoder : option encoder.
Variable lc3_encode : encoder -> list Z -> Z -> Z * list Z * encoder.

Inductive lc3_error : Type := SetupFailed | EncodeFailed (rc : Z) | NoTransport | NotStarted.

Definition LC3Encoder_init : result lc3_error encoder := result_of_option SetupFailed lc3_setup_encoder.

Definition LC3Encoder_encode (e : encoder) (pcm : list Z) : result lc3_error (list Z * encoder) :=
  let '(rc, out, e') := lc3_encode e pcm FRAME_BYTES in
  if rc =? 0 then Ok (out, e') else Err (EncodeFailed rc).

Record t : Type := mk {
  mode : stream_mode;
  enc : option encoder; enc_L : option encoder; enc_R : option encoder;
  pcm_L : list Z; pcm_R : list Z;
  snapshot : list transport;
}.

(** [list.sort(key=channel_alloc)] is stable. *)
Fixpoint insert_transport (x : transport) (l : list transport) : list transport :=
  match l with
  | [] => [x]
  | y :: l' => if channel_alloc x <? channel_alloc y then x :: l else y :: insert_transport x l'
  end.
Definition sort_transports (l : list transport) : list transport := fold_left (fun acc x => insert_transport x acc) l [].

(** [start] creates the encoders of the mode, sorts the caller's list in
    place for two transports and takes the snapshot; [sine] is [gen_sine]'s
    buffer.  It returns the session and the caller's list afterwards. *)
Definition start (m : stream_mode) (sine : list Z) (transports : list transport)
    : result lc3_error (t * list transport) :=
  match m with
  | StereoB =>
      l ← LC3Encoder_init; r ← LC3Encoder_init;
      Ok (mk m None (Some l) (Some r) sine sine transports, transports)
  | StereoA =>
      l ← LC3Encoder_init; r ← LC3Encoder_init;
      let sorted := sort_transports transports in
      Ok (mk m None (Some l) (Some r) sine sine sorted, sorted)
  | MonoMode =>
      e ← LC3Encoder_init;
      Ok (mk m (Some e) None None sine sine transports, transports)
  end.

Definition encode_with (e : option encoder) (pcm : list Z) : result lc3_error (list Z * encoder) :=
  e ← result_of_option NotStarted e; LC3Encoder_encode e pcm.

(** [self._transports_snapshot[i]["fd"]] *)
Definition fd_at (i : nat) (s : t) : result lc3_error Z :=
  x ← result_of_option NoTransport (snapshot s !! i); result_of_option NoTransport (fd x).

Definition encode_frame (s : t) : result lc3_error (list (Z * list Z) * t) :=
  match mode s with
  | StereoB =>
      '(l, el) ← encode_with (enc_L s) (pcm_L s);
      '(r, er) ← encode_with (enc_R s) (pcm_R s);
      f ← fd_at 0 s;
      Ok ([(f, l ++ r)], mk (mode s) (enc s) (Some el) (Some er) (pcm_L s) (pcm_R s) (snapshot s))
  | StereoA =>
      '(l, el) ← encode_with (enc_L s) (pcm_L s);
      '(r, er) ← encode_with (enc_R s) (pcm_R s);
      f0 ← fd_at 0 s;
      f1 ← fd_at 1 s;
      Ok ([(f0, l); (f1, r)], mk (mode s) (enc s) (Some el) (Some er) (pcm_L s) (pcm_R s) (snapshot s))
  | MonoMode =>
      '(o, e) ← encode_with (enc s) (pcm_L s);
      f ← fd_at 0 s;
      Ok ([(f, o)], mk (mode s) (Some e) (enc_L s) (enc_R s) (pcm_L s) (pcm_R s) (snapshot s))
  end.
End session.

(** [stop_writer]: [joined] answers the join of 5 s; the calls made on the
    writer are recorded. *)
Inductive writer_call : Type := Join (timeout_ms : Z) | StopWriter.
Record tail : Type := mk_tail { has_writer : bool; writer_stopped : bool; writer_error : bool; calls : list writer_call }.

Definition stop_writer (joined error : bool) (s : tail) : tail :=
  if negb (has_writer s) || writer_stopped s then s
  else if joined
  then mk_tail true true (writer_error s || error) (calls s ++ [Join 5000])
  else mk_tail true true (writer_error s) (calls s ++ [Join 5000; StopWriter; Join 1000]).

End Session.

(** ** Device resolution *)

Module Device.

(** A managed object: its path and, when it has the Device1 interface, the
    properties read from it. *)
Record device1 : Type := mk_device1 { Name : string; Connected : bool }.
Definition managed_object : Type := (string * option device1)%type.

Definition RECEIVER_NAME : string := "LE Audio Receiver".
Definition is_receiver (name : string) : bool := contains RECEIVER_NAME name.

Definition upper (c : ascii) : ascii := if between 97 122 c then chr (code c - 32) else c.

(** [str.upper] is modelled on ASCII, which is what an address is. *)
Definition peer_device_path (hci_path peer_addr : string) : string :=
  of_chars (chars hci_path ++ chars "/dev_" ++
            (upper <$> ((fun c => if decide (c = ":"%char) then "_"%char else c) <$> chars peer_addr))).

Fixpoint find_existing_receiver (hci_path : string) (managed : list managed_object) : option (string * bool) :=
  match managed with
  | [] => None
  | (path, None) :: rest => find_existing_receiver hci_path rest
  | (path, Some dev) :: rest =>
      if negb (startswith (hci_path ++ "/") path) then find_existing_receiver hci_path rest
      else if is_receiver (Name dev) then Some (path, Connected dev)
      else find_existing_receiver hci_path rest
  end.

Inductive central_error : Type := DiscoveryInterrupted | DiscoveryTimeout | StartDiscoveryFailed.
Inductive bus_call : Type := AddReceiver | StartDiscovery | StopDiscovery | RemoveReceiver.

Record session : Type := mk_session {
  target : option string; handler : bool; discovery_started : bool; is_closed : bool; bus : list bus_call;
}.
Definition new_session : session := mk_session None false false false [].

(** [_on_interfaces_added]: [found] and [target] are set together. *)
Definition on_interfaces_added (o : managed_object) (s : session) : session :=
  match target s, o.2 with
  | None, Some dev =>
      if is_receiver (Name dev)
      then mk_session (Some o.1) (handler s) (discovery_started s) (is_closed s) (bus s) else s
  | _, _ => s
  end.

Definition close (s : session) : session :=
  if is_closed s then s
  else mk_session (target s) false false true
         (bus s ++ (if discovery_started s then [StopDiscovery] else []) ++ (if handler s then [RemoveReceiver] else [])).

(** One iteration of the wait: the clock test, then the signals dispatched,
    or the interrupt. *)
Inductive wait_step : Type := Signals (now : Z) (objects : list managed_object) | Interrupt.

Fixpoint wait_target (deadline : Z) (ws : list wait_step) (s : session) : option (result central_error unit * session) :=
  match ws with
  | [] => None
  | Interrupt :: _ => Some (Err DiscoveryInterrupted, s)
  | Signals now objs :: ws' =>
      match target s with
      | Some _ => Some (Ok tt, s)
      | None =>
          if now <? deadline then wait_target deadline ws' (fold_left (fun s o => on_interfaces_added o s) objs s)
          else Some (Err DiscoveryTimeout, s)
      end
  end.

(** [run]: the [finally] closes on every exit. *)
Definition run (start_ok : bool) (t0 timeout : Z) (ws : list wait_step) (s : session)
    : option (result central_error string * session) :=
  let s := mk_session (target s) true (discovery_started s) (is_closed s) (bus s ++ [AddReceiver]) in
  if negb start_ok then Some (Err StartDiscoveryFailed, close s)
  else
    let s := mk_session (target s) true true (is_closed s) (bus s ++ [StartDiscovery]) in
    '(r, s) ← wait_target (t0 + timeout) ws s;
    Some (r ≫= (fun _ => result_of_option DiscoveryTimeout (target s)), close s).

Definition resolve_device (hci_path : string) (peer_addr : option string) (managed : list managed_object)
    (start_ok : bool) (t0 timeout : Z) (ws : list wait_step) : option (result central_error (string * bool) * list bus_call) :=
  match peer_addr with
  | Some a => Some (Ok (peer_device_path hci_path a, false), [])
  | None =>
      match find_existing_receiver hci_path managed with
      | Some r => Some (Ok r, [])
      | None =>
          '(r, s) ← run start_ok t0 timeout ws new_session;
          Some (r ≫= (fun p => Ok (p, false)), bus s)
      end
  end.

End Device.

(** ** Properties of the writer *)

Module WriterTheorems.
Import Writer.

(** What iteration [i] writes. *)
Definition out_of (i : iteration) : list (Z * list Z) :=
  match frame i with Some fr => write_frame (write_ok i) fr | None => [] end.

Lemma run_loop_cons interval deadline next_ts i its w :
  run_loop interval deadline next_ts (i :: its) w =
  if stop_set i then Some w
  else match frame i with
  | None => Some (mk (frames w) (tail_frames w) true (stopped_by_fd w) (written w))
  | Some _ =>
      if bool_decide (out_of i = []) then Some (mk (frames w) (tail_frames w) (error w) true (written w))
      else
        let w := count_frame (t_deadline i <? deadline) (out_of i) w in
        if (pace interval next_ts i).2 && wait_stopped i then Some w
        else run_loop interval deadline (pace interval next_ts i).1 its w
  end.
Proof.
  simpl. unfold out_of. destruct (stop_set i); [done|]. destruct (frame i) as [fr|]; [|done].
  destruct (write_frame _ fr); [done|]. rewrite bool_decide_false by done. by destruct (pace _ _ _).
Qed.

(** The iterations [pre] take the counters and the output from [w0] to [w]. *)
Definition accounted (deadline : Z) (pre : list iteration) (w0 w : t) : Prop :=
  Forall (fun i => out_of i <> []) pre /\
  written w = written w0 ++ (pre ≫= out_of) /\
  frames w = frames w0 + Z.of_nat (count (fun i => t_deadline i <? deadline) pre) /\
  tail_frames w = tail_frames w0 + Z.of_nat (count (fun i => negb (t_deadline i <? deadline)) pre).

Lemma accounted_nil d w0 w :
  written w = written w0 -> frames w = frames w0 -> tail_frames w = tail_frames w0 -> accounted d [] w0 w.
Proof. intros H1 H2 H3. split_and!; [done | simpl; by rewrite app_nil_r | unfold count; simpl; lia..]. Qed.

Lemma accounted_cons d i pre w0 w :
  out_of i <> [] -> accounted d pre (count_frame (t_deadline i <? d) (out_of i) w0) w -> accounted d (i :: pre) w0 w.
Proof.
  intros Ho (H1 & H2 & H3 & H4). split_and!; [by constructor | by rewrite bind_cons, H2; simpl; rewrite app_assoc | |];
    rewrite ?H3, ?H4; unfold count, count_frame; simpl; destruct (_ <? _); simpl; lia.
Qed.

Lemma run_loop_accounted interval deadline next_ts its w0 w :
  run_loop interval deadline next_ts its w0 = Some w -> exists n, accounted deadline (take n its) w0 w.
Proof.
  revert next_ts w0. induction its as [|i its IH]; intros ts w0; [done|]. rewrite run_loop_cons.
  assert (forall w1, frames w1 = frames w0 -> tail_frames w1 = tail_frames w0 -> written w1 = written w0 ->
    Some w1 = Some w -> exists n, accounted deadline (take n (i :: its)) w0 w) as H0
    by (intros w1 H1 H2 H3 [= <-]; exists 0%nat; by apply accounted_nil).
  destruct (stop_set i); [by apply H0|]. destruct (frame i); [|by apply H0].
  case_bool_decide as Ho; [by apply H0|]. clear H0. cbv zeta. destruct (_ && _).
  - intros [= <-]. exists 1%nat. simpl. rewrite take_0. apply accounted_cons; [done|]. by apply accounted_nil.
  - intros [n H]%IH. exists (S n). simpl. by apply accounted_cons.
Qed.

(** The pacing of a run: the reading at the deadline test is not before the
    timestamp the writer waited for ([Event.wait] does not return early), and
    the clock does not go back. *)
Fixpoint paced (interval next_ts : Z) (its : list iteration) : Prop :=
  match its with
  | [] => True
  | i :: its' =>
      next_ts <= t_deadline i /\ t_pace i <= t_reset i /\ paced interval (pace interval next_ts i).1 its'
  end.

Lemma pace_advances interval ts i : t_pace i <= t_reset i -> ts + interval <= (pace interval ts i).1.
Proof. unfold pace. intros H. destruct (Z.ltb_spec 0 (ts + interval - t_pace i)); simpl; lia. Qed.

Lemma frames_bound interval deadline ts its w0 w :
  0 < interval -> paced interval ts its -> run_loop interval deadline ts its w0 = Some w ->
  (frames w - frames w0) * interval <= Z.max 0 (deadline - ts + interval - 1).
Proof.
  intros Hi. revert ts w0. induction its as [|i its IH]; intros ts w0; [done|]. rewrite run_loop_cons.
  intros (Ht & Hc & Hp).
  destruct (stop_set i); [intros [= <-]; lia|]. destruct (frame i); [|intros [= <-]; simpl; lia].
  case_bool_decide as Ho; [intros [= <-]; simpl; lia|].
  pose proof (pace_advances interval ts i Hc) as Ha. cbv zeta.
  set (w1 := count_frame _ _ w0).
  assert (frames w1 = frames w0 + if t_deadline i <? deadline then 1 else 0) as Hw
    by (subst w1; simpl; destruct (_ <? _); lia).
  destruct (Z.ltb_spec (t_deadline i) deadline) as [Hd|Hd]; destruct (_ && _).
  - intros [= <-]. rewrite Hw. lia.
  - intros H%IH; [|done]. nia.
  - intros [= <-]. rewrite Hw. lia.
  - intros H%IH; [|done]. nia.
Qed.

(** The accounting of a finished run: exactly the iterations before the
    exit wrote, their writes reached the descriptors in order, and each is
    counted once, as a frame before the requested duration and as a tail
    frame after it.  At the pacing of [Event.wait] the frames never exceed
    the duration divided by the interval, rounded up. *)
Theorem writer_accounting start duration interval its w :
  _run start duration interval its = Some w ->
  (exists n, let pre := take n its in
    Forall (fun i => out_of i <> []) pre /\ written w = pre ≫= out_of /\
    frames w = Z.of_nat (count (fun i => t_deadline i <? start + duration) pre) /\
    tail_frames w = Z.of_nat (count (fun i => negb (t_deadline i <? start + duration)) pre)) /\
  (0 < interval -> 0 <= duration -> paced interval start its ->
    frames w <= (duration + interval - 1) / interval).
Proof.
  intros H. split.
  - pose proof H as [n (H1 & H2 & H3 & H4)]%run_loop_accounted. by exists n.
  - intros Hi Hd Hp. pose proof (frames_bound _ _ _ _ _ _ Hi Hp H) as Hb. simpl in Hb.
    apply Z.div_le_lower_bound; lia.
Qed.


End WriterTheorems.

(** ** Properties of the session *)

Module SessionTheorems.
Import Endpoint Acquire Session.

Section session.
Context {encoder : Type}.
Variable lc3_setup_encoder : option encoder.
Variable lc3_encode : encoder -> list Z -> Z -> Z * list Z * encoder.
(** [lc3_encode] fills the buffer it is given, of [FRAME_BYTES] octets. *)
Hypothesis lc3_fills_buffer : forall e pcm, zlen (lc3_encode e pcm FRAME_BYTES).1.2 = FRAME_BYTES.

Abbreviation encode_frame := (encode_frame lc3_encode).
Abbreviation start := (start lc3_setup_encoder).

Lemma encode_with_length e pcm out e' :
  encode_with lc3_encode e pcm = Ok (out, e') -> zlen out = FRAME_BYTES.
Proof.
  unfold encode_with, LC3Encoder_encode. intros H. result_inv H. pose proof (lc3_fills_buffer a pcm) as Hl.
  destruct (lc3_encode a pcm FRAME_BYTES) as [[rc o] e1]. destruct (rc =? 0); [|done]. by injection H as <- <-.
Qed.

(** The shape of a frame. *)
Lemma encode_frame_shape s fr s' :
  encode_frame s = Ok (fr, s') ->
  mode s' = mode s /\ snapshot s' = snapshot s /\
  Forall (fun x => zlen x.2 = match mode s with StereoB => FRAME_BYTES * 2 | _ => FRAME_BYTES end) fr /\
  result_mapM (fun i => fd_at i s) (match mode s with StereoA => [0; 1]%nat | _ => [0]%nat end) = Ok (fst <$> fr).
Proof.
  unfold Session.encode_frame. intros H. destruct (mode s) eqn:Hm.
  - apply bind_Ok in H as ([l el] & H1 & H). apply bind_Ok in H as ([r er] & H2 & H).
    apply bind_Ok in H as (f & H3 & [= <- <-]). apply encode_with_length in H1, H2.
    split_and!; [done..| |]; simpl; [|by rewrite H3].
    repeat constructor. simpl. rewrite zlen_app. lia.
  - apply bind_Ok in H as ([l el] & H1 & H). apply bind_Ok in H as ([r er] & H2 & H).
    apply bind_Ok in H as (f & H3 & H). apply bind_Ok in H as (f1 & H4 & [= <- <-]). apply encode_with_length in H1, H2.
    split_and!; [done..| |]; simpl; [by repeat constructor|]. by rewrite H3; simpl; rewrite H4.
  - apply bind_Ok in H as ([l el] & H1 & H).
    apply bind_Ok in H as (f & H3 & [= <- <-]). apply encode_with_length in H1.
    split_and!; [done..| |]; simpl; [by repeat constructor|]. by rewrite H3.
Qed.

Definition step (s s' : Session.t) : Prop := exists fr, encode_frame s = Ok (fr, s').

Lemma steps_keep s s' : rtc step s s' -> mode s' = mode s /\ snapshot s' = snapshot s.
Proof.
  induction 1 as [|s1 s2 s3 [fr H] _ [IH1 IH2]]; [done|].
  apply encode_frame_shape in H as (H1 & H2 & _). by rewrite IH1, IH2.
Qed.

Lemma start_spec m sine ts s ts' :
  start m sine ts = Ok (s, ts') -> mode s = m /\ snapshot s = ts' /\
  ts' = (match m with StereoA => sort_transports ts | _ => ts end).
Proof.
  unfold Session.start. destruct m; intros H; repeat (apply bind_Ok in H as (? & _ & H)); by injection H as <- <-.
Qed.

(** The payloads fit the mode an acquisition inferred: in every frame of a
    session started on the acquired transports each payload has the SDU size
    of the mode, there is exactly one per transport, on that transport's
    descriptor, and with two transports FL precedes FR. *)
Theorem frames_match_mode ts m size sine s0 ts' s fr s' :
  (length ts = 1 \/ length ts = 2)%nat -> infer_mode ts = (m, size) ->
  start m sine ts = Ok (s0, ts') -> rtc step s0 s -> encode_frame s = Ok (fr, s') ->
  Forall (fun x => zlen x.2 = size) fr /\ (Some <$> (fst <$> fr)) = (fd <$> ts') /\ ts' ≡ₚ ts /\
  (forall x y, ts' = [x; y] -> channel_alloc x <= channel_alloc y).
Proof.
  intros Hlen Hm Hst Hr He. apply start_spec in Hst as (H1 & H2 & H3). apply steps_keep in Hr as [H4 H5].
  apply encode_frame_shape in He as (_ & _ & Hf & Hfd). rewrite H4, H1 in *. unfold fd_at in Hfd. rewrite H5, H2 in Hfd. clear H2 H5.
  destruct ts as [|x [|y [|z ts]]]; simpl in Hlen; try lia.
  - simpl in Hm. destruct (channel_alloc x =? 3); injection Hm as <- <-; subst ts'; simpl in Hfd;
      (destruct (fd x) as [f|] eqn:Hx; [|done]); (assert (fst <$> fr = [f]) as Hfs by (by injection Hfd));
      (split_and!; [done | rewrite Hfs; simpl; by rewrite Hx | done | by intros ? ? [=]]).
  - simpl in Hm. injection Hm as <- <-. subst ts'. unfold sort_transports in *. simpl in *.
    assert (exists u v, (if channel_alloc y <? channel_alloc x then [y; x] else [x; y]) = [u; v] /\ [u; v] ≡ₚ [x; y] /\
      channel_alloc u <= channel_alloc v) as (u & v & Huv & Hp & Hc).
    { destruct (Z.ltb_spec (channel_alloc y) (channel_alloc x)); [exists y, x | exists x, y];
        (split_and!; [done | | lia]); [apply perm_swap | done]. }
    rewrite Huv in *. simpl in Hfd. destruct (fd u) as [f|] eqn:Hu; [|done]. destruct (fd v) as [g|] eqn:Hv; [|done].
    assert (fst <$> fr = [f; g]) as Hfs by (by injection Hfd).
    split_and!; [done | rewrite Hfs; simpl; by rewrite Hu, Hv | done |]. by intros ? ? [= <- <-].
Qed.
End session.

(** A second [stop_writer] does nothing, and the first one always joins. *)
Lemma stop_writer_idempotent j e j' e' s : stop_writer j' e' (stop_writer j e s) = stop_writer j e s.
Proof. unfold stop_writer at 2 3. destruct s as [[] [] err cs], j; done. Qed.
End SessionTheorems.

(** ** Properties of the discovery *)

Module DeviceTheorems.
Import Device.

Lemma on_interfaces_added_keeps o s :
  let s' := on_interfaces_added o s in
  handler s' = handler s /\ discovery_started s' = discovery_started s /\ is_closed s' = is_closed s /\ bus s' = bus s.
Proof. unfold on_interfaces_added. destruct (target s), o.2; try done. by destruct (is_receiver _). Qed.

(** The target is a receiver that was announced. *)
Definition target_from (objs : list managed_object) (s : session) : Prop :=
  forall p, target s = Some p -> exists d, (p, Some d) ∈ objs /\ is_receiver (Name d) = true.

Lemma signals_spec objs s seen :
  target_from seen s ->
  let s' := fold_left (fun s o => on_interfaces_added o s) objs s in
  handler s' = handler s /\ discovery_started s' = discovery_started s /\ is_closed s' = is_closed s /\ bus s' = bus s /\
  target_from (seen ++ objs) s'.
Proof.
  revert s seen. induction objs as [|o objs IH]; intros s seen Ht; simpl.
  - split_and!; try done. by rewrite app_nil_r.
  - destruct (on_interfaces_added_keeps o s) as (<- & <- & <- & <-).
    replace (seen ++ o :: objs) with ((seen ++ [o]) ++ objs) by (by rewrite <- app_assoc).
    apply IH. unfold on_interfaces_added. destruct o as [p [d|]]; simpl;
      (destruct (target s) as [q|] eqn:Hq; [intros r Hr; destruct (Ht r) as (d' & Hd & ?);
        [congruence | exists d'; split; [apply elem_of_app; by left | done]]|]); [|by intros r; rewrite Hq].
    destruct (is_receiver (Name d)) eqn:Hn; [|by intros r; rewrite Hq].
    intros r [= <-]. exists d. split; [|done]. apply elem_of_app. right. apply list_elem_of_here.
Qed.

Definition announced (ws : list wait_step) : list managed_object :=
  ws ≫= (fun w => match w with Signals _ objs => objs | Interrupt => [] end).

Lemma wait_target_spec d ws s seen r s' :
  target_from seen s -> wait_target d ws s = Some (r, s') ->
  handler s' = handler s /\ discovery_started s' = discovery_started s /\ is_closed s' = is_closed s /\ bus s' = bus s /\
  target_from (seen ++ announced ws) s' /\ (r = Ok tt -> is_Some (target s')).
Proof.
  assert (forall ws s, target_from seen s -> target_from (seen ++ announced ws) s) as Hmono.
  { intros ws' s1 Ht p (d' & Hd & ?)%Ht. exists d'. split; [apply elem_of_app; by left | done]. }
  revert s seen Hmono. induction ws as [|w ws IH]; intros s seen Hmono Ht; [done|]. destruct w as [now objs|]; simpl.
  - destruct (target s) as [p|] eqn:Hp; [intros [= <- <-]; split_and!; try done; by apply (Hmono (Signals now objs :: ws))|].
    destruct (now <? d); [|intros [= <- <-]; split_and!; try done; by apply (Hmono (Signals now objs :: ws))].
    destruct (signals_spec objs s seen Ht) as (H1 & H2 & H3 & H4 & H5). cbv zeta in *. intros H.
    apply (IH _ (seen ++ objs)) in H; [|intros ws' s1 Hs1 p (d' & Hd & ?)%Hs1; exists d'; split; [apply elem_of_app; by left | done] | done].
    rewrite H1, H2, H3, H4, <- app_assoc in H. done.
  - intros [= <- <-]. split_and!; try done. by apply (Hmono (Interrupt :: ws)).
Qed.

(** A discovery session is balanced on every exit (found, timeout,
    interrupt, failed start): StopDiscovery is called exactly when
    StartDiscovery succeeded, the signal receiver is removed once, a second
    close does nothing, and a returned path was announced with the receiver's
    name. *)
Theorem discovery_balanced start_ok t0 timeout ws r s' :
  run start_ok t0 timeout ws new_session = Some (r, s') ->
  bus s' = (if start_ok then [AddReceiver; StartDiscovery; StopDiscovery; RemoveReceiver]
            else [AddReceiver; RemoveReceiver]) /\
  close s' = s' /\
  (forall p, r = Ok p -> exists d, (p, Some d) ∈ announced ws /\ is_receiver (Name d) = true).
Proof.
  unfold run. destruct start_ok; simpl; [|by intros [= <- <-]].
  intros ([r0 s1] & Hw & [= <- <-])%bind_Some.
  apply (wait_target_spec _ _ _ []) in Hw as (H1 & H2 & H3 & H4 & H5 & H6); [|done].
  unfold close. rewrite H3, H2, H1, H4. simpl. split_and!; [done | by rewrite ?H3 |].
  intros p Hp. apply bind_Ok in Hp as ([] & -> & Hp). apply result_of_option_Ok in Hp. by apply H5.
Qed.
End DeviceTheorems.

Module StreamWitnesses.
Import Endpoint Acquire.

(** Two frames in time, one after the deadline, then every write fails. *)
Definition demo_iteration (k : Z) (ok : bool) : Writer.iteration :=
  Writer.mk_iteration false (Some [(7, [1; 2]); (8, [3])]) (fun f => ok && (f =? 7)) (k * 10000) (k * 10000 + 500)
    (k * 10000 + 600) false.
Definition demo_its : list Writer.iteration :=
  [demo_iteration 0 true; demo_iteration 1 true; demo_iteration 2 true; demo_iteration 3 false].

Lemma writer_accounting_witness :
  exists w, Writer._run 0 20000 10000 demo_its = Some w /\ Writer.frames w <= 2 /\ Writer.frames w = 2 /\ Writer.tail_frames w = 1.
Proof.
  assert (exists w, Writer._run 0 20000 10000 demo_its = Some w /\ Writer.frames w = 2 /\ Writer.tail_frames w = 1)
    as (w & Hw & H2 & H3) by (eexists; split; [vm_compute; reflexivity | by vm_compute]).
  exists w. split_and!; try done.
  apply (proj2 (WriterTheorems.writer_accounting _ _ _ _ _ Hw)); [lia | lia |].
  vm_compute. repeat split; discriminate.
Defined.


(** An encoder that counts its frames. *)
Definition demo_encode (e : Z) (pcm : list Z) (n : Z) : Z * list Z * Z := (0, repeat e (Z.to_nat n), e + 1).
Definition demo_right : transport := mk_transport "/fd1" (Some 9) (Some 120) 0x02.
Definition demo_left : transport := mk_transport "/fd0" (Some 8) (Some 120) 0x01.

Lemma frames_match_mode_witness :
  exists s fr s', Session.start (Some 5) StereoA [0] [demo_right; demo_left] = Ok (s, [demo_left; demo_right]) /\
    Session.encode_frame demo_encode s = Ok (fr, s') /\
    Forall (fun x => zlen x.2 = FRAME_BYTES) fr /\ (Some <$> (fst <$> fr)) = [Some 8; Some 9].
Proof.
  assert (exists s fr s', Session.start (Some 5) StereoA [0] [demo_right; demo_left] = Ok (s, [demo_left; demo_right]) /\
    Session.encode_frame demo_encode s = Ok (fr, s')) as (s & fr & s' & H1 & H2)
    by (do 3 eexists; split; [vm_compute; reflexivity | vm_compute; reflexivity]).
  destruct (SessionTheorems.frames_match_mode (Some 5) demo_encode (fun _ _ => eq_refl) [demo_right; demo_left]
    StereoA FRAME_BYTES [0] s [demo_left; demo_right] s fr s') as (H3 & H4 & _); [by right | done | done | apply rtc_refl | done |].
  by exists s, fr, s'.
Defined.

Lemma discovery_balanced_witness :
  let ws := [Device.Signals 10 [("/org/bluez/hci0/dev_1"%string, Some (Device.mk_device1 "LE Audio Receiver 2" false))];
             Device.Signals 20 []] in
  exists s, Device.run true 0 100 ws Device.new_session = Some (Ok "/org/bluez/hci0/dev_1"%string, s) /\
    Device.bus s = [Device.AddReceiver; Device.StartDiscovery; Device.StopDiscovery; Device.RemoveReceiver].
Proof.
  intros ws.
  assert (exists s, Device.run true 0 100 ws Device.new_session = Some (Ok "/org/bluez/hci0/dev_1"%string, s)) as [s Hs]
    by (eexists; vm_compute; reflexivity).
  exists s. split; [done|]. by destruct (DeviceTheorems.discovery_balanced _ _ _ _ _ _ Hs).
Defined.
End StreamWitnesses.
